(** * AgentOS dev server: a shallow embedding of the orchestrator core

    The development follows [dev-server.js] (the stand-alone AgentOS
    server): the reinforcement-learning engine, the structured-output
    parser, the workspace executor, the agent picker, task execution,
    dispatch, the client command surface and the REST entry point.

    Conventions of the embedding.
    - JavaScript strings are modelled as sequences of 8-bit characters
      ([string] in records, [list ascii] inside the text algorithms).
    - [Date.now()] is an input of every event; all reads of the clock
      inside one event see the same value.
    - [Math.random()] is read from a stream of rationals kept in the state.
    - JavaScript numbers are modelled exactly: integers as [Z], the
      quotients that appear in scores as rationals ([Q]).
    - [path.join] follows Node's POSIX implementation.
    - Objects that are shared by reference (agents, tasks) live in a store
      and are referred to by their index.
    - An execution is split where it awaits [callModel]: what runs before
      belongs to the dispatch that launched it, what runs after is one
      event of its own; the awaits on the file system and on the shell do
      not yield to other events.
    - The file system and the shell are logs of the writes and of the
      commands; a write always succeeds.
    - The task history, the agent statistics, the markdown audit trail,
      the text of activity messages and the broadcasts play no part in the
      properties below and are left out. *)

From Stdlib Require Import ZArith QArith List Bool Ascii String Lia Arith.
From Stdlib Require Import DecimalString DecimalNat Permutation Sorted.
Import ListNotations.

Local Open Scope string_scope.
Local Open Scope list_scope.
Local Open Scope Z_scope.

(** ** Text primitives *)

Module Text.

Definition chars (s : string) : list ascii := list_ascii_of_string s.
Definition str (l : list ascii) : string := string_of_list_ascii l.

Definition code (c : ascii) : nat := nat_of_ascii c.

(** [\s] of ECMAScript restricted to 8-bit characters: TAB, LF, VT, FF, CR,
    SPACE and NBSP. [String.prototype.trim] strips the same set. *)
Definition is_space (c : ascii) : bool :=
  let n := code c in
  ((9 <=? n) && (n <=? 13) || (n =? 32) || (n =? 160))%nat.

(** [.] without the [s] flag: everything but the line terminators. *)
Definition is_dot (c : ascii) : bool :=
  let n := code c in negb ((n =? 10) || (n =? 13))%nat.

(** [[\s\S]]: every character. *)
Definition is_any (_ : ascii) : bool := true.

(** [\w]: ASCII letters, digits and underscore. *)
Definition is_word (c : ascii) : bool :=
  let n := code c in
  ((48 <=? n) && (n <=? 57) || (65 <=? n) && (n <=? 90)
   || (97 <=? n) && (n <=? 122) || (n =? 95))%nat.

Definition newline : ascii := ascii_of_nat 10.

Definition is_newline (c : ascii) : bool := (code c =? 10)%nat.

Definition lower_char (c : ascii) : ascii :=
  let n := code c in
  if ((65 <=? n) && (n <=? 90))%nat then ascii_of_nat (n + 32) else c.

Definition toLowerCase (s : string) : string := str (map lower_char (chars s)).

Fixpoint starts_with (p s : list ascii) : bool :=
  match p, s with
  | [], _ => true
  | a :: p', b :: s' => Ascii.eqb a b && starts_with p' s'
  | _ :: _, [] => false
  end.

(** [s.includes(p)] *)
Fixpoint includes_chars (s p : list ascii) : bool :=
  starts_with p s ||
  match s with
  | [] => false
  | _ :: s' => includes_chars s' p
  end.

Definition includes (s p : string) : bool := includes_chars (chars s) (chars p).

(** [s.startsWith(p)] *)
Definition startsWith (s p : string) : bool := starts_with (chars p) (chars s).

Fixpoint trim_start (s : list ascii) : list ascii :=
  match s with
  | c :: s' => if is_space c then trim_start s' else s
  | [] => []
  end.

Definition trim_end (s : list ascii) : list ascii := rev (trim_start (rev s)).

Definition trim_chars (s : list ascii) : list ascii := trim_end (trim_start s).

Definition trim (s : string) : string := str (trim_chars (chars s)).
Definition trimEnd (s : string) : string := str (trim_end (chars s)).

(** [s.replace(/\n{3,}/g, '\n\n')]: every maximal run of three or more
    newlines becomes exactly two. [held] counts the newlines of the current
    run that were already read. *)
Fixpoint collapse_from (held : nat) (s : list ascii) : list ascii :=
  match s with
  | [] => repeat newline (Nat.min held 2)
  | c :: s' =>
      if is_newline c then collapse_from (S held) s'
      else repeat newline (Nat.min held 2) ++ c :: collapse_from 0 s'
  end.

Definition collapse_blank (s : list ascii) : list ascii := collapse_from 0 s.

End Text.

(** ** A backtracking matcher for the regular expressions of the source *)

Module Regex.
Import Text.

Inductive regex : Type :=
| Lit (s : string)                 (* literal text *)
| Cls (p : ascii -> bool)          (* one character of a class *)
| Cat (a b : regex)                (* a b *)
| Alt (a b : regex)                (* a|b *)
| Star (greedy : bool) (a : regex) (* a* and a*? *)
| Grp (a : regex)                  (* ( a ) *)
| WordEnd.                         (* \b written right after a word character *)

Definition Plus (a : regex) : regex := Cat a (Star true a).
Definition Opt (a : regex) : regex := Alt a (Lit "").

Fixpoint alts (l : list regex) : regex :=
  match l with
  | [] => Cls (fun _ => false)
  | [a] => a
  | a :: l' => Alt a (alts l')
  end.

Fixpoint strip (p s : list ascii) : option (list ascii) :=
  match p, s with
  | [], _ => Some s
  | a :: p', b :: s' => if Ascii.eqb a b then strip p' s' else None
  | _ :: _, [] => None
  end.

Definition captures := list (list ascii).

Section Matcher.
Context {R : Type}.

(** [run r s caps k]: match [r] at the front of [s]; on success hand the
    rest of the input and the captures to the continuation [k]. The first
    alternative that lets [k] succeed wins, as in a backtracking engine. *)
Fixpoint run (r : regex) (s : list ascii) (caps : captures)
             (k : list ascii -> captures -> option R) {struct r} : option R :=
  match r with
  | Lit p =>
      match strip (chars p) s with
      | Some s' => k s' caps
      | None => None
      end
  | Cls p =>
      match s with
      | c :: s' => if p c then k s' caps else None
      | [] => None
      end
  | Cat a b => run a s caps (fun s' caps' => run b s' caps' k)
  | Alt a b =>
      match run a s caps k with
      | Some res => Some res
      | None => run b s caps k
      end
  | Star greedy a =>
      (fix iter (fuel : nat) (s : list ascii) (caps : captures) {struct fuel}
         : option R :=
         match fuel with
         | O => k s caps
         | S fuel' =>
             let again s' caps' :=
               if (List.length s' <? List.length s)%nat
               then iter fuel' s' caps' else None in
             if greedy then
               match run a s caps again with
               | Some res => Some res
               | None => k s caps
               end
             else
               match k s caps with
               | Some res => Some res
               | None => run a s caps again
               end
         end) (List.length s) s caps
  | Grp a =>
      run a s caps
        (fun s' caps' =>
           k s' (caps' ++ [firstn (List.length s - List.length s') s]))
  | WordEnd =>
      match s with
      | c :: _ => if is_word c then None else k s caps
      | [] => k s caps
      end
  end.

End Matcher.

(** A match anchored at the front of [s]: the remaining input and the
    captured groups. *)
Definition match_here (r : regex) (s : list ascii)
  : option (list ascii * captures) :=
  run r s [] (fun s' caps => Some (s', caps)).

(** [regex.test(s)] *)
Fixpoint test_chars (r : regex) (s : list ascii) : bool :=
  match match_here r s with
  | Some _ => true
  | None =>
      match s with
      | [] => false
      | _ :: s' => test_chars r s'
      end
  end.

Definition test (r : regex) (s : string) : bool := test_chars r (chars s).

(** One piece of a scanned text: the characters skipped before a match
    (the gap), the matched text and its captures. *)
Record hit : Type := mkHit {
  gap : list ascii;
  matched : list ascii;
  groups : captures
}.

(** Leftmost match at or after the front of [s]. *)
Fixpoint find (r : regex) (s : list ascii) (skipped : list ascii)
  : option (hit * list ascii) :=
  match match_here r s with
  | Some (rest, caps) =>
      Some (mkHit (rev skipped)
                  (firstn (List.length s - List.length rest) s) caps, rest)
  | None =>
      match s with
      | [] => None
      | c :: s' => find r s' (c :: skipped)
      end
  end.

(** All successive matches of a global regex ([exec] in a loop, and the
    matches [replace] works on), with the unmatched tail. The search resumes
    where the previous match ended ([lastIndex]). The global patterns of the
    source all begin with a literal marker and never match the empty text;
    the scan stops if a match is empty. *)
Fixpoint scan (fuel : nat) (r : regex) (s : list ascii)
  : list hit * list ascii :=
  match fuel with
  | O => ([], s)
  | S fuel' =>
      match find r s [] with
      | None => ([], s)
      | Some (h, rest) =>
          match matched h with
          | [] => ([], s)
          | _ :: _ =>
              let '(hs, tail) := scan fuel' r rest in (h :: hs, tail)
          end
      end
  end.

Definition matchAll (r : regex) (s : list ascii) : list hit * list ascii :=
  scan (S (List.length s)) r s.

(** [s.replace(r, '')] for a global [r]: the gaps and the tail. *)
Definition remove_all (r : regex) (s : list ascii) : list ascii :=
  let '(hs, tail) := matchAll r s in
  List.concat (map gap hs) ++ tail.

End Regex.

(** ** [path.join] (Node, POSIX flavour) *)

Module Path.
Import Text.

Definition slash : ascii := "/"%char.

(** [s.split('/')] *)
Fixpoint segments (s : list ascii) (cur : list ascii) : list (list ascii) :=
  match s with
  | [] => [rev cur]
  | c :: s' =>
      if Ascii.eqb c slash then rev cur :: segments s' []
      else segments s' (c :: cur)
  end.

Definition seg_eqb (a : list ascii) (b : string) : bool :=
  String.eqb (str a) b.

(** Node's [normalizeString]: drops empty and [.] segments, lets [..]
    remove the segment before it; above the start, [..] is kept only for
    relative paths ([allowAboveRoot]). The stack is kept reversed. *)
Fixpoint resolve (allowAboveRoot : bool) (segs stack : list (list ascii))
  : list (list ascii) :=
  match segs with
  | [] => rev stack
  | seg :: rest =>
      if seg_eqb seg "" || seg_eqb seg "." then
        resolve allowAboveRoot rest stack
      else if seg_eqb seg ".." then
        match stack with
        | top :: stack' =>
            if seg_eqb top ".." then
              resolve allowAboveRoot rest
                      (if allowAboveRoot then seg :: stack else stack)
            else resolve allowAboveRoot rest stack'
        | [] =>
            resolve allowAboveRoot rest
                    (if allowAboveRoot then [seg] else [])
        end
      else resolve allowAboveRoot rest (seg :: stack)
  end.

Fixpoint join_segments (segs : list (list ascii)) : list ascii :=
  match segs with
  | [] => []
  | [a] => a
  | a :: rest => a ++ slash :: join_segments rest
  end.

(** [path.posix.normalize] *)
Definition normalize_chars (p : list ascii) : list ascii :=
  match p with
  | [] => chars "."
  | c :: _ =>
      let isAbsolute := Ascii.eqb c slash in
      let trailingSeparator := Ascii.eqb (last p c) slash in
      let body :=
        join_segments (resolve (negb isAbsolute) (segments p []) []) in
      match body with
      | [] =>
          if isAbsolute then [slash]
          else if trailingSeparator then chars "./" else chars "."
      | _ :: _ =>
          let body' := if trailingSeparator then body ++ [slash] else body in
          if isAbsolute then slash :: body' else body'
      end
  end.

Definition normalize (p : string) : string := str (normalize_chars (chars p)).

(** [path.posix.join(...args)]: the non-empty arguments separated by [/],
    then normalized. *)
Fixpoint glue (args : list string) (joined : option string) : option string :=
  match args with
  | [] => joined
  | a :: rest =>
      if String.eqb a "" then glue rest joined
      else glue rest (match joined with
                      | None => Some a
                      | Some j => Some (j ++ "/" ++ a)%string
                      end)
  end.

Definition join (args : list string) : string :=
  match glue args None with
  | None => "."
  | Some j => normalize j
  end.

End Path.

(** ** Parsing the model response *)

Record FileIntent : Type := mkFile { path : string; content : string }.
Record Subtask : Type :=
  mkSubtask { sub_title : string; sub_agent : string; sub_description : string }.
Record ExecBlock : Type := mkExec { cwd : string; cmd : string }.

Module Parser.
Import Text Regex.

Definition nl : string := String newline "".

Fixpoint cat (l : list regex) : regex :=
  match l with
  | [] => Lit ""
  | [a] => a
  | a :: l' => Cat a (cat l')
  end.

Definition ws : regex := Star true (Cls is_space).       (* \s*        *)
Definition line : regex := Grp (Plus (Cls is_dot)).      (* (.+)       *)
Definition body : regex := Grp (Star false (Cls is_any)). (* ([\s\S]*?) *)

(** [/===FILE===\s*\npath:\s*(.+)\n===CONTENT===\n([\s\S]*?)===END_FILE===/g] *)
Definition fileRegex : regex :=
  cat [Lit "===FILE==="; ws; Lit nl; Lit "path:"; ws; line; Lit nl;
       Lit "===CONTENT==="; Lit nl; body; Lit "===END_FILE==="].

(** [/===SUBTASK===\s*\ntitle:\s*(.+)\nagent:\s*(.+)\ndescription:\s*([\s\S]*?)===END_SUBTASK===/g] *)
Definition subtaskRegex : regex :=
  cat [Lit "===SUBTASK==="; ws; Lit nl; Lit "title:"; ws; line; Lit nl;
       Lit "agent:"; ws; line; Lit nl; Lit "description:"; ws; body;
       Lit "===END_SUBTASK==="].

(** [/===EXEC===\s*\ncwd:\s*(.+)\ncmd:\s*(.+)\n===END_EXEC===/g] *)
Definition execRegex : regex :=
  cat [Lit "===EXEC==="; ws; Lit nl; Lit "cwd:"; ws; line; Lit nl;
       Lit "cmd:"; ws; line; Lit nl; Lit "===END_EXEC==="].

Definition group (n : nat) (h : hit) : list ascii := nth n (groups h) [].

Definition file_of_hit (h : hit) : FileIntent :=
  mkFile (str (trim_chars (group 0 h))) (str (trim_end (group 1 h))).

(** The explanation computed by [parseFiles]: FILE blocks removed, trimmed,
    runs of three or more newlines replaced by two, trimmed again. *)
Definition explanation_chars (output : list ascii) : list ascii :=
  trim_chars (collapse_blank (trim_chars (remove_all fileRegex output))).

Definition parseFiles (output : string) : list FileIntent * string :=
  (map file_of_hit (fst (matchAll fileRegex (chars output))),
   str (explanation_chars (chars output))).

Definition subtask_of_hit (h : hit) : Subtask :=
  mkSubtask (str (trim_chars (group 0 h))) (str (trim_chars (group 1 h)))
            (str (trim_chars (group 2 h))).

Definition parseSubtasks (output : string) : list Subtask :=
  map subtask_of_hit (fst (matchAll subtaskRegex (chars output))).

Definition exec_of_hit (h : hit) : ExecBlock :=
  mkExec (str (trim_chars (group 0 h))) (str (trim_chars (group 1 h))).

Definition parseExecBlocks (output : string) : list ExecBlock :=
  map exec_of_hit (fst (matchAll execRegex (chars output))).

End Parser.

(** ** Data model of the server *)

Inductive AgentStatus : Type := Idle | Working | Cooldown | Offline | Errored.
Inductive TaskStatus : Type :=
  Pending | Active | Review | Completed | Failed | Cancelled.
Inductive Risk : Type := LowRisk | HighRisk.
Inductive Priority : Type := Critical | High | Medium | Low.

Definition AgentStatus_eqb (a b : AgentStatus) : bool :=
  match a, b with
  | Idle, Idle | Working, Working | Cooldown, Cooldown
  | Offline, Offline | Errored, Errored => true
  | _, _ => false
  end.

Definition TaskStatus_eqb (a b : TaskStatus) : bool :=
  match a, b with
  | Pending, Pending | Active, Active | Review, Review
  | Completed, Completed | Failed, Failed | Cancelled, Cancelled => true
  | _, _ => false
  end.

(** The outcome of one executed command, [{cwd, cmd, success, output}]. *)
Record ExecResult : Type := mkExecResult {
  er_cwd : string;
  er_cmd : string;
  er_success : bool;
  er_output : string
}.

(** What [callModel] resolves to. *)
Record ModelResult : Type := mkModelResult {
  m_output : string;
  m_tokensUsed : Z
}.

(** The error object caught by [executeTask]: [err.status] and
    [err.message]. *)
Record ModelError : Type := mkModelError {
  e_status : option Z;
  e_message : string
}.

(** [task.result] *)
Record TaskResult : Type := mkTaskResult {
  r_success : bool;
  r_output : string;
  r_rawOutput : option string;
  r_tokensUsed : Z;
  r_agentName : option string;
  r_model : option string;
  r_files : list string;
  r_fileContents : option (list FileIntent);
  r_execBlocks : option (list ExecBlock);
  r_execResults : option (list ExecResult);
  r_perfScore : option Z;
  r_taskTypes : option (list string)
}.

Record Task : Type := mkTask {
  t_id : string;
  t_title : string;
  t_description : string;
  t_status : TaskStatus;
  t_risk : Risk;
  t_priority : Priority;
  t_assignedAgentId : option string;
  t_createdBy : string;
  t_parentTaskId : option string;
  t_depth : Z;
  t_created : Z;
  t_started : option Z;
  t_completed : option Z;
  t_result : option TaskResult;
  t_filePaths : list string;
  t_tags : list string;
  t_preferredAgentId : string
}.

(** An entry of [agents.json]. *)
Record AgentConfig : Type := mkAgentConfig {
  c_id : string;
  c_name : string;
  c_provider : string;
  c_model : string;
  c_role : string;
  c_apiKeyEnvVar : option string;
  c_energyRechargeRate : option Z
}.

Record Agent : Type := mkAgent {
  a_id : string;
  a_config : AgentConfig;
  a_status : AgentStatus;
  a_energy : Z;
  a_maxEnergy : Z;
  a_xp : Z;
  a_level : Z;
  a_tasksCompleted : Z;
  a_tasksInProgress : Z;
  a_currentTaskId : option string;
  a_lastActive : Z;
  a_totalTokensUsed : Z;
  a_errorCount : Z;
  a_cooldownUntil : option Z
}.

(** An activity entry; the free-text message and the random id are left
    out. *)
Record Activity : Type := mkActivity {
  act_timestamp : Z;
  act_agentId : string;
  act_type : string
}.

(** *** Field updates *)

Definition task_with_status (v : TaskStatus) (t : Task) : Task :=
  mkTask (t_id t) (t_title t) (t_description t) v (t_risk t) (t_priority t)
         (t_assignedAgentId t) (t_createdBy t) (t_parentTaskId t) (t_depth t)
         (t_created t) (t_started t) (t_completed t) (t_result t)
         (t_filePaths t) (t_tags t) (t_preferredAgentId t).

Definition task_with_assignedAgentId (v : option string) (t : Task) : Task :=
  mkTask (t_id t) (t_title t) (t_description t) (t_status t) (t_risk t)
         (t_priority t) v (t_createdBy t) (t_parentTaskId t) (t_depth t)
         (t_created t) (t_started t) (t_completed t) (t_result t)
         (t_filePaths t) (t_tags t) (t_preferredAgentId t).

Definition task_with_started (v : option Z) (t : Task) : Task :=
  mkTask (t_id t) (t_title t) (t_description t) (t_status t) (t_risk t)
         (t_priority t) (t_assignedAgentId t) (t_createdBy t)
         (t_parentTaskId t) (t_depth t) (t_created t) v (t_completed t)
         (t_result t) (t_filePaths t) (t_tags t) (t_preferredAgentId t).

Definition task_with_completed (v : option Z) (t : Task) : Task :=
  mkTask (t_id t) (t_title t) (t_description t) (t_status t) (t_risk t)
         (t_priority t) (t_assignedAgentId t) (t_createdBy t)
         (t_parentTaskId t) (t_depth t) (t_created t) (t_started t) v
         (t_result t) (t_filePaths t) (t_tags t) (t_preferredAgentId t).

Definition task_with_result (v : option TaskResult) (t : Task) : Task :=
  mkTask (t_id t) (t_title t) (t_description t) (t_status t) (t_risk t)
         (t_priority t) (t_assignedAgentId t) (t_createdBy t)
         (t_parentTaskId t) (t_depth t) (t_created t) (t_started t)
         (t_completed t) v (t_filePaths t) (t_tags t) (t_preferredAgentId t).

Definition task_with_createdBy (v : string) (t : Task) : Task :=
  mkTask (t_id t) (t_title t) (t_description t) (t_status t) (t_risk t)
         (t_priority t) (t_assignedAgentId t) v (t_parentTaskId t) (t_depth t)
         (t_created t) (t_started t) (t_completed t) (t_result t)
         (t_filePaths t) (t_tags t) (t_preferredAgentId t).

Definition task_with_parentTaskId (v : option string) (t : Task) : Task :=
  mkTask (t_id t) (t_title t) (t_description t) (t_status t) (t_risk t)
         (t_priority t) (t_assignedAgentId t) (t_createdBy t) v (t_depth t)
         (t_created t) (t_started t) (t_completed t) (t_result t)
         (t_filePaths t) (t_tags t) (t_preferredAgentId t).

Definition task_with_depth (v : Z) (t : Task) : Task :=
  mkTask (t_id t) (t_title t) (t_description t) (t_status t) (t_risk t)
         (t_priority t) (t_assignedAgentId t) (t_createdBy t)
         (t_parentTaskId t) v (t_created t) (t_started t) (t_completed t)
         (t_result t) (t_filePaths t) (t_tags t) (t_preferredAgentId t).

Definition result_with_execBlocks (v : option (list ExecBlock))
                                  (r : TaskResult) : TaskResult :=
  mkTaskResult (r_success r) (r_output r) (r_rawOutput r) (r_tokensUsed r)
               (r_agentName r) (r_model r) (r_files r) (r_fileContents r)
               v (r_execResults r) (r_perfScore r) (r_taskTypes r).

Definition result_with_execResults (v : option (list ExecResult))
                                   (r : TaskResult) : TaskResult :=
  mkTaskResult (r_success r) (r_output r) (r_rawOutput r) (r_tokensUsed r)
               (r_agentName r) (r_model r) (r_files r) (r_fileContents r)
               (r_execBlocks r) v (r_perfScore r) (r_taskTypes r).

Definition result_with_score (score : Z) (types : list string)
                             (r : TaskResult) : TaskResult :=
  mkTaskResult (r_success r) (r_output r) (r_rawOutput r) (r_tokensUsed r)
               (r_agentName r) (r_model r) (r_files r) (r_fileContents r)
               (r_execBlocks r) (r_execResults r) (Some score) (Some types).

Definition agent_with_status (v : AgentStatus) (a : Agent) : Agent :=
  mkAgent (a_id a) (a_config a) v (a_energy a) (a_maxEnergy a) (a_xp a)
          (a_level a) (a_tasksCompleted a) (a_tasksInProgress a)
          (a_currentTaskId a) (a_lastActive a) (a_totalTokensUsed a)
          (a_errorCount a) (a_cooldownUntil a).

Definition agent_with_currentTaskId (v : option string) (a : Agent) : Agent :=
  mkAgent (a_id a) (a_config a) (a_status a) (a_energy a) (a_maxEnergy a)
          (a_xp a) (a_level a) (a_tasksCompleted a) (a_tasksInProgress a) v
          (a_lastActive a) (a_totalTokensUsed a) (a_errorCount a)
          (a_cooldownUntil a).

Definition agent_with_energy (v : Z) (a : Agent) : Agent :=
  mkAgent (a_id a) (a_config a) (a_status a) v (a_maxEnergy a) (a_xp a)
          (a_level a) (a_tasksCompleted a) (a_tasksInProgress a)
          (a_currentTaskId a) (a_lastActive a) (a_totalTokensUsed a)
          (a_errorCount a) (a_cooldownUntil a).

Definition agent_with_cooldownUntil (v : option Z) (a : Agent) : Agent :=
  mkAgent (a_id a) (a_config a) (a_status a) (a_energy a) (a_maxEnergy a)
          (a_xp a) (a_level a) (a_tasksCompleted a) (a_tasksInProgress a)
          (a_currentTaskId a) (a_lastActive a) (a_totalTokensUsed a)
          (a_errorCount a) v.

Definition agent_with_errorCount (v : Z) (a : Agent) : Agent :=
  mkAgent (a_id a) (a_config a) (a_status a) (a_energy a) (a_maxEnergy a)
          (a_xp a) (a_level a) (a_tasksCompleted a) (a_tasksInProgress a)
          (a_currentTaskId a) (a_lastActive a) (a_totalTokensUsed a) v
          (a_cooldownUntil a).

(** The bookkeeping of a successful model call (energy, tokens, xp, level):
    [energyCost = min(5, ceil(tokens/1000))],
    [xp += 20 + min(30, floor(tokens/100))], [level = floor(xp/300) + 1]. *)
Definition ceil_div (a b : Z) : Z := - ((- a) / b).

Definition agent_after_call (tokensUsed : Z) (a : Agent) : Agent :=
  let energyCost := Z.min 5 (ceil_div tokensUsed 1000) in
  let xp := a_xp a + (20 + Z.min 30 (tokensUsed / 100)) in
  mkAgent (a_id a) (a_config a) (a_status a)
          (Z.max 0 (a_energy a - energyCost)) (a_maxEnergy a) xp
          (xp / 300 + 1) (a_tasksCompleted a + 1) (a_tasksInProgress a)
          (a_currentTaskId a) (a_lastActive a)
          (a_totalTokensUsed a + tokensUsed) (a_errorCount a)
          (a_cooldownUntil a).

(** ** Array and number helpers of the JavaScript runtime *)

Module Js.

Definition len {A : Type} (l : list A) : Z := Z.of_nat (List.length l).

(** [a.slice(-n)] *)
Definition last_n {A : Type} (n : nat) (l : list A) : list A :=
  skipn (List.length l - n) l.

(** [s.slice(-n)] on a string. *)
Definition slice_last (n : nat) (s : string) : string :=
  Text.str (last_n n (Text.chars s)).

(** [Math.round(n / d)] for a positive [d]: the nearest integer, halves
    rounded up. *)
Definition round_div (n d : Z) : Z := (2 * n + d) / (2 * d).

(** [Array.prototype.sort] is stable: [x] is put in front of the first
    element [y] that the comparator does not order strictly before [x];
    [before x y] says that [x] may stay in front of [y]. *)
Fixpoint insert_sorted {A : Type} (before : A -> A -> bool) (x : A)
                       (l : list A) : list A :=
  match l with
  | [] => [x]
  | y :: l' => if before x y then x :: l else y :: insert_sorted before x l'
  end.

Definition stable_sort {A : Type} (before : A -> A -> bool) (l : list A)
  : list A :=
  fold_right (insert_sorted before) [] l.

(** [l[i] = f(l[i])] on the object stored at index [i]. *)
Fixpoint update_nth {A : Type} (i : nat) (f : A -> A) (l : list A) : list A :=
  match l, i with
  | [], _ => []
  | x :: l', O => f x :: l'
  | x :: l', S i' => x :: update_nth i' f l'
  end.

(** [String(n).padStart(3, '0')] for a non-negative [n]. *)
Definition decimal (n : Z) : string :=
  NilZero.string_of_uint (Nat.to_uint (Z.to_nat n)).

Definition padStart3 (s : string) : string :=
  (Text.str (repeat "0"%char (3 - String.length s)) ++ s)%string.

End Js.

(** ** Reinforcement-learning engine *)

Record ScoreEntry : Type := mkScoreEntry {
  s_score : Z;
  s_taskId : string;
  s_timestamp : Z
}.

(** [{ scores, avg, count }] of one (agent, category) pair. *)
Record TypeLog : Type := mkTypeLog {
  scores : list ScoreEntry;
  avg : Z;
  count : Z
}.

(** JavaScript objects used as maps keep their string keys in insertion
    order; they are modelled as association lists with unique keys. The
    lists hold the own properties only. An object also inherits the members
    of [Object.prototype]: looked up under one of the names of [inherited],
    an object without such a key of its own yields the inherited member
    ([__proto__] yields the prototype itself, so that a write through it
    lands on the object all others inherit from). The model is the object
    for the keys that are [plain]; the categories of [TASK_TYPE_PATTERNS]
    and [general] are. *)
Module Obj.

Definition inherited : list string :=
  ["__proto__"; "constructor"; "hasOwnProperty"; "isPrototypeOf";
   "propertyIsEnumerable"; "toLocaleString"; "toString"; "valueOf";
   "__defineGetter__"; "__defineSetter__"; "__lookupGetter__";
   "__lookupSetter__"].

Definition plain (k : string) : bool := negb (existsb (String.eqb k) inherited).

Section Obj.
Context {V : Type}.

Fixpoint get (k : string) (m : list (string * V)) : option V :=
  match m with
  | [] => None
  | (k', v) :: m' => if String.eqb k k' then Some v else get k m'
  end.

(** [m[k] = v]: overwrite in place, or append a new key. *)
Fixpoint set (k : string) (v : V) (m : list (string * V)) : list (string * V) :=
  match m with
  | [] => [(k, v)]
  | (k', v') :: m' =>
      if String.eqb k k' then (k', v) :: m' else (k', v') :: set k v m'
  end.

Definition values (m : list (string * V)) : list V := map snd m.

End Obj.
End Obj.

Definition AgentLog := list (string * TypeLog).
Definition PerformanceLog := list (string * AgentLog).

Module RL.
Import Text Regex Js.

Definition wb (s : string) : regex := Cat (Lit s) WordEnd.
Definition lits (l : list string) : list regex := map Lit l.

(** [TASK_TYPE_PATTERNS], in source order. The patterns carry the [i] flag
    and are only applied to lower-cased text. *)
Definition TASK_TYPE_PATTERNS : list (string * regex) :=
  [ ("python",
     alts (lits ["python"; "django"; "flask"; "fastapi"; "pip"] ++ [wb ".py"]));
    ("javascript",
     alts ([Lit "javascript"; Cat (Lit "node") (Cat (Opt (Lit ".")) (Lit "js"))]
           ++ lits ["express"; "react"; "vue"; "npm"] ++ [wb ".js"; wb ".ts"]));
    ("web",
     alts (lits ["html"; "css"; "website"; "frontend"; "webpage";
                 "landing page"] ++ [wb "ui"]));
    ("api",
     alts (lits ["api"; "endpoint"; "rest"; "graphql"; "websocket"; "http"]));
    ("test",
     alts (lits ["test"; "spec"; "coverage"; "jest"; "mocha"; "pytest";
                 "unittest"]));
    ("refactor",
     alts (lits ["refactor"; "clean"; "simplify"; "extract"; "optimize";
                 "improve"]));
    ("docs",
     alts (lits ["doc"; "readme"; "explain"; "comment"; "document";
                 "markdown"]));
    ("devops",
     alts (lits ["docker"; "deploy"; "ci"; "cd"; "pipeline"; "kubernetes";
                 "nginx"]));
    ("data",
     alts (lits ["database"; "sql"; "mongo"; "redis"; "csv"; "json"; "data";
                 "scrape"; "crawl"]));
    ("tool",
     alts (lits ["tool"; "script"; "cli"; "utility"; "helper"; "automation";
                 "bot"])) ].

Definition classifyTask (title description : string) : list string :=
  let text := toLowerCase (title ++ " " ++ description)%string in
  let types :=
    map fst (filter (fun tp => test (snd tp) text) TASK_TYPE_PATTERNS) in
  match types with
  | [] => ["general"]
  | _ :: _ => types
  end.

Definition succeeded (rs : list ExecResult) : Z := len (filter er_success rs).

Definition marker_points (rawOutput marker : string) : Z :=
  if includes rawOutput marker then 5 else 0.

Definition token_points (tokensUsed : Z) : Z :=
  if (0 <? tokensUsed) && (tokensUsed <? 500) then 15
  else if tokensUsed <? 2000 then 12
  else if tokensUsed <? 5000 then 8
  else if tokensUsed <? 10000 then 4
  else 0.

(** [scoreOutput(task, result, files, execBlocks, execResults)]. The result
    of [callModel] has no [rawOutput] field, so [rawOutput] is its
    [output]. [execResults] is [None] for [undefined]. *)
Definition scoreOutput (task : Task) (result : ModelResult)
    (files : list FileIntent) (execBlocks : list ExecBlock)
    (execResults : option (list ExecResult)) : Z :=
  let score := 0 in
  let output := m_output result in
  let rawOutput := output in
  let score :=
    if 0 <? len files then score + 20 + Z.min 20 (len files * 5) else score in
  let score := score + marker_points rawOutput "===FILE===" in
  let score := score + marker_points rawOutput "===CONTENT===" in
  let score := score + marker_points rawOutput "===END_FILE===" in
  let score :=
    match execResults with
    | Some rs =>
        if 0 <? len execBlocks
        then score + round_div (succeeded rs * 15) (len execBlocks)
        else if len execBlocks =? 0 then score + 10 else score
    | None => if len execBlocks =? 0 then score + 10 else score
    end in
  let tokensUsed := m_tokensUsed result in
  let score := score + token_points tokensUsed in
  let score :=
    if TaskStatus_eqb (t_status task) Failed then score else score + 15 in
  Z.min 100 (Z.max 0 score).

Definition sum_scores (l : list ScoreEntry) : Z :=
  fold_left (fun s e => s + s_score e) l 0.

(** The body of the loop of [recordPerformance] for one category. *)
Definition record_entry (e : ScoreEntry) (log : TypeLog) : TypeLog :=
  let pushed := scores log ++ [e] in
  let kept := if 20 <? len pushed then last_n 20 pushed else pushed in
  mkTypeLog kept (round_div (sum_scores kept) (len kept)) (len kept).

Definition empty_log : TypeLog := mkTypeLog [] 0 0.

Definition record_type (agentId : string) (e : ScoreEntry)
                       (memo : PerformanceLog) (type : string) : PerformanceLog :=
  let agentLog := match Obj.get agentId memo with
                  | Some al => al
                  | None => []
                  end in
  let log := match Obj.get type agentLog with
             | Some l => l
             | None => empty_log
             end in
  Obj.set agentId (Obj.set type (record_entry e log) agentLog) memo.

(** [recordPerformance(agentId, taskTypes, score, taskId)] on
    [memory.performanceLog], at time [now]. *)
Definition recordPerformance (now : Z) (agentId : string)
    (taskTypes : list string) (score : Z) (taskId : string)
    (memo : PerformanceLog) : PerformanceLog :=
  let memo := match Obj.get agentId memo with
              | Some _ => memo
              | None => Obj.set agentId [] memo
              end in
  fold_left (record_type agentId (mkScoreEntry score taskId now))
            taskTypes memo.

Definition lookup_log (memo : PerformanceLog) (agentId type : string)
  : option TypeLog :=
  match Obj.get agentId memo with
  | Some al => Obj.get type al
  | None => None
  end.

Definition getAgentScore (memo : PerformanceLog) (agentId taskType : string) : Z :=
  match lookup_log memo agentId taskType with
  | None => 50
  | Some log => if count log =? 0 then 50 else avg log
  end.

(** [t.avg || 50] *)
Definition avg_or_50 (t : TypeLog) : Z := if avg t =? 0 then 50 else avg t.

Definition getAgentOverallScore (memo : PerformanceLog) (agentId : string) : Z :=
  match Obj.get agentId memo with
  | None => 50
  | Some agentLog =>
      let types := Obj.values agentLog in
      match types with
      | [] => 50
      | _ :: _ =>
          let total := fold_left (fun s t => s + avg_or_50 t) types 0 in
          round_div total (len types)
      end
  end.

Definition getRecentFailures (memo : PerformanceLog) (agentId : string) : Z :=
  match Obj.get agentId memo with
  | None => 0
  | Some agentLog =>
      let allScores := flat_map scores (Obj.values agentLog) in
      let sorted :=
        stable_sort (fun a b => s_timestamp b <=? s_timestamp a) allScores in
      let recent := firstn 5 sorted in
      len (filter (fun s => s_score s <? 30) recent)
  end.

End RL.

(** ** The state of the server

    [heap] holds every task object ever created, in creation order; the
    [tasks] array of the source is the list of references into it
    ([cleanupTasks] drops references, running executions keep theirs).
    [agents] only grows, so an agent is referred to by its position.
    [disk] and [shell] log the effects of [fs.writeFile] and [execSync];
    [inflight] lists the launched executions that wait for [callModel];
    [entropy] is the stream of future [Math.random()] values. *)

Record State : Type := mkState {
  PROJECT_ROOT : string;
  agents : list Agent;
  heap : list Task;
  tasks : list nat;
  archivedTaskCount : Z;
  taskCounter : Z;
  activity : list Activity;
  totalGlobalTokens : Z;
  autoApproveAll : bool;
  performanceLog : PerformanceLog;
  disk : list (string * string);
  shell : list (string * string);
  inflight : list (nat * nat);
  entropy : list Q
}.

Definition with_agents (v : list Agent) (s : State) : State :=
  mkState (PROJECT_ROOT s) v (heap s) (tasks s) (archivedTaskCount s)
          (taskCounter s) (activity s) (totalGlobalTokens s)
          (autoApproveAll s) (performanceLog s) (disk s) (shell s)
          (inflight s) (entropy s).

Definition with_heap (v : list Task) (s : State) : State :=
  mkState (PROJECT_ROOT s) (agents s) v (tasks s) (archivedTaskCount s)
          (taskCounter s) (activity s) (totalGlobalTokens s)
          (autoApproveAll s) (performanceLog s) (disk s) (shell s)
          (inflight s) (entropy s).

Definition with_tasks (v : list nat) (s : State) : State :=
  mkState (PROJECT_ROOT s) (agents s) (heap s) v (archivedTaskCount s)
          (taskCounter s) (activity s) (totalGlobalTokens s)
          (autoApproveAll s) (performanceLog s) (disk s) (shell s)
          (inflight s) (entropy s).

Definition with_archivedTaskCount (v : Z) (s : State) : State :=
  mkState (PROJECT_ROOT s) (agents s) (heap s) (tasks s) v (taskCounter s)
          (activity s) (totalGlobalTokens s) (autoApproveAll s)
          (performanceLog s) (disk s) (shell s) (inflight s) (entropy s).

Definition with_taskCounter (v : Z) (s : State) : State :=
  mkState (PROJECT_ROOT s) (agents s) (heap s) (tasks s)
          (archivedTaskCount s) v (activity s) (totalGlobalTokens s)
          (autoApproveAll s) (performanceLog s) (disk s) (shell s)
          (inflight s) (entropy s).

Definition with_activity (v : list Activity) (s : State) : State :=
  mkState (PROJECT_ROOT s) (agents s) (heap s) (tasks s)
          (archivedTaskCount s) (taskCounter s) v (totalGlobalTokens s)
          (autoApproveAll s) (performanceLog s) (disk s) (shell s)
          (inflight s) (entropy s).

Definition with_totalGlobalTokens (v : Z) (s : State) : State :=
  mkState (PROJECT_ROOT s) (agents s) (heap s) (tasks s)
          (archivedTaskCount s) (taskCounter s) (activity s) v
          (autoApproveAll s) (performanceLog s) (disk s) (shell s)
          (inflight s) (entropy s).

Definition with_autoApproveAll (v : bool) (s : State) : State :=
  mkState (PROJECT_ROOT s) (agents s) (heap s) (tasks s)
          (archivedTaskCount s) (taskCounter s) (activity s)
          (totalGlobalTokens s) v (performanceLog s) (disk s) (shell s)
          (inflight s) (entropy s).

Definition with_performanceLog (v : PerformanceLog) (s : State) : State :=
  mkState (PROJECT_ROOT s) (agents s) (heap s) (tasks s)
          (archivedTaskCount s) (taskCounter s) (activity s)
          (totalGlobalTokens s) (autoApproveAll s) v (disk s) (shell s)
          (inflight s) (entropy s).

Definition with_disk (v : list (string * string)) (s : State) : State :=
  mkState (PROJECT_ROOT s) (agents s) (heap s) (tasks s)
          (archivedTaskCount s) (taskCounter s) (activity s)
          (totalGlobalTokens s) (autoApproveAll s) (performanceLog s) v
          (shell s) (inflight s) (entropy s).

Definition with_shell (v : list (string * string)) (s : State) : State :=
  mkState (PROJECT_ROOT s) (agents s) (heap s) (tasks s)
          (archivedTaskCount s) (taskCounter s) (activity s)
          (totalGlobalTokens s) (autoApproveAll s) (performanceLog s)
          (disk s) v (inflight s) (entropy s).

Definition with_inflight (v : list (nat * nat)) (s : State) : State :=
  mkState (PROJECT_ROOT s) (agents s) (heap s) (tasks s)
          (archivedTaskCount s) (taskCounter s) (activity s)
          (totalGlobalTokens s) (autoApproveAll s) (performanceLog s)
          (disk s) (shell s) v (entropy s).

Definition with_entropy (v : list Q) (s : State) : State :=
  mkState (PROJECT_ROOT s) (agents s) (heap s) (tasks s)
          (archivedTaskCount s) (taskCounter s) (activity s)
          (totalGlobalTokens s) (autoApproveAll s) (performanceLog s)
          (disk s) (shell s) (inflight s) v.

Import Js.

Definition upd_task (i : nat) (f : Task -> Task) (s : State) : State :=
  with_heap (update_nth i f (heap s)) s.

Definition upd_agent (i : nat) (f : Agent -> Agent) (s : State) : State :=
  with_agents (update_nth i f (agents s)) s.

Definition upd_result (i : nat) (f : TaskResult -> TaskResult) (s : State)
  : State :=
  upd_task i (fun t => task_with_result (option_map f (t_result t)) t) s.

(** [addActivity(agentId, type, message)]: the log keeps its last 100
    entries. *)
Definition addActivity (now : Z) (agentId type : string) (s : State) : State :=
  let acts := activity s ++ [mkActivity now agentId type] in
  with_activity (if 100 <? len acts then last_n 100 acts else acts) s.

(** ** Workspace executor *)

(** The host as the server meets it while it handles one event.
    [execSync]: [execSync(cmd, {cwd})], whether the command returned
    normally, and its output (or the error text).
    [fs_writeFile]: the two awaits of [writeFiles] for one file,
    [fs.mkdir(path.dirname(fullPath), {recursive: true})] followed by
    [fs.writeFile(fullPath, content)]; [None] when both resolve, the message
    of the rejection otherwise ([EISDIR] when [fullPath] is a directory,
    [EACCES], [ENOSPC] and the like).
    [fs_mkdir]: the directory test of [runExecBlocks],
    [fsSync.existsSync(fullCwd)] and, when that is false,
    [fs.mkdir(fullCwd, {recursive: true})]; [None] when the directory is
    there afterwards, the message of the rejection otherwise. *)
Record Shell : Type := mkShell {
  execSync : string -> string -> bool * string;
  fs_writeFile : string -> string -> option string;
  fs_mkdir : string -> option string
}.

(** What an awaited call comes back with: its value, or the message of the
    error it rejects with. *)
Inductive Awaited (A : Type) : Type :=
| Fulfilled (value : A)
| Thrown (message : string).

Arguments Fulfilled {A} value.
Arguments Thrown {A} message.

(** [runExecBlocks(execBlocks, agentId)]. A failing command is caught and
    reported in the results; a working directory that cannot be created
    rejects the whole call. *)
Fixpoint runExecBlocks (now : Z) (sh : Shell) (execBlocks : list ExecBlock)
    (agentId : string) (results : list ExecResult) (s : State)
  : Awaited (list ExecResult) * State :=
  match execBlocks with
  | [] => (Fulfilled results, s)
  | block :: rest =>
      let fullCwd := Path.join [PROJECT_ROOT s; cwd block] in
      if negb (Text.startsWith fullCwd (PROJECT_ROOT s)) then
        runExecBlocks now sh rest agentId results
                      (addActivity now agentId "exec:blocked" s)
      else
        match fs_mkdir sh fullCwd with
        | Some message => (Thrown message, s)
        | None =>
            let s := addActivity now agentId "exec:running" s in
            let s := with_shell (shell s ++ [(fullCwd, cmd block)]) s in
            let '(ok, out) := execSync sh fullCwd (cmd block) in
            if ok then
              runExecBlocks now sh rest agentId
                (results ++ [mkExecResult (cwd block) (cmd block) true
                                          (slice_last 500 out)])
                (addActivity now agentId "exec:done" s)
            else
              runExecBlocks now sh rest agentId
                (results ++ [mkExecResult (cwd block) (cmd block) false
                                          (slice_last 300 out)])
                (addActivity now agentId "exec:error" s)
        end
  end.

(** [writeFiles(files)]: the files are written in order; the first write
    that is refused rejects the call, the files before it stay written. *)
Fixpoint writeFiles (sh : Shell) (files : list FileIntent)
                    (written : list string) (s : State)
  : Awaited (list string) * State :=
  match files with
  | [] => (Fulfilled written, s)
  | file :: rest =>
      let fullPath := Path.join [PROJECT_ROOT s; path file] in
      match fs_writeFile sh fullPath (content file) with
      | Some message => (Thrown message, s)
      | None =>
          writeFiles sh rest (written ++ [path file])
                     (with_disk (disk s ++ [(fullPath, content file)]) s)
      end
  end.

(** ** Agent picker *)

(** The filter of [getCallableAgents]. *)
Definition callable (a : Agent) : bool :=
  AgentStatus_eqb (a_status a) Idle
  && negb (String.eqb (c_provider (a_config a)) "cursor-bridge")
  && negb (String.eqb (c_provider (a_config a)) "copilot-bridge")
  && negb (AgentStatus_eqb (a_status a) Offline).

Definition indexed {A : Type} (l : list A) : list (nat * A) :=
  combine (seq 0 (List.length l)) l.

Definition getCallableAgents (s : State) : list (nat * Agent) :=
  filter (fun ia => callable (snd ia)) (indexed (agents s)).

(** [finalScore = typeScore + explorationBonus - failurePenalty] *)
Definition finalScore (memo : PerformanceLog) (taskTypes : list string)
                      (a : Agent) : Q :=
  let typeSum :=
    fold_left (fun acc ty => acc + RL.getAgentScore memo (a_id a) ty)
              taskTypes 0 in
  let typeScore := (inject_Z typeSum / inject_Z (len taskTypes))%Q in
  let totalTasksForTypes :=
    fold_left (fun sum ty =>
                 sum + match RL.lookup_log memo (a_id a) ty with
                       | Some l => count l
                       | None => 0
                       end) taskTypes 0 in
  let explorationBonus := if totalTasksForTypes <? 3 then 15 else 0 in
  let failurePenalty := RL.getRecentFailures memo (a_id a) * 10 in
  (typeScore + inject_Z explorationBonus - inject_Z failurePenalty)%Q.

(** [Math.max(1, score)] *)
Definition weight (score : Q) : Q := if Qle_bool 1 score then score else 1%Q.

(** The roulette loop over the top candidates. The scores, the weights
    and the roll are exact rationals here. The source computes them in
    IEEE double precision, where the subtractions round: there the roll can
    stay above 0 after the last candidate although [Math.random()] is below
    1, and the fallback after the loop is taken. An [entropy] value above
    1 takes the model to the same fallback. *)
Fixpoint draw (roll : Q) (topN : list (nat * Q)) : option nat :=
  match topN with
  | [] => None
  | (i, sc) :: rest =>
      let roll := (roll - weight sc)%Q in
      if Qle_bool roll 0 then Some i else draw roll rest
  end.

Definition next_random (s : State) : Q * State :=
  match entropy s with
  | [] => (0%Q, s)
  | r :: rs => (r, with_entropy rs s)
  end.

(** [pickAgent(preferredAgentId, taskTitle, taskDescription)] returns the
    position of the chosen agent. *)
Definition pickAgent (preferredAgentId taskTitle taskDescription : string)
                     (s : State) : option nat * State :=
  let available := getCallableAgents s in
  match available with
  | [] => (None, s)
  | first :: _ =>
      let specific :=
        if negb (String.eqb preferredAgentId "")
           && negb (String.eqb preferredAgentId "auto")
        then find (fun ia => String.eqb (a_id (snd ia)) preferredAgentId)
                  available
        else None in
      match specific with
      | Some ia => (Some (fst ia), s)
      | None =>
          let taskTypes := RL.classifyTask taskTitle taskDescription in
          let scored :=
            map (fun ia => (fst ia,
                            finalScore (performanceLog s) taskTypes (snd ia)))
                available in
          let sorted :=
            stable_sort (fun a b => Qle_bool (snd b) (snd a)) scored in
          let topN := firstn 3 sorted in
          let totalWeight :=
            fold_left (fun acc e => (acc + weight (snd e))%Q) topN 0%Q in
          let '(r, s) := next_random s in
          let roll := (r * totalWeight)%Q in
          match draw roll topN with
          | Some i => (Some i, s)
          | None => (Some (fst (hd (fst first, 0%Q) topN)), s)
          end
      end
  end.

(** ** Dispatch *)

Definition task_status_at (s : State) (tref : nat) : option TaskStatus :=
  option_map t_status (nth_error (heap s) tref).

Definition is_pending (s : State) (tref : nat) : bool :=
  match task_status_at s tref with
  | Some Pending => true
  | _ => false
  end.

Definition agent_id_at (s : State) (aref : nat) : string :=
  match nth_error (agents s) aref with
  | Some a => a_id a
  | None => ""
  end.

(** The body of the loop of [runDispatch] for one pending task, including
    the part of [executeTask] that runs before [callModel] is awaited. *)
Definition launch (now : Z) (tref : nat) (s : State) : State :=
  match nth_error (heap s) tref with
  | None => s
  | Some task =>
      let '(picked, s) :=
        pickAgent (t_preferredAgentId task) (t_title task)
                  (t_description task) s in
      match picked with
      | None => s
      | Some aref =>
          let agentId := agent_id_at s aref in
          let s := upd_agent aref
                     (fun a => agent_with_currentTaskId (Some (t_id task))
                                 (agent_with_status Working a)) s in
          let s := upd_task tref
                     (fun t => task_with_started (Some now)
                                 (task_with_assignedAgentId (Some agentId)
                                    (task_with_status Active t))) s in
          let s := addActivity now agentId "agent:working" s in
          with_inflight (inflight s ++ [(tref, aref)]) s
      end
  end.

(** [runDispatch()] *)
Definition runDispatch (now : Z) (s : State) : State :=
  let pendingTasks := filter (is_pending s) (tasks s) in
  fold_left (fun s tref => launch now tref s) pendingTasks s.

(** ** Task creation *)

(** [/test|doc|readme|comment|type|hello|simple|example/i] *)
Definition lowRiskTitle : Regex.regex :=
  Regex.alts (RL.lits ["test"; "doc"; "readme"; "comment"; "type"; "hello";
                       "simple"; "example"]).

(** [x || fallback] on a possibly missing string. *)
Definition or_else (x : option string) (fallback : string) : string :=
  match x with
  | Some v => if String.eqb v "" then fallback else v
  | None => fallback
  end.

(** [createTask(title, description, preferredAgentId)] returns the reference
    of the new task. *)
Definition createTask (now : Z) (title description : string)
    (preferredAgentId : option string) (s : State) : nat * State :=
  let risk :=
    if autoApproveAll s then LowRisk
    else if Regex.test lowRiskTitle (Text.toLowerCase title) then LowRisk
         else HighRisk in
  let taskTypes := RL.classifyTask title description in
  let counter := taskCounter s + 1 in
  let task :=
    mkTask ("TASK-" ++ padStart3 (decimal counter))%string title description
           Pending risk Medium None "user" None 0 now None None None []
           taskTypes (or_else preferredAgentId "auto") in
  let tref := List.length (heap s) in
  let s := with_taskCounter counter s in
  let s := with_tasks (tasks s ++ [tref]) (with_heap (heap s ++ [task]) s) in
  let s := addActivity now "system" "task:created" s in
  (tref, runDispatch now s).

(** ** Archiving of finished tasks *)

Definition is_finished (s : State) (tref : nat) : bool :=
  match task_status_at s tref with
  | Some Completed | Some Cancelled | Some Failed => true
  | _ => false
  end.

Definition completed_at (s : State) (tref : nat) : Z :=
  match nth_error (heap s) tref with
  | Some t => match t_completed t with Some c => c | None => 0 end
  | None => 0
  end.

Definition task_id_at (s : State) (tref : nat) : string :=
  match nth_error (heap s) tref with
  | Some t => t_id t
  | None => ""
  end.

Definition mem_string (x : string) (l : list string) : bool :=
  existsb (String.eqb x) l.

(** [cleanupTasks()] with [MAX_VISIBLE = 30]. *)
Definition cleanupTasks (s : State) : State :=
  let finished := filter (is_finished s) (tasks s) in
  if 30 <? len finished then
    let toArchive :=
      firstn (List.length finished - 30)
             (stable_sort (fun a b => completed_at s a <=? completed_at s b)
                          finished) in
    let archiveIds := nodup string_dec (map (task_id_at s) toArchive) in
    let s := with_archivedTaskCount (archivedTaskCount s + len archiveIds) s in
    with_tasks
      (filter (fun tref => negb (mem_string (task_id_at s tref) archiveIds))
              (tasks s)) s
  else s.

(** ** Task execution *)

Inductive ModelOutcome : Type :=
| Resolved (result : ModelResult)
| Rejected (err : ModelError).

(** [err.status === code] *)
Definition status_is (err : ModelError) (code : Z) : bool :=
  match e_status err with
  | Some st => st =? code
  | None => false
  end.

(** [isApiError] of the [catch] block. *)
Definition isApiError (err : ModelError) : bool :=
  status_is err 400 || status_is err 500 || status_is err 502
  || status_is err 503
  || (negb (String.eqb (e_message err) "")
      && (Text.includes (e_message err) "timed out"
          || Text.includes (e_message err) "timeout"
          || Text.includes (e_message err) "ECONNREFUSED")).

Definition depth_at (s : State) (tref : nat) : Z :=
  match nth_error (heap s) tref with
  | Some t => t_depth t
  | None => 0
  end.

(** One round of the subtask loop of [executeTask]. *)
Definition spawn (now : Z) (tref : nat) (agentId : string) (s : State)
                 (sub : Subtask) : State :=
  let '(childTask, s) :=
    createTask now (sub_title sub) (sub_description sub)
               (Some (if String.eqb (sub_agent sub) "auto" then "auto"
                      else sub_agent sub)) s in
  let parentId := task_id_at s tref in
  let depth := depth_at s tref + 1 in
  let s := upd_task childTask
             (fun c => task_with_createdBy ("agent:" ++ agentId)%string
                         (task_with_depth depth
                            (task_with_parentTaskId (Some parentId) c))) s in
  addActivity now agentId "task:spawned" s.

Definition finish_task (now : Z) (status : TaskStatus) (t : Task) : Task :=
  task_with_completed (Some now) (task_with_status status t).

Definition risk_is_low (r : Risk) : bool :=
  match r with LowRisk => true | HighRisk => false end.

Definition execResults_at (s : State) (tref : nat) : option (list ExecResult) :=
  match nth_error (heap s) tref with
  | Some t => match t_result t with
              | Some r => r_execResults r
              | None => None
              end
  | None => None
  end.

(** Step 5 of the [try] block: what becomes of the parsed files and
    commands, by risk. The second component is the state reached; the first
    is the message of the error thrown by [writeFiles] or [runExecBlocks],
    if any: the block is left at that point. *)
Definition apply_output (now : Z) (sh : Shell) (tref : nat) (task : Task)
    (agent : Agent) (files : list FileIntent) (execBlocks : list ExecBlock)
    (s : State) : option string * State :=
  if (0 <? len files) && risk_is_low (t_risk task) then
    match writeFiles sh files [] s with
    | (Thrown message, s) => (Some message, s)
    | (Fulfilled written, s) =>
        let s := addActivity now (a_id agent) "file:auto-applied" s in
        let '(thrown, s) :=
          if 0 <? len execBlocks then
            let s := addActivity now (a_id agent) "exec:starting" s in
            match runExecBlocks now sh execBlocks (a_id agent) [] s with
            | (Thrown message, s) => (Some message, s)
            | (Fulfilled execResults, s) =>
                (None,
                 upd_result tref (result_with_execResults (Some execResults))
                            s)
            end
          else (None, s) in
        match thrown with
        | Some message => (Some message, s)
        | None =>
            let s := upd_task tref (finish_task now Completed) s in
            (None, addActivity now (a_id agent) "agent:completed" s)
        end
    end
  else if (0 <? len files) && negb (risk_is_low (t_risk task)) then
    let s := upd_task tref (task_with_status Review) s in
    let s := upd_result tref (result_with_execBlocks (Some execBlocks)) s in
    (None, addActivity now (a_id agent) "task:review-needed" s)
  else
    let s := upd_task tref (finish_task now Completed) s in
    (None, addActivity now (a_id agent) "agent:completed" s).

(** Step 6: score the output and record the performance. *)
Definition score_and_record (now : Z) (tref : nat) (task : Task)
    (agent : Agent) (result : ModelResult) (files : list FileIntent)
    (execBlocks : list ExecBlock) (s : State) : State :=
  let taskTypes := RL.classifyTask (t_title task) (t_description task) in
  let perfScore :=
    RL.scoreOutput (nth tref (heap s) task) result files execBlocks
                   (execResults_at s tref) in
  let s := with_performanceLog
             (RL.recordPerformance now (a_id agent) taskTypes perfScore
                                   (t_id task) (performanceLog s)) s in
  let s := upd_result tref (result_with_score perfScore taskTypes) s in
  addActivity now (a_id agent) "rl:scored" s.

(** Step 8: the subtask loop behind its depth guard. *)
Definition spawn_subtasks (now : Z) (tref : nat) (agent : Agent)
    (subtasks : list Subtask) (s : State) : State :=
  if (0 <? len subtasks) && (depth_at s tref <? 3)
  then fold_left (spawn now tref (a_id agent)) subtasks s
  else s.

(** The [try] block of [executeTask] after [callModel] has resolved: the
    state reached and, when [writeFiles] or [runExecBlocks] threw, the
    message of the error; the rest of the block is then skipped. *)
Definition executeTask_try (now : Z) (sh : Shell) (tref aref : nat)
    (task : Task) (agent : Agent) (result : ModelResult) (s : State)
  : option string * State :=
  let '(files, explanation) := Parser.parseFiles (m_output result) in
  let subtasks := Parser.parseSubtasks (m_output result) in
  let execBlocks := Parser.parseExecBlocks (m_output result) in
  let tokensUsed := m_tokensUsed result in
  let s := upd_agent aref (agent_after_call tokensUsed) s in
  let s := with_totalGlobalTokens (totalGlobalTokens s + tokensUsed) s in
  let s :=
    upd_task tref
      (task_with_result
         (Some (mkTaskResult true
                  (if String.eqb explanation "" then m_output result
                   else explanation)
                  (Some (m_output result)) tokensUsed
                  (Some (c_name (a_config agent)))
                  (Some (c_model (a_config agent)))
                  (map path files) (Some files) None None None None))) s in
  match apply_output now sh tref task agent files execBlocks s with
  | (Some message, s) => (Some message, s)
  | (None, s) =>
      let s := score_and_record now tref task agent result files execBlocks s in
      let s := spawn_subtasks now tref agent subtasks s in
      (None, addActivity now (a_id agent) "agent:xp-gained" s)
  end.

(** The error object of a rejected [fs] call as the [catch] block reads it:
    a message, and no [status]. *)
Definition fs_error (message : string) : ModelError :=
  mkModelError None message.

(** The [catch] block of [executeTask]. *)
Definition executeTask_catch (now : Z) (tref aref : nat) (task : Task)
    (agent : Agent) (err : ModelError) (s : State) : State :=
  let s :=
    upd_task tref
      (fun t => task_with_result
                  (Some (mkTaskResult false (e_message err) None 0 None None
                                      [] None None None None None))
                  (finish_task now Failed t)) s in
  let s := upd_agent aref
             (fun a => agent_with_errorCount (a_errorCount a + 1) a) s in
  let failScore := if isApiError err then 25 else 0 in
  let failTypes := RL.classifyTask (t_title task) (t_description task) in
  let s := with_performanceLog
             (RL.recordPerformance now (a_id agent) failTypes failScore
                                   (t_id task) (performanceLog s)) s in
  let s := addActivity now (a_id agent) "rl:scored" s in
  let s := addActivity now (a_id agent) "agent:error" s in
  if status_is err 429 then
    let s := upd_agent aref
               (fun a => agent_with_status Cooldown
                           (agent_with_cooldownUntil (Some (now + 60000)) a))
               s in
    addActivity now (a_id agent) "agent:cooldown" s
  else s.

(** The [finally] block of [executeTask]. *)
Definition executeTask_finally (aref : nat) (s : State) : State :=
  let s :=
    upd_agent aref
      (fun a => agent_with_currentTaskId None
                  (if AgentStatus_eqb (a_status a) Working
                   then agent_with_status Idle a else a)) s in
  cleanupTasks s.

(** [executeTask(task, agent)] from the moment [callModel] settles; the
    part before that runs inside [launch]. An error thrown inside the [try]
    block reaches the [catch] block like a rejection of [callModel]. *)
Definition executeTask (now : Z) (sh : Shell) (tref aref : nat)
                       (outcome : ModelOutcome) (s : State) : State :=
  match nth_error (heap s) tref, nth_error (agents s) aref with
  | Some task, Some agent =>
      let s :=
        match outcome with
        | Resolved result =>
            match executeTask_try now sh tref aref task agent result s with
            | (None, s) => s
            | (Some message, s) =>
                executeTask_catch now tref aref task agent (fs_error message) s
            end
        | Rejected err => executeTask_catch now tref aref task agent err s
        end in
      executeTask_finally aref s
  | _, _ => s
  end.

(** ** Client commands, REST entry point and timers *)

Definition find_task (taskId : string) (s : State) : option nat :=
  find (fun tref => String.eqb (task_id_at s tref) taskId) (tasks s).

(** [approveTask(taskId)]. Nothing catches an error thrown by [writeFiles]
    or [runExecBlocks]: the call stops there and the task keeps its status.
    [handleCommand] does not await the call, so the rejection stays
    unhandled: by its version and flags the Node process logs it and goes
    on, or stops, and a stopped server takes no further event. *)
Definition approveTask (now : Z) (sh : Shell) (taskId : string) (s : State)
  : State :=
  match find_task taskId s with
  | None => s
  | Some tref =>
      match nth_error (heap s) tref with
      | None => s
      | Some task =>
          match t_result task with
          | None => s
          | Some result =>
              let '(thrown, s) :=
                match r_fileContents result with
                | Some ((_ :: _) as fileContents) =>
                    match writeFiles sh fileContents [] s with
                    | (Thrown message, s) => (Some message, s)
                    | (Fulfilled written, s) =>
                        let s := addActivity now "system" "task:approved" s in
                        match r_execBlocks result with
                        | Some ((_ :: _) as execBlocks) =>
                            let s :=
                              addActivity now "system" "exec:starting" s in
                            match runExecBlocks now sh execBlocks "system" []
                                                s with
                            | (Thrown message, s) => (Some message, s)
                            | (Fulfilled execResults, s) =>
                                let s :=
                                  upd_result tref
                                    (result_with_execResults
                                       (Some execResults)) s in
                                (None, addActivity now "system" "exec:done" s)
                            end
                        | _ => (None, s)
                        end
                    end
                | _ => (None, addActivity now "system" "task:approved" s)
                end in
              match thrown with
              | Some _ => s
              | None => upd_task tref (finish_task now Completed) s
              end
          end
      end
  end.

(** The [command:rejectTask] case of [handleCommand]. *)
Definition rejectTask (now : Z) (taskId : string) (s : State) : State :=
  let s := match find_task taskId s with
           | Some tref => upd_task tref (finish_task now Cancelled) s
           | None => s
           end in
  addActivity now "system" "task:rejected" s.

Definition newAgent (now : Z) (config : AgentConfig) (status : AgentStatus)
  : Agent :=
  mkAgent (c_id config) config status 100 100 0 1 0 0 None now 0 0 None.

Inductive Command : Type :=
| CmdCreateTask (title : string) (description agentId : option string)
                (agentIds : option (list string))
| CmdAddAgent (config : AgentConfig)
| CmdApproveTask (taskId : string)
| CmdRejectTask (taskId : string)
| CmdToggleAutoApprove.

(** [handleCommand(msg)] *)
Definition handleCommand (now : Z) (sh : Shell) (msg : Command) (s : State)
  : State :=
  match msg with
  | CmdCreateTask title description agentId agentIds =>
      match agentIds with
      | Some ((_ :: _) as ids) =>
          let s :=
            fold_left
              (fun s aid =>
                 snd (createTask now title (or_else description title)
                                 (Some aid) s)) ids s in
          addActivity now "system" "task:created" s
      | _ => snd (createTask now title (or_else description title) agentId s)
      end
  | CmdAddAgent config =>
      let s := with_agents (agents s ++ [newAgent now config Idle]) s in
      addActivity now (c_id config) "agent:registered" s
  | CmdApproveTask taskId => approveTask now sh taskId s
  | CmdRejectTask taskId => rejectTask now taskId s
  | CmdToggleAutoApprove =>
      let s := with_autoApproveAll (negb (autoApproveAll s)) s in
      addActivity now "system" "config:changed" s
  end.

(** [POST /api/task]: a missing or empty title is answered with 400. *)
Definition postTask (now : Z) (title description agentId : option string)
                    (s : State) : State :=
  match title with
  | None => s
  | Some t =>
      if String.eqb t "" then s
      else snd (createTask now t (or_else description t) agentId s)
  end.

(** The energy and cooldown timer (every 30 s). *)
Definition recharge (now : Z) (a : Agent) : Agent :=
  let a :=
    if AgentStatus_eqb (a_status a) Offline then a
    else
      let rate := Z.max 5 (match c_energyRechargeRate (a_config a) with
                           | Some r => if r =? 0 then 5 else r
                           | None => 5
                           end) in
      agent_with_energy (Z.min (a_maxEnergy a) (a_energy a + rate)) a in
  match a_cooldownUntil a with
  | Some until =>
      if (negb (until =? 0)) && (until <? now) then
        let a := agent_with_cooldownUntil None a in
        if AgentStatus_eqb (a_status a) Cooldown
        then agent_with_status Idle a else a
      else a
  | None => a
  end.

Definition rechargeTick (now : Z) (s : State) : State :=
  with_agents (map (recharge now) (agents s)) s.

(** ** Runs of the server *)

Inductive Event : Type :=
| ClientCommand (now : Z) (sh : Shell) (msg : Command)
| RestPostTask (now : Z) (title description agentId : option string)
| DispatchTick (now : Z)
| RechargeTick (now : Z)
| ModelSettles (now : Z) (sh : Shell) (k : nat) (outcome : ModelOutcome).

(** [callModel] of the [k]-th waiting execution settles. *)
Definition settle (now : Z) (sh : Shell) (k : nat) (outcome : ModelOutcome)
                  (s : State) : State :=
  match nth_error (inflight s) k with
  | None => s
  | Some (tref, aref) =>
      let s := with_inflight
                 (firstn k (inflight s) ++ skipn (S k) (inflight s)) s in
      executeTask now sh tref aref outcome s
  end.

Definition step (s : State) (e : Event) : State :=
  match e with
  | ClientCommand now sh msg => handleCommand now sh msg s
  | RestPostTask now title description agentId =>
      postTask now title description agentId s
  | DispatchTick now => runDispatch now s
  | RechargeTick now => rechargeTick now s
  | ModelSettles now sh k outcome => settle now sh k outcome s
  end.

Definition run_events (events : list Event) (s : State) : State :=
  fold_left step events s.

(** [resolveAgentStatus(agent)] against the process environment. *)
Definition resolveAgentStatus (env : string -> option string)
                              (agent : AgentConfig) : AgentStatus :=
  if String.eqb (c_provider agent) "cursor-bridge"
     || String.eqb (c_provider agent) "copilot-bridge" then Idle
  else match c_apiKeyEnvVar agent with
       | None => Idle
       | Some v =>
           if String.eqb v "" then Idle
           else match env v with
                | Some key => if String.eqb key "" then Offline else Idle
                | None => Offline
                end
       end.

(** The state after start-up: the agents of [agents.json], no task, the
    performance log read from [persistent.json], auto-approve on. *)
Definition boot (dirname : string) (env : string -> option string) (now : Z)
    (configs : list AgentConfig) (memo : PerformanceLog) (randoms : list Q)
  : State :=
  mkState (Path.join [dirname; "workspace"])
          (map (fun c => newAgent now c (resolveAgentStatus env c)) configs)
          [] [] 0 0 [] 0 true memo [] [] [] randoms.

Definition reachable (s0 s : State) : Prop :=
  exists events, s = run_events events s0.

(** ** Specification vocabulary *)

Module Spec.
Import Js.

(** [q] is the arithmetic mean [n / d] rounded to the nearest integer
    (a half rounds up): [n/d - 1/2 < q <= n/d + 1/2]. *)
Definition rounded_mean (n d q : Z) : Prop :=
  2 * n - d < 2 * d * q /\ 2 * d * q <= 2 * n + d.

(** The performance bound on one (agent, category) record. *)
Definition log_ok (l : TypeLog) : Prop :=
  (List.length (scores l) <= 20)%nat
  /\ count l = len (scores l)
  /\ (scores l <> [] ->
      rounded_mean (RL.sum_scores (scores l)) (len (scores l)) (avg l)).



(** The per-category records of an agent. *)
Definition category_logs (memo : PerformanceLog) (agentId : string)
  : list TypeLog :=
  match Obj.get agentId memo with
  | Some agentLog => Obj.values agentLog
  | None => []
  end.

Definition sum_avgs (l : list TypeLog) : Z := fold_right (fun t s => avg t + s) 0 l.

(** The overall score as the specification words it: the rounded mean of
    the per-category averages, 50 without records. *)
Definition spec_overall (memo : PerformanceLog) (agentId : string) : Z :=
  match category_logs memo agentId with
  | [] => 50
  | (_ :: _) as logs => round_div (sum_avgs logs) (len logs)
  end.

(** The token bucket as the specification words it. *)
Definition spec_token_bucket (T : Z) : Z :=
  if (0 <? T) && (T <? 500) then 15
  else if (500 <=? T) && (T <? 2000) then 12
  else if (2000 <=? T) && (T <? 5000) then 8
  else if (5000 <=? T) && (T <? 10000) then 4
  else 0.

Definition clamp (x lo hi : Z) : Z := Z.min hi (Z.max lo x).

(** The reference formula of the specification. [nF] and [nE] are the
    numbers of parsed files and command intents, [R] the number of
    successful outcomes when outcomes are present, [markerPoints] what the
    FILE markers of the raw text contribute. *)
Definition spec_formula (nF : Z) (markerPoints : Z) (nE : Z) (R : option Z)
                        (T : Z) (S : TaskStatus) : Z :=
  let base := 0 in
  let base := if 0 <? nF then base + 20 + Z.min 20 (5 * nF) else base in
  let base := base + markerPoints in
  let base :=
    match R with
    | Some successful =>
        if 0 <? nE then base + round_div (15 * successful) nE
        else if nE =? 0 then base + 10 else base
    | None => if nE =? 0 then base + 10 else base
    end in
  let base := base + spec_token_bucket T in
  let base := if TaskStatus_eqb S Failed then base else base + 15 in
  clamp base 0 100.

(** The specification's reading of the marker bonus: 15 when the FILE
    markers are present. [present] is that judgement. *)
Definition spec_score (nF : Z) (present : bool) (nE : Z) (R : option Z)
                      (T : Z) (S : TaskStatus) : Z :=
  spec_formula nF (if present then 15 else 0) nE R T S.

(** What the markers contribute in the source: 5 for each of the three
    markers that occurs in the raw text. *)
Definition marker_count (raw : string) : Z :=
  (if Text.includes raw "===FILE===" then 1 else 0)
  + (if Text.includes raw "===CONTENT===" then 1 else 0)
  + (if Text.includes raw "===END_FILE===" then 1 else 0).

End Spec.

(** ** Concrete inputs used by the examples *)

Module Sample.

Definition nl : string := Parser.nl.

(** An agent has failed once on a task of category [general] with a fault
    that is not an API error: the score 0 was recorded. *)
Definition memo_zero : PerformanceLog :=
  RL.recordPerformance 5 "a1" ["general"] 0 "TASK-001" [].


(** The same agent has done one task of category [general], scored 50. *)
Definition memo_fifty : PerformanceLog :=
  RL.recordPerformance 5 "a1" ["general"] 50 "TASK-001" [].

(** A response whose FILE block lacks its terminator. *)
Definition unterminated : string :=
  ("===FILE===" ++ nl ++ "path: a.js" ++ nl ++ "===CONTENT===" ++ nl
   ++ "console.log(1)")%string.

Definition task_in (status : TaskStatus) : Task :=
  mkTask "TASK-001" "write a.js" "write a.js" status LowRisk Medium
         (Some "a1") "user" None 0 1 (Some 1) (Some 5) None [] ["javascript"]
         "auto".

End Sample.

(** ** Invariants of the task store *)

Module Store.

(** The fields of a task that no operation on an existing task changes. *)
Definition core (t : Task) : Priority * Z := (t_priority t, t_depth t).

(** [grows P h h']: every task of [h] is still in [h'] at the same place
    with the same priority and depth, and every task that [h'] has in
    addition satisfies [P]. *)
Definition grows (P : Priority -> Z -> Prop) (h h' : list Task) : Prop :=
  (forall i t, nth_error h i = Some t ->
               exists t', nth_error h' i = Some t' /\ core t' = core t)
  /\ (forall i t', nth_error h i = None -> nth_error h' i = Some t' ->
                   P (t_priority t') (t_depth t')).

Definition none : Priority -> Z -> Prop := fun _ _ => False.
Definition fresh : Priority -> Z -> Prop := fun p d => p = Medium /\ d = 0.

Definition all_medium (h : list Task) : Prop :=
  forall t, In t h -> t_priority t = Medium.

Definition depth_bounded (h : list Task) : Prop :=
  forall t, In t h -> 0 <= t_depth t <= 3.

End Store.

Definition working_count (s : State) : nat :=
  List.length (filter (fun a => AgentStatus_eqb (a_status a) Working)
                      (agents s)).

(** The executions launched by a dispatch: the entries it appends to
    [inflight]. *)
Definition launched (before after : State) : list (nat * nat) :=
  skipn (List.length (inflight before)) (inflight after).

(** What one state owes to an earlier one across launches: the store only
    sees status changes; the new waiting executions run a given task, each
    on an agent of its own that was callable and is now working; no agent
    becomes callable and no working agent stops working. *)
Definition dispatched (from : list nat) (s s' : State) : Prop :=
  Store.grows Store.none (heap s) (heap s')
  /\ tasks s' = tasks s /\ disk s' = disk s /\ shell s' = shell s
  /\ (exists new,
        inflight s' = inflight s ++ new
        /\ NoDup (map snd new)
        /\ forall tref aref, In (tref, aref) new ->
             In tref from
             /\ (exists a, nth_error (agents s) aref = Some a
                           /\ callable a = true)
             /\ (exists a', nth_error (agents s') aref = Some a'
                            /\ a_status a' = Working))
  /\ (forall i a', nth_error (agents s') i = Some a' -> callable a' = true ->
        exists a, nth_error (agents s) i = Some a /\ callable a = true)
  /\ (forall i a, nth_error (agents s) i = Some a -> a_status a = Working ->
        exists a', nth_error (agents s') i = Some a'
                   /\ a_status a' = Working).

(** ** Concrete runs used by the examples *)

Module Scenario.

Definition nl : string := Parser.nl.

Definition config (id : string) : AgentConfig :=
  mkAgentConfig id id "openai-compatible" "some-model" "general" None None.

(** Six agents without credential variable, hence idle at start-up. *)
Definition start : State :=
  boot "/srv/app" (fun _ => None) 0
       (map config ["a1"; "a2"; "a3"; "a4"; "a5"; "a6"]) [] [].

(** A host on which every command returns normally and every write and
    directory is granted. *)
Definition sh : Shell :=
  mkShell (fun _ _ => (true, "ok")) (fun _ _ => None) (fun _ => None).

Definition request (agentId : string) : Event :=
  ClientCommand 1 sh (CmdCreateTask "write hello" None (Some agentId) None).

(** A seventh task arrives while the six agents work; then the first
    agent finishes. *)
Definition before_tick : State :=
  run_events (map request ["a1"; "a2"; "a3"; "a4"; "a5"; "a6"; "a1"]
              ++ [ModelSettles 5 sh 0 (Resolved (mkModelResult "done" 10))])
             start.

Definition after_tick : State := run_events [DispatchTick 9] before_tick.

(** The backend answers the first task with HTTP 429. *)
Definition too_many_requests : ModelError :=
  mkModelError (Some 429) "429 Too Many Requests".

Definition rate_limited : State :=
  run_events [request "a1"; ModelSettles 5 sh 0 (Rejected too_many_requests)]
             start.

(** A response that names a file above the workspace and a working
    directory beside it. *)
Definition escaping_output : string :=
  ("===FILE===" ++ nl ++ "path: ../escape.txt" ++ nl ++ "===CONTENT===" ++ nl
   ++ "x" ++ nl ++ "===END_FILE===" ++ nl
   ++ "===EXEC===" ++ nl ++ "cwd: ../workspace-evil" ++ nl ++ "cmd: ls" ++ nl
   ++ "===END_EXEC===" ++ nl)%string.

Definition escaped : State :=
  run_events [request "a1";
              ModelSettles 5 sh 0 (Resolved (mkModelResult escaping_output 100))]
             start.

(** A high-risk task reaches review with one file and one command. *)
Definition reviewed_output : string :=
  ("===FILE===" ++ nl ++ "path: app.js" ++ nl ++ "===CONTENT===" ++ nl
   ++ "x" ++ nl ++ "===END_FILE===" ++ nl
   ++ "===EXEC===" ++ nl ++ "cwd: ." ++ nl ++ "cmd: npm install" ++ nl
   ++ "===END_EXEC===" ++ nl)%string.

Definition in_review : State :=
  run_events [ClientCommand 0 sh CmdToggleAutoApprove;
              ClientCommand 1 sh
                (CmdCreateTask "build app" None (Some "a1") None);
              ModelSettles 5 sh 0 (Resolved (mkModelResult reviewed_output 100))]
             start.

Definition rejected : State :=
  run_events [ClientCommand 6 sh (CmdRejectTask "TASK-001")] in_review.

Definition approved_after_reject : State :=
  run_events [ClientCommand 7 sh (CmdApproveTask "TASK-001")] rejected.

(** A response with one command and one subtask next to two sentences. *)
Definition chatty_output : string :=
  ("Installing." ++ nl ++ "===EXEC===" ++ nl ++ "cwd: ." ++ nl
   ++ "cmd: npm install" ++ nl ++ "===END_EXEC===" ++ nl
   ++ "===SUBTASK===" ++ nl ++ "title: add test" ++ nl ++ "agent: auto" ++ nl
   ++ "description: cover it" ++ nl ++ "===END_SUBTASK===" ++ nl
   ++ "Done.")%string.

(** A response whose only FILE block holds an EXEC block in its content. *)
Definition nested_output : string :=
  ("===FILE===" ++ nl ++ "path: run.md" ++ nl ++ "===CONTENT===" ++ nl
   ++ "===EXEC===" ++ nl ++ "cwd: ." ++ nl ++ "cmd: npm test" ++ nl
   ++ "===END_EXEC===" ++ nl ++ "===END_FILE===")%string.

(** A chain of subtasks, each execution answering with one SUBTASK block. *)
Definition subtask_output : string :=
  ("===SUBTASK===" ++ nl ++ "title: add test" ++ nl ++ "agent: auto" ++ nl
   ++ "description: cover it" ++ nl ++ "===END_SUBTASK===" ++ nl)%string.

Definition spawns : Event :=
  ModelSettles 6 sh 0 (Resolved (mkModelResult subtask_output 100)).

Definition chain : list Event := [request "a1"; spawns; spawns; spawns; spawns].

End Scenario.

Module Confine.

(** [p] lies strictly inside the directory [root]. *)
Definition inside (root p : string) : bool :=
  Text.startsWith p (root ++ "/")%string.

End Confine.

(** A task added by the execution of the task at [tref] of the store [h]:
    a child one level below its parent, whose depth is below 3. *)
Definition child_in (h : list Task) (tref : nat) : Priority -> Z -> Prop :=
  fun p d =>
    p = Medium
    /\ exists parent, nth_error h tref = Some parent
                      /\ t_depth parent < 3 /\ d = t_depth parent + 1.

(** A task added by one event: a new root task, or the child of a task of
    the store [h] whose depth is below 3. *)
Definition added (h : list Task) : Priority -> Z -> Prop :=
  fun p d =>
    p = Medium
    /\ (d = 0
        \/ exists parent, In parent h /\ t_depth parent < 3
                          /\ d = t_depth parent + 1).

(** ** The language of a pattern and the residual text *)

Module Lang.
Import Text Regex.

(** [matches r w]: the text [w] belongs to the language of [r] (the
    look-ahead of [WordEnd] is not part of the matched text). *)
Inductive matches : regex -> list ascii -> Prop :=
| MLit p : matches (Lit p) (chars p)
| MCls (p : ascii -> bool) c : p c = true -> matches (Cls p) [c]
| MCat a b w1 w2 : matches a w1 -> matches b w2 -> matches (Cat a b) (w1 ++ w2)
| MAltL a b w : matches a w -> matches (Alt a b) w
| MAltR a b w : matches b w -> matches (Alt a b) w
| MStar0 g a : matches (Star g a) []
| MStarS g a w1 w2 :
    matches a w1 -> matches (Star g a) w2 -> matches (Star g a) (w1 ++ w2)
| MGrp a w : matches a w -> matches (Grp a) w
| MWordEnd : matches WordEnd [].

(** The text with the blocks of [hs] put back between the gaps. *)
Definition rebuild (hs : list hit) (tail : list ascii) : list ascii :=
  List.concat (map (fun h => gap h ++ matched h) hs) ++ tail.

(** The text that is left when the blocks are taken out. *)
Definition residue (hs : list hit) (tail : list ascii) : list ascii :=
  List.concat (map gap hs) ++ tail.

(** The blocks of [hs] are the successive matches of [r] in the text
    [rebuild hs tail], as [replace] and [exec] find them with a global
    pattern: no match begins inside a gap, and each block is what the
    matcher takes at its place. *)
Fixpoint unmatched (r : regex) (g after : list ascii) : Prop :=
  match g with
  | [] => True
  | _ :: g' => match_here r (g ++ after) = None /\ unmatched r g' after
  end.

Fixpoint leftmost (r : regex) (hs : list hit) (tail : list ascii) : Prop :=
  match hs with
  | [] => True
  | h :: hs' =>
      unmatched r (gap h) (matched h ++ rebuild hs' tail)
      /\ match_here r (matched h ++ rebuild hs' tail)
         = Some (rebuild hs' tail, groups h)
      /\ leftmost r hs' tail
  end.

(** [t] is [s] without its leading and trailing white space. *)
Definition trimmed (s t : list ascii) : Prop :=
  exists a b,
    s = a ++ t ++ b
    /\ forallb is_space a = true /\ forallb is_space b = true
    /\ (forall c t', t = c :: t' -> is_space c = false)
    /\ (forall t' c, t = t' ++ [c] -> is_space c = false).

(** [t] is [s] with every maximal run of three or more newlines cut down
    to two newlines. *)
Inductive squeezed : list ascii -> list ascii -> Prop :=
| SqNil : squeezed [] []
| SqChar c s t :
    is_newline c = false -> squeezed s t -> squeezed (c :: s) (c :: t)
| SqRun n s t :
    (0 < n)%nat ->
    (forall c s', s = c :: s' -> is_newline c = false) ->
    squeezed s t ->
    squeezed (repeat newline n ++ s) (repeat newline (Nat.min n 2) ++ t).

(** A run of characters without white space, such as a marker, a path or
    a word. *)
Definition solid (w : list ascii) : Prop :=
  w <> [] /\ forallb (fun c => negb (is_space c)) w = true.

(** Trim, replace every run of three or more newlines by two, trim. *)
Definition tidy (s : list ascii) : list ascii :=
  trim_chars (collapse_blank (trim_chars s)).

(** The residual explanation as the specification words it: the blocks of
    the three kinds removed, blank lines collapsed. *)
Definition spec_residual (output : string) : string :=
  str (tidy (remove_all Parser.subtaskRegex
               (remove_all Parser.execRegex
                  (remove_all Parser.fileRegex (chars output))))).

End Lang.

(** No run of newlines of [s] is longer than two, [run] newlines having
    been read just before [s]. *)
Fixpoint runs_ok (run : nat) (s : list ascii) : bool :=
  match s with
  | [] => true
  | c :: s' =>
      if Text.is_newline c then (run <? 2)%nat && runs_ok (S run) s'
      else runs_ok 0 s'
  end.

(** Three newlines in a row: more than one blank line. *)
Definition blank_lines : string :=
  (Parser.nl ++ Parser.nl ++ Parser.nl)%string.

(** ** Further specification vocabulary *)

Module Range.

(** A score as [scoreOutput] and the failure path produce it. *)
Definition score_ok (x : Z) : Prop := 0 <= x <= 100.

(** Every record of every agent is within the performance bound and holds
    at least one score, all between 0 and 100. *)
Definition well_scored (memo : PerformanceLog) : Prop :=
  forall agentId agentLog,
    Obj.get agentId memo = Some agentLog ->
    Forall (fun l => Spec.log_ok l /\ scores l <> []
                     /\ Forall (fun e => score_ok (s_score e)) (scores l))
           (Obj.values agentLog).

End Range.

(** The score [pickAgent] gives an agent for a task. *)
Definition pick_score (s : State) (title description : string) (a : Agent) : Q :=
  finalScore (performanceLog s) (RL.classifyTask title description) a.

(** The callable agents that score strictly higher than [a]. *)
Definition better_agents (s : State) (title description : string) (a : Agent)
  : list (nat * Agent) :=
  filter (fun ia => negb (Qle_bool (pick_score s title description (snd ia))
                                   (pick_score s title description a)))
         (getCallableAgents s).

(** The visible tasks that are completed, cancelled or failed. *)
Definition finished_tasks (s : State) : list nat :=
  filter (is_finished s) (tasks s).

(** A run in which one agent finishes thirty-one tasks in turn, the
    [k]-th at time [k]. *)
Module Backlog.

Definition round (k : nat) : list Event :=
  [Scenario.request "a1";
   ModelSettles (Z.of_nat k) Scenario.sh 0
                (Resolved (mkModelResult "done" 10))].

Definition busy_day : State :=
  run_events (flat_map round (seq 0 31)) Scenario.start.

(** The same state with every task of the store on the board again. *)
Definition overfull : State := with_tasks (seq 0 31) busy_day.

End Backlog.

(** Seven requests for six agents: the last task finds every agent at
    work. *)
Module Busy.

Definition saturated : State :=
  run_events (map Scenario.request ["a1"; "a2"; "a3"; "a4"; "a5"; "a6"; "a1"])
             Scenario.start.

End Busy.

(** What creating and dispatching tasks leaves alone: the disk, the shell
    log, the performance log, the workspace root, the token counter, every
    task that is no longer pending and every agent that is not callable. *)
Definition undisturbed (s s' : State) : Prop :=
  disk s' = disk s /\ shell s' = shell s
  /\ performanceLog s' = performanceLog s
  /\ PROJECT_ROOT s' = PROJECT_ROOT s
  /\ totalGlobalTokens s' = totalGlobalTokens s
  /\ (forall i t, nth_error (heap s) i = Some t -> t_status t <> Pending ->
        nth_error (heap s') i = Some t)
  /\ (forall i a, nth_error (agents s) i = Some a -> callable a = false ->
        nth_error (agents s') i = Some a).

(** The disk entries [writeFiles] appends for a list of files. *)
Definition written_files (root : string) (files : list FileIntent)
  : list (string * string) :=
  map (fun f => (Path.join [root; path f], content f)) files.

(** The shell entries [runExecBlocks] appends: the blocks whose working
    directory passes the prefix test, in order. *)
Definition commands_run (root : string) (blocks : list ExecBlock)
  : list (string * string) :=
  map (fun b => (Path.join [root; cwd b], cmd b))
      (filter (fun b => Text.startsWith (Path.join [root; cwd b]) root) blocks).

(** The files [writeFiles] writes on the host [sh]: those before the first
    one whose write is refused. *)
Fixpoint granted (sh : Shell) (root : string) (files : list FileIntent)
  : list FileIntent :=
  match files with
  | [] => []
  | f :: rest =>
      match fs_writeFile sh (Path.join [root; path f]) (content f) with
      | Some _ => []
      | None => f :: granted sh root rest
      end
  end.

(** The message of that first refusal, if there is one. *)
Fixpoint write_refusal (sh : Shell) (root : string) (files : list FileIntent)
  : option string :=
  match files with
  | [] => None
  | f :: rest =>
      match fs_writeFile sh (Path.join [root; path f]) (content f) with
      | Some message => Some message
      | None => write_refusal sh root rest
      end
  end.

(** The blocks [runExecBlocks] gets through on the host [sh]: those before
    the first one whose working directory passes the prefix test and cannot
    be created. *)
Fixpoint reached (sh : Shell) (root : string) (blocks : list ExecBlock)
  : list ExecBlock :=
  match blocks with
  | [] => []
  | b :: rest =>
      if Text.startsWith (Path.join [root; cwd b]) root then
        match fs_mkdir sh (Path.join [root; cwd b]) with
        | Some _ => []
        | None => b :: reached sh root rest
        end
      else b :: reached sh root rest
  end.

(** The message of that first refused directory, if there is one. *)
Fixpoint mkdir_refusal (sh : Shell) (root : string) (blocks : list ExecBlock)
  : option string :=
  match blocks with
  | [] => None
  | b :: rest =>
      if Text.startsWith (Path.join [root; cwd b]) root then
        match fs_mkdir sh (Path.join [root; cwd b]) with
        | Some message => Some message
        | None => mkdir_refusal sh root rest
        end
      else mkdir_refusal sh root rest
  end.

(** The error that stops the application of [files] and [blocks] on the
    host [sh], if any: the first refused write or, when every file is
    written, the first refused working directory. *)
Definition apply_error (sh : Shell) (root : string) (files : list FileIntent)
    (blocks : list ExecBlock) : option string :=
  match write_refusal sh root files with
  | Some message => Some message
  | None => mkdir_refusal sh root blocks
  end.

(** The shell entries of that application: none when a write is refused. *)
Definition commands_applied (sh : Shell) (root : string)
    (files : list FileIntent) (blocks : list ExecBlock)
  : list (string * string) :=
  match write_refusal sh root files with
  | Some _ => []
  | None => commands_run root (reached sh root blocks)
  end.

Definition risk_at (s : State) (tref : nat) : option Risk :=
  option_map t_risk (nth_error (heap s) tref).

(** The error that takes the [try] block of [executeTask] to the [catch]
    block after [callModel] has resolved with [r], if any: a low-risk task
    with files is applied at once, and the application can fail. *)
Definition thrown_by (sh : Shell) (s : State) (tref : nat) (r : ModelResult)
  : option string :=
  match risk_at s tref, fst (Parser.parseFiles (m_output r)) with
  | Some LowRisk, (_ :: _) as files =>
      apply_error sh (PROJECT_ROOT s) files
                  (Parser.parseExecBlocks (m_output r))
  | _, _ => None
  end.

Definition agent_status_at (s : State) (aref : nat) : option AgentStatus :=
  option_map a_status (nth_error (agents s) aref).

(** States in which the first agent waits for the model on the first
    task. *)
Module Waiting.

(** Auto-approve is on: the task is low-risk. *)
Definition trusted : State :=
  run_events [Scenario.request "a1"] Scenario.start.

(** Auto-approve is off and the title is not a low-risk one: the task is
    high-risk. *)
Definition guarded : State :=
  run_events [ClientCommand 0 Scenario.sh CmdToggleAutoApprove;
              ClientCommand 1 Scenario.sh
                (CmdCreateTask "build app" None (Some "a1") None)]
             Scenario.start.

Definition answer : ModelOutcome :=
  Resolved (mkModelResult Scenario.reviewed_output 100).

End Waiting.

(** A host whose file system is mounted read-only: every write is
    refused. *)
Module Refusing.

Definition read_only : Shell :=
  mkShell (fun _ _ => (true, "ok"))
          (fun _ _ => Some "EROFS: read-only file system")
          (fun _ => None).

End Refusing.

(** Every waiting execution holds an agent of its own, and that agent is
    working. *)
Definition booked (s : State) : Prop :=
  NoDup (map snd (inflight s))
  /\ forall tref aref, In (tref, aref) (inflight s) ->
       agent_status_at s aref = Some Working.

(** What creating and dispatching tasks does to the agents and to the
    waiting executions: the new executions each hold an agent of their own
    that was callable and is now working; no agent becomes callable and no
    working agent stops working. *)
Definition booking (s s' : State) : Prop :=
  (exists new,
      inflight s' = inflight s ++ new
      /\ NoDup (map snd new)
      /\ forall tref aref, In (tref, aref) new ->
           (exists a, nth_error (agents s) aref = Some a /\ callable a = true)
           /\ (exists a', nth_error (agents s') aref = Some a'
                          /\ a_status a' = Working))
  /\ (forall i a', nth_error (agents s') i = Some a' -> callable a' = true ->
        exists a, nth_error (agents s) i = Some a /\ callable a = true)
  /\ (forall i a, nth_error (agents s) i = Some a -> a_status a = Working ->
        exists a', nth_error (agents s') i = Some a' /\ a_status a' = Working).

(** The id [createTask] gives the task it creates as the [i+1]-th. *)
Definition task_name (i : nat) : string :=
  ("TASK-" ++ padStart3 (decimal (Z.of_nat i + 1)))%string.

(** The numbering of the tasks: the counter is the number of tasks ever
    created, of which the ones that left the board are counted as archived;
    the tasks carry the names of their rank of creation; the board shows
    existing tasks, each once. *)
Definition ids_ok (s : State) : Prop :=
  taskCounter s = len (heap s)
  /\ taskCounter s = len (tasks s) + archivedTaskCount s
  /\ (forall i t, nth_error (heap s) i = Some t -> t_id t = task_name i)
  /\ NoDup (tasks s)
  /\ (forall tref, In tref (tasks s) -> (tref < List.length (heap s))%nat).

(** What a task is given at its creation and keeps: its id, title,
    description, risk, preferred agent, tags and time of creation. *)
Definition ident (t : Task)
  : string * string * string * Risk * string * list string * Z :=
  (t_id t, t_title t, t_description t, t_risk t, t_preferredAgentId t,
   t_tags t, t_created t).

(** A step that creates and archives nothing and leaves every task what it
    was created as. *)
Definition same_ids (s s' : State) : Prop :=
  taskCounter s' = taskCounter s /\ tasks s' = tasks s
  /\ archivedTaskCount s' = archivedTaskCount s
  /\ List.length (heap s') = List.length (heap s)
  /\ (forall i t, nth_error (heap s) i = Some t ->
        exists t', nth_error (heap s') i = Some t' /\ ident t' = ident t).

(** Every task of [s] is still in the store of [s'], at the same place and
    with what it was created as. *)
Definition keeps_ident (s s' : State) : Prop :=
  forall i t, nth_error (heap s) i = Some t ->
    exists t', nth_error (heap s') i = Some t' /\ ident t' = ident t.

(** The words of a title that make a task low-risk when auto-approve is
    off. *)
Definition low_risk_words : list string :=
  ["test"; "doc"; "readme"; "comment"; "type"; "hello"; "simple"; "example"].

(** The number a decimal numeral stands for, leading zeros allowed. *)
Definition number_of (s : string) : option nat :=
  option_map Nat.of_uint (NilEmpty.uint_of_string s).

(** The events that lead to [Waiting.guarded]. *)
Definition guarded_events : list Event :=
  [ClientCommand 0 Scenario.sh CmdToggleAutoApprove;
   ClientCommand 1 Scenario.sh
     (CmdCreateTask "build app" None (Some "a1") None)].

(** Every text of the language of [r] begins with [p], resp. ends with
    [q]. *)
Definition begins_with (r : Regex.regex) (p : string) : Prop :=
  forall w, Lang.matches r w -> exists m, w = Text.chars p ++ m.

Definition ends_with (r : Regex.regex) (q : string) : Prop :=
  forall w, Lang.matches r w -> exists m, w = m ++ Text.chars q.

(** The bookkeeping of an agent is sound: the energy lies between 0 and the
    maximum of 100, the xp is not negative and determines the level, the
    status is never [error], and the agent has a current task exactly when
    it is working. *)
Definition agent_ok (a : Agent) : Prop :=
  0 <= a_energy a <= a_maxEnergy a /\ a_maxEnergy a = 100
  /\ 0 <= a_xp a /\ a_level a = a_xp a / 300 + 1
  /\ a_status a <> Errored
  /\ (a_status a = Working <-> a_currentTaskId a <> None).

(** The model reports no negative number of tokens. *)
Definition sane_tokens (e : Event) : Prop :=
  match e with
  | ModelSettles _ _ _ (Resolved r) => 0 <= m_tokensUsed r
  | _ => True
  end.

(** ** The throttle of the state broadcasts *)

Module Throttle.

(** [broadcastPending], [lastBroadcastTime], the due time of the timer set
    by [setTimeout] if one is set, and the times at which the state has been
    broadcast. *)
Record state : Type := mkThrottle {
  broadcastPending : bool;
  lastBroadcastTime : Z;
  timer : option Z;
  sent : list Z
}.

Definition init : state := mkThrottle false 0 None [].

(** [doBroadcastState()], with [now] the value of [Date.now()]. *)
Definition doBroadcastState (now : Z) (t : state) : state :=
  mkThrottle (broadcastPending t) now (timer t) (sent t ++ [now]).

(** [scheduleBroadcast()]: [now] is what [Date.now()] returns in
    [scheduleBroadcast], [now'] what it returns in [doBroadcastState]. *)
Definition scheduleBroadcast (now now' : Z) (t : state) : state :=
  if broadcastPending t then t
  else
    let elapsed := now - lastBroadcastTime t in
    if 300 <=? elapsed then doBroadcastState now' t
    else mkThrottle true (lastBroadcastTime t) (Some (now + (300 - elapsed)))
                    (sent t).

(** The callback given to [setTimeout] runs. *)
Definition timeout (now : Z) (t : state) : state :=
  match timer t with
  | Some _ =>
      doBroadcastState now
        (mkThrottle false (lastBroadcastTime t) None (sent t))
  | None => t
  end.

Inductive event : Type :=
| Request (now now' : Z)
| Timeout (now : Z).

Definition step (t : state) (e : event) : state :=
  match e with
  | Request now now' => scheduleBroadcast now now' t
  | Timeout now => timeout now t
  end.

Definition run (es : list event) (t : state) : state := fold_left step es t.

(** Within one request the clock does not run backwards, and the callback
    of a timer runs only when a timer is set, not before it is due. *)
Fixpoint timely (t : state) (es : list event) : Prop :=
  match es with
  | [] => True
  | e :: es' =>
      match e with
      | Request now now' => now <= now'
      | Timeout now => exists due, timer t = Some due /\ due <= now
      end
      /\ timely (step t e) es'
  end.

(** Consecutive times are at least 300 ms apart. *)
Definition spaced (l : list Z) : Prop :=
  forall i a b, nth_error l i = Some a -> nth_error l (S i) = Some b ->
                a + 300 <= b.

(** The throttle between two events. *)
Definition inv (t : state) : Prop :=
  spaced (sent t)
  /\ (forall b, nth_error (sent t) (List.length (sent t) - 1) = Some b ->
        lastBroadcastTime t = b)
  /\ (forall due, timer t = Some due ->
        broadcastPending t = true /\ due = lastBroadcastTime t + 300).

End Throttle.

(** * Verified properties *)

(** ** Rounding *)

Lemma round_div_rounded_mean (n d : Z) :
  0 < d -> Spec.rounded_mean n d (Js.round_div n d).
Proof.
  intros Hd. unfold Spec.rounded_mean, Js.round_div.
  pose proof (Z.div_mod (2 * n + d) (2 * d)) as E.
  pose proof (Z.mod_pos_bound (2 * n + d) (2 * d)) as B.
  lia.
Qed.

Lemma len_nonneg {A : Type} (l : list A) : 0 <= Js.len l.
Proof. unfold Js.len. lia. Qed.

Lemma len_pos {A : Type} (l : list A) : l <> [] -> 0 < Js.len l.
Proof. destruct l; [congruence | unfold Js.len; simpl; lia]. Qed.

(** ** Objects used as maps *)

Lemma get_set_same {V : Type} (k : string) (v : V) (m : list (string * V)) :
  Obj.get k (Obj.set k v m) = Some v.
Proof.
  induction m as [| [k' v'] m IH]; simpl.
  - now rewrite String.eqb_refl.
  - destruct (String.eqb k k') eqn:E; simpl; rewrite E; auto.
Qed.

Lemma get_set_other {V : Type} (k k' : string) (v : V) (m : list (string * V)) :
  k' <> k -> Obj.get k' (Obj.set k v m) = Obj.get k' m.
Proof.
  intros Hne. induction m as [| [k0 v0] m IH]; simpl.
  - apply String.eqb_neq in Hne. now rewrite Hne.
  - destruct (String.eqb k k0) eqn:E; simpl.
    + apply String.eqb_eq in E. subst k0.
      apply String.eqb_neq in Hne. now rewrite Hne.
    + destruct (String.eqb k' k0); auto.
Qed.

(** ** The performance log *)

Lemma last_n_length {A : Type} (n : nat) (l : list A) :
  (List.length (Js.last_n n l) <= n)%nat.
Proof. unfold Js.last_n. rewrite length_skipn. lia. Qed.

Lemma last_n_snoc {A : Type} (n : nat) (l : list A) (x : A) :
  (0 < n)%nat -> exists older, Js.last_n n (l ++ [x]) = older ++ [x].
Proof.
  intros Hn. unfold Js.last_n. rewrite length_app. simpl.
  rewrite skipn_app.
  replace (List.length l + 1 - n - List.length l)%nat with 0%nat by lia.
  simpl. eauto.
Qed.

Lemma record_entry_scores (e : ScoreEntry) (log : TypeLog) :
  exists older, scores (RL.record_entry e log) = older ++ [e].
Proof.
  unfold RL.record_entry. simpl.
  destruct (20 <? Js.len (scores log ++ [e])).
  - apply last_n_snoc. lia.
  - eauto.
Qed.

Lemma last_n_short {A : Type} (n : nat) (l : list A) :
  (List.length l <= n)%nat -> Js.last_n n l = l.
Proof.
  intros H. unfold Js.last_n.
  replace (List.length l - n)%nat with 0%nat by lia. reflexivity.
Qed.

Lemma record_entry_last_20 (e : ScoreEntry) (log : TypeLog) :
  scores (RL.record_entry e log) = Js.last_n 20 (scores log ++ [e]).
Proof.
  unfold RL.record_entry. cbn [scores].
  destruct (20 <? Js.len (scores log ++ [e])) eqn:E; [reflexivity |].
  symmetry. apply last_n_short. apply Z.ltb_ge in E. unfold Js.len in E. lia.
Qed.

Lemma record_entry_ok (e : ScoreEntry) (log : TypeLog) :
  Spec.log_ok (RL.record_entry e log).
Proof.
  unfold Spec.log_ok, RL.record_entry. simpl.
  set (pushed := scores log ++ [e]).
  set (kept := if 20 <? Js.len pushed then Js.last_n 20 pushed else pushed).
  repeat split.
  - subst kept. destruct (20 <? Js.len pushed) eqn:E.
    + apply last_n_length.
    + apply Z.ltb_ge in E. unfold Js.len in E. lia.
  - apply round_div_rounded_mean, len_pos; assumption.
  - apply round_div_rounded_mean, len_pos; assumption.
Qed.

Lemma lookup_record_type (agentId : string) (e : ScoreEntry)
      (memo : PerformanceLog) (type a t : string) :
  RL.lookup_log (RL.record_type agentId e memo type) a t =
  if String.eqb a agentId && String.eqb t type
  then Some (RL.record_entry e
               (match RL.lookup_log memo agentId type with
                | Some l => l
                | None => RL.empty_log
                end))
  else RL.lookup_log memo a t.
Proof.
  unfold RL.lookup_log, RL.record_type.
  destruct (String.eqb a agentId) eqn:Ea; simpl.
  - apply String.eqb_eq in Ea. subst a. rewrite get_set_same.
    destruct (String.eqb t type) eqn:Et.
    + apply String.eqb_eq in Et. subst t. rewrite get_set_same.
      destruct (Obj.get agentId memo); reflexivity.
    + apply String.eqb_neq in Et. rewrite get_set_other by assumption.
      destruct (Obj.get agentId memo); reflexivity.
  - apply String.eqb_neq in Ea. now rewrite get_set_other.
Qed.




Lemma lookup_fresh_agent (agentId : string) (memo : PerformanceLog)
      (a t : string) :
  Obj.get agentId memo = None ->
  RL.lookup_log (Obj.set agentId [] memo) a t = RL.lookup_log memo a t.
Proof.
  intros Hn. unfold RL.lookup_log.
  destruct (String.eqb a agentId) eqn:E.
  - apply String.eqb_eq in E. subst a. rewrite get_set_same, Hn. reflexivity.
  - apply String.eqb_neq in E. now rewrite get_set_other.
Qed.







(** Seventeen scores of 50 followed by three of 90 average to 56, and a
    twenty-first score evicts the oldest one. *)
Example performance_convergence :
  let record memo sc := RL.recordPerformance 0 "a" ["javascript"] sc "t" memo in
  let memo := fold_left record (repeat 50 17 ++ repeat 90 3) [] in
  option_map avg (RL.lookup_log memo "a" "javascript") = Some 56
  /\ option_map (fun l => map s_score (scores l))
                (RL.lookup_log (record memo 10) "a" "javascript")
     = Some (repeat 50 16 ++ repeat 90 3 ++ [10]).
Proof. vm_compute. split; reflexivity. Qed.

(** ** The overall score *)

Lemma fold_avg_or_50 (l : list TypeLog) (acc : Z) :
  Forall (fun t => avg t <> 0) l ->
  fold_left (fun s t => s + RL.avg_or_50 t) l acc = acc + Spec.sum_avgs l.
Proof.
  revert acc. induction l as [| t l IH]; simpl; intros acc H.
  - lia.
  - inversion H as [| ? ? Ht Hl]; subst. rewrite IH by assumption.
    unfold RL.avg_or_50. apply Z.eqb_neq in Ht. rewrite Ht. lia.
Qed.

(** C9, as the code has it. For an agent none of whose per-category
    averages is 0, the overall score is the rounded arithmetic mean of the
    per-category averages; it is 50 when the agent has no performance
    record. *)
Theorem overall_score_mean (memo : PerformanceLog) (agentId : string) :
  Forall (fun t => avg t <> 0) (Spec.category_logs memo agentId) ->
  RL.getAgentOverallScore memo agentId = Spec.spec_overall memo agentId
  /\ (Spec.category_logs memo agentId = [] ->
      RL.getAgentOverallScore memo agentId = 50)
  /\ (Spec.category_logs memo agentId <> [] ->
      Spec.rounded_mean (Spec.sum_avgs (Spec.category_logs memo agentId))
                        (Js.len (Spec.category_logs memo agentId))
                        (RL.getAgentOverallScore memo agentId)).
Proof.
  intros H.
  assert (E : RL.getAgentOverallScore memo agentId
              = Spec.spec_overall memo agentId).
  { unfold RL.getAgentOverallScore, Spec.spec_overall, Spec.category_logs in *.
    destruct (Obj.get agentId memo) as [agentLog |]; [| reflexivity].
    destruct (Obj.values agentLog) as [| t l] eqn:Ev; [reflexivity |].
    rewrite fold_avg_or_50 by assumption. reflexivity. }
  split; [exact E |]. rewrite E. unfold Spec.spec_overall. split.
  - intros ->. reflexivity.
  - intros Hne. destruct (Spec.category_logs memo agentId) as [| t l] eqn:El.
    + congruence.
    + apply round_div_rounded_mean, len_pos. discriminate.
Qed.

Lemma overall_score_mean_witness :
  let memo := RL.recordPerformance 7 "a1" ["general"; "api"] 80 "TASK-002" [] in
  Forall (fun t => avg t <> 0) (Spec.category_logs memo "a1")
  /\ RL.getAgentOverallScore memo "a1" = Spec.spec_overall memo "a1".
Proof.
  assert (H : Forall (fun t => avg t <> 0)
                (Spec.category_logs
                   (RL.recordPerformance 7 "a1" ["general"; "api"] 80
                                         "TASK-002" []) "a1")).
  { vm_compute. repeat constructor; discriminate. }
  split; [exact H |].
  exact (proj1 (overall_score_mean _ "a1" H)).
Defined.

(** C9 fails as stated: after one task scored 50 the agent has a record,
    its overall score is the mean of its averages, 50, and so 50 is not the
    mark of an agent without records. *)
Lemma overall_score_counterexample :
  let memo := Sample.memo_fifty in
  Spec.category_logs memo "a1" <> []
  /\ Forall (fun t => avg t <> 0) (Spec.category_logs memo "a1")
  /\ RL.getAgentOverallScore memo "a1" = Spec.spec_overall memo "a1"
  /\ RL.getAgentOverallScore memo "a1" = 50
  /\ ~ (RL.getAgentOverallScore memo "a1" = 50
        <-> Spec.category_logs memo "a1" = []).
Proof.
  cbv zeta. split; [vm_compute; discriminate |].
  split; [vm_compute; repeat constructor; discriminate |].
  split; [vm_compute; reflexivity |]. split; [vm_compute; reflexivity |].
  intros [H _]. specialize (H eq_refl). vm_compute in H. discriminate.
Qed.

(** The substitution [t.avg || 50] also turns an average of 0 into 50:
    after one task scored 0 the overall score is 50, whereas
    [getAgentScore] returns the average 0 of that record as it is. *)
Example overall_score_zero_average :
  RL.getAgentOverallScore Sample.memo_zero "a1" = 50
  /\ RL.getAgentScore Sample.memo_zero "a1" "general" = 0.
Proof. vm_compute. split; reflexivity. Qed.

(** ** The score of a completed task *)

Lemma token_bucket_positive (T : Z) :
  0 < T -> RL.token_points T = Spec.spec_token_bucket T.
Proof.
  intros H. unfold RL.token_points, Spec.spec_token_bucket.
  destruct (0 <? T) eqn:E0; [| apply Z.ltb_ge in E0; lia].
  destruct (T <? 500) eqn:E1; simpl; [reflexivity |].
  apply Z.ltb_ge in E1.
  destruct (T <? 2000) eqn:E2.
  { replace (500 <=? T) with true by (symmetry; apply Z.leb_le; lia).
    reflexivity. }
  apply Z.ltb_ge in E2.
  replace (500 <=? T) with true by (symmetry; apply Z.leb_le; lia). simpl.
  destruct (T <? 5000) eqn:E3.
  { replace (2000 <=? T) with true by (symmetry; apply Z.leb_le; lia).
    reflexivity. }
  apply Z.ltb_ge in E3.
  replace (2000 <=? T) with true by (symmetry; apply Z.leb_le; lia). simpl.
  destruct (T <? 10000) eqn:E4.
  { replace (5000 <=? T) with true by (symmetry; apply Z.leb_le; lia).
    reflexivity. }
  replace (5000 <=? T) with true by (symmetry; apply Z.leb_le; lia).
  reflexivity.
Qed.

(** C3, as the code has it. For a task whose model call used a positive
    number of tokens, [scoreOutput] equals the reference formula in which
    the marker bonus is 5 for each of the three markers [===FILE===],
    [===CONTENT===] and [===END_FILE===] that occurs in the raw text. *)
Theorem scoreOutput_formula (task : Task) (result : ModelResult)
    (files : list FileIntent) (execBlocks : list ExecBlock)
    (execResults : option (list ExecResult)) :
  0 < m_tokensUsed result ->
  RL.scoreOutput task result files execBlocks execResults =
  Spec.spec_formula (Js.len files)
                    (5 * Spec.marker_count (m_output result))
                    (Js.len execBlocks)
                    (option_map RL.succeeded execResults)
                    (m_tokensUsed result) (t_status task).
Proof.
  intros HT. unfold RL.scoreOutput, Spec.spec_formula, Spec.clamp.
  rewrite token_bucket_positive by exact HT.
  unfold RL.marker_points, Spec.marker_count.
  destruct execResults as [rs |]; unfold option_map; cbv beta iota zeta;
    [rewrite (Z.mul_comm (RL.succeeded rs) 15) |];
    f_equal; f_equal;
    destruct (TaskStatus_eqb (t_status task) Failed);
    destruct (0 <? Js.len files);
    destruct (Text.includes (m_output result) "===FILE===");
    destruct (Text.includes (m_output result) "===CONTENT===");
    destruct (Text.includes (m_output result) "===END_FILE===");
    destruct (0 <? Js.len execBlocks);
    destruct (Js.len execBlocks =? 0); lia.
Qed.

Lemma scoreOutput_formula_witness :
  0 < 100
  /\ RL.scoreOutput (Sample.task_in Completed)
                    (mkModelResult Sample.unterminated 100) [] [] None
     = Spec.spec_formula 0 (5 * Spec.marker_count Sample.unterminated) 0
                         None 100 Completed.
Proof.
  split; [lia |].
  apply (scoreOutput_formula (Sample.task_in Completed)
                             (mkModelResult Sample.unterminated 100) [] []
                             None).
  simpl. lia.
Defined.

(** C3 fails as stated: a response with an unterminated FILE block has two
    of the three markers and earns 10 marker points, which is neither the
    15 nor the 0 the reference formula allows. *)
Lemma scoreOutput_counterexample :
  let result := mkModelResult Sample.unterminated 100 in
  let files := fst (Parser.parseFiles Sample.unterminated) in
  let execBlocks := Parser.parseExecBlocks Sample.unterminated in
  let score :=
    RL.scoreOutput (Sample.task_in Completed) result files execBlocks None in
  score = 50
  /\ score <> Spec.spec_score (Js.len files) true (Js.len execBlocks) None
                              100 Completed
  /\ score <> Spec.spec_score (Js.len files) false (Js.len execBlocks) None
                              100 Completed.
Proof. vm_compute. repeat split; discriminate. Qed.

(** With no token at all the chain of tests of [scoreOutput] falls through
    to its second branch. *)
Example token_points_zero : RL.token_points 0 = 12.
Proof. reflexivity. Qed.

(** ** Lists addressed by position *)

Lemma nth_error_update_nth {A : Type} (f : A -> A) (l : list A) (i j : nat) :
  nth_error (Js.update_nth i f l) j =
  if Nat.eqb i j then option_map f (nth_error l j) else nth_error l j.
Proof.
  revert i j. induction l as [| x l IH]; intros i j.
  - simpl. destruct i, j; simpl; try reflexivity;
      destruct (Nat.eqb _ _); reflexivity.
  - destruct i, j; simpl; try reflexivity. apply IH.
Qed.

Lemma length_update_nth {A : Type} (f : A -> A) (l : list A) (i : nat) :
  List.length (Js.update_nth i f l) = List.length l.
Proof.
  revert i. induction l as [| x l IH]; intros [| i]; simpl; auto.
Qed.

Lemma in_combine_seq {A : Type} (l : list A) (k i : nat) (a : A) :
  In (i, a) (combine (seq k (List.length l)) l) ->
  (k <= i)%nat /\ nth_error l (i - k) = Some a.
Proof.
  revert k. induction l as [| x l IH]; simpl; intros k H.
  - contradiction.
  - destruct H as [H | H].
    + inversion H; subst. rewrite Nat.sub_diag. auto.
    + apply IH in H. destruct H as [Hle Hn]. split; [lia |].
      replace (i - k)%nat with (S (i - S k)) by lia. exact Hn.
Qed.

Lemma in_indexed {A : Type} (l : list A) (i : nat) (a : A) :
  In (i, a) (indexed l) -> nth_error l i = Some a.
Proof.
  intros H. apply in_combine_seq in H. destruct H as [_ H].
  now rewrite Nat.sub_0_r in H.
Qed.

Lemma in_insert_sorted {A : Type} (before : A -> A -> bool) (x y : A)
      (l : list A) :
  In y (Js.insert_sorted before x l) -> y = x \/ In y l.
Proof.
  induction l as [| z l IH]; simpl.
  - intros [H | []]; auto.
  - destruct (before x z); simpl.
    + intros [H | H]; auto.
    + intros [H | H]; auto. destruct (IH H); auto.
Qed.

Lemma in_stable_sort {A : Type} (before : A -> A -> bool) (y : A) (l : list A) :
  In y (Js.stable_sort before l) -> In y l.
Proof.
  induction l as [| x l IH]; simpl; auto.
  intros H. apply in_insert_sorted in H. destruct H; auto.
Qed.

Lemma in_firstn {A : Type} (n : nat) (x : A) (l : list A) :
  In x (firstn n l) -> In x l.
Proof.
  revert l. induction n as [| n IH]; intros [| y l]; simpl; auto.
  - contradiction.
  - intros [H | H]; auto.
Qed.

Lemma in_skipn {A : Type} (n : nat) (x : A) (l : list A) :
  In x (skipn n l) -> In x l.
Proof.
  revert l. induction n as [| n IH]; intros [| y l]; simpl; auto.
Qed.

(** ** Growth of the task store *)

Import Store.

Lemma grows_refl (P : Priority -> Z -> Prop) (h : list Task) : grows P h h.
Proof.
  split.
  - intros i t H. eauto.
  - intros i t' H1 H2. congruence.
Qed.

Lemma grows_trans (P : Priority -> Z -> Prop) (h1 h2 h3 : list Task) :
  grows P h1 h2 -> grows P h2 h3 -> grows P h1 h3.
Proof.
  intros [O1 N1] [O2 N2]. split.
  - intros i t H. destruct (O1 i t H) as [t2 [H2 E2]].
    destruct (O2 i t2 H2) as [t3 [H3 E3]]. exists t3. split; congruence.
  - intros i t3 Hn H3. destruct (nth_error h2 i) as [t2 |] eqn:E2.
    + destruct (O2 i t2 E2) as [t3' [H3' E3]].
      assert (t3' = t3) by congruence. subst t3'.
      pose proof (N1 i t2 Hn E2) as HP. unfold core in E3.
      inversion E3 as [[Ep Ed]]. rewrite Ep, Ed. exact HP.
    + eapply N2; eauto.
Qed.

Lemma grows_weaken (P Q : Priority -> Z -> Prop) (h h' : list Task) :
  (forall p d, P p d -> Q p d) -> grows P h h' -> grows Q h h'.
Proof. intros HPQ [O N]. split; eauto. Qed.

Lemma grows_update (P : Priority -> Z -> Prop) (h : list Task) (i : nat)
      (f : Task -> Task) :
  (forall t, core (f t) = core t) -> grows P h (Js.update_nth i f h).
Proof.
  intros Hf. split.
  - intros j t H. rewrite nth_error_update_nth, H.
    destruct (Nat.eqb i j); simpl; eauto.
  - intros j t' Hn H. rewrite nth_error_update_nth, Hn in H.
    destruct (Nat.eqb i j); discriminate.
Qed.

Lemma grows_push (P : Priority -> Z -> Prop) (h : list Task) (t : Task) :
  P (t_priority t) (t_depth t) -> grows P h (h ++ [t]).
Proof.
  intros HP. split.
  - intros i t0 H. exists t0. split; [| reflexivity].
    rewrite nth_error_app1; [exact H |]. apply nth_error_Some. congruence.
  - intros i t' Hn H. apply nth_error_None in Hn.
    rewrite nth_error_app2 in H by exact Hn.
    destruct (i - List.length h)%nat as [| k]; simpl in H.
    + inversion H; subst. exact HP.
    + destruct k; discriminate.
Qed.

Lemma grows_length (P : Priority -> Z -> Prop) (h h' : list Task) :
  grows P h h' -> (List.length h <= List.length h')%nat.
Proof.
  intros [O _]. destruct h as [| t0 h0] eqn:E; [simpl; lia |]. rewrite <- E in *.
  destruct (nth_error h (List.length h - 1)) as [t |] eqn:Hn.
  - destruct (O _ _ Hn) as [t' [H' _]].
    assert (List.length h - 1 < List.length h')%nat
      by (apply nth_error_Some; congruence).
    lia.
  - apply nth_error_None in Hn. subst h. simpl in Hn. lia.
Qed.

Lemma grows_none_length (h h' : list Task) :
  grows none h h' -> List.length h' = List.length h.
Proof.
  intros G. pose proof (grows_length _ _ _ G) as Hle. destruct G as [_ N].
  destruct (Nat.eq_dec (List.length h') (List.length h)) as [E | E]; [exact E |].
  exfalso.
  destruct (nth_error h' (List.length h)) as [t' |] eqn:Hn.
  - eapply (N (List.length h) t'); [apply nth_error_None; lia | exact Hn].
  - apply nth_error_None in Hn. lia.
Qed.

Lemma grows_all_medium (P : Priority -> Z -> Prop) (h h' : list Task) :
  (forall p d, P p d -> p = Medium) ->
  all_medium h -> grows P h h' -> all_medium h'.
Proof.
  intros HP Hh [O N] t' Hin. apply In_nth_error in Hin. destruct Hin as [i Hi].
  destruct (nth_error h i) as [t |] eqn:E.
  - destruct (O i t E) as [t2 [H2 E2]]. assert (t2 = t') by congruence. subst.
    inversion E2 as [[Ep Ed]]. rewrite Ep. apply Hh. eapply nth_error_In; eauto.
  - eapply HP, N; eauto.
Qed.

Lemma grows_depth_bounded (P : Priority -> Z -> Prop) (h h' : list Task) :
  (forall p d, P p d -> 0 <= d <= 3) ->
  depth_bounded h -> grows P h h' -> depth_bounded h'.
Proof.
  intros HP Hh [O N] t' Hin. apply In_nth_error in Hin. destruct Hin as [i Hi].
  destruct (nth_error h i) as [t |] eqn:E.
  - destruct (O i t E) as [t2 [H2 E2]]. assert (t2 = t') by congruence. subst.
    inversion E2 as [[Ep Ed]]. rewrite Ed. apply Hh. eapply nth_error_In; eauto.
  - eapply HP, N; eauto.
Qed.

(** ** What the executor and the picker leave alone *)

Lemma writeFiles_frame (sh : Shell) (files : list FileIntent)
      (written : list string) (s : State) :
  let s' := snd (writeFiles sh files written s) in
  heap s' = heap s /\ agents s' = agents s /\ inflight s' = inflight s
  /\ tasks s' = tasks s /\ shell s' = shell s.
Proof.
  revert written s.
  induction files as [| f files IH]; cbn [writeFiles]; intros w s.
  - cbn. auto.
  - destruct (fs_writeFile sh _ _); [cbn; auto | exact (IH _ _)].
Qed.

Lemma runExecBlocks_frame (now : Z) (sh : Shell) (blocks : list ExecBlock)
      (agentId : string) (results : list ExecResult) (s : State) :
  let s' := snd (runExecBlocks now sh blocks agentId results s) in
  heap s' = heap s /\ agents s' = agents s /\ inflight s' = inflight s
  /\ tasks s' = tasks s /\ disk s' = disk s.
Proof.
  revert results s. induction blocks as [| b blocks IH]; intros results s.
  - simpl. auto.
  - cbn [runExecBlocks].
    destruct (negb (Text.startsWith (Path.join [PROJECT_ROOT s; cwd b])
                                    (PROJECT_ROOT s))).
    + exact (IH _ _).
    + destruct (fs_mkdir sh _); [cbn; auto |].
      cbn [PROJECT_ROOT addActivity with_activity with_shell].
      destruct (execSync sh _ _) as [ok out]. destruct ok; exact (IH _ _).
Qed.

Lemma pickAgent_frame (pref title desc : string) (s : State) :
  let s' := snd (pickAgent pref title desc s) in
  heap s' = heap s /\ agents s' = agents s /\ inflight s' = inflight s
  /\ tasks s' = tasks s /\ disk s' = disk s /\ shell s' = shell s.
Proof.
  unfold pickAgent. destruct (getCallableAgents s) as [| first rest].
  - simpl. auto 6.
  - match goal with
    | |- context [match ?x with Some _ => _ | None => _ end] => destruct x
    end.
    + simpl. auto 6.
    + unfold next_random. destruct (entropy s) as [| r rs];
        destruct (draw _ _); simpl; auto 6.
Qed.

Lemma draw_in (roll : Q) (topN : list (nat * Q)) (i : nat) :
  draw roll topN = Some i -> In i (map fst topN).
Proof.
  revert roll. induction topN as [| [j sc] topN IH]; simpl; intros roll H.
  - discriminate.
  - destruct (Qle_bool _ 0).
    + inversion H. auto.
    + right. eapply IH; eauto.
Qed.

Lemma callable_in_available (s : State) (i : nat) (a : Agent) :
  In (i, a) (getCallableAgents s) ->
  nth_error (agents s) i = Some a /\ callable a = true.
Proof.
  unfold getCallableAgents. intros H. apply filter_In in H.
  destruct H as [H C]. split; [now apply in_indexed | exact C].
Qed.

(** The agent returned by [pickAgent] passes the filter of
    [getCallableAgents]. *)
Lemma pickAgent_callable (pref title desc : string) (s : State) (i : nat) :
  fst (pickAgent pref title desc s) = Some i ->
  exists a, nth_error (agents s) i = Some a /\ callable a = true.
Proof.
  unfold pickAgent.
  destruct (getCallableAgents s) as [| first rest] eqn:Eav; [discriminate |].
  rewrite <- Eav.
  assert (Hav : forall ia, In ia (getCallableAgents s) ->
                  exists a, nth_error (agents s) (fst ia) = Some a
                            /\ callable a = true).
  { intros [j a] Hin. exists a. now apply callable_in_available. }
  match goal with
  | |- context [match ?x with Some _ => _ | None => _ end] =>
      destruct x as [ia |] eqn:Esp
  end.
  - simpl. intros [= <-]. apply Hav.
    destruct (negb (String.eqb pref "") && negb (String.eqb pref "auto"));
      [| discriminate].
    apply find_some in Esp. apply Esp.
  - set (scored := map _ (getCallableAgents s)).
    set (topN := firstn 3 _).
    assert (Htop : forall j, In j (map fst topN) ->
                     exists a, nth_error (agents s) j = Some a
                               /\ callable a = true).
    { intros j Hj. apply in_map_iff in Hj. destruct Hj as [[j' q] [Ej Hin]].
      simpl in Ej. subst j'. subst topN. apply in_firstn in Hin.
      apply in_stable_sort in Hin. subst scored. apply in_map_iff in Hin.
      destruct Hin as [ia [E Hin]]. inversion E; subst. now apply Hav. }
    destruct (next_random s) as [r s']. 
    destruct (draw _ topN) as [j |] eqn:Ed; simpl; intros [= <-].
    + apply Htop. eapply draw_in; eauto.
    + destruct topN as [| [j q] topN'] eqn:Et; simpl.
      * apply (Hav first). rewrite Eav. now left.
      * apply Htop. simpl. now left.
Qed.

(** ** Dispatch *)

Lemma dispatched_refl (from : list nat) (s : State) : dispatched from s s.
Proof.
  unfold dispatched.
  refine (conj (grows_refl _ _) (conj eq_refl (conj eq_refl (conj eq_refl
            (conj _ (conj _ _)))))).
  - exists []. split; [now rewrite app_nil_r |].
    split; [constructor | intros ? ? []].
  - eauto.
  - eauto.
Qed.

Lemma callable_working (a : Agent) :
  a_status a = Working -> callable a = false.
Proof. unfold callable. intros ->. reflexivity. Qed.

Lemma dispatched_trans (l1 l2 : list nat) (s1 s2 s3 : State) :
  dispatched l1 s1 s2 -> dispatched l2 s2 s3 -> dispatched (l1 ++ l2) s1 s3.
Proof.
  intros (G1 & T1 & D1 & S1 & (n1 & I1 & U1 & N1) & M1 & W1)
         (G2 & T2 & D2 & S2 & (n2 & I2 & U2 & N2) & M2 & W2).
  unfold dispatched.
  refine (conj (grows_trans _ _ _ _ G1 G2) (conj _ (conj _ (conj _
            (conj _ (conj _ _)))))); try congruence.
  - exists (n1 ++ n2). split; [rewrite I2, I1; now rewrite app_assoc |].
    split.
    + rewrite map_app. apply NoDup_app; [exact U1 | exact U2 |].
      intros aref H1 H2.
      apply in_map_iff in H1. destruct H1 as ([t1 a1] & E1 & H1).
      apply in_map_iff in H2. destruct H2 as ([t2 a2] & E2 & H2).
      simpl in E1, E2. subst a1 a2.
      destruct (N1 _ _ H1) as (_ & _ & (a' & Ha' & Wa')).
      destruct (N2 _ _ H2) as (_ & (a & Ha & Ca) & _).
      assert (a = a') by congruence. subst a'.
      rewrite callable_working in Ca by exact Wa'. discriminate.
    + intros tref aref Hin. apply in_app_or in Hin.
      destruct Hin as [Hin | Hin].
      * destruct (N1 _ _ Hin) as (Hl & Ha & (a' & Ha' & Wa')).
        split; [apply in_or_app; auto |]. split; [exact Ha |].
        eapply W2; eauto.
      * destruct (N2 _ _ Hin) as (Hl & (a & Ha & Ca) & Hw).
        split; [apply in_or_app; auto |]. split; [| exact Hw].
        eapply M1; eauto.
  - intros i a3 H3 C3. destruct (M2 _ _ H3 C3) as (a2 & H2 & C2). eauto.
  - intros i a H W. destruct (W1 _ _ H W) as (a2 & H2 & Wa2). eauto.
Qed.

Lemma launch_dispatched (now : Z) (tref : nat) (s : State) :
  dispatched [tref] s (launch now tref s).
Proof.
  unfold launch. destruct (nth_error (heap s) tref) as [task |];
    [| apply dispatched_refl].
  destruct (pickAgent _ _ _ s) as [picked s1] eqn:Ep.
  pose proof (pickAgent_frame (t_preferredAgentId task) (t_title task)
                              (t_description task) s) as F.
  pose proof (pickAgent_callable (t_preferredAgentId task) (t_title task)
                                 (t_description task) s) as C.
  rewrite Ep in F, C. simpl in F, C.
  destruct F as (Fh & Fa & Fi & Ft & Fd & Fs).
  destruct picked as [aref |].
  - destruct (C aref eq_refl) as (a & Ha & Ca).
    unfold dispatched.
    cbn [heap tasks disk shell inflight agents with_inflight addActivity
         with_activity upd_task with_heap upd_agent with_agents].
    rewrite Fh, Fa, Fi, Ft, Fd, Fs.
    refine (conj _ (conj eq_refl (conj eq_refl (conj eq_refl
              (conj _ (conj _ _)))))).
    + apply grows_update. reflexivity.
    + exists [(tref, aref)]. split; [reflexivity |]. split.
      * simpl. constructor; [intros [] | constructor].
      * intros t0 a0 [H | []]. inversion H; subst.
        split; [now left |]. split; [eauto |].
        rewrite nth_error_update_nth, Nat.eqb_refl, Ha. simpl. eauto.
    + intros i a' H' C'. rewrite nth_error_update_nth in H'.
      destruct (Nat.eqb aref i) eqn:E.
      * apply Nat.eqb_eq in E. subst i. rewrite Ha in H'. simpl in H'.
        inversion H'; subst. rewrite callable_working in C' by reflexivity.
        discriminate.
      * eauto.
    + intros i a0 H0 W0. rewrite nth_error_update_nth, H0.
      destruct (Nat.eqb aref i); simpl; eauto.
  - unfold dispatched. rewrite Fh, Fa, Fi, Ft, Fd, Fs.
    apply (dispatched_refl [tref] s).
Qed.

Lemma fold_launch_dispatched (now : Z) (l : list nat) (s : State) :
  dispatched l s (fold_left (fun s tref => launch now tref s) l s).
Proof.
  revert s. induction l as [| tref l IH]; simpl; intros s.
  - apply dispatched_refl.
  - apply (dispatched_trans [tref] l _ (launch now tref s)).
    + apply launch_dispatched.
    + apply IH.
Qed.

Lemma runDispatch_dispatched (now : Z) (s : State) :
  dispatched (filter (is_pending s) (tasks s)) s (runDispatch now s).
Proof. apply fold_launch_dispatched. Qed.

Lemma launched_app (s s' : State) (new : list (nat * nat)) :
  inflight s' = inflight s ++ new -> launched s s' = new.
Proof.
  intros E. unfold launched. rewrite E, skipn_app, Nat.sub_diag.
  rewrite skipn_all. reflexivity.
Qed.

(** C4, as the code has it. A dispatch launches the execution of a task
    only if the task is pending, and only on an agent that passes the filter
    of [getCallableAgents] before the dispatch (status idle, not a bridge);
    that agent is working afterwards and is given no second task by the same
    dispatch. No cap on the number of working agents takes part. *)
Theorem runDispatch_gate (now : Z) (s : State) (tref aref : nat) :
  In (tref, aref) (launched s (runDispatch now s)) ->
  is_pending s tref = true
  /\ (exists a, nth_error (agents s) aref = Some a
                /\ callable a = true /\ a_status a = Idle)
  /\ (exists a', nth_error (agents (runDispatch now s)) aref = Some a'
                 /\ a_status a' = Working)
  /\ NoDup (map snd (launched s (runDispatch now s))).
Proof.
  intros Hin.
  destruct (runDispatch_dispatched now s)
    as (_ & _ & _ & _ & (new & Hnew & Hdup & Hgate) & _).
  rewrite (launched_app _ _ _ Hnew) in *.
  destruct (Hgate _ _ Hin) as (Hp & (a & Ha & Ca) & Hw).
  split; [apply filter_In in Hp; apply Hp |].
  split; [| split; [exact Hw | exact Hdup]].
  exists a. repeat split; auto.
  unfold callable in Ca. destruct (a_status a); try discriminate. reflexivity.
Qed.

Lemma runDispatch_gate_witness :
  In (6%nat, 0%nat)
     (launched Scenario.before_tick (runDispatch 9 Scenario.before_tick))
  /\ is_pending Scenario.before_tick 6 = true.
Proof.
  assert (H : In (6%nat, 0%nat)
                 (launched Scenario.before_tick
                           (runDispatch 9 Scenario.before_tick)))
    by (vm_compute; left; reflexivity).
  split; [exact H |].
  exact (proj1 (runDispatch_gate 9 Scenario.before_tick 6 0 H)).
Defined.

(** C4 fails as stated: with six registered agents, a dispatch tick that
    finds five agents working launches the pending task on the sixth, and
    the state it reaches has six working agents. *)
Lemma concurrency_cap_counterexample :
  reachable Scenario.start Scenario.before_tick
  /\ working_count Scenario.before_tick = 5%nat
  /\ launched Scenario.before_tick Scenario.after_tick = [(6%nat, 0%nat)]
  /\ reachable Scenario.start Scenario.after_tick
  /\ (5 < working_count Scenario.after_tick)%nat.
Proof.
  split; [eexists; reflexivity |].
  split; [vm_compute; reflexivity |].
  split; [vm_compute; reflexivity |].
  split.
  - exists (map Scenario.request ["a1"; "a2"; "a3"; "a4"; "a5"; "a6"; "a1"]
            ++ [ModelSettles 5 Scenario.sh 0
                             (Resolved (mkModelResult "done" 10));
                DispatchTick 9]).
    vm_compute. reflexivity.
  - vm_compute. lia.
Qed.

(** ** Failing inputs *)

(** C1 at a rate-limit error: the agent cools down for 60 s and the task
    fails, but the score recorded for the task's category is 0, as
    [isApiError] does not list the status 429. *)
Theorem rate_limit_scored_zero :
  let s := Scenario.rate_limited in
  option_map a_status (nth_error (agents s) 0) = Some Cooldown
  /\ option_map a_cooldownUntil (nth_error (agents s) 0)
     = Some (Some (5 + 60000))
  /\ option_map t_status (nth_error (heap s) 0) = Some Failed
  /\ option_map t_tags (nth_error (heap s) 0) = Some ["general"]
  /\ option_map (fun l => map s_score (scores l))
                (RL.lookup_log (performanceLog s) "a1" "general")
     = Some [0]
  /\ isApiError Scenario.too_many_requests = false.
Proof. vm_compute. repeat split; reflexivity. Qed.

(** C2 at a response that points outside the workspace: the file is
    written above the root, and the command runs in a directory that only
    shares the root's name as a prefix. *)
Theorem workspace_escape :
  let s := Scenario.escaped in
  PROJECT_ROOT s = "/srv/app/workspace"
  /\ disk s = [("/srv/app/escape.txt", "x")]
  /\ Confine.inside (PROJECT_ROOT s) "/srv/app/escape.txt" = false
  /\ shell s = [("/srv/app/workspace-evil", "ls")]
  /\ Confine.inside (PROJECT_ROOT s) "/srv/app/workspace-evil" = false.
Proof. vm_compute. repeat split; reflexivity. Qed.

(** C6 at a task in review: the rejection cancels it and touches nothing,
    the approval that follows writes its file, runs its command and marks
    it completed. *)
Theorem approve_after_reject :
  option_map t_status (nth_error (heap Scenario.in_review) 0) = Some Review
  /\ option_map t_status (nth_error (heap Scenario.rejected) 0)
     = Some Cancelled
  /\ disk Scenario.rejected = [] /\ shell Scenario.rejected = []
  /\ option_map t_status (nth_error (heap Scenario.approved_after_reject) 0)
     = Some Completed
  /\ disk Scenario.approved_after_reject = [("/srv/app/workspace/app.js", "x")]
  /\ shell Scenario.approved_after_reject
     = [("/srv/app/workspace", "npm install")].
Proof. vm_compute. repeat split; reflexivity. Qed.

(** ** Task creation and execution on the store *)

Ltac grows_updates :=
  repeat first
    [ apply grows_refl
    | eapply grows_trans; [| apply grows_update; intros; reflexivity] ].

Lemma createTask_spec (now : Z) (title description : string)
      (pref : option string) (s : State) :
  fst (createTask now title description pref s) = List.length (heap s)
  /\ grows fresh (heap s) (heap (snd (createTask now title description pref s)))
  /\ List.length (heap (snd (createTask now title description pref s)))
     = S (List.length (heap s)).
Proof.
  unfold createTask. cbn [fst snd]. split; [reflexivity |].
  match goal with
  | |- context [runDispatch now ?s1] =>
      pose proof (runDispatch_dispatched now s1) as D; set (s' := s1) in *
  end.
  destruct D as (G & _).
  assert (Hpush : grows fresh (heap s) (heap s')).
  { subst s'. cbn [heap addActivity with_activity with_tasks with_heap
                   with_taskCounter].
    apply grows_push. split; reflexivity. }
  split.
  - eapply grows_trans; [exact Hpush |].
    eapply grows_weaken; [| exact G]. intros p d [].
  - rewrite (grows_none_length _ _ G). subst s'.
    cbn [heap addActivity with_activity with_tasks with_heap with_taskCounter].
    rewrite length_app. simpl. lia.
Qed.

Lemma createTask_grows (now : Z) (title description : string)
      (pref : option string) (s : State) :
  grows fresh (heap s) (heap (snd (createTask now title description pref s))).
Proof. apply createTask_spec. Qed.

Lemma spawn_grows (now : Z) (tref : nat) (agentId : string) (s : State)
      (sub : Subtask) (parent : Task) :
  nth_error (heap s) tref = Some parent ->
  grows (fun p d => p = Medium /\ d = t_depth parent + 1)
        (heap s) (heap (spawn now tref agentId s sub)).
Proof.
  intros Hp. unfold spawn.
  pose proof (createTask_spec now (sub_title sub) (sub_description sub)
                (Some (if String.eqb (sub_agent sub) "auto" then "auto"
                       else sub_agent sub)) s) as (Ec & G & L).
  destruct (createTask _ _ _ _ s) as [child s1]. cbn [fst snd] in *.
  subst child.
  cbn [heap addActivity with_activity upd_task with_heap].
  destruct G as [O N].
  assert (Hd : depth_at s1 tref = t_depth parent).
  { unfold depth_at. destruct (O _ _ Hp) as (p1 & H1 & E1). rewrite H1.
    inversion E1. reflexivity. }
  rewrite Hd. split.
  - intros i t Hi. destruct (O _ _ Hi) as (t1 & H1 & E1). exists t1.
    split; [| exact E1]. rewrite nth_error_update_nth.
    assert (i < List.length (heap s))%nat by (apply nth_error_Some; congruence).
    replace (Nat.eqb (List.length (heap s)) i) with false
      by (symmetry; apply Nat.eqb_neq; lia).
    exact H1.
  - intros i t' Hn Hi. rewrite nth_error_update_nth in Hi.
    apply nth_error_None in Hn.
    destruct (Nat.eqb (List.length (heap s)) i) eqn:E.
    + destruct (nth_error (heap s1) i) as [t1 |] eqn:H1; [| discriminate].
      simpl in Hi. inversion Hi; subst t'. cbn.
      split; [| reflexivity].
      apply (N i t1); [apply nth_error_None; lia | exact H1].
    + apply Nat.eqb_neq in E.
      assert (i < List.length (heap s1))%nat
        by (apply nth_error_Some; congruence).
      lia.
Qed.

Lemma fold_spawn_grows (now : Z) (tref : nat) (agentId : string)
      (subs : list Subtask) (s : State) (parent : Task) :
  nth_error (heap s) tref = Some parent ->
  grows (fun p d => p = Medium /\ d = t_depth parent + 1)
        (heap s) (heap (fold_left (spawn now tref agentId) subs s)).
Proof.
  revert s parent. induction subs as [| sub subs IH]; simpl; intros s parent Hp.
  - apply grows_refl.
  - pose proof (spawn_grows now tref agentId s sub parent Hp) as G1.
    destruct (proj1 G1 _ _ Hp) as (p1 & H1 & E1).
    pose proof (IH _ _ H1) as G2.
    assert (Ed : t_depth p1 = t_depth parent)
      by (unfold core in E1; congruence).
    eapply grows_trans; [exact G1 |].
    eapply grows_weaken; [| exact G2].
    intros p d [Hm Hd]. rewrite Ed in Hd. auto.
Qed.

Lemma spawn_subtasks_grows (now : Z) (tref : nat) (agent : Agent)
      (subs : list Subtask) (s : State) (parent : Task) :
  nth_error (heap s) tref = Some parent ->
  grows (fun p d => p = Medium /\ t_depth parent < 3
                    /\ d = t_depth parent + 1)
        (heap s) (heap (spawn_subtasks now tref agent subs s)).
Proof.
  intros Hp. unfold spawn_subtasks.
  destruct ((0 <? Js.len subs) && (depth_at s tref <? 3)) eqn:E.
  - apply andb_true_iff in E. destruct E as [_ E]. apply Z.ltb_lt in E.
    unfold depth_at in E. rewrite Hp in E.
    eapply grows_weaken; [| apply fold_spawn_grows; exact Hp].
    intros p d [H1 H2]. auto.
  - apply grows_refl.
Qed.

Lemma apply_output_grows (now : Z) (sh : Shell) (tref : nat) (task : Task)
      (agent : Agent) (files : list FileIntent) (blocks : list ExecBlock)
      (s : State) :
  grows none (heap s)
        (heap (snd (apply_output now sh tref task agent files blocks s))).
Proof.
  unfold apply_output.
  destruct ((0 <? Js.len files) && risk_is_low (t_risk task)).
  - pose proof (writeFiles_frame sh files [] s) as (Fw & _).
    destruct (writeFiles sh files [] s) as [[written | message] s1];
      cbn [snd] in Fw; [| cbn [snd]; rewrite Fw; apply grows_refl].
    destruct (0 <? Js.len blocks).
    + match goal with
      | |- context [runExecBlocks now sh blocks ?id [] ?s2] =>
          pose proof (runExecBlocks_frame now sh blocks id [] s2) as (Fr & _);
          destruct (runExecBlocks now sh blocks id [] s2)
            as [[results | message] s3]
      end;
        cbn [snd heap addActivity with_activity] in Fr;
        cbn [snd heap addActivity with_activity upd_task upd_result with_heap];
        rewrite ?Fr, Fw; grows_updates.
    + cbn [snd heap addActivity with_activity upd_task upd_result with_heap].
      rewrite Fw. grows_updates.
  - destruct ((0 <? Js.len files) && negb (risk_is_low (t_risk task)));
      cbn [snd heap addActivity with_activity upd_task upd_result with_heap];
      grows_updates.
Qed.

Lemma score_and_record_grows (now : Z) (tref : nat) (task : Task)
      (agent : Agent) (result : ModelResult) (files : list FileIntent)
      (blocks : list ExecBlock) (s : State) :
  grows none (heap s)
        (heap (score_and_record now tref task agent result files blocks s)).
Proof.
  unfold score_and_record.
  cbn [heap addActivity with_activity upd_task upd_result with_heap
       with_performanceLog].
  grows_updates.
Qed.

Lemma grows_child_in (P : Priority -> Z -> Prop) (h h' : list Task)
      (tref : nat) (task : Task) :
  nth_error h tref = Some task ->
  (forall p d, P p d -> p = Medium /\ t_depth task < 3
                        /\ d = t_depth task + 1) ->
  grows P h h' -> grows (child_in h tref) h h'.
Proof.
  intros Ht HP G. eapply grows_weaken; [| exact G].
  intros p d H. destruct (HP p d H) as (H1 & H2 & H3).
  split; [exact H1 | eauto].
Qed.

Lemma executeTask_try_grows (now : Z) (sh : Shell) (tref aref : nat)
      (task : Task) (agent : Agent) (result : ModelResult) (s : State) :
  nth_error (heap s) tref = Some task ->
  grows (child_in (heap s) tref) (heap s)
        (heap (snd (executeTask_try now sh tref aref task agent result s))).
Proof.
  intros Ht. unfold executeTask_try.
  destruct (Parser.parseFiles (m_output result)) as [files explanation].
  match goal with
  | |- context [apply_output now sh tref task agent files ?bl ?s1] =>
      set (blocks := bl); set (s_a := s1)
  end.
  assert (Ga : grows none (heap s) (heap s_a)).
  { subst s_a.
    cbn [heap upd_task with_heap with_totalGlobalTokens upd_agent with_agents].
    grows_updates. }
  pose proof (apply_output_grows now sh tref task agent files blocks s_a)
    as Gb.
  destruct (apply_output now sh tref task agent files blocks s_a)
    as [[message |] s_b]; cbn [snd] in Gb |- *.
  { eapply grows_weaken with (P := none); [intros p d [] |].
    eapply grows_trans; [exact Ga | exact Gb]. }
  cbn [heap addActivity with_activity].
  set (s_c := score_and_record now tref task agent result files blocks s_b).
  assert (Gc : grows none (heap s) (heap s_c)).
  { eapply grows_trans; [exact Ga |]. eapply grows_trans.
    - exact Gb.
    - apply score_and_record_grows. }
  destruct (proj1 Gc _ _ Ht) as (p1 & H1 & E1).
  assert (Ed : t_depth p1 = t_depth task) by (unfold core in E1; congruence).
  pose proof (spawn_subtasks_grows now tref agent
                (Parser.parseSubtasks (m_output result)) s_c p1 H1) as Gs.
  eapply grows_trans.
  - eapply grows_weaken; [| exact Gc]. intros p d [].
  - eapply grows_weaken; [| exact Gs].
    intros p d (Hm & Hlt & Hd). rewrite Ed in Hlt, Hd.
    split; [exact Hm | eauto].
Qed.

Lemma cleanupTasks_heap (s : State) : heap (cleanupTasks s) = heap s.
Proof. unfold cleanupTasks. destruct (30 <? _); reflexivity. Qed.

Lemma executeTask_grows (now : Z) (sh : Shell) (tref aref : nat)
      (outcome : ModelOutcome) (s : State) :
  grows (child_in (heap s) tref) (heap s)
        (heap (executeTask now sh tref aref outcome s)).
Proof.
  unfold executeTask.
  destruct (nth_error (heap s) tref) as [task |] eqn:Ht; [| apply grows_refl].
  destruct (nth_error (agents s) aref) as [agent |]; [| apply grows_refl].
  unfold executeTask_finally. rewrite cleanupTasks_heap.
  cbn [heap upd_agent with_agents].
  assert (Hc : forall err s1,
             grows none (heap s1)
                   (heap (executeTask_catch now tref aref task agent err s1))).
  { intros err s1. unfold executeTask_catch.
    destruct (status_is err 429);
      cbn [heap addActivity with_activity upd_task with_heap upd_agent
           with_agents with_performanceLog];
      grows_updates. }
  destruct outcome as [result | err].
  - pose proof (executeTask_try_grows now sh tref aref task agent result s Ht)
      as G.
    destruct (executeTask_try now sh tref aref task agent result s)
      as [[message |] s1]; cbn [snd] in G; [| exact G].
    eapply grows_trans; [exact G |].
    eapply grows_weaken with (P := none); [intros p d [] | apply Hc].
  - eapply grows_weaken with (P := none); [intros p d [] | apply Hc].
Qed.

(** ** Commands and timers on the store *)

Lemma approveTask_grows (now : Z) (sh : Shell) (taskId : string) (s : State) :
  grows none (heap s) (heap (approveTask now sh taskId s)).
Proof.
  unfold approveTask.
  destruct (find_task taskId s) as [tref |]; [| apply grows_refl].
  destruct (nth_error (heap s) tref) as [task |]; [| apply grows_refl].
  destruct (t_result task) as [result |]; [| apply grows_refl].
  destruct (r_fileContents result) as [[| f fs] |];
    try (cbn [heap addActivity with_activity upd_task with_heap];
         grows_updates; fail).
  pose proof (writeFiles_frame sh (f :: fs) [] s) as (Fw & _).
  destruct (writeFiles sh (f :: fs) [] s) as [[written | message] s1];
    cbn [snd] in Fw; [| rewrite Fw; apply grows_refl].
  destruct (r_execBlocks result) as [[| b bs] |];
    try (cbn [heap addActivity with_activity upd_task with_heap];
         rewrite Fw; grows_updates; fail).
  match goal with
  | |- context [runExecBlocks now sh (b :: bs) ?id [] ?s2] =>
      pose proof (runExecBlocks_frame now sh (b :: bs) id [] s2) as (Fr & _);
      destruct (runExecBlocks now sh (b :: bs) id [] s2)
        as [[results | message] s3]
  end;
    cbn [snd heap addActivity with_activity] in Fr;
    cbn [heap addActivity with_activity upd_task upd_result with_heap];
    rewrite ?Fr, Fw; grows_updates.
Qed.

Lemma rejectTask_grows (now : Z) (taskId : string) (s : State) :
  grows none (heap s) (heap (rejectTask now taskId s)).
Proof.
  unfold rejectTask. destruct (find_task taskId s);
    cbn [heap addActivity with_activity upd_task with_heap]; grows_updates.
Qed.

Lemma fold_createTask_grows (now : Z) (title description : string)
      (ids : list string) (s : State) :
  grows fresh (heap s)
        (heap (fold_left
                 (fun s aid => snd (createTask now title description
                                               (Some aid) s)) ids s)).
Proof.
  revert s. induction ids as [| aid ids IH]; cbn [fold_left]; intros s.
  - apply grows_refl.
  - eapply grows_trans; [| apply IH]. apply createTask_grows.
Qed.

Lemma handleCommand_grows (now : Z) (sh : Shell) (msg : Command) (s : State) :
  grows fresh (heap s) (heap (handleCommand now sh msg s)).
Proof.
  destruct msg as [title description agentId agentIds | config | taskId
                   | taskId |]; cbn [handleCommand].
  - destruct agentIds as [[| aid ids] |]; try apply createTask_grows.
    cbn [heap addActivity with_activity]. apply fold_createTask_grows.
  - apply grows_refl.
  - eapply grows_weaken; [| apply approveTask_grows]. intros p d [].
  - eapply grows_weaken; [| apply rejectTask_grows]. intros p d [].
  - apply grows_refl.
Qed.

Lemma postTask_grows (now : Z) (title description agentId : option string)
      (s : State) :
  grows fresh (heap s) (heap (postTask now title description agentId s)).
Proof.
  unfold postTask. destruct title as [t |]; [| apply grows_refl].
  destruct (String.eqb t ""); [apply grows_refl | apply createTask_grows].
Qed.

Lemma settle_grows (now : Z) (sh : Shell) (k : nat) (outcome : ModelOutcome)
      (s : State) :
  grows (added (heap s)) (heap s) (heap (settle now sh k outcome s)).
Proof.
  unfold settle. destruct (nth_error (inflight s) k) as [[tref aref] |];
    [| apply grows_refl].
  match goal with
  | |- context [executeTask now sh tref aref outcome ?s1] =>
      pose proof (executeTask_grows now sh tref aref outcome s1) as G
  end.
  cbn [heap with_inflight] in G.
  eapply grows_weaken; [| exact G].
  intros p d (Hm & parent & Hp & Hlt & Hd). split; [exact Hm |]. right.
  exists parent. split; [eapply nth_error_In; eauto | auto].
Qed.

Lemma step_grows (s : State) (e : Event) :
  grows (added (heap s)) (heap s) (heap (step s e)).
Proof.
  assert (Hf : forall p d, fresh p d -> added (heap s) p d)
    by (intros p d [Hm Hd]; split; auto).
  destruct e; cbn [step].
  - eapply grows_weaken; [exact Hf | apply handleCommand_grows].
  - eapply grows_weaken; [exact Hf | apply postTask_grows].
  - eapply grows_weaken; [| apply runDispatch_dispatched]. intros p d [].
  - apply grows_refl.
  - apply settle_grows.
Qed.

Lemma step_all_medium (s : State) (e : Event) :
  all_medium (heap s) -> all_medium (heap (step s e)).
Proof.
  intros H. eapply grows_all_medium; [| exact H | apply step_grows].
  intros p d [Hm _]. exact Hm.
Qed.

Lemma step_depth_bounded (s : State) (e : Event) :
  depth_bounded (heap s) -> depth_bounded (heap (step s e)).
Proof.
  intros H. eapply grows_depth_bounded; [| exact H | apply step_grows].
  intros p d [_ [-> | (parent & Hin & Hlt & ->)]]; [lia |].
  pose proof (H parent Hin). lia.
Qed.

Lemma run_events_invariant (Inv : list Task -> Prop) :
  (forall s e, Inv (heap s) -> Inv (heap (step s e))) ->
  forall events s, Inv (heap s) -> Inv (heap (run_events events s)).
Proof.
  intros Hstep events. unfold run_events.
  induction events as [| e events IH]; simpl; intros s H.
  - exact H.
  - apply IH, Hstep, H.
Qed.

(** C10. In every state the server reaches from start-up, every task has
    priority [medium]: [createTask] is the only operation that creates a
    task, through the client command (also in its multi-agent form), the
    REST endpoint and the subtask loop, and no operation changes the
    priority of a task. *)
Theorem tasks_all_medium (dirname : string) (env : string -> option string)
    (now : Z) (configs : list AgentConfig) (memo : PerformanceLog)
    (randoms : list Q) (events : list Event) (t : Task) :
  In t (heap (run_events events
                (boot dirname env now configs memo randoms))) ->
  t_priority t = Medium.
Proof.
  revert t.
  apply (run_events_invariant all_medium step_all_medium).
  intros t [].
Qed.

Lemma tasks_all_medium_witness :
  let s := run_events Scenario.chain Scenario.start in
  let t := nth 3 (heap s) (Sample.task_in Pending) in
  In t (heap s) /\ t_priority t = Medium.
Proof.
  assert (H : In (nth 3 (heap (run_events Scenario.chain Scenario.start))
                      (Sample.task_in Pending))
                 (heap (run_events Scenario.chain Scenario.start))).
  { apply nth_In. vm_compute. lia. }
  split; [exact H |].
  exact (tasks_all_medium "/srv/app" (fun _ => None) 0
           (map Scenario.config ["a1"; "a2"; "a3"; "a4"; "a5"; "a6"]) [] []
           Scenario.chain _ H).
Defined.

(** C7. In every state the server reaches from start-up every task has a
    depth between 0 and 3, and every task that an execution adds to the
    store is a child one level below the executed task, whose own depth is
    below 3: at depth 3 no child is created. *)
Theorem depth_bound (dirname : string) (env : string -> option string)
    (now0 : Z) (configs : list AgentConfig) (memo : PerformanceLog)
    (randoms : list Q) (events : list Event) :
  let s := run_events events (boot dirname env now0 configs memo randoms) in
  (forall t, In t (heap s) -> 0 <= t_depth t <= 3)
  /\ (forall now sh tref aref outcome i child,
        nth_error (heap s) i = None ->
        nth_error (heap (executeTask now sh tref aref outcome s)) i
        = Some child ->
        exists parent,
          nth_error (heap s) tref = Some parent
          /\ t_depth parent < 3
          /\ t_depth child = t_depth parent + 1).
Proof.
  intros s. split.
  - apply (run_events_invariant depth_bounded step_depth_bounded).
    intros t [].
  - intros now sh tref aref outcome i child Hn Hi.
    destruct (executeTask_grows now sh tref aref outcome s) as [_ N].
    destruct (N i child Hn Hi) as (_ & parent & Hp & Hlt & Hd). eauto.
Qed.

Lemma depth_bound_witness :
  let s := run_events Scenario.chain Scenario.start in
  let t := nth 3 (heap s) (Sample.task_in Pending) in
  In t (heap s) /\ 0 <= t_depth t <= 3.
Proof.
  assert (H : In (nth 3 (heap (run_events Scenario.chain Scenario.start))
                      (Sample.task_in Pending))
                 (heap (run_events Scenario.chain Scenario.start))).
  { apply nth_In. vm_compute. lia. }
  split; [exact H |].
  exact (proj1 (depth_bound "/srv/app" (fun _ => None) 0
                  (map Scenario.config ["a1"; "a2"; "a3"; "a4"; "a5"; "a6"])
                  [] [] Scenario.chain) _ H).
Defined.

(** A chain of subtasks stops at depth 3: the fourth execution answers with
    a SUBTASK block as well and creates nothing. *)
Example subtask_chain_depths :
  map t_depth (heap (run_events Scenario.chain Scenario.start)) = [0; 1; 2; 3]
  /\ map t_status (heap (run_events Scenario.chain Scenario.start))
     = [Completed; Completed; Completed; Completed].
Proof. vm_compute. split; reflexivity. Qed.

(** ** Soundness of the matcher *)

Import Lang.

Lemma strip_app (p s s' : list ascii) :
  Regex.strip p s = Some s' -> s = p ++ s'.
Proof.
  revert s. induction p as [| a p IH]; simpl; intros s H.
  - congruence.
  - destruct s as [| b s]; [discriminate |].
    destruct (Ascii.eqb a b) eqn:E; [| discriminate].
    apply Ascii.eqb_eq in E. subst b. f_equal. now apply IH.
Qed.

Section Soundness.
Context {R : Type}.

(** Whatever the continuation receives is what is left of the input after
    a text of the language of the pattern. *)
Lemma run_sound (r : Regex.regex) :
  forall (s : list ascii) (caps : Regex.captures)
         (k : list ascii -> Regex.captures -> option R) (res : R),
    Regex.run r s caps k = Some res ->
    exists w s' caps', s = w ++ s' /\ matches r w /\ k s' caps' = Some res.
Proof.
  induction r as [p | p | a IHa b IHb | a IHa b IHb | g a IHa | a IHa |];
    intros s caps k res H; cbn [Regex.run] in H.
  - destruct (Regex.strip (Text.chars p) s) as [s' |] eqn:E; [| discriminate].
    apply strip_app in E. exists (Text.chars p), s', caps.
    repeat split; auto. constructor.
  - destruct s as [| c s]; [discriminate |].
    destruct (p c) eqn:E; [| discriminate].
    exists [c], s, caps. repeat split; auto. now constructor.
  - apply IHa in H. destruct H as (w1 & s1 & c1 & E1 & M1 & H).
    apply IHb in H. destruct H as (w2 & s2 & c2 & E2 & M2 & H).
    exists (w1 ++ w2), s2, c2. subst. rewrite <- app_assoc.
    repeat split; auto. now constructor.
  - destruct (Regex.run a s caps k) as [res' |] eqn:E.
    + inversion H; subst res'. apply IHa in E.
      destruct E as (w & s' & c' & E1 & M1 & E). exists w, s', c'.
      repeat split; auto. now apply MAltL.
    + apply IHb in H. destruct H as (w & s' & c' & E1 & M1 & H).
      exists w, s', c'. repeat split; auto. now apply MAltR.
  - revert H. generalize (List.length s) as fuel. intros fuel. revert s caps.
    induction fuel as [| fuel IHf]; intros s caps H.
    + exists [], s, caps. repeat split; auto. constructor.
    + assert (Hagain :
        Regex.run a s caps
          (fun s' caps' =>
             if (List.length s' <? List.length s)%nat
             then (fix iter (fuel : nat) (s : list ascii)
                     (caps : Regex.captures) {struct fuel} : option R :=
                     match fuel with
                     | O => k s caps
                     | S fuel' =>
                         let again s' caps' :=
                           if (List.length s' <? List.length s)%nat
                           then iter fuel' s' caps' else None in
                         if g then
                           match Regex.run a s caps again with
                           | Some res => Some res
                           | None => k s caps
                           end
                         else
                           match k s caps with
                           | Some res => Some res
                           | None => Regex.run a s caps again
                           end
                     end) fuel s' caps'
             else None) = Some res ->
        exists w s' caps',
          s = w ++ s' /\ matches (Regex.Star g a) w /\ k s' caps' = Some res).
      { intros E. apply IHa in E. destruct E as (w1 & s1 & c1 & E1 & M1 & E).
        destruct (List.length s1 <? List.length s)%nat; [| discriminate].
        apply IHf in E. destruct E as (w2 & s2 & c2 & E2 & M2 & E).
        exists (w1 ++ w2), s2, c2. subst. rewrite <- app_assoc.
        repeat split; auto. now constructor. }
      cbv zeta in H. destruct g.
      * match type of H with
        | match ?x with Some _ => _ | None => _ end = _ => destruct x eqn:E
        end.
        -- inversion H; subst. now apply Hagain.
        -- exists [], s, caps. repeat split; auto. constructor.
      * destruct (k s caps) as [res' |] eqn:E.
        -- inversion H; subst. exists [], s, caps.
           repeat split; auto. constructor.
        -- now apply Hagain.
  - apply IHa in H. destruct H as (w & s' & c' & E1 & M1 & H).
    exists w, s', (c' ++ [firstn (List.length s - List.length s') s]).
    repeat split; auto. now constructor.
  - exists [], s, caps. split; [reflexivity |]. split; [constructor |].
    destruct s as [| c s]; [exact H |].
    destruct (Text.is_word c); [discriminate | exact H].
Qed.

End Soundness.

Lemma match_here_sound (r : Regex.regex) (s rest : list ascii)
      (caps : Regex.captures) :
  Regex.match_here r s = Some (rest, caps) ->
  exists w, s = w ++ rest /\ matches r w.
Proof.
  unfold Regex.match_here. intros H. apply run_sound in H.
  destruct H as (w & s' & c' & E & M & H). inversion H; subst. eauto.
Qed.

Lemma firstn_consumed {A : Type} (w rest : list A) :
  firstn (List.length (w ++ rest) - List.length rest) (w ++ rest) = w.
Proof.
  rewrite length_app.
  replace (List.length w + List.length rest - List.length rest)%nat
    with (List.length w + 0)%nat by lia.
  rewrite firstn_app_2. simpl. apply app_nil_r.
Qed.

Lemma match_here_consumed (r : Regex.regex) (s rest : list ascii)
      (caps : Regex.captures) :
  Regex.match_here r s = Some (rest, caps) ->
  exists w, firstn (List.length s - List.length rest) s = w
            /\ s = w ++ rest /\ matches r w.
Proof.
  intros H. apply match_here_sound in H. destruct H as (w & E & M).
  exists w. subst s. rewrite firstn_consumed. auto.
Qed.

Lemma find_sound (r : Regex.regex) (s skipped : list ascii) (h : Regex.hit)
      (rest : list ascii) :
  Regex.find r s skipped = Some (h, rest) ->
  rev skipped ++ s = Regex.gap h ++ Regex.matched h ++ rest
  /\ matches r (Regex.matched h).
Proof.
  revert skipped. induction s as [| c s IH]; intros skipped H;
    cbn [Regex.find] in H.
  - destruct (Regex.match_here r []) as [[rest' caps] |] eqn:E;
      [| discriminate].
    apply match_here_consumed in E. destruct E as (w & Ef & Es & M).
    rewrite Ef in H. inversion H; subst h rest'.
    cbn [Regex.gap Regex.matched]. split; [| exact M]. f_equal. exact Es.
  - destruct (Regex.match_here r (c :: s)) as [[rest' caps] |] eqn:E.
    + apply match_here_consumed in E. destruct E as (w & Ef & Es & M).
      rewrite Ef in H. inversion H; subst h rest'.
      cbn [Regex.gap Regex.matched]. split; [| exact M]. f_equal. exact Es.
    + apply IH in H. destruct H as [H M]. split; [| exact M].
      rewrite <- H. simpl. now rewrite <- app_assoc.
Qed.

Lemma scan_sound (r : Regex.regex) (fuel : nat) :
  forall s hs tail,
    Regex.scan fuel r s = (hs, tail) ->
    s = rebuild hs tail
    /\ Forall (fun h => matches r (Regex.matched h)) hs.
Proof.
  induction fuel as [| fuel IH]; intros s hs tail H; cbn [Regex.scan] in H.
  - inversion H; subst. split; [reflexivity | constructor].
  - destruct (Regex.find r s []) as [[h rest] |] eqn:Ef.
    + apply find_sound in Ef. destruct Ef as [Es M]. simpl in Es.
      destruct (Regex.matched h) as [| c m] eqn:Em.
      * inversion H; subst hs tail. split; [reflexivity | constructor].
      * destruct (Regex.scan fuel r rest) as [hs' tail'] eqn:Er.
        inversion H; subst hs tail. apply IH in Er. destruct Er as [Er Fr].
        split.
        -- unfold rebuild in *. cbn [map List.concat]. rewrite Em, Es, Er.
           now rewrite <- !app_assoc.
        -- constructor; [rewrite Em; exact M | exact Fr].
    + inversion H; subst hs tail. split; [reflexivity | constructor].
Qed.

(** With enough fuel the scan stops only when no further match exists, or
    at an empty match. *)
Lemma scan_exhausts (r : Regex.regex) (fuel : nat) :
  forall s hs tail,
    (List.length s < fuel)%nat ->
    Regex.scan fuel r s = (hs, tail) ->
    Regex.find r tail [] = None
    \/ exists h rest, Regex.find r tail [] = Some (h, rest)
                      /\ Regex.matched h = [].
Proof.
  induction fuel as [| fuel IH]; intros s hs tail Hlt H; [lia |].
  cbn [Regex.scan] in H.
  destruct (Regex.find r s []) as [[h rest] |] eqn:Ef.
  - destruct (Regex.matched h) as [| c m] eqn:Em.
    + inversion H; subst hs tail. right. eauto.
    + destruct (Regex.scan fuel r rest) as [hs' tail'] eqn:Er.
      inversion H; subst hs tail'. apply find_sound in Ef.
      destruct Ef as [Es _].
      simpl in Es. apply (IH rest hs' tail); [| exact Er].
      rewrite Es, Em in Hlt. rewrite !length_app in Hlt. simpl in Hlt. lia.
  - inversion H; subst hs tail. now left.
Qed.

Lemma fileRegex_nonempty (w : list ascii) :
  matches Parser.fileRegex w -> w <> [].
Proof.
  unfold Parser.fileRegex. cbn [Parser.cat]. intros M.
  inversion M as [| | a b w1 w2 M1 M2 | | | | | |]; subst.
  inversion M1; subst. discriminate.
Qed.

(** *** Blank lines *)

Lemma is_newline_newline : Text.is_newline Text.newline = true.
Proof. reflexivity. Qed.

Lemma runs_ok_repeat (run m : nat) (t : list ascii) :
  (run + m <= 2)%nat ->
  (match t with
   | [] => True
   | c :: t' => Text.is_newline c = false /\ runs_ok 0 t' = true
   end) ->
  runs_ok run (repeat Text.newline m ++ t) = true.
Proof.
  revert run. induction m as [| m IH]; intros run Hle Ht;
    cbn [repeat app runs_ok].
  - destruct t as [| c t']; [reflexivity |]. cbn [runs_ok].
    destruct Ht as [Hc Hr]. now rewrite Hc.
  - rewrite is_newline_newline. apply andb_true_iff. split.
    + apply Nat.ltb_lt. lia.
    + apply IH; [lia | exact Ht].
Qed.

Lemma collapse_from_runs_ok (held : nat) (s : list ascii) :
  runs_ok 0 (Text.collapse_from held s) = true.
Proof.
  revert held. induction s as [| c s IH]; intros held;
    cbn [Text.collapse_from].
  - rewrite <- (app_nil_r (repeat _ _)). apply runs_ok_repeat; [lia | exact I].
  - destruct (Text.is_newline c) eqn:E; [apply IH |].
    apply runs_ok_repeat; [lia |]. split; [exact E | apply IH].
Qed.

Lemma runs_ok_weaken (run run' : nat) (s : list ascii) :
  (run' <= run)%nat -> runs_ok run s = true -> runs_ok run' s = true.
Proof.
  revert run run'. induction s as [| c s IH]; intros run run' Hle H;
    cbn [runs_ok] in *.
  - reflexivity.
  - destruct (Text.is_newline c); [| exact H].
    apply andb_true_iff in H. destruct H as [H1 H2]. apply Nat.ltb_lt in H1.
    apply andb_true_iff. split; [apply Nat.ltb_lt; lia |].
    apply (IH (S run)); [lia | exact H2].
Qed.

Lemma runs_ok_suffix (run : nat) (a s : list ascii) :
  runs_ok run (a ++ s) = true -> runs_ok 0 s = true.
Proof.
  revert run. induction a as [| c a IH]; intros run H;
    cbn [app runs_ok] in H.
  - apply (runs_ok_weaken run); [lia | exact H].
  - destruct (Text.is_newline c).
    + apply andb_true_iff in H. destruct H as [_ H]. eapply IH; eauto.
    + eapply IH; eauto.
Qed.

Lemma runs_ok_prefix (run : nat) (s b : list ascii) :
  runs_ok run (s ++ b) = true -> runs_ok run s = true.
Proof.
  revert run. induction s as [| c s IH]; intros run H;
    cbn [app runs_ok] in *.
  - reflexivity.
  - destruct (Text.is_newline c).
    + apply andb_true_iff in H. destruct H as [H1 H2].
      apply andb_true_iff. split; [exact H1 | eapply IH; eauto].
    + eapply IH; eauto.
Qed.

Lemma trim_start_suffix (s : list ascii) :
  exists a, s = a ++ Text.trim_start s.
Proof.
  induction s as [| c s [a IH]]; simpl.
  - exists []. reflexivity.
  - destruct (Text.is_space c).
    + exists (c :: a). simpl. now f_equal.
    + exists []. reflexivity.
Qed.

Lemma trim_end_prefix (s : list ascii) :
  exists b, s = Text.trim_end s ++ b.
Proof.
  unfold Text.trim_end. destruct (trim_start_suffix (rev s)) as [a E].
  exists (rev a). rewrite <- rev_app_distr, <- E. now rewrite rev_involutive.
Qed.

Lemma trim_chars_runs_ok (s : list ascii) :
  runs_ok 0 s = true -> runs_ok 0 (Text.trim_chars s) = true.
Proof.
  intros H. unfold Text.trim_chars.
  destruct (trim_start_suffix s) as [a Ea].
  destruct (trim_end_prefix (Text.trim_start s)) as [b Eb].
  rewrite Ea in H. apply runs_ok_suffix in H. rewrite Eb in H.
  eapply runs_ok_prefix; eauto.
Qed.

Lemma tidy_runs_ok (s : list ascii) : runs_ok 0 (tidy s) = true.
Proof. apply trim_chars_runs_ok, collapse_from_runs_ok. Qed.

Lemma is_newline_eqb (c : ascii) :
  Text.is_newline c = Ascii.eqb Text.newline c.
Proof. destruct c as [[] [] [] [] [] [] [] []]; reflexivity. Qed.

Lemma runs_ok_no_blank_lines (s : list ascii) (run : nat) :
  runs_ok run s = true ->
  Text.includes_chars s (Text.chars blank_lines) = false.
Proof.
  change (Text.chars blank_lines)
    with [Text.newline; Text.newline; Text.newline].
  revert run. induction s as [| c s IH]; intros run H; [reflexivity |].
  cbn [Text.includes_chars]. apply orb_false_iff. split.
  - cbn [runs_ok] in H. rewrite is_newline_eqb in H. cbn [Text.starts_with].
    destruct (Ascii.eqb Text.newline c); [| reflexivity].
    apply andb_true_iff in H. destruct H as [H1 H2].
    destruct s as [| c2 s]; [reflexivity |].
    cbn [runs_ok] in H2. rewrite is_newline_eqb in H2.
    destruct (Ascii.eqb Text.newline c2); [| reflexivity].
    apply andb_true_iff in H2. destruct H2 as [H3 H4].
    destruct s as [| c3 s]; [reflexivity |].
    cbn [runs_ok] in H4. rewrite is_newline_eqb in H4.
    destruct (Ascii.eqb Text.newline c3); [| reflexivity].
    apply andb_true_iff in H4. destruct H4 as [H5 _].
    apply Nat.ltb_lt in H1, H3, H5. lia.
  - cbn [runs_ok] in H. destruct (Text.is_newline c).
    + apply andb_true_iff in H. destruct H as [_ H]. eapply IH; eauto.
    + eapply IH; eauto.
Qed.

Lemma chars_str (l : list ascii) : Text.chars (Text.str l) = l.
Proof. apply list_ascii_of_string_of_list_ascii. Qed.

Lemma starts_with_app (p s : list ascii) : Text.starts_with p (p ++ s) = true.
Proof.
  induction p as [| c p IH]; [reflexivity |].
  cbn [Text.starts_with app]. now rewrite Ascii.eqb_refl, IH.
Qed.

Lemma includes_chars_app (a p b : list ascii) :
  Text.includes_chars (a ++ p ++ b) p = true.
Proof.
  induction a as [| c a IH].
  - cbn [app]. destruct (p ++ b) eqn:E; cbn [Text.includes_chars];
      rewrite <- E, starts_with_app; reflexivity.
  - cbn [app Text.includes_chars]. rewrite IH. apply orb_true_r.
Qed.


Lemma starts_with_split (p s : list ascii) :
  Text.starts_with p s = true -> exists y, s = p ++ y.
Proof.
  revert s. induction p as [| c p IH]; intros s H.
  - exists s. reflexivity.
  - destruct s as [| d s]; [discriminate |]. cbn [Text.starts_with] in H.
    apply andb_true_iff in H. destruct H as [Hc Hp].
    apply Ascii.eqb_eq in Hc. subst d.
    destruct (IH _ Hp) as [y ->]. exists y. reflexivity.
Qed.

Lemma includes_chars_split (s p : list ascii) :
  Text.includes_chars s p = true -> exists x y, s = x ++ p ++ y.
Proof.
  induction s as [| c s IH]; cbn [Text.includes_chars]; intros H.
  - rewrite orb_false_r in H. apply starts_with_split in H.
    destruct H as [y ->]. exists [], y. reflexivity.
  - apply orb_true_iff in H. destruct H as [H | H].
    + apply starts_with_split in H. destruct H as [y ->].
      exists [], y. reflexivity.
    + destruct (IH H) as (x & y & ->). exists (c :: x), y. reflexivity.
Qed.

(** *** The successive matches *)

Lemma find_leftmost (r : Regex.regex) (s skipped : list ascii) (h : Regex.hit)
      (rest : list ascii) :
  Regex.find r s skipped = Some (h, rest) ->
  exists g,
    Regex.gap h = rev skipped ++ g
    /\ s = g ++ Regex.matched h ++ rest
    /\ unmatched r g (Regex.matched h ++ rest)
    /\ Regex.match_here r (Regex.matched h ++ rest)
       = Some (rest, Regex.groups h).
Proof.
  revert skipped.
  assert (Hit : forall s skipped rest' caps,
             Regex.match_here r s = Some (rest', caps) ->
             Some (Regex.mkHit (rev skipped)
                     (firstn (List.length s - List.length rest') s) caps,
                   rest') = Some (h, rest) ->
             exists g,
               Regex.gap h = rev skipped ++ g
               /\ s = g ++ Regex.matched h ++ rest
               /\ unmatched r g (Regex.matched h ++ rest)
               /\ Regex.match_here r (Regex.matched h ++ rest)
                  = Some (rest, Regex.groups h)).
  { intros s0 skipped rest' caps E H.
    pose proof (match_here_consumed _ _ _ _ E) as (w & Ef & Es & _).
    rewrite Ef in H. inversion H; subst h rest'.
    cbn [Regex.gap Regex.matched Regex.groups].
    exists []. rewrite app_nil_r. cbn [app unmatched].
    rewrite <- Es. auto. }
  induction s as [| c s IH]; intros skipped H; cbn [Regex.find] in H.
  - destruct (Regex.match_here r []) as [[rest' caps] |] eqn:E;
      [| discriminate].
    exact (Hit _ _ _ _ E H).
  - destruct (Regex.match_here r (c :: s)) as [[rest' caps] |] eqn:E.
    + exact (Hit _ _ _ _ E H).
    + destruct (IH _ H) as (g & Eg & Es & Hu & Hm).
      exists (c :: g). cbn [rev] in Eg. rewrite <- app_assoc in Eg.
      split; [exact Eg |]. split; [cbn [app]; now f_equal |].
      split; [| exact Hm]. cbn [unmatched app]. rewrite <- Es. auto.
Qed.

Lemma scan_leftmost (r : Regex.regex) (fuel : nat) :
  forall s hs tail,
    Regex.scan fuel r s = (hs, tail) -> leftmost r hs tail.
Proof.
  induction fuel as [| fuel IH]; intros s hs tail H; cbn [Regex.scan] in H.
  - inversion H; subst. exact I.
  - destruct (Regex.find r s []) as [[h rest] |] eqn:Ef.
    + destruct (Regex.matched h) as [| c m] eqn:Em.
      * inversion H; subst hs tail. exact I.
      * destruct (Regex.scan fuel r rest) as [hs' tail'] eqn:Er.
        inversion H; subst hs tail'.
        destruct (scan_sound _ _ _ _ _ Er) as [Es _].
        destruct (find_leftmost _ _ _ _ _ Ef) as (g & Eg & _ & Hu & Hm).
        cbn [rev app] in Eg. cbn [leftmost]. rewrite <- Es, Eg.
        rewrite Em in Hu, Hm |- *.
        split; [exact Hu |]. split; [exact Hm |]. eapply IH; eauto.
    + inversion H; subst hs tail. exact I.
Qed.

(** *** Trimming and squeezing *)

Lemma trim_start_spec (s : list ascii) :
  exists a, s = a ++ Text.trim_start s /\ forallb Text.is_space a = true
            /\ (forall c t', Text.trim_start s = c :: t' ->
                             Text.is_space c = false).
Proof.
  induction s as [| c s (a & Ea & Ha & Hc)]; cbn [Text.trim_start].
  - exists []. split; [reflexivity |]. split; [reflexivity | discriminate].
  - destruct (Text.is_space c) eqn:Ec.
    + exists (c :: a). cbn [app forallb]. rewrite Ec, Ha.
      split; [now f_equal |]. split; [reflexivity | exact Hc].
    + exists []. split; [reflexivity |]. split; [reflexivity |].
      intros c' t' E. assert (c' = c) by congruence. subst c'. exact Ec.
Qed.

Lemma forallb_rev {A : Type} (f : A -> bool) (l : list A) :
  forallb f l = true -> forallb f (rev l) = true.
Proof.
  rewrite !forallb_forall. intros H x Hx. apply H. now apply in_rev.
Qed.

Lemma trim_end_spec (s : list ascii) :
  exists b, s = Text.trim_end s ++ b /\ forallb Text.is_space b = true
            /\ (forall t' c, Text.trim_end s = t' ++ [c] ->
                             Text.is_space c = false).
Proof.
  unfold Text.trim_end.
  destruct (trim_start_spec (rev s)) as (a & Ea & Ha & Hc).
  exists (rev a). split; [| split].
  - rewrite <- rev_app_distr, <- Ea. now rewrite rev_involutive.
  - now apply forallb_rev.
  - intros t' c E. apply (Hc c (rev t')).
    rewrite <- (rev_involutive (Text.trim_start (rev s))), E, rev_app_distr.
    reflexivity.
Qed.

Lemma trim_chars_trimmed (s : list ascii) : trimmed s (Text.trim_chars s).
Proof.
  unfold trimmed, Text.trim_chars.
  destruct (trim_start_spec s) as (a & Ea & Ha & Hc).
  destruct (trim_end_spec (Text.trim_start s)) as (b & Eb & Hb & Hd).
  exists a, b. split; [rewrite <- Eb; exact Ea |].
  split; [exact Ha |]. split; [exact Hb |]. split; [| exact Hd].
  intros c t' E. apply (Hc c (t' ++ b)). rewrite Eb at 1. rewrite E.
  reflexivity.
Qed.

Lemma is_newline_char (c : ascii) :
  Text.is_newline c = true -> c = Text.newline.
Proof.
  unfold Text.is_newline, Text.code, Text.newline. intros H.
  apply Nat.eqb_eq in H. rewrite <- H. symmetry. apply ascii_nat_embedding.
Qed.

Lemma repeat_snoc {A : Type} (x : A) (n : nat) (l : list A) :
  repeat x n ++ x :: l = repeat x (S n) ++ l.
Proof.
  induction n as [| n IH]; [reflexivity |]. cbn [repeat app] in *.
  now rewrite IH.
Qed.

Lemma collapse_from_squeezed (held : nat) (s : list ascii) :
  squeezed (repeat Text.newline held ++ s) (Text.collapse_from held s).
Proof.
  revert held. induction s as [| c s IH]; intros held;
    cbn [Text.collapse_from].
  - destruct held as [| held]; [constructor |].
    rewrite <- (app_nil_r (repeat Text.newline (Nat.min (S held) 2))).
    apply SqRun; [lia | discriminate | constructor].
  - destruct (Text.is_newline c) eqn:Ec.
    + apply is_newline_char in Ec. subst c. rewrite repeat_snoc. apply IH.
    + assert (Hs : squeezed (c :: s) (c :: Text.collapse_from 0 s))
        by (apply SqChar; [exact Ec | apply (IH 0%nat)]).
      destruct held as [| held]; [exact Hs |].
      apply SqRun; [lia | | exact Hs].
      intros c' s' [= <- _]. exact Ec.
Qed.

(** *** What trimming and squeezing keep *)

Lemma solid_head (w : list ascii) :
  solid w -> exists c w', w = c :: w' /\ Text.is_space c = false.
Proof.
  intros [Hne Hw]. destruct w as [| c w']; [contradiction |].
  cbn [forallb] in Hw. apply andb_true_iff in Hw. destruct Hw as [Hc _].
  apply negb_true_iff in Hc. eauto.
Qed.

Lemma solid_rev (w : list ascii) : solid w -> solid (rev w).
Proof.
  intros [Hne Hw]. split; [| now apply forallb_rev].
  intros E. apply Hne. rewrite <- (rev_involutive w), E. reflexivity.
Qed.

Lemma space_newline (c : ascii) :
  Text.is_space c = false -> Text.is_newline c = false.
Proof.
  intros H. destruct (Text.is_newline c) eqn:E; [| reflexivity].
  apply is_newline_char in E. subst c. discriminate H.
Qed.

Lemma trim_start_keeps (x w y : list ascii) :
  solid w -> exists x', Text.trim_start (x ++ w ++ y) = x' ++ w ++ y.
Proof.
  intros Hw. destruct (solid_head w Hw) as (c & w' & -> & Hc).
  induction x as [| d x [x' IH]]; cbn [app Text.trim_start].
  - rewrite Hc. exists []. reflexivity.
  - destruct (Text.is_space d); [eauto |]. exists (d :: x). reflexivity.
Qed.

Lemma trim_end_keeps (x w y : list ascii) :
  solid w -> exists y', Text.trim_end (x ++ w ++ y) = x ++ w ++ y'.
Proof.
  intros Hw. unfold Text.trim_end.
  rewrite !rev_app_distr, <- app_assoc.
  destruct (trim_start_keeps (rev y) (rev w) (rev x) (solid_rev w Hw))
    as [y' ->].
  exists (rev y'). rewrite !rev_app_distr, !rev_involutive, <- app_assoc.
  reflexivity.
Qed.

Lemma collapse_from_word (w y : list ascii) :
  forallb (fun c => negb (Text.is_space c)) w = true ->
  Text.collapse_from 0 (w ++ y) = w ++ Text.collapse_from 0 y.
Proof.
  induction w as [| c w IH]; intros H; [reflexivity |].
  cbn [forallb] in H. apply andb_true_iff in H. destruct H as [Hc Hw].
  apply negb_true_iff, space_newline in Hc.
  cbn [app Text.collapse_from]. rewrite Hc. cbn [Nat.min repeat app].
  now rewrite IH.
Qed.

Lemma collapse_from_keeps (held : nat) (x w y : list ascii) :
  solid w ->
  exists x' y', Text.collapse_from held (x ++ w ++ y) = x' ++ w ++ y'.
Proof.
  intros Hw. revert held. induction x as [| d x IH]; intros held.
  - destruct (solid_head w Hw) as (c & w' & -> & Hc).
    destruct Hw as [_ Hw]. cbn [forallb] in Hw.
    apply andb_true_iff in Hw. destruct Hw as [_ Hw].
    cbn [app Text.collapse_from]. rewrite (space_newline c Hc).
    rewrite (collapse_from_word w' y Hw).
    exists (repeat Text.newline (Nat.min held 2)), (Text.collapse_from 0 y).
    reflexivity.
  - cbn [app Text.collapse_from]. destruct (Text.is_newline d).
    + apply IH.
    + destruct (IH 0%nat) as (x' & y' & ->).
      exists (repeat Text.newline (Nat.min held 2) ++ d :: x'), y'.
      now rewrite <- app_assoc.
Qed.

Lemma tidy_keeps (s w : list ascii) :
  solid w -> Text.includes_chars s w = true ->
  Text.includes_chars (tidy s) w = true.
Proof.
  intros Hw H. apply includes_chars_split in H. destruct H as (x & y & ->).
  unfold tidy, Text.trim_chars.
  destruct (trim_start_keeps x w y Hw) as [x1 ->].
  destruct (trim_end_keeps x1 w y Hw) as [y1 ->].
  unfold Text.collapse_blank.
  destruct (collapse_from_keeps 0 x1 w y1 Hw) as (x2 & y2 & ->).
  destruct (trim_start_keeps x2 w y2 Hw) as [x3 ->].
  destruct (trim_end_keeps x3 w y2 Hw) as [y3 ->].
  apply includes_chars_app.
Qed.

(** C5, as the code has it. The FILE blocks, and only they, are taken out
    of the response. The blocks are the successive matches of the FILE
    pattern: the response is the gaps with the blocks in between, every
    block belongs to the language of the pattern and gives one parsed file,
    no match begins inside a gap, each block is what the matcher takes at
    its place, and no match is left after the last one. The explanation is
    what remains, the gaps and the tail, without its leading and trailing
    white space, then with every run of three or more newlines cut down to
    two, then again without leading and trailing white space, so that it
    has no three newlines in a row. EXEC and SUBTASK blocks are not looked
    for: whatever lies outside the FILE blocks stays, and every run of
    characters without white space found there, such as the markers, paths
    and commands of an EXEC or SUBTASK block, is still in the
    explanation. *)
Theorem explanation_residual (output : string) :
  exists hs tail,
    Text.chars output = rebuild hs tail
    /\ Forall (fun h => matches Parser.fileRegex (Regex.matched h)) hs
    /\ leftmost Parser.fileRegex hs tail
    /\ Regex.find Parser.fileRegex tail [] = None
    /\ fst (Parser.parseFiles output) = map Parser.file_of_hit hs
    /\ snd (Parser.parseFiles output) = Text.str (tidy (residue hs tail))
    /\ (exists t1 t2,
          trimmed (residue hs tail) t1 /\ squeezed t1 t2
          /\ trimmed t2 (Text.chars (snd (Parser.parseFiles output))))
    /\ Text.includes (snd (Parser.parseFiles output)) blank_lines = false
    /\ (forall w,
          solid w ->
          Text.includes_chars (residue hs tail) w = true ->
          Text.includes_chars (Text.chars (snd (Parser.parseFiles output))) w
          = true).
Proof.
  destruct (Regex.matchAll Parser.fileRegex (Text.chars output))
    as [hs tail] eqn:E.
  exists hs, tail. unfold Regex.matchAll in E.
  pose proof (scan_sound _ _ _ _ _ E) as [Hs Hm].
  split; [exact Hs |]. split; [exact Hm |].
  split; [exact (scan_leftmost _ _ _ _ _ E) |]. split.
  - destruct (scan_exhausts _ _ _ _ _ (Nat.lt_succ_diag_r _) E)
      as [H | (h & rest & Hf & He)]; [exact H |].
    apply find_sound in Hf. destruct Hf as [_ M].
    apply fileRegex_nonempty in M. congruence.
  - unfold Parser.parseFiles, Parser.explanation_chars, Regex.remove_all,
      Regex.matchAll.
    rewrite E. cbn [fst snd]. split; [reflexivity |]. split; [reflexivity |].
    fold (residue hs tail). rewrite chars_str.
    split; [| split].
    + exists (Text.trim_chars (residue hs tail)),
        (Text.collapse_blank (Text.trim_chars (residue hs tail))).
      split; [apply trim_chars_trimmed |].
      split; [apply (collapse_from_squeezed 0) | apply trim_chars_trimmed].
    + unfold Text.includes. rewrite chars_str.
      apply (runs_ok_no_blank_lines _ 0%nat), tidy_runs_ok.
    + intros w Hw Hi. apply (tidy_keeps _ w Hw Hi).
Qed.

(** An EXEC block inside the content of a FILE block is found by
    [parseExecBlocks] and leaves the explanation together with the FILE
    block. *)
Example explanation_nested_block :
  let output := Scenario.nested_output in
  List.length (fst (Parser.parseFiles output)) = 1%nat
  /\ List.length (Parser.parseExecBlocks output) = 1%nat
  /\ snd (Parser.parseFiles output) = "".
Proof. vm_compute. repeat split; reflexivity. Qed.

(** C5 fails as stated: the EXEC and the SUBTASK block of a response are
    recognized by their parsers and are still in the explanation. *)
Lemma explanation_counterexample :
  let output := Scenario.chatty_output in
  let explanation := snd (Parser.parseFiles output) in
  List.length (Parser.parseExecBlocks output) = 1%nat
  /\ List.length (Parser.parseSubtasks output) = 1%nat
  /\ Text.includes explanation "===EXEC===" = true
  /\ Text.includes explanation "===SUBTASK===" = true
  /\ explanation <> spec_residual output.
Proof. vm_compute. repeat split; discriminate. Qed.

(** * Further properties of the server *)

(** ** Task categories *)

Lemma NoDup_map_fst_filter {A B : Type} (f : A * B -> bool) (l : list (A * B)) :
  NoDup (map fst l) -> NoDup (map fst (filter f l)).
Proof.
  induction l as [| x l IH]; simpl; intros H.
  - constructor.
  - inversion H as [| ? ? Hn Hl]; subst. destruct (f x); simpl.
    + constructor; [| now apply IH].
      intros Hin. apply Hn. apply in_map_iff in Hin.
      destruct Hin as (y & Ey & Hy). apply filter_In in Hy.
      apply in_map_iff. exists y. tauto.
    + now apply IH.
Qed.

Lemma in_map_fst_filter {A B : Type} (f : A * B -> bool) (l : list (A * B))
      (a : A) :
  In a (map fst (filter f l)) -> In a (map fst l).
Proof.
  intros H. apply in_map_iff in H. destruct H as (y & Ey & Hy).
  apply filter_In in Hy. apply in_map_iff. exists y. tauto.
Qed.

Lemma classifyTask_NoDup (title description : string) :
  NoDup (RL.classifyTask title description).
Proof.
  unfold RL.classifyTask.
  match goal with
  | |- context [filter ?f RL.TASK_TYPE_PATTERNS] =>
      assert (Hd : NoDup (map fst (filter f RL.TASK_TYPE_PATTERNS)));
      [| destruct (map fst (filter f RL.TASK_TYPE_PATTERNS));
         [constructor; [intros [] | constructor] | exact Hd]]
  end.
  apply NoDup_map_fst_filter. cbv [RL.TASK_TYPE_PATTERNS map fst].
  repeat (constructor; [simpl; intuition discriminate |]). constructor.
Qed.

(** X1. [classifyTask] never returns an empty list and never repeats a
    label; every label is [general] or a key of [TASK_TYPE_PATTERNS], and
    [general] only occurs alone. *)
Theorem classifyTask_labels (title description : string) :
  let types := RL.classifyTask title description in
  types <> []
  /\ NoDup types
  /\ (forall t, In t types ->
        In t ["python"; "javascript"; "web"; "api"; "test"; "refactor";
              "docs"; "devops"; "data"; "tool"; "general"])
  /\ (In "general" types -> types = ["general"]).
Proof.
  unfold RL.classifyTask.
  set (f := fun tp : string * Regex.regex => Regex.test (snd tp) _).
  assert (Hk : map fst RL.TASK_TYPE_PATTERNS
               = ["python"; "javascript"; "web"; "api"; "test"; "refactor";
                  "docs"; "devops"; "data"; "tool"]) by reflexivity.
  assert (Hd : NoDup (map fst (filter f RL.TASK_TYPE_PATTERNS))).
  { apply NoDup_map_fst_filter. rewrite Hk.
    repeat (constructor; [simpl; intuition discriminate |]). constructor. }
  assert (Hi : forall t, In t (map fst (filter f RL.TASK_TYPE_PATTERNS)) ->
                 In t (map fst RL.TASK_TYPE_PATTERNS))
    by (intros t; apply in_map_fst_filter).
  rewrite Hk in Hi.
  destruct (map fst (filter f RL.TASK_TYPE_PATTERNS)) as [| t0 ts] eqn:E.
  - cbv zeta. split; [discriminate |]. split.
    + constructor; [intros [] | constructor].
    + split; [| reflexivity]. intros t [<- | []]. simpl. tauto.
  - cbv zeta. split; [discriminate |]. split; [exact Hd |]. split.
    + intros t Ht. apply Hi in Ht. simpl in *. tauto.
    + intros Hg. apply Hi in Hg. simpl in Hg.
      exfalso. intuition discriminate.
Qed.

(** ** Exact effect of a recorded performance *)

Lemma lookup_fold_record_type (agentId : string) (e : ScoreEntry)
      (types : list string) (memo : PerformanceLog) (a t : string) :
  NoDup types ->
  RL.lookup_log (fold_left (RL.record_type agentId e) types memo) a t =
  if String.eqb a agentId && mem_string t types
  then Some (RL.record_entry e
               (match RL.lookup_log memo agentId t with
                | Some l => l
                | None => RL.empty_log
                end))
  else RL.lookup_log memo a t.
Proof.
  revert memo. induction types as [| t0 ts IH]; intros memo Hd.
  - simpl. now rewrite andb_false_r.
  - inversion Hd as [| ? ? Hn Hts]; subst. cbn [fold_left].
    rewrite IH by exact Hts. rewrite !lookup_record_type.
    unfold mem_string. cbn [existsb]. fold (mem_string t ts).
    rewrite String.eqb_refl. cbn [andb].
    destruct (String.eqb a agentId) eqn:Ea; cbn [andb]; [| reflexivity].
    destruct (String.eqb t t0) eqn:Et; cbn [orb].
    + apply String.eqb_eq in Et. subst t0.
      replace (mem_string t ts) with false; [reflexivity |].
      symmetry. apply not_true_is_false. intros Hm. apply Hn.
      unfold mem_string in Hm. apply existsb_exists in Hm.
      destruct Hm as (x & Hx & Ex). apply String.eqb_eq in Ex. now subst x.
    + reflexivity.
Qed.

Lemma mem_string_in (x : string) (l : list string) :
  mem_string x l = true <-> In x l.
Proof.
  unfold mem_string. rewrite existsb_exists. split.
  - intros (y & Hy & E). apply String.eqb_eq in E. now subst y.
  - intros H. exists x. split; [exact H | apply String.eqb_refl].
Qed.

Lemma lookup_recordPerformance (now : Z) (agentId : string)
      (types : list string) (score : Z) (taskId : string)
      (memo : PerformanceLog) (a t : string) :
  NoDup types ->
  RL.lookup_log (RL.recordPerformance now agentId types score taskId memo) a t
  = if String.eqb a agentId && mem_string t types
    then Some (RL.record_entry (mkScoreEntry score taskId now)
                 (match RL.lookup_log memo agentId t with
                  | Some l => l
                  | None => RL.empty_log
                  end))
    else RL.lookup_log memo a t.
Proof.
  intros Hd. unfold RL.recordPerformance.
  rewrite lookup_fold_record_type by exact Hd.
  destruct (Obj.get agentId memo) eqn:E; [reflexivity |].
  rewrite !lookup_fresh_agent by exact E. reflexivity.
Qed.

(** X2. Recording the performance of a task on the categories that
    [classifyTask] gives it adds exactly one entry to each of these
    categories: the new list is the old one followed by the new entry, cut
    to its 20 most recent entries. *)
Theorem recordPerformance_one_entry (now : Z) (agentId title description : string)
    (score : Z) (taskId : string) (memo : PerformanceLog) (type : string) :
  In type (RL.classifyTask title description) ->
  exists log,
    RL.lookup_log
      (RL.recordPerformance now agentId (RL.classifyTask title description)
                            score taskId memo) agentId type = Some log
    /\ scores log
       = Js.last_n 20
           (match RL.lookup_log memo agentId type with
            | Some old => scores old
            | None => []
            end ++ [mkScoreEntry score taskId now]).
Proof.
  intros Hin.
  rewrite lookup_recordPerformance
    by (apply classifyTask_NoDup).
  rewrite String.eqb_refl. apply mem_string_in in Hin. rewrite Hin. cbn [andb].
  eexists. split; [reflexivity |]. rewrite record_entry_last_20.
  destruct (RL.lookup_log memo agentId type); reflexivity.
Qed.

Lemma recordPerformance_one_entry_witness :
  In "general" (RL.classifyTask "write hello" "write hello")
  /\ exists log,
       RL.lookup_log
         (RL.recordPerformance 5 "a1"
            (RL.classifyTask "write hello" "write hello") 80 "TASK-001" [])
         "a1" "general" = Some log
       /\ scores log
          = Js.last_n 20
              (match RL.lookup_log [] "a1" "general" with
               | Some old => scores old
               | None => []
               end ++ [mkScoreEntry 80 "TASK-001" 5]).
Proof.
  assert (H : In "general" (RL.classifyTask "write hello" "write hello"))
    by (vm_compute; left; reflexivity).
  split; [exact H |].
  exact (recordPerformance_one_entry 5 "a1" "write hello" "write hello" 80
                                     "TASK-001" [] "general" H).
Defined.

(** The categories [classifyTask] returns are plain keys. *)
Lemma classifyTask_plain (title description : string) :
  forallb Obj.plain (RL.classifyTask title description) = true.
Proof.
  unfold RL.classifyTask.
  set (f := fun tp : string * Regex.regex =>
              Regex.test (snd tp)
                (Text.toLowerCase (title ++ " " ++ description)%string)).
  assert (H : forall l, forallb Obj.plain (map fst l) = true ->
                        forallb Obj.plain (map fst (filter f l)) = true).
  { induction l as [| x l IH]; cbn [filter map forallb]; intros Hl;
      [reflexivity |].
    apply andb_true_iff in Hl. destruct Hl as [Hx Hl].
    destruct (f x); cbn [map forallb]; rewrite ?Hx; auto. }
  specialize (H RL.TASK_TYPE_PATTERNS eq_refl).
  destruct (map fst (filter f RL.TASK_TYPE_PATTERNS)); [reflexivity | exact H].
Qed.



(** ** Ranges of the scores *)

Import Range.

(** X4. The number of recent failures of an agent lies between 0 and 5,
    and is 0 for an agent without records. *)
Theorem getRecentFailures_range (memo : PerformanceLog) (agentId : string) :
  0 <= RL.getRecentFailures memo agentId <= 5
  /\ (Obj.get agentId memo = None -> RL.getRecentFailures memo agentId = 0).
Proof.
  unfold RL.getRecentFailures. destruct (Obj.get agentId memo) as [al |].
  - split; [| discriminate]. split; [apply len_nonneg |].
    unfold Js.len.
    match goal with
    | |- Z.of_nat (List.length (filter ?f (firstn 5 ?l))) <= 5 =>
        pose proof (filter_length_le f (firstn 5 l)) as H1;
        pose proof (firstn_le_length 5 l) as H2
    end.
    lia.
  - split; [lia | reflexivity].
Qed.

Lemma sum_scores_from (l : list ScoreEntry) (acc : Z) :
  fold_left (fun s e => s + s_score e) l acc
  = acc + RL.sum_scores l.
Proof.
  unfold RL.sum_scores. revert acc.
  induction l as [| e l IH]; intros acc; simpl; [lia |].
  rewrite IH, (IH (s_score e)). lia.
Qed.

Lemma sum_scores_range (l : list ScoreEntry) :
  Forall (fun e => score_ok (s_score e)) l ->
  0 <= RL.sum_scores l <= 100 * Js.len l.
Proof.
  unfold Js.len. induction l as [| e l IH]; intros H.
  - cbn. lia.
  - inversion H as [| ? ? He Hl]; subst. specialize (IH Hl).
    unfold RL.sum_scores in *. cbn [fold_left]. rewrite sum_scores_from.
    unfold RL.sum_scores, score_ok in *. cbn [List.length]. lia.
Qed.

Lemma rounded_mean_range (n d q : Z) :
  0 < d -> 0 <= n <= 100 * d -> Spec.rounded_mean n d q -> 0 <= q <= 100.
Proof. unfold Spec.rounded_mean. intros Hd Hn [H1 H2]. nia. Qed.

Lemma log_avg_range (l : TypeLog) :
  Spec.log_ok l -> scores l <> [] ->
  Forall (fun e => score_ok (s_score e)) (scores l) ->
  0 <= avg l <= 100.
Proof.
  intros (_ & _ & Hm) Hne Hr.
  apply (rounded_mean_range (RL.sum_scores (scores l)) (Js.len (scores l))).
  - apply len_pos. exact Hne.
  - now apply sum_scores_range.
  - exact (Hm Hne).
Qed.

Lemma get_in_values {V : Type} (k : string) (v : V) (m : list (string * V)) :
  Obj.get k m = Some v -> In v (Obj.values m).
Proof.
  unfold Obj.values. induction m as [| [k' v'] m IH]; simpl; [discriminate |].
  destruct (String.eqb k k'); [intros [= ->]; now left | auto].
Qed.

Lemma Forall_values_set {V : Type} (P : V -> Prop) (k : string) (v : V)
      (m : list (string * V)) :
  P v -> Forall P (Obj.values m) -> Forall P (Obj.values (Obj.set k v m)).
Proof.
  unfold Obj.values. intros Hv. induction m as [| [k' v'] m IH]; simpl; intros H.
  - constructor; [exact Hv | constructor].
  - inversion H; subst. destruct (String.eqb k k'); simpl; constructor; auto.
Qed.

(** X5. In a log that is well scored, the score of an agent in a category
    and its overall score lie between 0 and 100. *)
Theorem agent_scores_range (memo : PerformanceLog) (agentId taskType : string) :
  well_scored memo ->
  0 <= RL.getAgentScore memo agentId taskType <= 100
  /\ 0 <= RL.getAgentOverallScore memo agentId <= 100.
Proof.
  intros H. split.
  - unfold RL.getAgentScore, RL.lookup_log.
    destruct (Obj.get agentId memo) as [al |] eqn:Ea; [| lia].
    destruct (Obj.get taskType al) as [l |] eqn:El; [| lia].
    destruct (count l =? 0); [lia |].
    pose proof (H _ _ Ea) as Hal. rewrite Forall_forall in Hal.
    destruct (Hal l (get_in_values _ _ _ El)) as (Hok & Hne & Hr).
    now apply log_avg_range.
  - unfold RL.getAgentOverallScore.
    destruct (Obj.get agentId memo) as [al |] eqn:Ea; [| lia].
    pose proof (H _ _ Ea) as Hal.
    destruct (Obj.values al) as [| t ts] eqn:Ev; [lia |].
    assert (Hsum : forall l acc,
               Forall (fun l => Spec.log_ok l /\ scores l <> []
                                /\ Forall (fun e => score_ok (s_score e))
                                          (scores l)) l ->
               acc <= fold_left (fun s t => s + RL.avg_or_50 t) l acc
                   <= acc + 100 * Js.len l).
    { unfold Js.len. induction l as [| x l IH]; intros acc Hl.
      - cbn. lia.
      - inversion Hl as [| ? ? (Hok & Hne & Hr) Hl']; subst.
        cbn [fold_left List.length]. specialize (IH (acc + RL.avg_or_50 x) Hl').
        pose proof (log_avg_range x Hok Hne Hr) as Hx.
        unfold RL.avg_or_50 in *. destruct (avg x =? 0); lia. }
    specialize (Hsum (t :: ts) 0 Hal).
    apply (rounded_mean_range
             (fold_left (fun s t => s + RL.avg_or_50 t) (t :: ts) 0)
             (Js.len (t :: ts))).
    + apply len_pos. discriminate.
    + lia.
    + apply round_div_rounded_mean. apply len_pos. discriminate.
Qed.

Lemma well_scored_nil : well_scored [].
Proof. intros a al H. discriminate. Qed.

Lemma Forall_last_n {A : Type} (P : A -> Prop) (n : nat) (l : list A) :
  Forall P l -> Forall P (Js.last_n n l).
Proof.
  unfold Js.last_n. intros H. rewrite Forall_forall in *.
  intros x Hx. apply H. eapply in_skipn; eauto.
Qed.

Lemma record_entry_well (e : ScoreEntry) (log : TypeLog) :
  score_ok (s_score e) ->
  Forall (fun x => score_ok (s_score x)) (scores log) ->
  Spec.log_ok (RL.record_entry e log)
  /\ scores (RL.record_entry e log) <> []
  /\ Forall (fun x => score_ok (s_score x)) (scores (RL.record_entry e log)).
Proof.
  intros He Hl. split; [apply record_entry_ok |]. split.
  - destruct (record_entry_scores e log) as [older ->].
    destruct older; discriminate.
  - rewrite record_entry_last_20. apply Forall_last_n.
    apply Forall_app. split; [exact Hl | constructor; [exact He | constructor]].
Qed.

Lemma get_record_type (agentId : string) (e : ScoreEntry)
      (memo : PerformanceLog) (type a : string) :
  Obj.get a (RL.record_type agentId e memo type) =
  if String.eqb a agentId
  then Some (Obj.set type
               (RL.record_entry e
                  (match RL.lookup_log memo agentId type with
                   | Some l => l
                   | None => RL.empty_log
                   end))
               (match Obj.get agentId memo with
                | Some al => al
                | None => []
                end))
  else Obj.get a memo.
Proof.
  unfold RL.record_type, RL.lookup_log.
  destruct (String.eqb a agentId) eqn:Ea.
  - apply String.eqb_eq in Ea. subst a. rewrite get_set_same.
    destruct (Obj.get agentId memo); reflexivity.
  - apply String.eqb_neq in Ea. now rewrite get_set_other.
Qed.

Lemma record_type_well (agentId : string) (e : ScoreEntry)
      (memo : PerformanceLog) (type : string) :
  score_ok (s_score e) -> well_scored memo ->
  well_scored (RL.record_type agentId e memo type).
Proof.
  intros He H a al. rewrite get_record_type.
  destruct (String.eqb a agentId); [| apply H].
  intros [= <-]. unfold RL.lookup_log.
  destruct (Obj.get agentId memo) as [al0 |] eqn:Ea.
  - pose proof (H _ _ Ea) as Hal. apply Forall_values_set; [| exact Hal].
    apply record_entry_well; [exact He |].
    destruct (Obj.get type al0) as [l |] eqn:El; [| constructor].
    rewrite Forall_forall in Hal.
    apply (Hal l (get_in_values _ _ _ El)).
  - apply Forall_values_set; [| constructor].
    apply record_entry_well; [exact He | constructor].
Qed.

(** Recording a score between 0 and 100 keeps the log well scored. *)
Lemma recordPerformance_well (now : Z) (agentId : string)
    (taskTypes : list string) (score : Z) (taskId : string)
    (memo : PerformanceLog) :
  0 <= score <= 100 -> well_scored memo ->
  well_scored (RL.recordPerformance now agentId taskTypes score taskId memo).
Proof.
  intros Hs H. unfold RL.recordPerformance.
  set (e := mkScoreEntry score taskId now).
  assert (Hf : forall m, well_scored m ->
                 well_scored (fold_left (RL.record_type agentId e) taskTypes m)).
  { induction taskTypes as [| t ts IH]; intros m Hm; [exact Hm |].
    cbn [fold_left]. apply IH, record_type_well; [exact Hs | exact Hm]. }
  apply Hf. destruct (Obj.get agentId memo) eqn:E; [exact H |].
  intros a al Ha. destruct (String.eqb a agentId) eqn:Ea.
  - apply String.eqb_eq in Ea. subst a. rewrite get_set_same in Ha.
    inversion Ha; subst. constructor.
  - apply String.eqb_neq in Ea. rewrite get_set_other in Ha by exact Ea.
    eapply H; eauto.
Qed.

(** ** Bookkeeping of an agent *)

(** X6. A successful call costs the agent at most 5 energy and never takes
    it below 0, earns between 20 and 50 xp, sets the level to
    [floor(xp/300) + 1], counts one more completed task and adds the tokens
    to its total; it does not touch the status. With 0 tokens the energy is
    unchanged and the xp gain is 20. *)
Theorem agent_after_call_bounds (tokensUsed : Z) (a : Agent) :
  0 <= tokensUsed -> 0 <= a_energy a ->
  let a' := agent_after_call tokensUsed a in
  a_energy a - 5 <= a_energy a' <= a_energy a
  /\ 0 <= a_energy a'
  /\ 20 <= a_xp a' - a_xp a <= 50
  /\ a_level a' = a_xp a' / 300 + 1
  /\ a_tasksCompleted a' = a_tasksCompleted a + 1
  /\ a_totalTokensUsed a' = a_totalTokensUsed a + tokensUsed
  /\ a_status a' = a_status a
  /\ (tokensUsed = 0 ->
      a_energy a' = a_energy a /\ a_xp a' = a_xp a + 20).
Proof.
  intros Ht He. unfold agent_after_call, ceil_div.
  cbn [a_energy a_xp a_level a_tasksCompleted a_totalTokensUsed a_status].
  assert (Hq : 0 <= - (- tokensUsed / 1000)).
  { assert (- tokensUsed / 1000 <= 0)
      by (apply Z.div_le_upper_bound; lia).
    lia. }
  assert (Hx : 0 <= tokensUsed / 100) by (apply Z.div_pos; lia).
  split; [lia |]. split; [lia |]. split; [lia |]. split; [reflexivity |].
  split; [reflexivity |]. split; [reflexivity |]. split; [reflexivity |].
  intros ->. split; [| reflexivity]. change (- (- 0 / 1000)) with 0. lia.
Qed.

Lemma agent_after_call_bounds_witness :
  let a := newAgent 0 (Scenario.config "a1") Idle in
  0 <= 2500 /\ 0 <= a_energy a
  /\ a_energy a - 5 <= a_energy (agent_after_call 2500 a) <= a_energy a.
Proof.
  assert (H1 : 0 <= 2500) by lia.
  assert (H2 : 0 <= a_energy (newAgent 0 (Scenario.config "a1") Idle))
    by (simpl; lia).
  split; [exact H1 |]. split; [exact H2 |].
  exact (proj1 (agent_after_call_bounds 2500
                  (newAgent 0 (Scenario.config "a1") Idle) H1 H2)).
Defined.

(** X7. The recharge timer never lowers the energy of an agent and never
    raises it above [maxEnergy]; an offline agent is not recharged, and the
    only status change the timer makes is from cooldown to idle. *)
Theorem recharge_energy (now : Z) (a : Agent) :
  a_energy a <= a_maxEnergy a ->
  let a' := recharge now a in
  a_energy a <= a_energy a' <= a_maxEnergy a
  /\ (a_status a = Offline -> a_energy a' = a_energy a)
  /\ (a_status a' = a_status a
      \/ (a_status a = Cooldown /\ a_status a' = Idle)).
Proof.
  intros He. unfold recharge.
  destruct (a_status a) eqn:Es; cbn [AgentStatus_eqb];
    cbn [a_cooldownUntil agent_with_energy];
    (destruct (a_cooldownUntil a) as [u |];
     [destruct (negb (u =? 0) && (u <? now)) |]);
    repeat (cbn [a_energy a_maxEnergy a_status agent_with_cooldownUntil
                 agent_with_status agent_with_energy AgentStatus_eqb];
            rewrite ?Es);
    (split; [lia |]);
    (split; [intros; first [reflexivity | discriminate] |]);
    first [left; reflexivity | right; split; reflexivity].
Qed.

Lemma recharge_energy_witness :
  let a := newAgent 0 (Scenario.config "a1") Idle in
  a_energy a <= a_maxEnergy a
  /\ a_energy a <= a_energy (recharge 30000 a) <= a_maxEnergy a.
Proof.
  assert (H : a_energy (newAgent 0 (Scenario.config "a1") Idle)
              <= a_maxEnergy (newAgent 0 (Scenario.config "a1") Idle))
    by (simpl; lia).
  split; [exact H |].
  exact (proj1 (recharge_energy 30000
                  (newAgent 0 (Scenario.config "a1") Idle) H)).
Defined.

(** X8. An agent whose cooldown has expired ([cooldownUntil] set, not 0 and
    earlier than now) leaves the timer without [cooldownUntil] and out of
    cooldown; while the cooldown runs, status and [cooldownUntil] stay. *)
Theorem recharge_cooldown (now : Z) (a : Agent) (until : Z) :
  a_cooldownUntil a = Some until -> until <> 0 ->
  let a' := recharge now a in
  (until < now -> a_cooldownUntil a' = None /\ a_status a' <> Cooldown)
  /\ (now <= until -> a_cooldownUntil a' = Some until
                      /\ a_status a' = a_status a).
Proof.
  intros Hu Hne. unfold recharge.
  assert (Hz : negb (until =? 0) = true)
    by (apply negb_true_iff, Z.eqb_neq; exact Hne).
  split.
  - intros Hlt. apply Z.ltb_lt in Hlt.
    destruct (a_status a) eqn:Es; cbn [AgentStatus_eqb];
      cbn [a_cooldownUntil agent_with_energy]; rewrite Hu, Hz, Hlt;
      repeat (cbn [a_cooldownUntil a_status agent_with_cooldownUntil
                   agent_with_status agent_with_energy AgentStatus_eqb andb];
              rewrite ?Es);
      (split; [reflexivity | discriminate]).
  - intros Hle. apply Z.ltb_ge in Hle.
    destruct (a_status a) eqn:Es; cbn [AgentStatus_eqb];
      cbn [a_cooldownUntil agent_with_energy]; rewrite Hu, Hz, Hle;
      repeat (cbn [a_cooldownUntil a_status agent_with_cooldownUntil
                   agent_with_status agent_with_energy AgentStatus_eqb andb];
              rewrite ?Es, ?Hu);
      (split; reflexivity).
Qed.

Lemma recharge_cooldown_witness :
  let a := agent_with_status Cooldown
             (agent_with_cooldownUntil (Some 60005)
                (newAgent 0 (Scenario.config "a1") Idle)) in
  a_cooldownUntil a = Some 60005 /\ 60005 <> 0
  /\ (60005 < 90000 ->
      a_cooldownUntil (recharge 90000 a) = None
      /\ a_status (recharge 90000 a) <> Cooldown).
Proof.
  assert (H1 : a_cooldownUntil
                 (agent_with_status Cooldown
                    (agent_with_cooldownUntil (Some 60005)
                       (newAgent 0 (Scenario.config "a1") Idle)))
               = Some 60005) by reflexivity.
  assert (H2 : 60005 <> 0) by lia.
  split; [exact H1 |]. split; [exact H2 |].
  exact (proj1 (recharge_cooldown 90000 _ 60005 H1 H2)).
Defined.

(** ** The agent picker *)

(** X9. [pickAgent] returns no agent exactly when no agent is callable;
    in that case it reads no random number. *)
Theorem pickAgent_none (pref title desc : string) (s : State) :
  (fst (pickAgent pref title desc s) = None <-> getCallableAgents s = [])
  /\ (getCallableAgents s = [] -> pickAgent pref title desc s = (None, s)).
Proof.
  unfold pickAgent. destruct (getCallableAgents s) as [| first rest].
  - split; [split; reflexivity | reflexivity].
  - split; [| discriminate]. split; [| discriminate].
    match goal with
    | |- context [match ?x with Some _ => _ | None => _ end] => destruct x
    end; [discriminate |].
    destruct (next_random s) as [r s'].
    destruct (draw _ _); discriminate.
Qed.

(** X10. When the preferred agent id is neither empty nor [auto] and a
    callable agent has that id, [pickAgent] returns a callable agent with
    that id and reads no random number. *)
Theorem pickAgent_preferred (pref title desc : string) (s : State) :
  pref <> "" -> pref <> "auto" ->
  (exists i a, In (i, a) (getCallableAgents s) /\ a_id a = pref) ->
  exists i a,
    pickAgent pref title desc s = (Some i, s)
    /\ nth_error (agents s) i = Some a
    /\ callable a = true /\ a_id a = pref.
Proof.
  intros H1 H2 (i0 & a0 & Hin & Hid). unfold pickAgent.
  destruct (getCallableAgents s) as [| first rest] eqn:Eav; [contradiction |].
  rewrite <- Eav in *.
  apply String.eqb_neq in H1, H2. rewrite H1, H2. cbn [negb andb].
  destruct (find (fun ia => String.eqb (a_id (snd ia)) pref)
                 (getCallableAgents s)) as [[i a] |] eqn:Ef.
  - apply find_some in Ef. destruct Ef as [Hi Ha]. cbn [snd] in Ha.
    apply String.eqb_eq in Ha. apply callable_in_available in Hi.
    exists i, a. cbn [fst]. tauto.
  - exfalso. apply (find_none _ _ Ef) in Hin. cbn [snd] in Hin.
    rewrite Hid, String.eqb_refl in Hin. discriminate.
Qed.

Lemma pickAgent_preferred_witness :
  "a2" <> "" /\ "a2" <> "auto"
  /\ exists i a,
       pickAgent "a2" "write hello" "write hello" Scenario.start = (Some i, Scenario.start)
       /\ nth_error (agents Scenario.start) i = Some a
       /\ callable a = true /\ a_id a = "a2".
Proof.
  assert (H1 : "a2" <> "") by discriminate.
  assert (H2 : "a2" <> "auto") by discriminate.
  assert (H3 : exists i a, In (i, a) (getCallableAgents Scenario.start)
                           /\ a_id a = "a2").
  { exists 1%nat, (newAgent 0 (Scenario.config "a2") Idle).
    split; [vm_compute; right; left; reflexivity | reflexivity]. }
  split; [exact H1 |]. split; [exact H2 |].
  exact (pickAgent_preferred "a2" "write hello" "write hello" Scenario.start
                             H1 H2 H3).
Defined.

(** ** Sorting *)

Lemma insert_sorted_perm {A : Type} (before : A -> A -> bool) (x : A)
      (l : list A) :
  Permutation (Js.insert_sorted before x l) (x :: l).
Proof.
  induction l as [| y l IH]; simpl.
  - apply Permutation_refl.
  - destruct (before x y).
    + apply Permutation_refl.
    + eapply Permutation_trans; [apply perm_skip, IH | apply perm_swap].
Qed.

Lemma stable_sort_perm {A : Type} (before : A -> A -> bool) (l : list A) :
  Permutation (Js.stable_sort before l) l.
Proof.
  induction l as [| x l IH]; simpl.
  - apply Permutation_refl.
  - eapply Permutation_trans; [apply insert_sorted_perm |].
    apply perm_skip, IH.
Qed.

Section Sorted.
Context {A : Type} (before : A -> A -> bool).
Hypothesis before_total : forall x y, before x y = false -> before y x = true.
Hypothesis before_trans :
  forall x y z, before x y = true -> before y z = true -> before x z = true.

Lemma insert_sorted_sorted (x : A) (l : list A) :
  StronglySorted (fun a b => before a b = true) l ->
  StronglySorted (fun a b => before a b = true) (Js.insert_sorted before x l).
Proof.
  induction l as [| y l IH]; simpl; intros H.
  - constructor; constructor.
  - inversion H as [| ? ? Hs Hf]; subst.
    destruct (before x y) eqn:E.
    + constructor; [exact H |]. constructor; [exact E |].
      rewrite Forall_forall in *. intros z Hz. eauto.
    + constructor; [apply IH; exact Hs |].
      rewrite Forall_forall in *. intros z Hz.
      apply in_insert_sorted in Hz. destruct Hz as [-> | Hz]; auto.
Qed.

Lemma stable_sort_sorted (l : list A) :
  StronglySorted (fun a b => before a b = true) (Js.stable_sort before l).
Proof.
  induction l as [| x l IH]; simpl.
  - constructor.
  - apply insert_sorted_sorted, IH.
Qed.

End Sorted.

Lemma sorted_split {A : Type} (R : A -> A -> Prop) (l1 l2 : list A) :
  StronglySorted R (l1 ++ l2) ->
  forall x y, In x l1 -> In y l2 -> R x y.
Proof.
  induction l1 as [| a l1 IH]; simpl; intros H x y Hx Hy; [contradiction |].
  inversion H as [| ? ? Hs Hf]; subst. destruct Hx as [-> | Hx].
  - rewrite Forall_forall in Hf. apply Hf. apply in_or_app. now right.
  - eapply IH; eauto.
Qed.

Lemma filter_length_perm {A : Type} (f : A -> bool) (l l' : list A) :
  Permutation l l' -> List.length (filter f l) = List.length (filter f l').
Proof.
  intros H. induction H; simpl.
  - reflexivity.
  - destruct (f x); simpl; congruence.
  - destruct (f x), (f y); reflexivity.
  - congruence.
Qed.

Lemma filter_none {A : Type} (f : A -> bool) (l : list A) :
  (forall x, In x l -> f x = false) -> filter f l = [].
Proof.
  induction l as [| x l IH]; simpl; intros H; [reflexivity |].
  rewrite (H x) by now left. apply IH. intros y Hy. apply H. now right.
Qed.

Lemma sorted_suffix {A : Type} (R : A -> A -> Prop) (l1 l2 : list A) :
  StronglySorted R (l1 ++ l2) -> StronglySorted R l2.
Proof.
  induction l1 as [| a l1 IH]; simpl; intros H; [exact H |].
  inversion H; subst. auto.
Qed.

(** Among the first [n] elements of a list sorted by a total comparator, an
    element has fewer than [n] elements that must come strictly before
    it. *)
Lemma top_n_rank {A : Type} (before : A -> A -> bool) (n : nat)
      (l : list A) (x : A) :
  (forall a b, before a b = false -> before b a = true) ->
  StronglySorted (fun a b => before a b = true) l ->
  In x (firstn n l) ->
  (List.length (filter (fun y => negb (before x y)) l) < n)%nat.
Proof.
  intros Htot Hs Hx. apply In_nth_error in Hx. destruct Hx as [k Hk].
  assert (Hkn : (k < n)%nat).
  { assert (H : (k < List.length (firstn n l))%nat)
      by (apply nth_error_Some; congruence).
    rewrite length_firstn in H. lia. }
  assert (Hl : nth_error l k = Some x).
  { rewrite <- (firstn_skipn n l). rewrite nth_error_app1; [exact Hk |].
    apply nth_error_Some. congruence. }
  apply nth_error_split in Hl. destruct Hl as (l1 & l2 & El & Elen).
  subst l. rewrite filter_app, length_app.
  apply sorted_suffix in Hs. inversion Hs as [| ? ? Hs2 Hf]; subst.
  rewrite (filter_none _ (x :: l2)).
  - pose proof (filter_length_le (fun y => negb (before x y)) l1).
    simpl. lia.
  - intros y [<- | Hy]; apply negb_false_iff.
    + destruct (before x x) eqn:E; [reflexivity |].
      pose proof (Htot _ _ E). congruence.
    + rewrite Forall_forall in Hf. now apply Hf.
Qed.

Lemma Qle_bool_total (x y : Q) : Qle_bool x y = false -> Qle_bool y x = true.
Proof.
  intros H. apply Qle_bool_iff. apply Qlt_le_weak, Qnot_le_lt.
  intros Hle. apply Qle_bool_iff in Hle. congruence.
Qed.

Lemma Qle_bool_trans (x y z : Q) :
  Qle_bool x y = true -> Qle_bool y z = true -> Qle_bool x z = true.
Proof.
  rewrite !Qle_bool_iff. apply Qle_trans.
Qed.

(** X12. When no agent is preferred, [pickAgent] picks among the three
    best-scored callable agents: at most two callable agents score
    strictly higher than the agent it returns. *)
Theorem pickAgent_top_three (pref title desc : string) (s : State) (i : nat) :
  pref = "" \/ pref = "auto" ->
  fst (pickAgent pref title desc s) = Some i ->
  exists a,
    nth_error (agents s) i = Some a
    /\ callable a = true
    /\ (List.length (better_agents s title desc a) <= 2)%nat.
Proof.
  intros Hp. unfold pickAgent.
  destruct (getCallableAgents s) as [| first rest] eqn:Eav; [discriminate |].
  rewrite <- Eav.
  replace (negb (String.eqb pref "") && negb (String.eqb pref "auto"))
    with false by (destruct Hp as [-> | ->]; reflexivity).
  set (score := finalScore (performanceLog s) (RL.classifyTask title desc)).
  set (scored := map (fun ia => (fst ia, score (snd ia))) (getCallableAgents s)).
  set (before := fun a b : nat * Q => Qle_bool (snd b) (snd a)).
  set (sorted := Js.stable_sort before scored).
  assert (Hsorted : StronglySorted (fun a b => before a b = true) sorted).
  { apply stable_sort_sorted.
    - intros x y. apply Qle_bool_total.
    - intros x y z Hxy Hyz. eapply Qle_bool_trans; eauto. }
  set (topN := firstn 3 sorted).
  assert (Htop : forall j q, In (j, q) topN ->
            exists a, nth_error (agents s) j = Some a /\ callable a = true
                      /\ (List.length (better_agents s title desc a) <= 2)%nat).
  { intros j q Hin. subst topN.
    pose proof (top_n_rank before 3 sorted (j, q)
                  (fun a b => Qle_bool_total (snd b) (snd a)) Hsorted Hin) as Hr.
    apply in_firstn in Hin. apply in_stable_sort in Hin.
    apply in_map_iff in Hin. destruct Hin as ([j' a] & E & Hin).
    cbn [fst snd] in E. inversion E; subst j' q.
    destruct (callable_in_available _ _ _ Hin) as [Hn Hc].
    exists a. split; [exact Hn |]. split; [exact Hc |].
    rewrite (filter_length_perm _ _ _ (stable_sort_perm before scored)) in Hr.
    subst scored. unfold better_agents, pick_score. fold score.
    rewrite <- (length_map (fun ia => (fst ia, score (snd ia)))).
    rewrite <- (filter_map_swap (fun ia => (fst ia, score (snd ia)))) || idtac.
    replace (List.length
               (map (fun ia => (fst ia, score (snd ia)))
                  (filter (fun ia => negb (Qle_bool (score (snd ia)) (score a)))
                          (getCallableAgents s))))
      with (List.length
              (filter (fun y => negb (before (j, score a) y))
                 (map (fun ia => (fst ia, score (snd ia)))
                      (getCallableAgents s)))).
    - lia.
    - f_equal. clear. induction (getCallableAgents s) as [| x l IH];
        [reflexivity |].
      cbn [map filter]. unfold before at 1. cbn [snd].
      destruct (negb (Qle_bool (score (snd x)) (score a))); cbn [map];
        now rewrite IH. }
  destruct (next_random s) as [r s'].
  destruct (draw _ topN) as [j |] eqn:Ed; cbn [fst]; intros [= <-].
  - apply draw_in in Ed. apply in_map_iff in Ed.
    destruct Ed as ([j' q] & E & Hin). cbn [fst] in E. subst j'. eauto.
  - destruct topN as [| [j q] l] eqn:Et.
    + exfalso. subst topN sorted scored. rewrite Eav in Et.
      cbn [map Js.stable_sort fold_right] in Et.
      match type of Et with
      | firstn 3 (Js.insert_sorted ?b ?x ?l) = [] =>
          pose proof (insert_sorted_perm b x l) as Hperm;
          destruct (Js.insert_sorted b x l); [| discriminate]
      end.
      apply Permutation_nil_cons in Hperm. exact Hperm.
    + cbn [hd fst]. apply (Htop j q). now left.
Qed.

Lemma pickAgent_top_three_witness :
  ("auto" = "" \/ "auto" = "auto")
  /\ fst (pickAgent "auto" "write hello" "write hello" Scenario.start)
     = Some 0%nat
  /\ exists a,
       nth_error (agents Scenario.start) 0 = Some a
       /\ callable a = true
       /\ (List.length (better_agents Scenario.start "write hello"
                                      "write hello" a) <= 2)%nat.
Proof.
  assert (H1 : "auto" = "" \/ "auto" = "auto") by (right; reflexivity).
  assert (H2 : fst (pickAgent "auto" "write hello" "write hello"
                              Scenario.start) = Some 0%nat)
    by (vm_compute; reflexivity).
  split; [exact H1 |]. split; [exact H2 |].
  exact (pickAgent_top_three "auto" "write hello" "write hello"
                             Scenario.start 0 H1 H2).
Defined.

(** ** Archiving of finished tasks *)

Lemma is_finished_heap (s s' : State) :
  heap s' = heap s -> forall tref, is_finished s' tref = is_finished s tref.
Proof.
  intros H tref. unfold is_finished, task_status_at. now rewrite H.
Qed.

Lemma filter_comm {A : Type} (f g : A -> bool) (l : list A) :
  filter f (filter g l) = filter g (filter f l).
Proof.
  induction l as [| x l IH]; simpl; [reflexivity |].
  destruct (f x) eqn:Ef, (g x) eqn:Eg; simpl; rewrite ?Ef, ?Eg, IH; reflexivity.
Qed.

(** The tasks [cleanupTasks] selects for archiving. *)
Lemma cleanupTasks_tasks (s : State) :
  tasks (cleanupTasks s) =
  if 30 <? len (finished_tasks s) then
    filter (fun tref =>
              negb (mem_string (task_id_at s tref)
                      (nodup string_dec
                         (map (task_id_at s)
                            (firstn (List.length (finished_tasks s) - 30)
                               (stable_sort
                                  (fun a b => completed_at s a <=? completed_at s b)
                                  (finished_tasks s)))))))
           (tasks s)
  else tasks s.
Proof.
  unfold cleanupTasks, finished_tasks. destruct (30 <? _); reflexivity.
Qed.

Lemma mem_string_ids (s : State) (x : nat) (l : list nat) :
  In x l ->
  mem_string (task_id_at s x) (nodup string_dec (map (task_id_at s) l)) = true.
Proof.
  intros H. apply mem_string_in. apply nodup_In. now apply in_map.
Qed.

(** X13. After [cleanupTasks] at most thirty finished tasks are on the
    board, whatever the board held before; the task store itself is not
    touched. *)
Theorem cleanupTasks_cap (s : State) :
  len (finished_tasks (cleanupTasks s)) <= 30
  /\ heap (cleanupTasks s) = heap s.
Proof.
  split; [| apply cleanupTasks_heap].
  unfold finished_tasks at 1.
  rewrite (filter_ext _ _ (is_finished_heap s _ (cleanupTasks_heap s))).
  rewrite cleanupTasks_tasks.
  destruct (30 <? len (finished_tasks s)) eqn:E;
    [| apply Z.ltb_ge in E; exact E].
  apply Z.ltb_lt in E. unfold len in *.
  rewrite filter_comm. fold (finished_tasks s).
  set (fin := finished_tasks s) in *.
  set (before := fun a b => completed_at s a <=? completed_at s b).
  set (sorted := stable_sort before fin).
  set (k := (List.length fin - 30)%nat).
  set (keep := fun tref => negb (mem_string _ _)).
  assert (Hp : Permutation sorted fin) by apply stable_sort_perm.
  rewrite <- (filter_length_perm keep _ _ Hp).
  rewrite <- (firstn_skipn k sorted), filter_app, length_app.
  rewrite (filter_none keep (firstn k sorted)).
  - simpl. pose proof (filter_length_le keep (skipn k sorted)) as Hle.
    rewrite length_skipn, (Permutation_length Hp) in Hle.
    subst k. lia.
  - intros x Hx. subst keep. cbv beta.
    rewrite (mem_string_ids s x _ Hx). reflexivity.
Qed.

Lemma NoDup_map_inj {A B : Type} (f : A -> B) (l : list A) :
  NoDup (map f l) ->
  forall x y, In x l -> In y l -> f x = f y -> x = y.
Proof.
  induction l as [| a l IH]; simpl; intros H x y Hx Hy E; [contradiction |].
  inversion H as [| ? ? Hn Hd]; subst.
  destruct Hx as [-> | Hx], Hy as [-> | Hy].
  - reflexivity.
  - exfalso. apply Hn. rewrite E. now apply in_map.
  - exfalso. apply Hn. rewrite <- E. now apply in_map.
  - now apply IH.
Qed.

Lemma NoDup_firstn {A : Type} (n : nat) (l : list A) :
  NoDup l -> NoDup (firstn n l).
Proof.
  intros H. rewrite <- (firstn_skipn n l) in H.
  now apply NoDup_app_remove_r in H.
Qed.

Lemma nodup_same {A : Type} (dec : forall x y : A, {x = y} + {x <> y})
      (l : list A) :
  nodup dec l = l -> NoDup l.
Proof. intros H. rewrite <- H. apply NoDup_nodup. Qed.

(** The tasks [cleanupTasks] archives, when the ids on the board are
    pairwise distinct: exactly the tasks it drops from the board. *)
Lemma cleanupTasks_dropped (s : State) :
  NoDup (map (task_id_at s) (tasks s)) ->
  (30 <? len (finished_tasks s)) = true ->
  let old := firstn (List.length (finished_tasks s) - 30)
               (stable_sort (fun a b => completed_at s a <=? completed_at s b)
                            (finished_tasks s)) in
  (forall x, In x old -> In x (tasks s) /\ is_finished s x = true)
  /\ (forall x, In x (tasks s) ->
        (mem_string (task_id_at s x)
                    (nodup string_dec (map (task_id_at s) old)) = true
         <-> In x old))
  /\ NoDup old /\ NoDup (map (task_id_at s) old).
Proof.
  intros Hnd E old.
  assert (Hinj := NoDup_map_inj _ _ Hnd).
  assert (Hnt : NoDup (tasks s)) by (eapply NoDup_map_inv; exact Hnd).
  assert (Hp : Permutation
                 (stable_sort (fun a b => completed_at s a <=? completed_at s b)
                              (finished_tasks s))
                 (finished_tasks s)) by apply stable_sort_perm.
  assert (Hold : forall x, In x old -> In x (tasks s) /\ is_finished s x = true).
  { intros x Hx. apply in_firstn in Hx.
    apply (Permutation_in _ Hp) in Hx. unfold finished_tasks in Hx.
    now apply filter_In in Hx. }
  assert (Hno : NoDup old).
  { apply NoDup_firstn. apply (Permutation_NoDup (Permutation_sym Hp)).
    unfold finished_tasks. now apply NoDup_filter. }
  split; [exact Hold |]. split; [| split; [exact Hno |]].
  - intros x Hx. split.
    + intros Hm. apply mem_string_in in Hm. apply nodup_In in Hm.
      apply in_map_iff in Hm. destruct Hm as [y [Ey Hy]].
      assert (y = x) by (apply Hinj; [apply Hold; exact Hy | exact Hx | exact Ey]).
      now subst y.
    + apply mem_string_ids.
  - apply Finite.Injective_map_NoDup_in; [| exact Hno].
    intros x y Hx Hy. apply Hinj; now apply Hold.
Qed.

(** With pairwise distinct ids on the board, the archive counter grows by
    exactly the number of tasks that leave the board. *)
Lemma cleanupTasks_count (s : State) :
  NoDup (map (task_id_at s) (tasks s)) ->
  archivedTaskCount (cleanupTasks s) + len (tasks (cleanupTasks s))
  = archivedTaskCount s + len (tasks s).
Proof.
  intros Hnd. rewrite cleanupTasks_tasks.
  unfold cleanupTasks. fold (finished_tasks s).
  destruct (30 <? len (finished_tasks s)) eqn:E; [| reflexivity].
  destruct (cleanupTasks_dropped s Hnd E) as (Hold & Hdrop & Hno & Hni).
  cbv zeta in Hold, Hdrop, Hno, Hni.
  assert (Hnt : NoDup (tasks s)) by (eapply NoDup_map_inv; exact Hnd).
  set (old := firstn _ _) in *.
  set (keep := fun tref => negb (mem_string _ _)).
  cbn [archivedTaskCount with_archivedTaskCount with_tasks tasks heap].
  rewrite (nodup_fixed_point string_dec Hni).
  pose proof (filter_length keep (tasks s)) as Hlen.
  assert (Hrem : Permutation (filter (fun x => negb (keep x)) (tasks s)) old).
  { apply NoDup_Permutation; [now apply NoDup_filter | exact Hno |].
    intros x. rewrite filter_In. subst keep. cbv beta.
    rewrite negb_involutive. split.
    - intros [Hx Hk]. now apply Hdrop.
    - intros Hx. pose proof (Hold x Hx) as [Hx' _]. split; [exact Hx' |].
      now apply Hdrop. }
  apply Permutation_length in Hrem.
  unfold len. rewrite length_map. lia.
Qed.

(** X14. When the tasks on the board have pairwise distinct ids,
    [cleanupTasks] drops finished tasks only, and each task it drops was
    completed no later than every finished task that stays. *)
Theorem cleanupTasks_drops_oldest (s : State) :
  NoDup (map (task_id_at s) (tasks s)) ->
  (forall tref, In tref (tasks s) -> is_finished s tref = false ->
                In tref (tasks (cleanupTasks s)))
  /\ (forall d k, In d (tasks s) -> ~ In d (tasks (cleanupTasks s)) ->
                  In k (finished_tasks (cleanupTasks s)) ->
                  completed_at s d <= completed_at s k).
Proof.
  intros Hnd.
  unfold finished_tasks at 1.
  rewrite (filter_ext _ _ (is_finished_heap s _ (cleanupTasks_heap s))).
  rewrite cleanupTasks_tasks.
  destruct (30 <? len (finished_tasks s)) eqn:E.
  2:{ split; [auto |]. intros d k Hd Hn; contradiction. }
  destruct (cleanupTasks_dropped s Hnd E) as (Hold & Hdrop & _).
  cbv zeta in Hold, Hdrop.
  set (before := fun a b => completed_at s a <=? completed_at s b) in *.
  set (sorted := stable_sort before (finished_tasks s)) in *.
  set (n := (List.length (finished_tasks s) - 30)%nat) in *.
  set (keep := fun tref => negb (mem_string _ _)).
  assert (Hp : Permutation sorted (finished_tasks s)) by apply stable_sort_perm.
  assert (Hs : StronglySorted (fun a b => before a b = true) sorted).
  { apply stable_sort_sorted; unfold before; intros; lia. }
  assert (Hk : forall x, In x (tasks s) ->
                 (keep x = false <-> In x (firstn n sorted))).
  { intros x Hx. subst keep. cbv beta. rewrite negb_false_iff.
    now apply Hdrop. }
  split.
  - intros tref Hin Hf. apply filter_In. split; [exact Hin |].
    destruct (keep tref) eqn:Ek; [reflexivity |].
    apply Hk in Ek; [| exact Hin]. apply Hold in Ek.
    destruct Ek as [_ Ek]. congruence.
  - intros d k Hd Hnot Hkf.
    assert (Hdo : In d (firstn n sorted)).
    { apply Hk; [exact Hd |]. destruct (keep d) eqn:Ek; [| reflexivity].
      exfalso. apply Hnot. apply filter_In. now split. }
    apply filter_In in Hkf. destruct Hkf as [Hkt Hfk].
    apply filter_In in Hkt. destruct Hkt as [Hkt Hkk].
    assert (Hks : In k sorted).
    { apply (Permutation_in _ (Permutation_sym Hp)).
      unfold finished_tasks. apply filter_In. now split. }
    rewrite <- (firstn_skipn n sorted) in Hks, Hs.
    apply in_app_or in Hks. destruct Hks as [Hks | Hks].
    + apply (Hk k Hkt) in Hks. congruence.
    + pose proof (sorted_split _ _ _ Hs d k Hdo Hks) as Hb.
      unfold before in Hb. lia.
Qed.

Lemma cleanupTasks_drops_oldest_witness :
  NoDup (map (task_id_at Backlog.overfull) (tasks Backlog.overfull))
  /\ ~ In 0%nat (tasks (cleanupTasks Backlog.overfull))
  /\ completed_at Backlog.overfull 0 <= completed_at Backlog.overfull 30.
Proof.
  assert (H : NoDup (map (task_id_at Backlog.overfull) (tasks Backlog.overfull))).
  { apply (nodup_same string_dec). vm_compute. reflexivity. }
  split; [exact H |].
  destruct (cleanupTasks_drops_oldest Backlog.overfull H) as [_ Hold].
  split; [vm_compute; intuition discriminate |].
  apply Hold.
  - vm_compute. now left.
  - vm_compute. intuition discriminate.
  - vm_compute. do 29 right. now left.
Defined.

(** ** Dispatch *)

Lemma pickAgent_None_inv (pref title desc : string) (s s1 : State) :
  pickAgent pref title desc s = (None, s1) ->
  getCallableAgents s = [] /\ s1 = s.
Proof.
  unfold pickAgent. destruct (getCallableAgents s) as [| first rest].
  - intros H. inversion H. auto.
  - match goal with
    | |- context [match ?x with Some _ => _ | None => _ end] => destruct x
    end; [discriminate |].
    destruct (next_random s) as [r s'].
    destruct (draw _ _); discriminate.
Qed.

Lemma launch_no_callable (now : Z) (tref : nat) (s : State) :
  getCallableAgents s = [] -> launch now tref s = s.
Proof.
  intros H. unfold launch. destruct (nth_error (heap s) tref); [| reflexivity].
  unfold pickAgent. rewrite H. reflexivity.
Qed.

Lemma fold_launch_no_callable (now : Z) (l : list nat) (s : State) :
  getCallableAgents s = [] ->
  fold_left (fun s tref => launch now tref s) l s = s.
Proof.
  intros H. induction l as [| x l IH]; simpl; [reflexivity |].
  rewrite launch_no_callable by exact H. exact IH.
Qed.

(** A task that is pending after a launch was pending before it; if it is
    the task the launch was for, the launch found no callable agent and
    changed nothing. *)
Lemma launch_pending (now : Z) (x t : nat) (s : State) :
  is_pending (launch now x s) t = true ->
  is_pending s t = true
  /\ (t = x -> getCallableAgents s = [] /\ launch now x s = s).
Proof.
  unfold launch. destruct (nth_error (heap s) x) as [task |] eqn:Hx.
  2:{ intros H. split; [exact H |]. intros ->.
      unfold is_pending, task_status_at in H. rewrite Hx in H. discriminate. }
  destruct (pickAgent _ _ _ s) as [picked s1] eqn:Ep.
  destruct picked as [aref |].
  - pose proof (pickAgent_frame (t_preferredAgentId task) (t_title task)
                                (t_description task) s) as F.
    rewrite Ep in F. simpl in F. destruct F as (Fh & _).
    unfold is_pending, task_status_at.
    cbn [heap with_inflight addActivity with_activity upd_task with_heap
         upd_agent with_agents].
    rewrite Fh, nth_error_update_nth.
    destruct (Nat.eqb x t) eqn:E.
    + apply Nat.eqb_eq in E. subst t. rewrite Hx. simpl. discriminate.
    + apply Nat.eqb_neq in E. intros H. split; [exact H |].
      intros ->. contradiction.
  - apply pickAgent_None_inv in Ep. destruct Ep as [Hc ->]. auto.
Qed.

Lemma fold_launch_pending (now : Z) (l : list nat) (s : State) (t : nat) :
  is_pending (fold_left (fun s tref => launch now tref s) l s) t = true ->
  is_pending s t = true
  /\ (In t l ->
      getCallableAgents (fold_left (fun s tref => launch now tref s) l s) = []).
Proof.
  revert s. induction l as [| x l IH]; simpl; intros s H.
  - split; [exact H | contradiction].
  - destruct (IH _ H) as [Hp Hl].
    destruct (launch_pending now x t s Hp) as [Hs Hx].
    split; [exact Hs |]. intros [-> | Hin]; [| auto].
    destruct (Hx eq_refl) as [Hc E]. rewrite E.
    rewrite fold_launch_no_callable by exact Hc. exact Hc.
Qed.

(** X15. A dispatch leaves a task of the board pending only when it has
    run out of callable agents: if some task on the board is still pending
    after [runDispatch], no agent is callable any more. *)
Theorem runDispatch_work_conserving (now : Z) (s : State) (tref : nat) :
  In tref (tasks s) ->
  is_pending (runDispatch now s) tref = true ->
  getCallableAgents (runDispatch now s) = [].
Proof.
  intros Hin Hp. unfold runDispatch in *.
  destruct (fold_launch_pending now _ s tref Hp) as [Hs Hl].
  apply Hl. apply filter_In. now split.
Qed.

Lemma runDispatch_work_conserving_witness :
  In 6%nat (tasks Busy.saturated)
  /\ is_pending (runDispatch 9 Busy.saturated) 6 = true
  /\ getCallableAgents (runDispatch 9 Busy.saturated) = [].
Proof.
  assert (H1 : In 6%nat (tasks Busy.saturated))
    by (vm_compute; do 6 right; left; reflexivity).
  assert (H2 : is_pending (runDispatch 9 Busy.saturated) 6 = true)
    by (vm_compute; reflexivity).
  split; [exact H1 |]. split; [exact H2 |].
  exact (runDispatch_work_conserving 9 Busy.saturated 6 H1 H2).
Defined.

(** X16. A dispatch that finds no callable agent, or no pending task on
    the board, changes nothing at all: no task, no agent, no log entry and
    no random number is touched. *)
Theorem runDispatch_idle (now : Z) (s : State) :
  getCallableAgents s = [] \/ (forall tref, In tref (tasks s) ->
                                 is_pending s tref = false) ->
  runDispatch now s = s.
Proof.
  intros [H | H]; unfold runDispatch.
  - now apply fold_launch_no_callable.
  - rewrite filter_none by exact H. reflexivity.
Qed.

Lemma runDispatch_idle_witness :
  getCallableAgents Busy.saturated = []
  /\ runDispatch 9 Busy.saturated = Busy.saturated.
Proof.
  assert (H : getCallableAgents Busy.saturated = [])
    by (vm_compute; reflexivity).
  split; [exact H |].
  exact (runDispatch_idle 9 Busy.saturated (or_introl H)).
Defined.

(** ** What a settling execution changes *)

Lemma undisturbed_refl (s : State) : undisturbed s s.
Proof. unfold undisturbed. auto 10. Qed.

Lemma undisturbed_trans (s1 s2 s3 : State) :
  undisturbed s1 s2 -> undisturbed s2 s3 -> undisturbed s1 s3.
Proof.
  intros (D1 & S1 & P1 & R1 & G1 & T1 & A1) (D2 & S2 & P2 & R2 & G2 & T2 & A2).
  unfold undisturbed.
  refine (conj _ (conj _ (conj _ (conj _ (conj _ (conj _ _)))))); try congruence.
  - intros i t H N. apply T2; [apply T1; assumption | exact N].
  - intros i a H C. apply A2; [apply A1; assumption | exact C].
Qed.

(** [pickAgent] changes at most the supply of random numbers. *)
Lemma pickAgent_state (pref title desc : string) (s : State) :
  snd (pickAgent pref title desc s) = s
  \/ exists e, snd (pickAgent pref title desc s) = with_entropy e s.
Proof.
  unfold pickAgent. destruct (getCallableAgents s) as [| first rest].
  - now left.
  - match goal with
    | |- context [match ?x with Some _ => _ | None => _ end] => destruct x
    end; [now left |].
    unfold next_random. destruct (entropy s) as [| r rs].
    + left. destruct (draw _ _); reflexivity.
    + right. exists rs. destruct (draw _ _); reflexivity.
Qed.

Lemma launch_heap_other (now : Z) (x i : nat) (s : State) :
  i <> x -> nth_error (heap (launch now x s)) i = nth_error (heap s) i.
Proof.
  intros Hne. unfold launch.
  destruct (nth_error (heap s) x) as [task |]; [| reflexivity].
  pose proof (pickAgent_frame (t_preferredAgentId task) (t_title task)
                              (t_description task) s) as F.
  destruct (pickAgent _ _ _ s) as [picked s1]. cbn [snd] in F.
  destruct F as (Fh & _). destruct picked as [aref |]; [| now rewrite Fh].
  cbn [heap with_inflight addActivity with_activity upd_task with_heap
       upd_agent with_agents].
  rewrite Fh, nth_error_update_nth.
  destruct (Nat.eqb x i) eqn:E; [| reflexivity].
  apply Nat.eqb_eq in E. congruence.
Qed.

Lemma launch_agents_kept (now : Z) (x : nat) (s : State) (i : nat) (a : Agent) :
  nth_error (agents s) i = Some a -> callable a = false ->
  nth_error (agents (launch now x s)) i = Some a.
Proof.
  intros Hi Hc. unfold launch.
  destruct (nth_error (heap s) x) as [task |]; [| exact Hi].
  pose proof (pickAgent_frame (t_preferredAgentId task) (t_title task)
                              (t_description task) s) as F.
  pose proof (pickAgent_callable (t_preferredAgentId task) (t_title task)
                                 (t_description task) s) as C.
  destruct (pickAgent _ _ _ s) as [picked s1]. cbn [fst snd] in *.
  destruct F as (_ & Fa & _). destruct picked as [aref |]; [| now rewrite Fa].
  destruct (C aref eq_refl) as (a0 & Ha0 & Ca0).
  cbn [agents with_inflight addActivity with_activity upd_task with_heap
       upd_agent with_agents].
  rewrite Fa, nth_error_update_nth.
  destruct (Nat.eqb aref i) eqn:E; [| exact Hi].
  apply Nat.eqb_eq in E. subst i. congruence.
Qed.

Lemma launch_frame (now : Z) (x : nat) (s : State) :
  disk (launch now x s) = disk s /\ shell (launch now x s) = shell s
  /\ performanceLog (launch now x s) = performanceLog s
  /\ PROJECT_ROOT (launch now x s) = PROJECT_ROOT s
  /\ totalGlobalTokens (launch now x s) = totalGlobalTokens s.
Proof.
  unfold launch. destruct (nth_error (heap s) x) as [task |]; [| auto].
  pose proof (pickAgent_state (t_preferredAgentId task) (t_title task)
                              (t_description task) s) as St.
  destruct (pickAgent _ _ _ s) as [picked s1]. cbn [snd] in St.
  destruct picked; destruct St as [-> | [e ->]]; cbn; auto.
Qed.

Lemma fold_launch_undisturbed (now : Z) (l : list nat) (s : State) :
  disk (fold_left (fun s tref => launch now tref s) l s) = disk s
  /\ shell (fold_left (fun s tref => launch now tref s) l s) = shell s
  /\ performanceLog (fold_left (fun s tref => launch now tref s) l s)
     = performanceLog s
  /\ PROJECT_ROOT (fold_left (fun s tref => launch now tref s) l s)
     = PROJECT_ROOT s
  /\ totalGlobalTokens (fold_left (fun s tref => launch now tref s) l s)
     = totalGlobalTokens s
  /\ (forall i, ~ In i l ->
        nth_error (heap (fold_left (fun s tref => launch now tref s) l s)) i
        = nth_error (heap s) i)
  /\ (forall i a, nth_error (agents s) i = Some a -> callable a = false ->
        nth_error (agents (fold_left (fun s tref => launch now tref s) l s)) i
        = Some a).
Proof.
  revert s. induction l as [| x l IH]; intros s.
  - simpl. auto 10.
  - cbn [fold_left].
    destruct (IH (launch now x s)) as (D & S & P & R & G & H & A).
    destruct (launch_frame now x s) as (D0 & S0 & P0 & R0 & G0).
    refine (conj _ (conj _ (conj _ (conj _ (conj _ (conj _ _))))));
      try congruence.
    + intros i Hn. rewrite H by (intros Hi; apply Hn; now right).
      apply launch_heap_other. intros ->. apply Hn. now left.
    + intros i a Hi Hc. apply A; [| exact Hc].
      now apply launch_agents_kept.
Qed.

Lemma runDispatch_undisturbed (now : Z) (s : State) :
  undisturbed s (runDispatch now s).
Proof.
  unfold runDispatch.
  destruct (fold_launch_undisturbed now (filter (is_pending s) (tasks s)) s)
    as (D & S & P & R & G & H & A).
  unfold undisturbed.
  refine (conj D (conj S (conj P (conj R (conj G (conj _ A)))))).
  intros i t Hi Hn. rewrite H; [exact Hi |].
  intros Hin. apply filter_In in Hin. destruct Hin as [_ Hp].
  unfold is_pending, task_status_at in Hp. rewrite Hi in Hp. simpl in Hp.
  destruct (t_status t); congruence.
Qed.

Lemma nth_error_app_old {A : Type} (l l' : list A) (i : nat) (x : A) :
  nth_error l i = Some x -> nth_error (l ++ l') i = Some x.
Proof.
  intros H. rewrite nth_error_app1; [exact H |].
  apply nth_error_Some. congruence.
Qed.

Lemma createTask_undisturbed (now : Z) (title description : string)
      (pref : option string) (s : State) :
  undisturbed s (snd (createTask now title description pref s)).
Proof.
  unfold createTask. cbn [snd].
  eapply undisturbed_trans; [| apply runDispatch_undisturbed].
  unfold undisturbed.
  cbn [heap disk shell performanceLog PROJECT_ROOT totalGlobalTokens agents
       addActivity with_activity with_tasks with_heap with_taskCounter].
  refine (conj eq_refl (conj eq_refl (conj eq_refl (conj eq_refl
            (conj eq_refl (conj _ _)))))).
  - intros i t Hi _. now apply nth_error_app_old.
  - auto.
Qed.

Lemma spawn_undisturbed (now : Z) (tref : nat) (agentId : string) (s : State)
      (sub : Subtask) :
  undisturbed s (spawn now tref agentId s sub).
Proof.
  unfold spawn.
  pose proof (createTask_spec now (sub_title sub) (sub_description sub)
                (Some (if String.eqb (sub_agent sub) "auto" then "auto"
                       else sub_agent sub)) s) as (Ec & _ & _).
  pose proof (createTask_undisturbed now (sub_title sub) (sub_description sub)
                (Some (if String.eqb (sub_agent sub) "auto" then "auto"
                       else sub_agent sub)) s) as U.
  destruct (createTask _ _ _ _ s) as [child s1]. cbn [fst snd] in *.
  subst child. destruct U as (D & S & P & R & G & T & A).
  unfold undisturbed.
  cbn [heap disk shell performanceLog PROJECT_ROOT totalGlobalTokens agents
       addActivity with_activity upd_task with_heap].
  refine (conj D (conj S (conj P (conj R (conj G (conj _ A)))))).
  intros i t Hi Hn. rewrite nth_error_update_nth.
  assert (i < List.length (heap s))%nat by (apply nth_error_Some; congruence).
  replace (Nat.eqb (List.length (heap s)) i) with false
    by (symmetry; apply Nat.eqb_neq; lia).
  now apply T.
Qed.

Lemma fold_spawn_undisturbed (now : Z) (tref : nat) (agentId : string)
      (subs : list Subtask) (s : State) :
  undisturbed s (fold_left (spawn now tref agentId) subs s).
Proof.
  revert s. induction subs as [| sub subs IH]; intros s; simpl.
  - apply undisturbed_refl.
  - eapply undisturbed_trans; [apply spawn_undisturbed | apply IH].
Qed.

Lemma spawn_subtasks_undisturbed (now : Z) (tref : nat) (agent : Agent)
      (subtasks : list Subtask) (s : State) :
  undisturbed s (spawn_subtasks now tref agent subtasks s).
Proof.
  unfold spawn_subtasks. destruct (_ && _).
  - apply fold_spawn_undisturbed.
  - apply undisturbed_refl.
Qed.

Lemma update_nth_twice {A : Type} (f g : A -> A) (i : nat) (l : list A) :
  Js.update_nth i f (Js.update_nth i g l) = Js.update_nth i (fun x => f (g x)) l.
Proof.
  revert i. induction l as [| x l IH]; intros [| i]; simpl; try reflexivity.
  now rewrite IH.
Qed.

Lemma update_nth_id {A : Type} (i : nat) (l : list A) :
  Js.update_nth i (fun x => x) l = l.
Proof.
  revert i. induction l as [| x l IH]; intros [| i]; simpl; try reflexivity.
  now rewrite IH.
Qed.

Lemma writeFiles_state (sh : Shell) (files : list FileIntent)
      (written : list string) (s : State) :
  writeFiles sh files written s
  = (match write_refusal sh (PROJECT_ROOT s) files with
     | Some message => Thrown message
     | None => Fulfilled (written ++ map path files)
     end,
     with_disk (disk s ++ written_files (PROJECT_ROOT s)
                            (granted sh (PROJECT_ROOT s) files)) s).
Proof.
  revert written s. induction files as [| f files IH]; intros w s.
  - destruct s. cbn. now rewrite !app_nil_r.
  - cbn [writeFiles write_refusal granted].
    destruct (fs_writeFile sh _ _) as [message |].
    + destruct s. cbn. now rewrite app_nil_r.
    + rewrite IH. cbn. now rewrite <- !app_assoc.
Qed.

Lemma granted_all (sh : Shell) (root : string) (files : list FileIntent) :
  write_refusal sh root files = None -> granted sh root files = files.
Proof.
  induction files as [| f files IH]; cbn [write_refusal granted];
    [reflexivity |].
  destruct (fs_writeFile sh _ _); [discriminate |].
  intros H. now rewrite IH.
Qed.

Lemma reached_all (sh : Shell) (root : string) (blocks : list ExecBlock) :
  mkdir_refusal sh root blocks = None -> reached sh root blocks = blocks.
Proof.
  induction blocks as [| b blocks IH]; cbn [mkdir_refusal reached];
    [reflexivity |].
  destruct (Text.startsWith _ _).
  - destruct (fs_mkdir sh _); [discriminate |]. intros H. now rewrite IH.
  - intros H. now rewrite IH.
Qed.

Lemma runExecBlocks_state (now : Z) (sh : Shell) (blocks : list ExecBlock)
      (agentId : string) (results : list ExecResult) (s : State) :
  exists acts,
    snd (runExecBlocks now sh blocks agentId results s)
    = with_activity acts
        (with_shell (shell s ++ commands_run (PROJECT_ROOT s)
                                  (reached sh (PROJECT_ROOT s) blocks)) s)
    /\ match fst (runExecBlocks now sh blocks agentId results s) with
       | Thrown message =>
           mkdir_refusal sh (PROJECT_ROOT s) blocks = Some message
       | Fulfilled _ => mkdir_refusal sh (PROJECT_ROOT s) blocks = None
       end.
Proof.
  revert results s. induction blocks as [| b blocks IH]; intros results s.
  - exists (activity s). destruct s. cbn. now rewrite app_nil_r.
  - cbn [runExecBlocks reached mkdir_refusal]. unfold commands_run.
    destruct (Text.startsWith (Path.join [PROJECT_ROOT s; cwd b])
                              (PROJECT_ROOT s)) eqn:E; cbn [negb].
    + destruct (fs_mkdir sh _) as [message |].
      { exists (activity s). destruct s. cbn. now rewrite app_nil_r. }
      cbn [filter]. fold (PROJECT_ROOT s). rewrite E.
      destruct (execSync sh _ _) as [ok out]. destruct ok.
      * match goal with
        | |- context [runExecBlocks now sh blocks agentId ?r ?s1] =>
            destruct (IH r s1) as [acts [Ha Hb]]
        end.
        exists acts. rewrite Ha. split; [| exact Hb].
        cbn. unfold commands_run. now rewrite <- app_assoc.
      * match goal with
        | |- context [runExecBlocks now sh blocks agentId ?r ?s1] =>
            destruct (IH r s1) as [acts [Ha Hb]]
        end.
        exists acts. rewrite Ha. split; [| exact Hb].
        cbn. unfold commands_run. now rewrite <- app_assoc.
    + cbn [filter]. rewrite E.
      match goal with
      | |- context [runExecBlocks now sh blocks agentId ?r ?s1] =>
          destruct (IH r s1) as [acts [Ha Hb]]
      end.
      exists acts. rewrite Ha. split; [| exact Hb]. reflexivity.
Qed.

(** Step 5 of the [try] block: files and commands reach the disk and the
    shell only when there are files and the risk is low, and then as far as
    the host grants them; the task ends in review exactly when there are
    files and the risk is high; when the host refuses, the error is thrown
    and the task is left as it was. *)
Lemma apply_output_effects (now : Z) (sh : Shell) (tref : nat) (task : Task)
      (agent : Agent) (files : list FileIntent) (blocks : list ExecBlock)
      (s : State) :
  let s' := snd (apply_output now sh tref task agent files blocks s) in
  let auto := (0 <? len files) && risk_is_low (t_risk task) in
  let review := (0 <? len files) && negb (risk_is_low (t_risk task)) in
  let thrown :=
    if auto then apply_error sh (PROJECT_ROOT s) files blocks else None in
  fst (apply_output now sh tref task agent files blocks s) = thrown
  /\ agents s' = agents s /\ performanceLog s' = performanceLog s
  /\ PROJECT_ROOT s' = PROJECT_ROOT s
  /\ totalGlobalTokens s' = totalGlobalTokens s
  /\ disk s' = disk s ++ (if auto
                          then written_files (PROJECT_ROOT s)
                                 (granted sh (PROJECT_ROOT s) files)
                          else [])
  /\ shell s' = shell s ++ (if auto
                            then commands_applied sh (PROJECT_ROOT s) files
                                                  blocks
                            else [])
  /\ exists g, heap s' = update_nth tref g (heap s)
               /\ forall t,
                    match thrown with
                    | Some _ => g t = t
                    | None =>
                        t_status (g t)
                        = (if review then Review else Completed)
                        /\ t_completed (g t)
                           = (if review then t_completed t else Some now)
                    end.
Proof.
  unfold apply_output, apply_error, commands_applied.
  destruct ((0 <? len files) && risk_is_low (t_risk task)) eqn:Ea.
  - assert (Er : (0 <? len files) && negb (risk_is_low (t_risk task)) = false).
    { apply andb_true_iff in Ea. destruct Ea as [_ ->].
      now rewrite andb_false_r. }
    rewrite Er. cbv zeta.
    rewrite (writeFiles_state sh files [] s).
    destruct (write_refusal sh (PROJECT_ROOT s) files) as [message |] eqn:Ew.
    { cbn. rewrite app_nil_r.
      repeat (split; [reflexivity |]).
      exists (fun t => t). split; [| reflexivity].
      symmetry. apply update_nth_id. }
    destruct (0 <? len blocks) eqn:Eb.
    + match goal with
      | |- context [runExecBlocks now sh blocks ?i ?r ?s1] =>
          destruct (runExecBlocks_state now sh blocks i r s1)
            as [acts [Ha Hb]];
          destruct (runExecBlocks now sh blocks i r s1)
            as [[results | message] s2]
      end; cbn [fst snd] in Ha, Hb; subst s2;
        cbn [PROJECT_ROOT addActivity with_activity with_disk] in Hb;
        rewrite Hb.
      * cbn. rewrite update_nth_twice.
        repeat (split; [reflexivity |]).
        eexists. split; [reflexivity |]. intros t. cbn. auto.
      * cbn.
        repeat (split; [reflexivity |]).
        exists (fun t => t). split; [| reflexivity].
        symmetry. apply update_nth_id.
    + assert (blocks = []).
      { destruct blocks; [reflexivity |]. unfold len in Eb. simpl in Eb.
        apply Z.ltb_ge in Eb. lia. }
      subst blocks. cbn. rewrite app_nil_r.
      repeat (split; [reflexivity |]).
      eexists. split; [reflexivity |]. intros t. cbn. auto.
  - destruct ((0 <? len files) && negb (risk_is_low (t_risk task))) eqn:Er.
    + cbn. rewrite update_nth_twice, !app_nil_r.
      repeat (split; [reflexivity |]).
      eexists. split; [reflexivity |]. intros t. cbn. auto.
    + cbn. rewrite !app_nil_r.
      repeat (split; [reflexivity |]).
      eexists. split; [reflexivity |]. intros t. cbn. auto.
Qed.

Lemma score_and_record_effects (now : Z) (tref : nat) (task : Task)
      (agent : Agent) (result : ModelResult) (files : list FileIntent)
      (blocks : list ExecBlock) (s : State) :
  let s' := score_and_record now tref task agent result files blocks s in
  agents s' = agents s /\ PROJECT_ROOT s' = PROJECT_ROOT s
  /\ totalGlobalTokens s' = totalGlobalTokens s
  /\ disk s' = disk s /\ shell s' = shell s
  /\ exists g, heap s' = update_nth tref g (heap s)
               /\ forall t, t_status (g t) = t_status t
                            /\ t_completed (g t) = t_completed t.
Proof.
  unfold score_and_record. cbn.
  repeat (split; [reflexivity |]).
  eexists. split; [reflexivity |]. intros t. cbn. auto.
Qed.

Lemma cleanupTasks_frame (s : State) :
  agents (cleanupTasks s) = agents s /\ disk (cleanupTasks s) = disk s
  /\ shell (cleanupTasks s) = shell s
  /\ performanceLog (cleanupTasks s) = performanceLog s
  /\ inflight (cleanupTasks s) = inflight s
  /\ activity (cleanupTasks s) = activity s
  /\ taskCounter (cleanupTasks s) = taskCounter s.
Proof. unfold cleanupTasks. destruct (30 <? _); cbn; auto 10. Qed.

(** The [try] block as a whole. *)
Lemma executeTask_try_effects (now : Z) (sh : Shell) (tref aref : nat)
      (task : Task) (agent : Agent) (result : ModelResult) (s : State) :
  nth_error (heap s) tref = Some task ->
  nth_error (agents s) aref = Some agent ->
  let s' := snd (executeTask_try now sh tref aref task agent result s) in
  let files := fst (Parser.parseFiles (m_output result)) in
  let blocks := Parser.parseExecBlocks (m_output result) in
  let auto := (0 <? len files) && risk_is_low (t_risk task) in
  let review := (0 <? len files) && negb (risk_is_low (t_risk task)) in
  let thrown :=
    if auto then apply_error sh (PROJECT_ROOT s) files blocks else None in
  fst (executeTask_try now sh tref aref task agent result s) = thrown
  /\ disk s' = disk s ++ (if auto
                          then written_files (PROJECT_ROOT s)
                                 (granted sh (PROJECT_ROOT s) files)
                          else [])
  /\ shell s' = shell s ++ (if auto
                            then commands_applied sh (PROJECT_ROOT s) files
                                                  blocks
                            else [])
  /\ (a_status agent = Working ->
      nth_error (agents s') aref
      = Some (agent_after_call (m_tokensUsed result) agent))
  /\ (forall j a, j <> aref -> nth_error (agents s) j = Some a ->
        callable a = false -> nth_error (agents s') j = Some a)
  /\ exists t', nth_error (heap s') tref = Some t'
                /\ match thrown with
                   | Some _ => True
                   | None =>
                       t_status t' = (if review then Review else Completed)
                       /\ t_completed t'
                          = (if review then t_completed task else Some now)
                   end.
Proof.
  intros Ht Ha. unfold executeTask_try.
  destruct (Parser.parseFiles (m_output result)) as [files explanation].
  cbn [fst]. cbv zeta.
  match goal with
  | |- context [apply_output now sh tref task agent files ?b ?s1] =>
      pose proof (apply_output_effects now sh tref task agent files b s1) as A;
      destruct (apply_output now sh tref task agent files b s1)
        as [thrown s2] eqn:Eo
  end.
  cbv zeta in A. cbn [fst snd] in A.
  destruct A as (At & Aa & _ & Ar & _ & Ad & As & (g & Ah & Hg)).
  cbn [disk shell agents heap PROJECT_ROOT upd_task with_heap
       with_totalGlobalTokens upd_agent with_agents]
    in At, Aa, Ar, Ad, As, Ah, Hg.
  rewrite <- At in Hg |- *. clear At.
  assert (Hag2 : forall j, nth_error (agents s2) j
                 = if Nat.eqb aref j
                   then option_map (agent_after_call (m_tokensUsed result))
                                   (nth_error (agents s) j)
                   else nth_error (agents s) j).
  { intros j. rewrite Aa. apply nth_error_update_nth. }
  destruct thrown as [message |].
  { cbn [fst snd]. rewrite Ad, As.
    split; [reflexivity |]. split; [reflexivity |]. split; [reflexivity |].
    split; [| split].
    - intros _. rewrite Hag2, Nat.eqb_refl, Ha. reflexivity.
    - intros j a Hj Hn _. rewrite Hag2.
      replace (Nat.eqb aref j) with false
        by (symmetry; apply Nat.eqb_neq; congruence).
      exact Hn.
    - rewrite Ah, !update_nth_twice, nth_error_update_nth, Nat.eqb_refl, Ht.
      eexists. split; [reflexivity | exact I]. }
  pose proof (score_and_record_effects now tref task agent result files
                (Parser.parseExecBlocks (m_output result)) s2) as B.
  set (s3 := score_and_record now tref task agent result files _ s2) in *.
  cbv zeta in B. destruct B as (Ba & _ & _ & Bd & Bs & (h & Bh & Hh)).
  pose proof (spawn_subtasks_undisturbed now tref agent
                (Parser.parseSubtasks (m_output result)) s3) as U.
  set (s4 := spawn_subtasks now tref agent _ s3) in *.
  destruct U as (Ud & Us & _ & _ & _ & Ut & Ua).
  cbn [fst snd disk shell agents heap addActivity with_activity].
  rewrite Ud, Us, Bd, Bs, Ad, As.
  split; [reflexivity |]. split; [reflexivity |]. split; [reflexivity |].
  assert (Hag : forall j, nth_error (agents s3) j
                = if Nat.eqb aref j
                  then option_map (agent_after_call (m_tokensUsed result))
                                  (nth_error (agents s) j)
                  else nth_error (agents s) j).
  { intros j. rewrite Ba. apply Hag2. }
  split; [| split].
  - intros Hw. apply Ua.
    + rewrite Hag, Nat.eqb_refl, Ha. reflexivity.
    + apply callable_working. exact Hw.
  - intros j a Hj Hn Hc. apply Ua; [| exact Hc].
    rewrite Hag. replace (Nat.eqb aref j) with false
      by (symmetry; apply Nat.eqb_neq; congruence).
    exact Hn.
  - assert (H3 : nth_error (heap s3) tref
                 = Some (h (g (task_with_result
                                 (Some (mkTaskResult true
                                    (if String.eqb explanation ""
                                     then m_output result else explanation)
                                    (Some (m_output result))
                                    (m_tokensUsed result)
                                    (Some (c_name (a_config agent)))
                                    (Some (c_model (a_config agent)))
                                    (map path files) (Some files)
                                    None None None None)) task)))).
    { rewrite Bh, Ah, !update_nth_twice, nth_error_update_nth, Nat.eqb_refl, Ht.
      reflexivity. }
    eexists. split.
    + apply Ut; [exact H3 |].
      destruct (Hh (g (task_with_result
                         (Some (mkTaskResult true
                            (if String.eqb explanation ""
                             then m_output result else explanation)
                            (Some (m_output result)) (m_tokensUsed result)
                            (Some (c_name (a_config agent)))
                            (Some (c_model (a_config agent)))
                            (map path files) (Some files)
                            None None None None)) task))) as [E _].
      rewrite E. match goal with |- t_status (g ?t) <> _ =>
        destruct (Hg t) as [E2 _]; rewrite E2 end.
      destruct ((0 <? len files) && negb (risk_is_low (t_risk task)));
        discriminate.
    + match goal with |- t_status (h (g ?t)) = _ /\ _ =>
        destruct (Hh (g t)) as [E1 E2]; destruct (Hg t) as [E3 E4];
        rewrite E1, E2, E3, E4 end.
      split; reflexivity.
Qed.

(** The [catch] block as a whole. *)
Lemma executeTask_catch_effects (now : Z) (tref aref : nat) (task : Task)
      (agent : Agent) (err : ModelError) (s : State) (t0 : Task) (a0 : Agent) :
  nth_error (heap s) tref = Some t0 ->
  nth_error (agents s) aref = Some a0 ->
  let s' := executeTask_catch now tref aref task agent err s in
  disk s' = disk s /\ shell s' = shell s
  /\ nth_error (agents s') aref
     = Some (let a := agent_with_errorCount (a_errorCount a0 + 1) a0 in
             if status_is err 429
             then agent_with_status Cooldown
                    (agent_with_cooldownUntil (Some (now + 60000)) a)
             else a)
  /\ (forall j, j <> aref ->
        nth_error (agents s') j = nth_error (agents s) j)
  /\ exists t', nth_error (heap s') tref = Some t'
                /\ t_status t' = Failed /\ t_completed t' = Some now
                /\ option_map r_success (t_result t') = Some false
                /\ option_map r_output (t_result t') = Some (e_message err).
Proof.
  intros Ht Ha. unfold executeTask_catch. cbv zeta.
  destruct (status_is err 429); cbn.
  - rewrite update_nth_twice, !nth_error_update_nth, !Nat.eqb_refl, Ht, Ha.
    cbn. repeat (split; [reflexivity |]). split.
    + intros j Hj. rewrite nth_error_update_nth.
      replace (Nat.eqb aref j) with false
        by (symmetry; apply Nat.eqb_neq; congruence).
      reflexivity.
    + eexists. split; [reflexivity |]. cbn. auto.
  - rewrite !nth_error_update_nth, !Nat.eqb_refl, Ht, Ha.
    cbn. repeat (split; [reflexivity |]). split.
    + intros j Hj. rewrite nth_error_update_nth.
      replace (Nat.eqb aref j) with false
        by (symmetry; apply Nat.eqb_neq; congruence).
      reflexivity.
    + eexists. split; [reflexivity |]. cbn. auto.
Qed.

Lemma thrown_by_spec (sh : Shell) (s : State) (tref : nat) (r : ModelResult)
      (task : Task) :
  nth_error (heap s) tref = Some task ->
  thrown_by sh s tref r
  = if (0 <? len (fst (Parser.parseFiles (m_output r))))
       && risk_is_low (t_risk task)
    then apply_error sh (PROJECT_ROOT s) (fst (Parser.parseFiles (m_output r)))
                     (Parser.parseExecBlocks (m_output r))
    else None.
Proof.
  intros Ht. unfold thrown_by, risk_at. rewrite Ht. cbn [option_map].
  destruct (fst (Parser.parseFiles (m_output r))) as [| f fs].
  - destruct (t_risk task); reflexivity.
  - replace (0 <? len (f :: fs)) with true
      by (symmetry; apply Z.ltb_lt; unfold len; cbn [List.length]; lia).
    destruct (t_risk task); reflexivity.
Qed.

Lemma try_agents_length (now : Z) (sh : Shell) (tref aref : nat)
      (task : Task) (agent : Agent) (r : ModelResult) (s : State) :
  fst (executeTask_try now sh tref aref task agent r s) <> None ->
  List.length (agents (snd (executeTask_try now sh tref aref task agent r s)))
  = List.length (agents s).
Proof.
  unfold executeTask_try.
  destruct (Parser.parseFiles (m_output r)) as [files explanation].
  match goal with
  | |- context [apply_output now sh tref task agent files ?b ?s1] =>
      pose proof (apply_output_effects now sh tref task agent files b s1) as A;
      destruct (apply_output now sh tref task agent files b s1)
        as [thrown s2]
  end.
  cbv zeta in A. cbn [fst snd] in A. destruct A as (_ & Aa & _).
  destruct thrown as [message |]; cbn [fst snd]; [| congruence].
  intros _. rewrite Aa. cbn [agents upd_task with_heap with_totalGlobalTokens
                            upd_agent with_agents].
  apply length_update_nth.
Qed.

(** A resolved call up to the [finally] block: the [try] block and, when
    it throws, the [catch] block. *)
Lemma executeTask_resolved_effects (now : Z) (sh : Shell) (tref aref : nat)
      (task : Task) (agent : Agent) (r : ModelResult) (s : State) :
  nth_error (heap s) tref = Some task ->
  nth_error (agents s) aref = Some agent ->
  let s' :=
    match executeTask_try now sh tref aref task agent r s with
    | (None, s1) => s1
    | (Some message, s1) =>
        executeTask_catch now tref aref task agent (fs_error message) s1
    end in
  let files := fst (Parser.parseFiles (m_output r)) in
  let blocks := Parser.parseExecBlocks (m_output r) in
  let auto := (0 <? len files) && risk_is_low (t_risk task) in
  let review := (0 <? len files) && negb (risk_is_low (t_risk task)) in
  disk s' = disk s ++ (if auto
                       then written_files (PROJECT_ROOT s)
                              (granted sh (PROJECT_ROOT s) files)
                       else [])
  /\ shell s' = shell s ++ (if auto
                            then commands_applied sh (PROJECT_ROOT s) files
                                                  blocks
                            else [])
  /\ (a_status agent = Working ->
      nth_error (agents s') aref
      = Some (let a := agent_after_call (m_tokensUsed r) agent in
              match thrown_by sh s tref r with
              | Some _ => agent_with_errorCount (a_errorCount a + 1) a
              | None => a
              end))
  /\ (forall j a, j <> aref -> nth_error (agents s) j = Some a ->
        callable a = false -> nth_error (agents s') j = Some a)
  /\ exists t',
       nth_error (heap s') tref = Some t'
       /\ match thrown_by sh s tref r with
          | Some message =>
              t_status t' = Failed /\ t_completed t' = Some now
              /\ option_map r_success (t_result t') = Some false
              /\ option_map r_output (t_result t') = Some message
          | None =>
              t_status t' = (if review then Review else Completed)
              /\ t_completed t'
                 = (if review then t_completed task else Some now)
          end.
Proof.
  intros Ht Ha. cbv zeta.
  rewrite (thrown_by_spec sh s tref r task Ht).
  pose proof (executeTask_try_effects now sh tref aref task agent r s Ht Ha)
    as T.
  cbv zeta in T. destruct T as (Ef & D & S & Hag & Hoth & (t1 & Et & Hs)).
  pose proof (try_agents_length now sh tref aref task agent r s) as L.
  destruct (executeTask_try now sh tref aref task agent r s) as [thrown s1].
  cbn [fst snd] in *. rewrite <- Ef in *. clear Ef.
  destruct thrown as [message |].
  - assert (Ha1 : exists a1, nth_error (agents s1) aref = Some a1).
    { destruct (nth_error (agents s1) aref) as [a1 |] eqn:E1; [eauto |].
      exfalso. apply nth_error_None in E1.
      assert (aref < List.length (agents s))%nat
        by (apply nth_error_Some; congruence).
      specialize (L ltac:(discriminate)). lia. }
    destruct Ha1 as [a1 Ea1].
    destruct (executeTask_catch_effects now tref aref task agent
                (fs_error message) s1 t1 a1 Et Ea1)
      as (D' & S' & Hag' & Hoth' & (t' & Et' & Hs')).
    rewrite D', S', D, S.
    split; [reflexivity |]. split; [reflexivity |]. split; [| split].
    + intros Hw. rewrite Hag'. specialize (Hag Hw).
      assert (a1 = agent_after_call (m_tokensUsed r) agent) by congruence.
      subst a1. reflexivity.
    + intros j a Hj Hn Hc. rewrite Hoth' by exact Hj. now apply Hoth.
    + exists t'. split; [exact Et' | exact Hs'].
  - split; [exact D |]. split; [exact S |]. split; [exact Hag |].
    split; [exact Hoth |]. exists t1. split; [exact Et | exact Hs].
Qed.

(** X17. The review gate: an execution whose model call is rejected, whose
    task is high-risk, or whose output holds no file block writes nothing
    to the disk and runs no command, whatever the output says. *)
Theorem executeTask_gate (now : Z) (sh : Shell) (tref aref : nat)
    (outcome : ModelOutcome) (s : State) :
  (exists err, outcome = Rejected err)
  \/ risk_at s tref = Some HighRisk
  \/ (exists r, outcome = Resolved r
                /\ fst (Parser.parseFiles (m_output r)) = []) ->
  disk (executeTask now sh tref aref outcome s) = disk s
  /\ shell (executeTask now sh tref aref outcome s) = shell s.
Proof.
  intros H. unfold executeTask, risk_at in *.
  destruct (nth_error (heap s) tref) as [task |] eqn:Ht; [| auto].
  destruct (nth_error (agents s) aref) as [agent |] eqn:Ha; [| auto].
  unfold executeTask_finally.
  match goal with
  | |- context [cleanupTasks ?s1] =>
      destruct (cleanupTasks_frame s1) as (_ & -> & -> & _)
  end.
  cbn [disk shell upd_agent with_agents].
  destruct outcome as [r | err].
  - destruct (executeTask_resolved_effects now sh tref aref task agent r s
                Ht Ha) as (D & S & _).
    rewrite D, S.
    assert (E : (0 <? len (fst (Parser.parseFiles (m_output r))))
                && risk_is_low (t_risk task) = false).
    { destruct H as [[err He] | [Hr | [r' [Hr Hf]]]].
      - discriminate.
      - simpl in Hr. inversion Hr as [Hr']. rewrite Hr'. cbn.
        apply andb_false_r.
      - inversion Hr; subst r'. rewrite Hf. reflexivity. }
    rewrite E, !app_nil_r. auto.
  - destruct (executeTask_catch_effects now tref aref task agent err s
                task agent Ht Ha) as (D & S & _).
    auto.
Qed.

Lemma executeTask_gate_witness :
  risk_at Waiting.guarded 0 = Some HighRisk
  /\ disk (executeTask 5 Scenario.sh 0 0 Waiting.answer Waiting.guarded)
     = disk Waiting.guarded
  /\ shell (executeTask 5 Scenario.sh 0 0 Waiting.answer Waiting.guarded)
     = shell Waiting.guarded.
Proof.
  assert (H : risk_at Waiting.guarded 0 = Some HighRisk)
    by (vm_compute; reflexivity).
  split; [exact H |].
  exact (executeTask_gate 5 Scenario.sh 0 0 Waiting.answer Waiting.guarded
                          (or_intror (or_introl H))).
Defined.

(** X18. Auto-apply: when the task is low-risk and the output holds at
    least one file block, the execution writes the parsed files in order,
    each at the join of the workspace root and its path, wherever that
    lies, up to the first write the host refuses; if none is refused it
    then runs the commands whose working directory passes the prefix test,
    in order, up to the first whose working directory cannot be created. On
    a host that refuses nothing, every file is written and every command
    that passes the prefix test is run. *)
Theorem executeTask_auto_apply (now : Z) (sh : Shell) (tref aref : nat)
    (r : ModelResult) (s : State) :
  risk_at s tref = Some LowRisk ->
  agent_status_at s aref <> None ->
  fst (Parser.parseFiles (m_output r)) <> [] ->
  let root := PROJECT_ROOT s in
  let files := fst (Parser.parseFiles (m_output r)) in
  let blocks := Parser.parseExecBlocks (m_output r) in
  let s' := executeTask now sh tref aref (Resolved r) s in
  disk s' = disk s ++ written_files root (granted sh root files)
  /\ shell s'
     = shell s ++ match write_refusal sh root files with
                  | Some _ => []
                  | None => commands_run root (reached sh root blocks)
                  end
  /\ (thrown_by sh s tref r = None ->
      disk s' = disk s ++ written_files root files
      /\ shell s' = shell s ++ commands_run root blocks).
Proof.
  intros Hr Hag Hf. cbv zeta.
  assert (Hd : disk (executeTask now sh tref aref (Resolved r) s)
               = disk s ++ written_files (PROJECT_ROOT s)
                             (granted sh (PROJECT_ROOT s)
                                (fst (Parser.parseFiles (m_output r))))
               /\ shell (executeTask now sh tref aref (Resolved r) s)
                  = shell s ++ commands_applied sh (PROJECT_ROOT s)
                                 (fst (Parser.parseFiles (m_output r)))
                                 (Parser.parseExecBlocks (m_output r))).
  { unfold executeTask, risk_at, agent_status_at in *.
    destruct (nth_error (heap s) tref) as [task |] eqn:Ht; [| discriminate].
    destruct (nth_error (agents s) aref) as [agent |] eqn:Ha;
      [| contradiction Hag; reflexivity].
    unfold executeTask_finally.
    match goal with
    | |- context [cleanupTasks ?s1] =>
        destruct (cleanupTasks_frame s1) as (_ & -> & -> & _)
    end.
    cbn [disk shell upd_agent with_agents].
    destruct (executeTask_resolved_effects now sh tref aref task agent r s
                Ht Ha) as (D & S & _).
    rewrite D, S.
    assert (E : (0 <? len (fst (Parser.parseFiles (m_output r))))
                && risk_is_low (t_risk task) = true).
    { simpl in Hr. inversion Hr as [Hr']. rewrite Hr'. cbn [risk_is_low].
      rewrite andb_true_r. apply Z.ltb_lt.
      destruct (fst (Parser.parseFiles (m_output r))); [contradiction |].
      unfold len. cbn [List.length]. lia. }
    rewrite E. auto. }
  destruct Hd as [Hd Hs]. unfold commands_applied in Hs.
  split; [exact Hd |]. split; [exact Hs |].
  intros Hn. unfold thrown_by in Hn. rewrite Hr in Hn.
  destruct (fst (Parser.parseFiles (m_output r))) as [| f fs] eqn:Ef;
    [contradiction |].
  unfold apply_error in Hn.
  destruct (write_refusal sh (PROJECT_ROOT s) (f :: fs)) eqn:Ew;
    [discriminate |].
  rewrite Hd, Hs, (granted_all _ _ _ Ew), (reached_all _ _ _ Hn). auto.
Qed.

Lemma executeTask_auto_apply_witness :
  risk_at Waiting.trusted 0 = Some LowRisk
  /\ disk (executeTask 5 Scenario.sh 0 0 Waiting.answer Waiting.trusted)
     = disk Waiting.trusted ++ [("/srv/app/workspace/app.js", "x")]
  /\ shell (executeTask 5 Scenario.sh 0 0 Waiting.answer Waiting.trusted)
     = shell Waiting.trusted ++ [("/srv/app/workspace", "npm install")]
  /\ disk (executeTask 5 Refusing.read_only 0 0 Waiting.answer Waiting.trusted)
     = disk Waiting.trusted
  /\ shell (executeTask 5 Refusing.read_only 0 0 Waiting.answer
                        Waiting.trusted)
     = shell Waiting.trusted.
Proof.
  assert (H1 : risk_at Waiting.trusted 0 = Some LowRisk)
    by (vm_compute; reflexivity).
  assert (H2 : agent_status_at Waiting.trusted 0 <> None)
    by (vm_compute; discriminate).
  assert (H3 : fst (Parser.parseFiles
                      (m_output (mkModelResult Scenario.reviewed_output 100)))
               <> []) by (vm_compute; discriminate).
  split; [exact H1 |].
  destruct (executeTask_auto_apply 5 Scenario.sh 0 0 _ Waiting.trusted
              H1 H2 H3) as (D & S & _).
  destruct (executeTask_auto_apply 5 Refusing.read_only 0 0 _ Waiting.trusted
              H1 H2 H3) as (D' & S' & _).
  split; [exact D |]. split; [exact S |].
  split; [refine (eq_trans D' _) | refine (eq_trans S' _)];
    vm_compute; reflexivity.
Defined.

(** X19. Release of the agent: when the execution of an existing task
    settles on a working agent, the agent ends without current task, idle,
    or in cooldown for 60 s when the model call was rejected with status
    429. A resolved call counts one more completed task and, when the host
    refuses a write or a working directory while the result is applied, one
    more error as well; a rejected call counts one more error. No other
    agent that was not callable is changed, whatever subtasks the execution
    creates and dispatches. *)
Theorem executeTask_releases_agent (now : Z) (sh : Shell) (tref aref : nat)
    (outcome : ModelOutcome) (s : State) (a : Agent) :
  task_status_at s tref <> None ->
  nth_error (agents s) aref = Some a ->
  a_status a = Working ->
  (exists a',
     nth_error (agents (executeTask now sh tref aref outcome s)) aref = Some a'
     /\ a_currentTaskId a' = None
     /\ match outcome with
        | Resolved r =>
            a_status a' = Idle
            /\ a_tasksCompleted a' = a_tasksCompleted a + 1
            /\ a_errorCount a' = match thrown_by sh s tref r with
                                 | Some _ => a_errorCount a + 1
                                 | None => a_errorCount a
                                 end
            /\ a_cooldownUntil a' = a_cooldownUntil a
        | Rejected err =>
            a_tasksCompleted a' = a_tasksCompleted a
            /\ a_errorCount a' = a_errorCount a + 1
            /\ if status_is err 429
               then a_status a' = Cooldown
                    /\ a_cooldownUntil a' = Some (now + 60000)
               else a_status a' = Idle
                    /\ a_cooldownUntil a' = a_cooldownUntil a
        end)
  /\ (forall j b, j <> aref -> nth_error (agents s) j = Some b ->
        callable b = false ->
        nth_error (agents (executeTask now sh tref aref outcome s)) j = Some b).
Proof.
  intros Hts Ha Hw. unfold executeTask, task_status_at in *.
  destruct (nth_error (heap s) tref) as [task |] eqn:Ht;
    [| contradiction Hts; reflexivity].
  rewrite Ha. unfold executeTask_finally.
  match goal with
  | |- context [cleanupTasks ?s1] =>
      destruct (cleanupTasks_frame s1) as (-> & _)
  end.
  cbn [agents upd_agent with_agents].
  destruct outcome as [r | err].
  - destruct (executeTask_resolved_effects now sh tref aref task a r s Ht Ha)
      as (_ & _ & Hag & Hoth & _).
    specialize (Hag Hw). cbv zeta in Hag. split.
    + rewrite nth_error_update_nth, Nat.eqb_refl, Hag. cbn [option_map].
      eexists. split; [reflexivity |].
      destruct (thrown_by sh s tref r);
        cbn [agent_after_call agent_with_errorCount a_status]; rewrite Hw;
        cbn; auto.
    + intros j b Hj Hb Hc. rewrite nth_error_update_nth.
      replace (Nat.eqb aref j) with false
        by (symmetry; apply Nat.eqb_neq; congruence).
      now apply Hoth.
  - destruct (executeTask_catch_effects now tref aref task a err s task a
                Ht Ha) as (_ & _ & Hag & Hoth & _).
    cbv zeta in Hag. split.
    + rewrite nth_error_update_nth, Nat.eqb_refl, Hag. cbn [option_map].
      eexists. split; [reflexivity |].
      destruct (status_is err 429); cbn; rewrite ?Hw; cbn; auto.
    + intros j b Hj Hb Hc. rewrite nth_error_update_nth.
      replace (Nat.eqb aref j) with false
        by (symmetry; apply Nat.eqb_neq; congruence).
      rewrite Hoth by exact Hj. exact Hb.
Qed.

Lemma executeTask_releases_agent_witness :
  task_status_at Waiting.trusted 0 <> None
  /\ agent_status_at Waiting.trusted 0 = Some Working
  /\ agent_status_at
       (executeTask 5 Scenario.sh 0 0 (Rejected Scenario.too_many_requests)
                    Waiting.trusted) 0
     = Some Cooldown
  /\ option_map a_errorCount
       (nth_error (agents (executeTask 5 Refusing.read_only 0 0 Waiting.answer
                                       Waiting.trusted)) 0)
     = Some 1.
Proof.
  assert (H1 : task_status_at Waiting.trusted 0 <> None)
    by (vm_compute; discriminate).
  assert (H2 : nth_error (agents Waiting.trusted) 0
               = Some (nth 0 (agents Waiting.trusted)
                           (newAgent 0 (Scenario.config "a1") Idle)))
    by (vm_compute; reflexivity).
  assert (H3 : a_status (nth 0 (agents Waiting.trusted)
                             (newAgent 0 (Scenario.config "a1") Idle))
               = Working) by (vm_compute; reflexivity).
  split; [exact H1 |]. split; [vm_compute; reflexivity |]. split.
  - destruct (executeTask_releases_agent 5 Scenario.sh 0 0
                (Rejected Scenario.too_many_requests) Waiting.trusted _
                H1 H2 H3) as [(a' & Ea & _ & _ & _ & Hc) _].
    unfold agent_status_at. rewrite Ea. cbn [option_map].
    change (status_is Scenario.too_many_requests 429) with true in Hc.
    destruct Hc as [-> _]. reflexivity.
  - destruct (executeTask_releases_agent 5 Refusing.read_only 0 0
                Waiting.answer Waiting.trusted _ H1 H2 H3)
      as [(a' & Ea & _ & _ & _ & Hc & _) _].
    refine (eq_trans (f_equal (option_map a_errorCount) Ea) _).
    cbn [option_map]. rewrite Hc. vm_compute. reflexivity.
Defined.

(** X20. Fate of the task: when the execution of an existing task settles
    on an existing agent, the task is never left active. A rejected call
    leaves it failed, with the error message as output, and so does a
    resolved call whose result the host refuses to apply (a refused write
    or working directory of a low-risk task with files). Otherwise a
    resolved call leaves the task in review when the output holds a file
    block and the task is high-risk, and completed if not. The task is
    stamped with the time of the settlement unless it goes to review. *)
Theorem executeTask_outcome (now : Z) (sh : Shell) (tref aref : nat)
    (outcome : ModelOutcome) (s : State) (task : Task) :
  nth_error (heap s) tref = Some task ->
  agent_status_at s aref <> None ->
  exists t',
    nth_error (heap (executeTask now sh tref aref outcome s)) tref = Some t'
    /\ match outcome with
       | Resolved r =>
           match thrown_by sh s tref r with
           | Some message =>
               t_status t' = Failed /\ t_completed t' = Some now
               /\ option_map r_success (t_result t') = Some false
               /\ option_map r_output (t_result t') = Some message
           | None =>
               if (0 <? len (fst (Parser.parseFiles (m_output r))))
                  && negb (risk_is_low (t_risk task))
               then t_status t' = Review /\ t_completed t' = t_completed task
               else t_status t' = Completed /\ t_completed t' = Some now
           end
       | Rejected err =>
           t_status t' = Failed /\ t_completed t' = Some now
           /\ option_map r_success (t_result t') = Some false
           /\ option_map r_output (t_result t') = Some (e_message err)
       end.
Proof.
  intros Ht Hag. unfold executeTask, agent_status_at in *.
  rewrite Ht.
  destruct (nth_error (agents s) aref) as [agent |] eqn:Ha;
    [| contradiction Hag; reflexivity].
  unfold executeTask_finally. rewrite cleanupTasks_heap.
  cbn [heap upd_agent with_agents].
  destruct outcome as [r | err].
  - destruct (executeTask_resolved_effects now sh tref aref task agent r s
                Ht Ha) as (_ & _ & _ & _ & (t' & Et & Hs)).
    exists t'. split; [exact Et |].
    destruct (thrown_by sh s tref r); [exact Hs |].
    destruct Hs as [Es Ec]. rewrite Es, Ec.
    destruct (_ && _); auto.
  - destruct (executeTask_catch_effects now tref aref task agent err s
                task agent Ht Ha) as (_ & _ & _ & _ & (t' & Et & Es)).
    exists t'. auto.
Qed.

Lemma executeTask_outcome_witness :
  agent_status_at Waiting.guarded 0 <> None
  /\ task_status_at
       (executeTask 5 Scenario.sh 0 0 Waiting.answer Waiting.guarded) 0
     = Some Review
  /\ task_status_at
       (executeTask 5 Refusing.read_only 0 0 Waiting.answer Waiting.trusted) 0
     = Some Failed.
Proof.
  assert (H1 : nth_error (heap Waiting.guarded) 0
               = Some (nth 0 (heap Waiting.guarded) (Sample.task_in Pending)))
    by (vm_compute; reflexivity).
  assert (H2 : agent_status_at Waiting.guarded 0 <> None)
    by (vm_compute; discriminate).
  assert (H3 : nth_error (heap Waiting.trusted) 0
               = Some (nth 0 (heap Waiting.trusted) (Sample.task_in Pending)))
    by (vm_compute; reflexivity).
  assert (H4 : agent_status_at Waiting.trusted 0 <> None)
    by (vm_compute; discriminate).
  split; [exact H2 |]. split.
  - destruct (executeTask_outcome 5 Scenario.sh 0 0 Waiting.answer
                Waiting.guarded _ H1 H2) as (t' & Et & Hs).
    unfold task_status_at. rewrite Et. cbn [option_map].
    change (thrown_by Scenario.sh Waiting.guarded 0
              (mkModelResult Scenario.reviewed_output 100)) with (@None string)
      in Hs.
    change ((0 <? len (fst (Parser.parseFiles
                              (m_output (mkModelResult Scenario.reviewed_output
                                                       100)))))
            && negb (risk_is_low
                       (t_risk (nth 0 (heap Waiting.guarded)
                                    (Sample.task_in Pending))))) with true
      in Hs.
    destruct Hs as [-> _]. reflexivity.
  - destruct (executeTask_outcome 5 Refusing.read_only 0 0 Waiting.answer
                Waiting.trusted _ H3 H4) as (t' & Et & Hs).
    unfold task_status_at. rewrite Et. cbn [option_map].
    change (thrown_by Refusing.read_only Waiting.trusted 0
              (mkModelResult Scenario.reviewed_output 100))
      with (Some "EROFS: read-only file system") in Hs.
    destruct Hs as [-> _]. reflexivity.
Defined.

(** ** Invariants of the runs of the server *)

Lemma run_events_preserves (Inv : State -> Prop) :
  (forall s e, Inv s -> Inv (step s e)) ->
  forall events s, Inv s -> Inv (run_events events s).
Proof.
  intros Hstep events. unfold run_events.
  induction events as [| e events IH]; simpl; intros s H.
  - exact H.
  - apply IH, Hstep, H.
Qed.

(** *** The activity log *)

Lemma addActivity_cap (now : Z) (agentId type : string) (s : State) :
  len (activity (addActivity now agentId type s)) <= 100.
Proof.
  unfold addActivity. cbn [activity with_activity].
  destruct (100 <? len (activity s ++ [mkActivity now agentId type])) eqn:E.
  - unfold len.
    pose proof (last_n_length 100
                  (activity s ++ [mkActivity now agentId type])). lia.
  - now apply Z.ltb_ge in E.
Qed.

Lemma launch_cap (now : Z) (x : nat) (s : State) :
  len (activity s) <= 100 -> len (activity (launch now x s)) <= 100.
Proof.
  intros H. unfold launch. destruct (nth_error (heap s) x) as [task |]; [| exact H].
  pose proof (pickAgent_state (t_preferredAgentId task) (t_title task)
                              (t_description task) s) as St.
  destruct (pickAgent _ _ _ s) as [picked s1]. cbn [snd] in St.
  destruct picked as [aref |].
  - cbn [activity with_inflight]. apply addActivity_cap.
  - destruct St as [-> | [e ->]]; exact H.
Qed.

Lemma runDispatch_cap (now : Z) (s : State) :
  len (activity s) <= 100 -> len (activity (runDispatch now s)) <= 100.
Proof.
  unfold runDispatch. generalize (filter (is_pending s) (tasks s)).
  intros l. revert s. induction l as [| x l IH]; simpl; intros s H.
  - exact H.
  - apply IH. now apply launch_cap.
Qed.

Lemma createTask_cap (now : Z) (title description : string)
      (pref : option string) (s : State) :
  len (activity (snd (createTask now title description pref s))) <= 100.
Proof.
  unfold createTask. cbn [snd]. apply runDispatch_cap, addActivity_cap.
Qed.

Lemma executeTask_cap (now : Z) (sh : Shell) (tref aref : nat)
      (outcome : ModelOutcome) (s : State) :
  len (activity s) <= 100 ->
  len (activity (executeTask now sh tref aref outcome s)) <= 100.
Proof.
  intros H. unfold executeTask.
  destruct (nth_error (heap s) tref) as [task |]; [| exact H].
  destruct (nth_error (agents s) aref) as [agent |]; [| exact H].
  unfold executeTask_finally.
  match goal with
  | |- context [cleanupTasks ?s1] =>
      destruct (cleanupTasks_frame s1) as (_ & _ & _ & _ & _ & -> & _)
  end.
  cbn [activity upd_agent with_agents].
  destruct outcome as [r | err].
  - destruct (executeTask_try now sh tref aref task agent r s)
      as [[message |] s1] eqn:E.
    + unfold executeTask_catch. cbv zeta.
      destruct (status_is _ 429); apply addActivity_cap.
    + unfold executeTask_try in E.
      destruct (Parser.parseFiles (m_output r)) as [files explanation].
      destruct (apply_output _ _ _ _ _ _ _ _) as [[message |] s2];
        [discriminate |].
      injection E as <-. apply addActivity_cap.
  - unfold executeTask_catch. cbv zeta.
    destruct (status_is err 429); apply addActivity_cap.
Qed.

Lemma runExecBlocks_cap (now : Z) (sh : Shell) (blocks : list ExecBlock)
      (agentId : string) (results : list ExecResult) (s : State) :
  len (activity s) <= 100 ->
  len (activity (snd (runExecBlocks now sh blocks agentId results s))) <= 100.
Proof.
  revert results s. induction blocks as [| b blocks IH]; intros results s H.
  - exact H.
  - cbn [runExecBlocks].
    destruct (negb (Text.startsWith _ _)).
    + apply IH, addActivity_cap.
    + destruct (fs_mkdir sh _); [exact H |].
      destruct (execSync sh _ _) as [ok out].
      destruct ok; apply IH, addActivity_cap.
Qed.

Lemma approveTask_cap (now : Z) (sh : Shell) (taskId : string) (s : State) :
  len (activity s) <= 100 ->
  len (activity (approveTask now sh taskId s)) <= 100.
Proof.
  intros H. unfold approveTask.
  destruct (find_task taskId s) as [tref |]; [| exact H].
  destruct (nth_error (heap s) tref) as [task |]; [| exact H].
  destruct (t_result task) as [result |]; [| exact H].
  destruct (r_fileContents result) as [[| f fs] |];
    try (cbn [activity upd_task with_heap]; apply addActivity_cap).
  rewrite (writeFiles_state sh (f :: fs) [] s).
  destruct (write_refusal sh (PROJECT_ROOT s) (f :: fs)); [exact H |].
  destruct (r_execBlocks result) as [[| b bs] |];
    try (cbn [activity upd_task with_heap]; apply addActivity_cap).
  match goal with
  | |- context [runExecBlocks now sh (b :: bs) ?i ?r ?s2] =>
      pose proof (runExecBlocks_cap now sh (b :: bs) i r s2
                    (addActivity_cap _ _ _ _)) as C;
      destruct (runExecBlocks now sh (b :: bs) i r s2)
        as [[results | message] s3]
  end; [| exact C].
  cbn [activity upd_task with_heap]. apply addActivity_cap.
Qed.

Lemma handleCommand_cap (now : Z) (sh : Shell) (msg : Command) (s : State) :
  len (activity s) <= 100 ->
  len (activity (handleCommand now sh msg s)) <= 100.
Proof.
  intros H. destruct msg as [title description agentId agentIds | config
                            | taskId | taskId |]; cbn [handleCommand].
  - destruct agentIds as [[| aid ids] |];
      try apply createTask_cap. apply addActivity_cap.
  - apply addActivity_cap.
  - now apply approveTask_cap.
  - unfold rejectTask. apply addActivity_cap.
  - apply addActivity_cap.
Qed.

Lemma step_cap (s : State) (e : Event) :
  len (activity s) <= 100 -> len (activity (step s e)) <= 100.
Proof.
  intros H. destruct e as [now sh msg | now title description agentId | now
                          | now | now sh k outcome]; cbn [step].
  - now apply handleCommand_cap.
  - unfold postTask. destruct title as [t |]; [| exact H].
    destruct (String.eqb t ""); [exact H | apply createTask_cap].
  - now apply runDispatch_cap.
  - exact H.
  - unfold settle. destruct (nth_error (inflight s) k) as [[tref aref] |];
      [| exact H].
    apply executeTask_cap. exact H.
Qed.

(** X21. The activity log never holds more than 100 entries: this is so
    after every [addActivity], and in every state the server reaches from
    start-up. *)
Theorem activity_cap (dirname : string) (env : string -> option string)
    (now0 : Z) (configs : list AgentConfig) (memo : PerformanceLog)
    (randoms : list Q) (events : list Event) :
  (forall now agentId type s,
      len (activity (addActivity now agentId type s)) <= 100)
  /\ len (activity (run_events events
                      (boot dirname env now0 configs memo randoms))) <= 100.
Proof.
  split; [intros; apply addActivity_cap |].
  apply (run_events_preserves (fun s => len (activity s) <= 100) step_cap).
  cbn. lia.
Qed.

(** *** The performance log *)

Lemma scoreOutput_range (task : Task) (result : ModelResult)
      (files : list FileIntent) (execBlocks : list ExecBlock)
      (execResults : option (list ExecResult)) :
  0 <= RL.scoreOutput task result files execBlocks execResults <= 100.
Proof. unfold RL.scoreOutput. cbv zeta. lia. Qed.

Lemma executeTask_well_scored (now : Z) (sh : Shell) (tref aref : nat)
      (outcome : ModelOutcome) (s : State) :
  well_scored (performanceLog s) ->
  well_scored (performanceLog (executeTask now sh tref aref outcome s)).
Proof.
  intros H. unfold executeTask.
  destruct (nth_error (heap s) tref) as [task |]; [| exact H].
  destruct (nth_error (agents s) aref) as [agent |]; [| exact H].
  unfold executeTask_finally.
  match goal with
  | |- context [cleanupTasks ?s1] =>
      destruct (cleanupTasks_frame s1) as (_ & _ & _ & -> & _)
  end.
  cbn [performanceLog upd_agent with_agents].
  assert (Hc : forall err s1,
             well_scored (performanceLog s1) ->
             well_scored (performanceLog
                            (executeTask_catch now tref aref task agent err
                                               s1))).
  { intros err s1 H1. unfold executeTask_catch. cbv zeta.
    assert (Hr : well_scored
                   (RL.recordPerformance now (a_id agent)
                      (RL.classifyTask (t_title task) (t_description task))
                      (if isApiError err then 25 else 0) (t_id task)
                      (performanceLog s1))).
    { apply recordPerformance_well; [| exact H1].
      destruct (isApiError err); lia. }
    destruct (status_is err 429); exact Hr. }
  destruct outcome as [r | err]; [| apply Hc, H].
  unfold executeTask_try.
  destruct (Parser.parseFiles (m_output r)) as [files explanation].
  cbv zeta.
  match goal with
  | |- context [apply_output now sh tref task agent files ?b ?s1] =>
      destruct (apply_output_effects now sh tref task agent files b s1)
        as (_ & _ & P & _);
      destruct (apply_output now sh tref task agent files b s1)
        as [[message |] s2]
  end; cbn [snd performanceLog upd_task with_heap with_totalGlobalTokens
            upd_agent with_agents] in P.
  - apply Hc. rewrite P. exact H.
  - cbn [performanceLog addActivity with_activity].
    match goal with
    | |- context [spawn_subtasks now tref agent ?subs ?s3] =>
        destruct (spawn_subtasks_undisturbed now tref agent subs s3)
          as (_ & _ & -> & _)
    end.
    unfold score_and_record.
    cbn [performanceLog addActivity with_activity upd_result upd_task
         with_heap with_performanceLog].
    apply recordPerformance_well; [apply scoreOutput_range |].
    rewrite P. exact H.
Qed.

Lemma approveTask_performanceLog (now : Z) (sh : Shell) (taskId : string)
      (s : State) :
  performanceLog (approveTask now sh taskId s) = performanceLog s.
Proof.
  unfold approveTask.
  destruct (find_task taskId s) as [tref |]; [| reflexivity].
  destruct (nth_error (heap s) tref) as [task |]; [| reflexivity].
  destruct (t_result task) as [result |]; [| reflexivity].
  destruct (r_fileContents result) as [[| f fs] |]; try reflexivity.
  rewrite (writeFiles_state sh (f :: fs) [] s).
  destruct (write_refusal sh (PROJECT_ROOT s) (f :: fs)); [reflexivity |].
  destruct (r_execBlocks result) as [[| b bs] |]; try reflexivity.
  match goal with
  | |- context [runExecBlocks now sh ?bl ?i ?r ?s1] =>
      destruct (runExecBlocks_state now sh bl i r s1) as [acts [Ha _]];
      destruct (runExecBlocks now sh bl i r s1) as [[results | message] s2]
  end; cbn [snd] in Ha; subst s2; reflexivity.
Qed.

Lemma createTask_performanceLog (now : Z) (title description : string)
      (pref : option string) (s : State) :
  performanceLog (snd (createTask now title description pref s))
  = performanceLog s.
Proof. apply createTask_undisturbed. Qed.

Lemma handleCommand_performanceLog (now : Z) (sh : Shell) (msg : Command)
      (s : State) :
  performanceLog (handleCommand now sh msg s) = performanceLog s.
Proof.
  destruct msg as [title description agentId agentIds | config
                  | taskId | taskId |]; cbn [handleCommand].
  - destruct agentIds as [[| aid ids] |];
      try apply createTask_performanceLog.
    cbn [performanceLog addActivity with_activity].
    generalize (aid :: ids). intros l. revert s.
    induction l as [| x l IH]; intros s; cbn [fold_left]; [reflexivity |].
    rewrite IH. apply createTask_performanceLog.
  - reflexivity.
  - apply approveTask_performanceLog.
  - unfold rejectTask. destruct (find_task taskId s); reflexivity.
  - reflexivity.
Qed.

Lemma step_well_scored (s : State) (e : Event) :
  well_scored (performanceLog s) -> well_scored (performanceLog (step s e)).
Proof.
  intros H. destruct e as [now sh msg | now title description agentId | now
                          | now | now sh k outcome]; cbn [step].
  - now rewrite handleCommand_performanceLog.
  - unfold postTask. destruct title as [t |]; [| exact H].
    destruct (String.eqb t ""); [exact H |].
    now rewrite createTask_performanceLog.
  - destruct (runDispatch_undisturbed now s) as (_ & _ & -> & _). exact H.
  - exact H.
  - unfold settle. destruct (nth_error (inflight s) k) as [[tref aref] |];
      [| exact H].
    apply executeTask_well_scored. exact H.
Qed.



Lemma agent_scores_range_witness :
  well_scored (performanceLog Backlog.busy_day)
  /\ 0 <= RL.getAgentScore (performanceLog Backlog.busy_day) "a1" "general"
     <= 100.
Proof.
  assert (H : well_scored (performanceLog Backlog.busy_day)).
  { apply (run_events_preserves (fun s => well_scored (performanceLog s))
                                step_well_scored).
    exact well_scored_nil. }
  split; [exact H |].
  exact (proj1 (agent_scores_range _ "a1" "general" H)).
Defined.

(** *** Agents and waiting executions *)

Lemma dispatched_booking (from : list nat) (s s' : State) :
  dispatched from s s' -> booking s s'.
Proof.
  intros (_ & _ & _ & _ & (new & I & U & N) & M & W).
  refine (conj _ (conj M W)).
  exists new. split; [exact I |]. split; [exact U |].
  intros tref aref Hin. destruct (N _ _ Hin) as (_ & Ha & Hw). auto.
Qed.

Lemma booking_frame (s s' : State) :
  agents s' = agents s -> inflight s' = inflight s -> booking s s'.
Proof.
  intros Ea Ei. unfold booking. rewrite Ea, Ei.
  refine (conj _ (conj _ _)); [| eauto | eauto].
  exists []. split; [now rewrite app_nil_r |].
  split; [constructor | intros ? ? []].
Qed.

Lemma booking_trans (s1 s2 s3 : State) :
  booking s1 s2 -> booking s2 s3 -> booking s1 s3.
Proof.
  intros ((n1 & I1 & U1 & N1) & M1 & W1) ((n2 & I2 & U2 & N2) & M2 & W2).
  refine (conj _ (conj _ _)).
  - exists (n1 ++ n2). split; [rewrite I2, I1; now rewrite app_assoc |].
    split.
    + rewrite map_app. apply NoDup_app; [exact U1 | exact U2 |].
      intros aref H1 H2.
      apply in_map_iff in H1. destruct H1 as ([t1 a1] & E1 & H1).
      apply in_map_iff in H2. destruct H2 as ([t2 a2] & E2 & H2).
      simpl in E1, E2. subst a1 a2.
      destruct (N1 _ _ H1) as (_ & (a' & Ha' & Wa')).
      destruct (N2 _ _ H2) as ((a & Ha & Ca) & _).
      assert (a = a') by congruence. subst a'.
      rewrite callable_working in Ca by exact Wa'. discriminate.
    + intros tref aref Hin. apply in_app_or in Hin.
      destruct Hin as [Hin | Hin].
      * destruct (N1 _ _ Hin) as (Ha & (a' & Ha' & Wa')).
        split; [exact Ha |]. eapply W2; eauto.
      * destruct (N2 _ _ Hin) as ((a & Ha & Ca) & Hw).
        split; [| exact Hw]. eapply M1; eauto.
  - intros i a3 H3 C3. destruct (M2 _ _ H3 C3) as (a2 & H2 & C2). eauto.
  - intros i a H W. destruct (W1 _ _ H W) as (a2 & H2 & Wa2). eauto.
Qed.

(** Bookings keep the waiting executions apart, and give no execution an
    agent that was already working. *)
Lemma booking_booked (s s' : State) :
  booking s s' -> booked s ->
  booked s'
  /\ forall aref, agent_status_at s aref = Some Working ->
       ~ In aref (map snd (inflight s)) ->
       agent_status_at s' aref = Some Working
       /\ ~ In aref (map snd (inflight s')).
Proof.
  intros ((new & I & U & N) & M & W) (Hnd & Hw).
  assert (Hnew : forall aref, In aref (map snd new) ->
                   agent_status_at s aref <> Some Working).
  { intros aref Hin. apply in_map_iff in Hin.
    destruct Hin as ([t a] & E & Hin). simpl in E. subst a.
    destruct (N _ _ Hin) as ((a & Ha & Ca) & _).
    unfold agent_status_at. rewrite Ha. simpl. intros [= Hs].
    rewrite callable_working in Ca by exact Hs. discriminate. }
  assert (Hkeep : forall aref, agent_status_at s aref = Some Working ->
                    agent_status_at s' aref = Some Working).
  { intros aref Hs. unfold agent_status_at in *.
    destruct (nth_error (agents s) aref) as [a |] eqn:Ha; [| discriminate].
    simpl in Hs. inversion Hs as [Hs'].
    destruct (W _ _ Ha Hs') as (a' & Ha' & Wa'). rewrite Ha'. simpl.
    now rewrite Wa'. }
  split; [split |].
  - rewrite I, map_app. apply NoDup_app; [exact Hnd | exact U |].
    intros aref H1 H2. apply (Hnew aref H2).
    apply in_map_iff in H1. destruct H1 as ([t a] & E & H1). simpl in E.
    subst a. eapply Hw; eauto.
  - intros tref aref Hin. rewrite I in Hin. apply in_app_or in Hin.
    destruct Hin as [Hin | Hin].
    + apply Hkeep. eapply Hw; eauto.
    + destruct (N _ _ Hin) as (_ & (a' & Ha' & Wa')).
      unfold agent_status_at. rewrite Ha'. simpl. now rewrite Wa'.
  - intros aref Hs Hn. split; [now apply Hkeep |].
    rewrite I, map_app. intros Hin. apply in_app_or in Hin.
    destruct Hin as [Hin | Hin]; [now apply Hn |].
    now apply (Hnew aref Hin).
Qed.

Lemma createTask_booking (now : Z) (title description : string)
      (pref : option string) (s : State) :
  booking s (snd (createTask now title description pref s)).
Proof.
  unfold createTask. cbn [snd].
  eapply booking_trans;
    [| eapply dispatched_booking; apply runDispatch_dispatched].
  apply booking_frame; reflexivity.
Qed.

Lemma spawn_booking (now : Z) (tref : nat) (agentId : string) (s : State)
      (sub : Subtask) :
  booking s (spawn now tref agentId s sub).
Proof.
  unfold spawn.
  pose proof (createTask_booking now (sub_title sub) (sub_description sub)
                (Some (if String.eqb (sub_agent sub) "auto" then "auto"
                       else sub_agent sub)) s) as B.
  destruct (createTask _ _ _ _ s) as [child s1]. cbn [snd] in B.
  eapply booking_trans; [exact B |]. apply booking_frame; reflexivity.
Qed.

Lemma spawn_subtasks_booking (now : Z) (tref : nat) (agent : Agent)
      (subtasks : list Subtask) (s : State) :
  booking s (spawn_subtasks now tref agent subtasks s).
Proof.
  unfold spawn_subtasks.
  destruct (_ && _); [| apply booking_frame; reflexivity].
  revert s. induction subtasks as [| sub subs IH]; intros s; cbn [fold_left].
  - apply booking_frame; reflexivity.
  - eapply booking_trans; [apply spawn_booking | apply IH].
Qed.

Lemma update_nth_again {A : Type} (f g : A -> A) (i : nat) (l : list A) :
  exists h, Js.update_nth i f (Js.update_nth i g l) = Js.update_nth i h l.
Proof. eexists. apply update_nth_twice. Qed.

Lemma update_nth_none {A : Type} (i : nat) (l : list A) :
  exists h, l = Js.update_nth i h l.
Proof. exists (fun x => x). symmetry. apply update_nth_id. Qed.

Ltac frame_fields :=
  cbn; repeat (split; [reflexivity |]);
  first [ apply update_nth_again | apply update_nth_none
        | eexists; reflexivity ].

(** Step 5 touches the activity log, the disk, the shell and the task at
    hand, and nothing else. *)
Lemma apply_output_frame (now : Z) (sh : Shell) (tref : nat) (task : Task)
      (agent : Agent) (files : list FileIntent) (blocks : list ExecBlock)
      (s : State) :
  let s' := snd (apply_output now sh tref task agent files blocks s) in
  PROJECT_ROOT s' = PROJECT_ROOT s /\ agents s' = agents s
  /\ tasks s' = tasks s /\ archivedTaskCount s' = archivedTaskCount s
  /\ taskCounter s' = taskCounter s
  /\ totalGlobalTokens s' = totalGlobalTokens s
  /\ autoApproveAll s' = autoApproveAll s
  /\ performanceLog s' = performanceLog s /\ inflight s' = inflight s
  /\ entropy s' = entropy s
  /\ exists g, heap s' = update_nth tref g (heap s).
Proof.
  unfold apply_output. destruct (_ && _).
  - rewrite (writeFiles_state sh files [] s).
    destruct (write_refusal sh (PROJECT_ROOT s) files); [frame_fields |].
    destruct (0 <? len blocks); [| frame_fields].
    match goal with
    | |- context [runExecBlocks now sh blocks ?i ?r ?s1] =>
        destruct (runExecBlocks_state now sh blocks i r s1)
          as [acts [Ha _]];
        destruct (runExecBlocks now sh blocks i r s1)
          as [[results | message] s2]
    end; cbn [snd] in Ha; subst s2; frame_fields.
  - destruct (_ && _); frame_fields.
Qed.

Lemma apply_output_inflight (now : Z) (sh : Shell) (tref : nat) (task : Task)
      (agent : Agent) (files : list FileIntent) (blocks : list ExecBlock)
      (s : State) :
  inflight (snd (apply_output now sh tref task agent files blocks s))
  = inflight s.
Proof. apply apply_output_frame. Qed.

Lemma agent_after_call_callable (tokensUsed : Z) (a : Agent) :
  callable (agent_after_call tokensUsed a) = callable a.
Proof. reflexivity. Qed.

Lemma executeTask_try_booking (now : Z) (sh : Shell) (tref aref : nat)
      (task : Task) (agent : Agent) (result : ModelResult) (s : State) :
  booking s (snd (executeTask_try now sh tref aref task agent result s)).
Proof.
  unfold executeTask_try.
  destruct (Parser.parseFiles (m_output result)) as [files explanation].
  cbv zeta.
  match goal with
  | |- context [apply_output now sh tref task agent files ?b ?s1] =>
      pose proof (apply_output_frame now sh tref task agent files b s1) as A;
      destruct (apply_output now sh tref task agent files b s1)
        as [thrown s2]
  end.
  cbv zeta in A. cbn [snd] in A.
  destruct A as (_ & Aa & _ & _ & _ & _ & _ & _ & I & _).
  cbn [agents inflight upd_task with_heap with_totalGlobalTokens upd_agent
       with_agents] in Aa, I.
  assert (B : forall s3, agents s3 = agents s2 -> inflight s3 = inflight s2 ->
                         booking s s3).
  { intros s3 E3 I3. unfold booking. rewrite E3, I3, Aa, I.
    refine (conj _ (conj _ _)).
    - exists []. split; [now rewrite app_nil_r |].
      split; [constructor | intros ? ? []].
    - intros i a' H' C'. rewrite nth_error_update_nth in H'.
      destruct (Nat.eqb aref i); [| eauto].
      destruct (nth_error (agents s) i) as [a |]; [| discriminate].
      simpl in H'. inversion H'; subst a'. eauto.
    - intros i a H W. rewrite nth_error_update_nth, H.
      destruct (Nat.eqb aref i); simpl; eauto. }
  destruct thrown as [message |]; cbn [snd].
  - apply B; reflexivity.
  - match goal with
    | |- booking s (addActivity _ _ _ (spawn_subtasks _ _ _ ?subs ?s3)) =>
        apply (booking_trans s s3);
        [apply B; reflexivity
        | eapply booking_trans;
          [apply spawn_subtasks_booking | apply booking_frame; reflexivity]]
    end.
Qed.

Lemma booked_frame (s s' : State) :
  agents s' = agents s -> inflight s' = inflight s -> booked s -> booked s'.
Proof.
  intros Ea Ei (Hnd & Hw). unfold booked, agent_status_at in *.
  rewrite Ea, Ei. auto.
Qed.

Lemma upd_agent_booked (aref : nat) (f : Agent -> Agent) (s : State) :
  booked s -> ~ In aref (map snd (inflight s)) -> booked (upd_agent aref f s).
Proof.
  intros (Hnd & Hw) Hn. split; [exact Hnd |].
  intros tref a Hin. unfold agent_status_at.
  cbn [agents inflight upd_agent with_agents] in *.
  rewrite nth_error_update_nth.
  destruct (Nat.eqb aref a) eqn:E.
  - apply Nat.eqb_eq in E. subst a. exfalso. apply Hn.
    apply in_map_iff. exists (tref, aref). auto.
  - exact (Hw _ _ Hin).
Qed.

Lemma executeTask_catch_frame (now : Z) (tref aref : nat) (task : Task)
      (agent : Agent) (err : ModelError) (s : State) :
  inflight (executeTask_catch now tref aref task agent err s) = inflight s
  /\ exists f, agents (executeTask_catch now tref aref task agent err s)
               = update_nth aref f (agents s).
Proof.
  unfold executeTask_catch. cbv zeta.
  destruct (status_is err 429); cbn.
  - split; [reflexivity |]. rewrite update_nth_twice. eauto.
  - split; [reflexivity |]. eauto.
Qed.

Lemma executeTask_booked (now : Z) (sh : Shell) (tref aref : nat)
      (outcome : ModelOutcome) (s : State) :
  booked s -> agent_status_at s aref = Some Working ->
  ~ In aref (map snd (inflight s)) ->
  booked (executeTask now sh tref aref outcome s).
Proof.
  intros Hb Hw Hn. unfold executeTask.
  destruct (nth_error (heap s) tref) as [task |]; [| exact Hb].
  destruct (nth_error (agents s) aref) as [agent |]; [| exact Hb].
  unfold executeTask_finally.
  match goal with
  | |- context [cleanupTasks ?s1] =>
      apply (booked_frame s1);
      [apply cleanupTasks_frame | apply cleanupTasks_frame |]
  end.
  assert (Hc : forall f err s1,
             booked s1 -> ~ In aref (map snd (inflight s1)) ->
             booked (upd_agent aref f
                       (executeTask_catch now tref aref task agent err s1))).
  { intros f err s1 Hb1 Hn1.
    destruct (executeTask_catch_frame now tref aref task agent err s1)
      as [Ei [g Ea]].
    apply upd_agent_booked.
    + apply (booked_frame (upd_agent aref g s1)).
      * rewrite Ea. reflexivity.
      * rewrite Ei. reflexivity.
      * now apply upd_agent_booked.
    + now rewrite Ei. }
  destruct outcome as [r | err]; [| now apply Hc].
  destruct (booking_booked _ _
              (executeTask_try_booking now sh tref aref task agent r s) Hb)
    as [Hb1 Hk].
  destruct (Hk aref Hw Hn) as [_ Hn1].
  destruct (executeTask_try now sh tref aref task agent r s)
    as [[message |] s1]; cbn [snd] in Hb1, Hn1.
  - now apply Hc.
  - now apply upd_agent_booked.
Qed.

Lemma recharge_working (now : Z) (a : Agent) :
  a_status a = Working -> a_status (recharge now a) = Working.
Proof.
  intros H. unfold recharge. rewrite H. cbn [AgentStatus_eqb].
  cbn [a_cooldownUntil agent_with_energy a_status].
  destruct (a_cooldownUntil a) as [u |]; [| exact H].
  destruct (negb (u =? 0) && (u <? now)); [| exact H].
  cbn. rewrite H. cbn. exact H.
Qed.

Lemma approveTask_frame (now : Z) (sh : Shell) (taskId : string) (s : State) :
  agents (approveTask now sh taskId s) = agents s
  /\ inflight (approveTask now sh taskId s) = inflight s
  /\ tasks (approveTask now sh taskId s) = tasks s
  /\ taskCounter (approveTask now sh taskId s) = taskCounter s.
Proof.
  unfold approveTask.
  destruct (find_task taskId s) as [tref |]; [| auto].
  destruct (nth_error (heap s) tref) as [task |]; [| auto].
  destruct (t_result task) as [result |]; [| auto].
  destruct (r_fileContents result) as [[| f fs] |]; try solve [cbn; auto].
  rewrite (writeFiles_state sh (f :: fs) [] s).
  destruct (write_refusal sh (PROJECT_ROOT s) (f :: fs));
    [solve [cbn; auto] |].
  destruct (r_execBlocks result) as [[| b bs] |]; try solve [cbn; auto].
  match goal with
  | |- context [runExecBlocks now sh ?bl ?i ?r ?s1] =>
      destruct (runExecBlocks_state now sh bl i r s1) as [acts [Ha _]];
      destruct (runExecBlocks now sh bl i r s1) as [[results | message] s2]
  end; cbn [snd] in Ha; subst s2; cbn; auto.
Qed.

Lemma booking_then_booked (s s' : State) :
  booking s s' -> booked s -> booked s'.
Proof. intros B H. apply (booking_booked s s' B H). Qed.

Lemma handleCommand_booked (now : Z) (sh : Shell) (msg : Command) (s : State) :
  booked s -> booked (handleCommand now sh msg s).
Proof.
  intros H. destruct msg as [title description agentId agentIds | config
                            | taskId | taskId |]; cbn [handleCommand].
  - destruct agentIds as [[| aid ids] |];
      try (eapply booking_then_booked; [apply createTask_booking | exact H]).
    apply (booked_frame
             (fold_left
                (fun s aid =>
                   snd (createTask now title (or_else description title)
                                   (Some aid) s)) (aid :: ids) s));
      [reflexivity | reflexivity |].
    generalize (aid :: ids). intros l. revert s H.
    induction l as [| x l IH]; intros s H; cbn [fold_left]; [exact H |].
    apply IH. eapply booking_then_booked; [apply createTask_booking | exact H].
  - destruct H as (Hnd & Hw). split; [exact Hnd |].
    intros tref aref Hin. specialize (Hw _ _ Hin).
    unfold agent_status_at in *.
    cbn [agents inflight addActivity with_activity with_agents] in *.
    destruct (nth_error (agents s) aref) as [a |] eqn:Ha; [| discriminate].
    now rewrite (nth_error_app_old _ _ _ _ Ha).
  - apply (booked_frame s); [apply approveTask_frame | apply approveTask_frame
                            | exact H].
  - unfold rejectTask. apply (booked_frame s); [| | exact H];
      destruct (find_task taskId s); reflexivity.
  - apply (booked_frame s); [reflexivity | reflexivity | exact H].
Qed.

Lemma NoDup_remove_nth {A : Type} (l : list A) (k : nat) (x : A) :
  NoDup l -> nth_error l k = Some x ->
  NoDup (firstn k l ++ skipn (S k) l)
  /\ ~ In x (firstn k l ++ skipn (S k) l).
Proof.
  intros Hnd Hk.
  assert (E : l = firstn k l ++ x :: skipn (S k) l).
  { rewrite <- (firstn_skipn k l) at 1. f_equal.
    clear Hnd. revert k Hk. induction l as [| y l IH]; intros [| k] Hk;
      try discriminate.
    - simpl in Hk. inversion Hk. reflexivity.
    - simpl in *. now apply IH. }
  rewrite E in Hnd. split.
  - eapply NoDup_remove_1; exact Hnd.
  - eapply NoDup_remove_2; exact Hnd.
Qed.

Lemma step_booked (s : State) (e : Event) : booked s -> booked (step s e).
Proof.
  intros H. destruct e as [now sh msg | now title description agentId | now
                          | now | now sh k outcome]; cbn [step].
  - now apply handleCommand_booked.
  - unfold postTask. destruct title as [t |]; [| exact H].
    destruct (String.eqb t ""); [exact H |].
    eapply booking_then_booked; [apply createTask_booking | exact H].
  - eapply booking_then_booked;
      [eapply dispatched_booking; apply runDispatch_dispatched | exact H].
  - destruct H as (Hnd & Hw). split; [exact Hnd |].
    intros tref aref Hin. specialize (Hw _ _ Hin).
    unfold agent_status_at, rechargeTick in *.
    cbn [agents inflight with_agents] in *.
    rewrite nth_error_map.
    destruct (nth_error (agents s) aref) as [a |]; [| discriminate].
    simpl in *. inversion Hw as [Hw']. now rewrite recharge_working.
  - unfold settle.
    destruct (nth_error (inflight s) k) as [[tref aref] |] eqn:Ek; [| exact H].
    destruct H as (Hnd & Hw).
    assert (Hk : nth_error (map snd (inflight s)) k = Some aref)
      by (rewrite nth_error_map, Ek; reflexivity).
    destruct (NoDup_remove_nth _ _ _ Hnd Hk) as [Hnd' Hn'].
    rewrite firstn_map, skipn_map, <- map_app in Hnd', Hn'.
    apply executeTask_booked.
    + split; [exact Hnd' |]. intros t a Hin.
      apply (Hw t a). cbn [inflight with_inflight] in Hin.
      apply in_app_or in Hin. destruct Hin as [Hin | Hin].
      * eapply in_firstn; exact Hin.
      * eapply in_skipn; exact Hin.
    + apply (Hw tref aref). eapply nth_error_In; exact Ek.
    + exact Hn'.
Qed.

(** X23. No agent is booked twice: in every state the server reaches from
    start-up, the executions that wait for the model run on pairwise
    distinct agents, and each of these agents has status [working]. *)
Theorem no_double_booking (dirname : string) (env : string -> option string)
    (now0 : Z) (configs : list AgentConfig) (memo : PerformanceLog)
    (randoms : list Q) (events : list Event) :
  let s := run_events events (boot dirname env now0 configs memo randoms) in
  NoDup (map snd (inflight s))
  /\ forall tref aref, In (tref, aref) (inflight s) ->
       agent_status_at s aref = Some Working.
Proof.
  intros s. apply (run_events_preserves booked step_booked).
  split; [constructor | intros ? ? []].
Qed.

(** *** The numbering of the tasks *)

Lemma to_uint_nonnil (n : nat) : Nat.to_uint n <> Decimal.Nil.
Proof.
  rewrite <- (Unsigned.of_to n) at 1. rewrite Unsigned.to_of.
  apply DecimalFacts.unorm_nonnil.
Qed.

Lemma number_of_decimal (z : Z) : number_of (decimal z) = Some (Z.to_nat z).
Proof.
  unfold number_of, decimal.
  pose proof (to_uint_nonnil (Z.to_nat z)) as Hn.
  replace (NilZero.string_of_uint (Nat.to_uint (Z.to_nat z)))
    with (NilEmpty.string_of_uint (Nat.to_uint (Z.to_nat z)))
    by (destruct (Nat.to_uint (Z.to_nat z)); [contradiction | reflexivity ..]).
  rewrite NilEmpty.usu. simpl. now rewrite Unsigned.of_to.
Qed.

Lemma number_of_zero (s : string) :
  number_of (String "0" s) = number_of s.
Proof.
  unfold number_of. cbn [NilEmpty.uint_of_string].
  destruct (NilEmpty.uint_of_string s); reflexivity.
Qed.

Lemma number_of_zeros (k : nat) (s : string) :
  number_of (Text.str (repeat "0"%char k) ++ s) = number_of s.
Proof.
  induction k as [| k IH]; [reflexivity |].
  change (number_of (String "0" (Text.str (repeat "0"%char k) ++ s))
          = number_of s).
  now rewrite number_of_zero.
Qed.

Lemma task_name_inj (i j : nat) : task_name i = task_name j -> i = j.
Proof.
  unfold task_name. intros H. cbn [append] in H.
  inversion H as [H1]. clear H.
  assert (E : number_of (padStart3 (decimal (Z.of_nat i + 1)))
              = number_of (padStart3 (decimal (Z.of_nat j + 1))))
    by (now rewrite H1).
  unfold padStart3 in E. rewrite !number_of_zeros, !number_of_decimal in E.
  inversion E. lia.
Qed.

Lemma same_ids_refl (s : State) : same_ids s s.
Proof. unfold same_ids. eauto 10. Qed.

Lemma same_ids_trans (s1 s2 s3 : State) :
  same_ids s1 s2 -> same_ids s2 s3 -> same_ids s1 s3.
Proof.
  intros (C1 & T1 & A1 & L1 & H1) (C2 & T2 & A2 & L2 & H2).
  unfold same_ids. repeat (split; [congruence |]).
  intros i t Hi. destruct (H1 _ _ Hi) as (t1 & Ht1 & E1).
  destruct (H2 _ _ Ht1) as (t2 & Ht2 & E2). exists t2. split; congruence.
Qed.

Lemma same_ids_frame (s s' : State) :
  taskCounter s' = taskCounter s -> tasks s' = tasks s ->
  archivedTaskCount s' = archivedTaskCount s -> heap s' = heap s ->
  same_ids s s'.
Proof.
  intros C T A H. unfold same_ids. rewrite C, T, A, H. eauto 10.
Qed.

Lemma same_ids_update (i : nat) (f : Task -> Task) (s s' : State) :
  heap s' = update_nth i f (heap s) ->
  taskCounter s' = taskCounter s -> tasks s' = tasks s ->
  archivedTaskCount s' = archivedTaskCount s ->
  (forall t, ident (f t) = ident t) ->
  same_ids s s'.
Proof.
  intros H C T A Hf. unfold same_ids. rewrite C, T, A, H, length_update_nth.
  repeat (split; [reflexivity |]).
  intros j t Hj. rewrite nth_error_update_nth, Hj.
  destruct (Nat.eqb i j); simpl; eauto.
Qed.

Lemma same_ids_ok (s s' : State) : same_ids s s' -> ids_ok s -> ids_ok s'.
Proof.
  intros (C & T & A & L & H) (I1 & I2 & I3 & I4 & I5).
  unfold ids_ok, len in *. rewrite C, T, A, L.
  refine (conj I1 (conj I2 (conj _ (conj I4 I5)))).
  intros i t' Hi.
  assert (Hlt : (i < List.length (heap s))%nat)
    by (rewrite <- L; apply nth_error_Some; congruence).
  destruct (nth_error (heap s) i) as [t |] eqn:Ht;
    [| apply nth_error_None in Ht; lia].
  destruct (H _ _ Ht) as (t1 & Ht1 & E1).
  assert (t1 = t') by congruence. subst t1.
  assert (E2 : t_id t' = t_id t) by (unfold ident in E1; congruence).
  rewrite E2. now apply I3.
Qed.

Lemma launch_same_ids (now : Z) (x : nat) (s : State) :
  same_ids s (launch now x s).
Proof.
  unfold launch.
  destruct (nth_error (heap s) x) as [task |]; [| apply same_ids_refl].
  pose proof (pickAgent_state (t_preferredAgentId task) (t_title task)
                              (t_description task) s) as St.
  destruct (pickAgent _ _ _ s) as [picked s1]. cbn [snd] in St.
  destruct picked as [aref |]; destruct St as [-> | [e ->]].
  - eapply same_ids_update; [cbn; reflexivity | reflexivity ..].
  - eapply same_ids_update; [cbn; reflexivity | reflexivity ..].
  - apply same_ids_refl.
  - apply same_ids_frame; reflexivity.
Qed.

Lemma runDispatch_same_ids (now : Z) (s : State) :
  same_ids s (runDispatch now s).
Proof.
  unfold runDispatch. generalize (filter (is_pending s) (tasks s)).
  intros l. revert s. induction l as [| x l IH]; intros s; cbn [fold_left].
  - apply same_ids_refl.
  - eapply same_ids_trans; [apply launch_same_ids | apply IH].
Qed.

Lemma createTask_ids_ok (now : Z) (title description : string)
      (pref : option string) (s : State) :
  ids_ok s -> ids_ok (snd (createTask now title description pref s)).
Proof.
  intros (I1 & I2 & I3 & I4 & I5). unfold createTask. cbn [snd].
  eapply same_ids_ok; [apply runDispatch_same_ids |].
  unfold ids_ok, len in *.
  cbn [heap tasks taskCounter archivedTaskCount addActivity with_activity
       with_tasks with_heap with_taskCounter].
  rewrite !length_app. cbn [List.length].
  refine (conj _ (conj _ (conj _ (conj _ _)))); try lia.
  - intros i t Hi.
    destruct (Nat.lt_ge_cases i (List.length (heap s))) as [Hlt | Hge].
    + rewrite nth_error_app1 in Hi by exact Hlt. now apply I3.
    + rewrite nth_error_app2 in Hi by exact Hge.
      destruct (i - List.length (heap s))%nat as [| n] eqn:En.
      * simpl in Hi. inversion Hi; subst t. cbn [t_id]. unfold task_name.
        replace i with (List.length (heap s)) by lia.
        rewrite I1. reflexivity.
      * simpl in Hi. destruct n; discriminate.
  - apply NoDup_app; [exact I4 | constructor; [intros [] | constructor] |].
    intros x Hx [<- | []]. apply I5 in Hx. lia.
  - intros tref Hin. apply in_app_or in Hin. destruct Hin as [Hin | [<- | []]].
    + apply I5 in Hin. lia.
    + lia.
Qed.

Lemma upd_task_same_ids (i : nat) (f : Task -> Task) (s : State) :
  (forall t, ident (f t) = ident t) -> same_ids s (upd_task i f s).
Proof.
  intros Hf. eapply same_ids_update; [reflexivity .. | exact Hf].
Qed.

Lemma spawn_ids_ok (now : Z) (tref : nat) (agentId : string) (s : State)
      (sub : Subtask) :
  ids_ok s -> ids_ok (spawn now tref agentId s sub).
Proof.
  intros H. unfold spawn.
  pose proof (createTask_ids_ok now (sub_title sub) (sub_description sub)
                (Some (if String.eqb (sub_agent sub) "auto" then "auto"
                       else sub_agent sub)) s H) as C.
  destruct (createTask _ _ _ _ s) as [child s1]. cbn [snd] in C.
  eapply same_ids_ok; [| exact C].
  eapply same_ids_trans;
    [apply upd_task_same_ids | apply same_ids_frame; reflexivity].
  intros t. reflexivity.
Qed.

Lemma spawn_subtasks_ids_ok (now : Z) (tref : nat) (agent : Agent)
      (subtasks : list Subtask) (s : State) :
  ids_ok s -> ids_ok (spawn_subtasks now tref agent subtasks s).
Proof.
  unfold spawn_subtasks. destruct (_ && _); [| auto].
  revert s. induction subtasks as [| sub subs IH]; intros s H; cbn [fold_left].
  - exact H.
  - apply IH. now apply spawn_ids_ok.
Qed.

Lemma apply_output_same_ids (now : Z) (sh : Shell) (tref : nat) (task : Task)
      (agent : Agent) (files : list FileIntent) (blocks : list ExecBlock)
      (s : State) :
  same_ids s (snd (apply_output now sh tref task agent files blocks s)).
Proof.
  unfold apply_output. destruct (_ && _).
  - rewrite (writeFiles_state sh files [] s).
    destruct (write_refusal sh (PROJECT_ROOT s) files);
      [apply same_ids_frame; reflexivity |].
    destruct (0 <? len blocks).
    + match goal with
      | |- context [runExecBlocks now sh blocks ?i ?r ?s1] =>
          destruct (runExecBlocks_state now sh blocks i r s1)
            as [acts [Ha _]];
          destruct (runExecBlocks now sh blocks i r s1)
            as [[results | message] s2]
      end; cbn [snd] in Ha; subst s2.
      * eapply same_ids_update;
          [cbn; rewrite update_nth_twice; reflexivity | reflexivity ..].
      * apply same_ids_frame; reflexivity.
    + eapply same_ids_update; [cbn; reflexivity | reflexivity ..].
  - destruct (_ && _).
    + eapply same_ids_update;
        [cbn; rewrite update_nth_twice; reflexivity | reflexivity ..].
    + eapply same_ids_update; [cbn; reflexivity | reflexivity ..].
Qed.

Lemma cleanupTasks_ids_ok (s : State) : ids_ok s -> ids_ok (cleanupTasks s).
Proof.
  intros (I1 & I2 & I3 & I4 & I5).
  assert (Hnd : NoDup (map (task_id_at s) (tasks s))).
  { apply Finite.Injective_map_NoDup_in; [| exact I4].
    intros x y Hx Hy E. apply task_name_inj.
    apply I5 in Hx, Hy. unfold task_id_at in E.
    destruct (nth_error (heap s) x) as [tx |] eqn:Ex;
      [| apply nth_error_None in Ex; lia].
    destruct (nth_error (heap s) y) as [ty |] eqn:Ey;
      [| apply nth_error_None in Ey; lia].
    rewrite <- (I3 _ _ Ex), <- (I3 _ _ Ey). exact E. }
  pose proof (cleanupTasks_count s Hnd) as Hc.
  pose proof (cleanupTasks_tasks s) as Ht.
  destruct (cleanupTasks_frame s) as (_ & _ & _ & _ & _ & _ & Ec).
  unfold ids_ok. rewrite cleanupTasks_heap, Ec.
  refine (conj I1 (conj _ (conj I3 (conj _ _)))).
  - lia.
  - rewrite Ht. destruct (30 <? _); [now apply NoDup_filter | exact I4].
  - intros tref Hin. rewrite Ht in Hin. apply I5.
    destruct (30 <? _); [now apply filter_In in Hin | exact Hin].
Qed.

Lemma executeTask_try_ids_ok (now : Z) (sh : Shell) (tref aref : nat)
      (task : Task) (agent : Agent) (r : ModelResult) (s : State) :
  ids_ok s -> ids_ok (snd (executeTask_try now sh tref aref task agent r s)).
Proof.
  intros H. unfold executeTask_try.
  destruct (Parser.parseFiles (m_output r)) as [files explanation].
  cbv zeta.
  match goal with
  | |- context [apply_output now sh tref task agent files ?b ?s1] =>
      assert (H2 : ids_ok (snd (apply_output now sh tref task agent files b
                                             s1)));
      [| destruct (apply_output now sh tref task agent files b s1)
           as [[message |] s2]; cbn [snd] in H2 |- *; [exact H2 |]]
  end.
  { eapply same_ids_ok; [apply apply_output_same_ids |].
    eapply same_ids_ok; [| exact H].
    eapply same_ids_update; [cbn; reflexivity | reflexivity ..]. }
  match goal with
  | |- ids_ok (addActivity _ _ _ ?s4) =>
      apply (same_ids_ok s4); [apply same_ids_frame; reflexivity |]
  end.
  apply spawn_subtasks_ids_ok.
  match goal with
  | |- ids_ok (score_and_record _ _ _ _ _ _ _ ?s2) =>
      apply (same_ids_ok s2);
      [unfold score_and_record;
       eapply same_ids_update; [cbn; reflexivity | reflexivity ..] |]
  end.
  exact H2.
Qed.

Lemma executeTask_ids_ok (now : Z) (sh : Shell) (tref aref : nat)
      (outcome : ModelOutcome) (s : State) :
  ids_ok s -> ids_ok (executeTask now sh tref aref outcome s).
Proof.
  intros H. unfold executeTask.
  destruct (nth_error (heap s) tref) as [task |]; [| exact H].
  destruct (nth_error (agents s) aref) as [agent |]; [| exact H].
  unfold executeTask_finally. apply cleanupTasks_ids_ok.
  match goal with
  | |- ids_ok (upd_agent aref ?f ?s1) =>
      apply (same_ids_ok s1); [apply same_ids_frame; reflexivity |]
  end.
  assert (Hc : forall err s1,
             ids_ok s1 ->
             ids_ok (executeTask_catch now tref aref task agent err s1)).
  { intros err s1 H1. eapply same_ids_ok; [| exact H1].
    unfold executeTask_catch. cbv zeta.
    destruct (status_is err 429);
      (eapply same_ids_update; [cbn; reflexivity | reflexivity ..]). }
  destruct outcome as [r | err]; [| now apply Hc].
  pose proof (executeTask_try_ids_ok now sh tref aref task agent r s H) as T.
  destruct (executeTask_try now sh tref aref task agent r s)
    as [[message |] s1]; cbn [snd] in T; [now apply Hc | exact T].
Qed.

Lemma approveTask_same_ids (now : Z) (sh : Shell) (taskId : string)
      (s : State) :
  same_ids s (approveTask now sh taskId s).
Proof.
  unfold approveTask.
  destruct (find_task taskId s) as [tref |]; [| apply same_ids_refl].
  destruct (nth_error (heap s) tref) as [task |]; [| apply same_ids_refl].
  destruct (t_result task) as [result |]; [| apply same_ids_refl].
  destruct (r_fileContents result) as [[| f fs] |];
    try solve [eapply same_ids_update; [cbn; reflexivity | reflexivity ..]].
  rewrite (writeFiles_state sh (f :: fs) [] s).
  destruct (write_refusal sh (PROJECT_ROOT s) (f :: fs));
    [apply same_ids_frame; reflexivity |].
  destruct (r_execBlocks result) as [[| b bs] |];
    try solve [eapply same_ids_update; [cbn; reflexivity | reflexivity ..]].
  match goal with
  | |- context [runExecBlocks now sh ?bl ?i ?r ?s1] =>
      destruct (runExecBlocks_state now sh bl i r s1) as [acts [Ha _]];
      destruct (runExecBlocks now sh bl i r s1) as [[results | message] s2]
  end; cbn [snd] in Ha; subst s2.
  - eapply same_ids_update;
      [cbn; rewrite update_nth_twice; reflexivity | reflexivity ..].
  - apply same_ids_frame; reflexivity.
Qed.

Lemma handleCommand_ids_ok (now : Z) (sh : Shell) (msg : Command) (s : State) :
  ids_ok s -> ids_ok (handleCommand now sh msg s).
Proof.
  intros H. destruct msg as [title description agentId agentIds | config
                            | taskId | taskId |]; cbn [handleCommand].
  - destruct agentIds as [[| aid ids] |];
      try (now apply createTask_ids_ok).
    match goal with
    | |- ids_ok (addActivity _ _ _ ?s1) =>
        apply (same_ids_ok s1); [apply same_ids_frame; reflexivity |]
    end.
    generalize (aid :: ids). intros l. revert s H.
    induction l as [| x l IH]; intros s H; cbn [fold_left]; [exact H |].
    apply IH. now apply createTask_ids_ok.
  - eapply same_ids_ok; [apply same_ids_frame; reflexivity | exact H].
  - eapply same_ids_ok; [apply approveTask_same_ids | exact H].
  - eapply same_ids_ok; [| exact H]. unfold rejectTask.
    destruct (find_task taskId s) as [tref |].
    + eapply same_ids_update; [cbn; reflexivity | reflexivity ..].
    + apply same_ids_frame; reflexivity.
  - eapply same_ids_ok; [apply same_ids_frame; reflexivity | exact H].
Qed.

Lemma step_ids_ok (s : State) (e : Event) : ids_ok s -> ids_ok (step s e).
Proof.
  intros H. destruct e as [now sh msg | now title description agentId | now
                          | now | now sh k outcome]; cbn [step].
  - now apply handleCommand_ids_ok.
  - unfold postTask. destruct title as [t |]; [| exact H].
    destruct (String.eqb t ""); [exact H | now apply createTask_ids_ok].
  - eapply same_ids_ok; [apply runDispatch_same_ids | exact H].
  - eapply same_ids_ok; [apply same_ids_frame; reflexivity | exact H].
  - unfold settle.
    destruct (nth_error (inflight s) k) as [[tref aref] |]; [| exact H].
    apply executeTask_ids_ok.
    eapply same_ids_ok; [apply same_ids_frame; reflexivity | exact H].
Qed.

Lemma boot_ids_ok (dirname : string) (env : string -> option string)
      (now0 : Z) (configs : list AgentConfig) (memo : PerformanceLog)
      (randoms : list Q) :
  ids_ok (boot dirname env now0 configs memo randoms).
Proof.
  unfold ids_ok. cbn. repeat split; try constructor.
  - intros i t Hi. destruct i; discriminate.
  - intros tref [].
Qed.

(** X24. The numbering of the tasks. In every state the server reaches
    from start-up, the task created as the [i+1]-th has the id [TASK-]
    followed by [i+1] in decimal, padded with zeros to three digits; no two
    tasks have the same id; and the counter [taskCounter] is the number of
    tasks ever created, which is the number of tasks on the board plus the
    number counted as archived. *)
Theorem task_numbering (dirname : string) (env : string -> option string)
    (now0 : Z) (configs : list AgentConfig) (memo : PerformanceLog)
    (randoms : list Q) (events : list Event) :
  let s := run_events events (boot dirname env now0 configs memo randoms) in
  (forall i t, nth_error (heap s) i = Some t -> t_id t = task_name i)
  /\ NoDup (map t_id (heap s))
  /\ NoDup (map (task_id_at s) (tasks s))
  /\ taskCounter s = len (heap s)
  /\ taskCounter s = len (tasks s) + archivedTaskCount s.
Proof.
  intros s.
  assert (H : ids_ok s).
  { apply (run_events_preserves ids_ok step_ids_ok). apply boot_ids_ok. }
  destruct H as (I1 & I2 & I3 & I4 & I5).
  refine (conj I3 (conj _ (conj _ (conj I1 I2)))).
  - apply NoDup_nth_error. intros i j Hi E. rewrite length_map in Hi.
    rewrite !nth_error_map in E.
    destruct (nth_error (heap s) i) as [ti |] eqn:Ei;
      [| apply nth_error_None in Ei; lia].
    destruct (nth_error (heap s) j) as [tj |] eqn:Ej; [| discriminate].
    simpl in E. inversion E as [E'].
    rewrite (I3 _ _ Ei), (I3 _ _ Ej) in E'. now apply task_name_inj.
  - apply Finite.Injective_map_NoDup_in; [| exact I4].
    intros x y Hx Hy E. apply task_name_inj.
    apply I5 in Hx, Hy. unfold task_id_at in E.
    destruct (nth_error (heap s) x) as [tx |] eqn:Ex;
      [| apply nth_error_None in Ex; lia].
    destruct (nth_error (heap s) y) as [ty |] eqn:Ey;
      [| apply nth_error_None in Ey; lia].
    rewrite <- (I3 _ _ Ex), <- (I3 _ _ Ey). exact E.
Qed.

(** ** Review and approval *)

(** A high-risk task whose output holds files goes to review with the
    parsed files and commands stored in its result. *)
Lemma executeTask_try_review (now : Z) (sh : Shell) (tref aref : nat)
      (task : Task) (agent : Agent) (result : ModelResult) (s : State) :
  nth_error (heap s) tref = Some task ->
  t_risk task = HighRisk ->
  fst (Parser.parseFiles (m_output result)) <> [] ->
  fst (executeTask_try now sh tref aref task agent result s) = None
  /\ exists t' res,
       nth_error
         (heap (snd (executeTask_try now sh tref aref task agent result s)))
         tref = Some t'
       /\ t_status t' = Review /\ t_result t' = Some res
       /\ r_fileContents res
          = Some (fst (Parser.parseFiles (m_output result)))
       /\ r_execBlocks res = Some (Parser.parseExecBlocks (m_output result)).
Proof.
  intros Ht Hr Hf. unfold executeTask_try.
  destruct (Parser.parseFiles (m_output result)) as [files explanation].
  cbn [fst] in *. cbv zeta.
  assert (Hl : (0 <? len files) = true).
  { apply Z.ltb_lt. destruct files; [contradiction |].
    unfold len. cbn [List.length]. lia. }
  unfold apply_output. rewrite Hr, Hl. cbn [risk_is_low negb andb fst snd].
  split; [reflexivity |].
  match goal with
  | |- context [spawn_subtasks now tref agent ?subs ?s3] =>
      destruct (spawn_subtasks_undisturbed now tref agent subs s3)
        as (_ & _ & _ & _ & _ & Ut & _);
      set (s4 := spawn_subtasks now tref agent subs s3) in *
  end.
  cbn [heap addActivity with_activity].
  eexists. eexists. split; [apply Ut |].
  - unfold score_and_record.
    cbn [heap addActivity with_activity upd_result upd_task with_heap
         with_performanceLog upd_agent with_agents with_totalGlobalTokens].
    rewrite !update_nth_twice, nth_error_update_nth, Nat.eqb_refl, Ht.
    reflexivity.
  - discriminate.
  - repeat split; reflexivity.
Qed.

Lemma approveTask_effects (now : Z) (sh : Shell) (taskId : string)
      (s : State) (tref : nat) (t : Task) (res : TaskResult)
      (files : list FileIntent) (blocks : list ExecBlock) :
  find_task taskId s = Some tref ->
  nth_error (heap s) tref = Some t ->
  t_result t = Some res ->
  r_fileContents res = Some files -> files <> [] ->
  r_execBlocks res = Some blocks ->
  disk (approveTask now sh taskId s)
  = disk s ++ written_files (PROJECT_ROOT s)
                            (granted sh (PROJECT_ROOT s) files)
  /\ shell (approveTask now sh taskId s)
     = shell s ++ commands_applied sh (PROJECT_ROOT s) files blocks
  /\ task_status_at (approveTask now sh taskId s) tref
     = Some (match apply_error sh (PROJECT_ROOT s) files blocks with
             | Some _ => t_status t
             | None => Completed
             end).
Proof.
  intros Hf Ht Hr Hfc Hne Heb.
  unfold approveTask, task_status_at, apply_error, commands_applied.
  rewrite Hf, Ht, Hr, Hfc, Heb.
  destruct files as [| f fs]; [contradiction |].
  rewrite (writeFiles_state sh (f :: fs) [] s).
  destruct (write_refusal sh (PROJECT_ROOT s) (f :: fs)).
  { cbn [heap disk shell with_disk]. rewrite Ht, app_nil_r. auto. }
  destruct blocks as [| b bs].
  - cbn [heap disk shell upd_task with_heap addActivity with_activity
         with_disk mkdir_refusal reached commands_run filter map].
    rewrite nth_error_update_nth, Nat.eqb_refl, Ht, app_nil_r. auto.
  - match goal with
    | |- context [runExecBlocks now sh ?bl ?i ?r ?s1] =>
        destruct (runExecBlocks_state now sh bl i r s1) as [acts [Ha Hb]];
        destruct (runExecBlocks now sh bl i r s1) as [[results | message] s2]
    end; cbn [fst snd] in Ha, Hb; subst s2;
      cbn [PROJECT_ROOT addActivity with_activity with_disk] in Hb;
      rewrite Hb;
      cbn [heap disk shell PROJECT_ROOT upd_task upd_result with_heap
           addActivity with_activity with_disk with_shell].
    + rewrite update_nth_twice, nth_error_update_nth, Nat.eqb_refl, Ht. auto.
    + rewrite Ht. auto.
Qed.

Lemma find_task_ids_ok (s : State) (tref : nat) :
  ids_ok s -> In tref (tasks s) -> find_task (task_name tref) s = Some tref.
Proof.
  intros (_ & _ & I3 & _ & I5) Hin. unfold find_task.
  assert (Hid : forall x, In x (tasks s) -> task_id_at s x = task_name x).
  { intros x Hx. apply I5 in Hx. unfold task_id_at.
    destruct (nth_error (heap s) x) as [t |] eqn:E;
      [now apply I3 | apply nth_error_None in E; lia]. }
  revert Hin Hid. generalize (tasks s). intros l.
  induction l as [| x l IH]; intros Hin Hid; [contradiction |].
  cbn [find]. rewrite (Hid x) by now left.
  destruct (String.eqb (task_name x) (task_name tref)) eqn:E.
  - apply String.eqb_eq, task_name_inj in E. now subst x.
  - destruct Hin as [-> | Hin]; [now rewrite String.eqb_refl in E |].
    apply IH; [exact Hin |]. intros y Hy. apply Hid. now right.
Qed.

Lemma cleanupTasks_keeps (s : State) (tref : nat) :
  NoDup (map (task_id_at s) (tasks s)) ->
  In tref (tasks s) -> is_finished s tref = false ->
  In tref (tasks (cleanupTasks s)).
Proof.
  intros Hnd Hin Hf. rewrite cleanupTasks_tasks.
  destruct (30 <? len (finished_tasks s)) eqn:E; [| exact Hin].
  destruct (cleanupTasks_dropped s Hnd E) as (Hold & Hdrop & _).
  cbv zeta in Hold, Hdrop. apply filter_In. split; [exact Hin |].
  apply negb_true_iff.
  match goal with |- ?m = false => destruct m eqn:Em; [| reflexivity] end.
  apply (Hdrop tref Hin), Hold in Em. destruct Em as [_ Em]. congruence.
Qed.

Lemma ids_ok_board (s : State) :
  ids_ok s -> NoDup (map (task_id_at s) (tasks s)).
Proof.
  intros (_ & _ & I3 & I4 & I5).
  apply Finite.Injective_map_NoDup_in; [| exact I4].
  intros x y Hx Hy E. apply task_name_inj.
  apply I5 in Hx, Hy. unfold task_id_at in E.
  destruct (nth_error (heap s) x) as [tx |] eqn:Ex;
    [| apply nth_error_None in Ex; lia].
  destruct (nth_error (heap s) y) as [ty |] eqn:Ey;
    [| apply nth_error_None in Ey; lia].
  rewrite <- (I3 _ _ Ex), <- (I3 _ _ Ey). exact E.
Qed.

Lemma createTask_board (now : Z) (title description : string)
      (pref : option string) (s : State) (x : nat) :
  In x (tasks s) -> In x (tasks (snd (createTask now title description pref s))).
Proof.
  intros H. unfold createTask. cbn [snd].
  destruct (runDispatch_same_ids now
              (addActivity now "system" "task:created"
                 (with_tasks (tasks (with_taskCounter (taskCounter s + 1) s)
                              ++ [List.length (heap s)])
                    (with_heap
                       (heap (with_taskCounter (taskCounter s + 1) s)
                        ++ [mkTask ("TASK-" ++ padStart3
                                                 (decimal (taskCounter s + 1)))
                              title description Pending
                              (if autoApproveAll s then LowRisk
                               else if Regex.test lowRiskTitle
                                                  (Text.toLowerCase title)
                                    then LowRisk else HighRisk)
                              Medium None "user" None 0 now None None None []
                              (RL.classifyTask title description)
                              (or_else pref "auto")])
                       (with_taskCounter (taskCounter s + 1) s)))))
    as (_ & T & _).
  cbn [tasks with_taskCounter heap] in T |- *. rewrite T.
  cbn [tasks addActivity with_activity with_tasks]. apply in_or_app. now left.
Qed.

Lemma spawn_subtasks_board (now : Z) (tref : nat) (agent : Agent)
      (subtasks : list Subtask) (s : State) (x : nat) :
  In x (tasks s) -> In x (tasks (spawn_subtasks now tref agent subtasks s)).
Proof.
  unfold spawn_subtasks. destruct (_ && _); [| auto].
  revert s. induction subtasks as [| sub subs IH]; intros s H; cbn [fold_left].
  - exact H.
  - apply IH. unfold spawn.
    pose proof (createTask_board now (sub_title sub) (sub_description sub)
                  (Some (if String.eqb (sub_agent sub) "auto" then "auto"
                         else sub_agent sub)) s x H) as C.
    destruct (createTask _ _ _ _ s) as [child s1]. exact C.
Qed.

Lemma executeTask_try_board (now : Z) (sh : Shell) (tref aref : nat)
      (task : Task) (agent : Agent) (r : ModelResult) (s : State) (x : nat) :
  In x (tasks s) ->
  In x (tasks (snd (executeTask_try now sh tref aref task agent r s))).
Proof.
  intros H. unfold executeTask_try.
  destruct (Parser.parseFiles (m_output r)) as [files explanation].
  cbv zeta.
  match goal with
  | |- context [apply_output now sh tref task agent files ?b ?s1] =>
      destruct (apply_output_same_ids now sh tref task agent files b s1)
        as (_ & T & _);
      destruct (apply_output now sh tref task agent files b s1)
        as [[message |] s2]
  end; cbn [snd] in T |- *; [rewrite T; exact H |].
  cbn [tasks addActivity with_activity].
  apply spawn_subtasks_board. unfold score_and_record.
  cbn [tasks addActivity with_activity upd_result upd_task with_heap
       with_performanceLog].
  rewrite T. exact H.
Qed.

Lemma executeTask_try_root (now : Z) (sh : Shell) (tref aref : nat)
      (task : Task) (agent : Agent) (r : ModelResult) (s : State) :
  PROJECT_ROOT (snd (executeTask_try now sh tref aref task agent r s))
  = PROJECT_ROOT s.
Proof.
  unfold executeTask_try.
  destruct (Parser.parseFiles (m_output r)) as [files explanation].
  cbv zeta.
  match goal with
  | |- context [apply_output now sh tref task agent files ?b ?s1] =>
      destruct (apply_output_frame now sh tref task agent files b s1)
        as (P & _);
      destruct (apply_output now sh tref task agent files b s1)
        as [[message |] s2]
  end; cbn [snd] in P |- *; [rewrite P; reflexivity |].
  cbn [PROJECT_ROOT addActivity with_activity].
  match goal with
  | |- context [spawn_subtasks now tref agent ?subs ?s3] =>
      destruct (spawn_subtasks_undisturbed now tref agent subs s3)
        as (_ & _ & _ & -> & _)
  end.
  unfold score_and_record.
  cbn [PROJECT_ROOT addActivity with_activity upd_result upd_task with_heap
       with_performanceLog].
  rewrite P. reflexivity.
Qed.

(** X25. Review, then approval. When the execution of a high-risk task
    that is on the board settles with an output that holds files, the task
    goes to review and nothing reaches the disk or the shell. When the
    client then approves the task by its id, the files are written and the
    commands run as auto-apply would have done on the host of that moment:
    the files in order up to the first refused write and, if none is
    refused, the commands that pass the prefix test up to the first refused
    working directory. The task is completed if the host refuses nothing;
    otherwise nothing handles the error and the task stays in review. *)
Theorem review_then_approve (dirname : string) (env : string -> option string)
    (now0 : Z) (configs : list AgentConfig) (memo : PerformanceLog)
    (randoms : list Q) (events : list Event)
    (k tref aref : nat) (now now' : Z) (sh sh' : Shell) (r : ModelResult) :
  let s := run_events events (boot dirname env now0 configs memo randoms) in
  let s1 := step s (ModelSettles now sh k (Resolved r)) in
  let s2 := step s1 (ClientCommand now' sh'
                                   (CmdApproveTask (task_name tref))) in
  let root := PROJECT_ROOT s in
  let files := fst (Parser.parseFiles (m_output r)) in
  let blocks := Parser.parseExecBlocks (m_output r) in
  nth_error (inflight s) k = Some (tref, aref) ->
  In tref (tasks s) ->
  risk_at s tref = Some HighRisk ->
  fst (Parser.parseFiles (m_output r)) <> [] ->
  task_status_at s1 tref = Some Review
  /\ disk s1 = disk s /\ shell s1 = shell s
  /\ disk s2 = disk s ++ written_files root (granted sh' root files)
  /\ shell s2
     = shell s ++ match write_refusal sh' root files with
                  | Some _ => []
                  | None => commands_run root (reached sh' root blocks)
                  end
  /\ task_status_at s2 tref
     = Some (match apply_error sh' root files blocks with
             | Some _ => Review
             | None => Completed
             end)
  /\ (apply_error sh' root files blocks = None ->
      disk s2 = disk s ++ written_files root files
      /\ shell s2 = shell s ++ commands_run root blocks).
Proof.
  intros s s1 s2 root files blocks Hk Hin Hr Hf.
  assert (Hids : ids_ok s)
    by (apply (run_events_preserves ids_ok step_ids_ok), boot_ids_ok).
  assert (Hbk : booked s).
  { apply (run_events_preserves booked step_booked).
    split; [constructor | intros ? ? []]. }
  assert (Hids1 : ids_ok s1) by (apply step_ids_ok, Hids).
  assert (Hag : agent_status_at s aref = Some Working).
  { apply (proj2 Hbk tref). eapply nth_error_In; exact Hk. }
  unfold risk_at in Hr. unfold agent_status_at in Hag.
  destruct (nth_error (heap s) tref) as [task |] eqn:Ht; [| discriminate].
  destruct (nth_error (agents s) aref) as [agent |] eqn:Ha; [| discriminate].
  simpl in Hr. inversion Hr as [Hr'].
  set (s0 := with_inflight (firstn k (inflight s) ++ skipn (S k) (inflight s)) s).
  assert (Ht0 : nth_error (heap s0) tref = Some task) by exact Ht.
  assert (Ha0 : nth_error (agents s0) aref = Some agent) by exact Ha.
  set (st := snd (executeTask_try now sh tref aref task agent r s0)).
  destruct (executeTask_try_review now sh tref aref task agent r s0 Ht0 Hr' Hf)
    as (Enone & t' & res & Et & Es & Eres & Efc & Eeb).
  fold st in Et.
  assert (E1 : s1 = cleanupTasks
                      (upd_agent aref
                         (fun a => agent_with_currentTaskId None
                                     (if AgentStatus_eqb (a_status a) Working
                                      then agent_with_status Idle a else a))
                         st)).
  { subst s1 st s0. cbn [step]. unfold settle. rewrite Hk.
    unfold executeTask. cbn [heap agents with_inflight]. rewrite Ht, Ha.
    destruct (executeTask_try now sh tref aref task agent r _)
      as [thrown s3]. cbn [fst snd] in Enone |- *. subst thrown.
    reflexivity. }
  destruct (executeTask_try_effects now sh tref aref task agent r s0 Ht0 Ha0)
    as (_ & D & S & _).
  fold st in D, S.
  assert (Eauto : (0 <? len (fst (Parser.parseFiles (m_output r))))
                  && risk_is_low (t_risk task) = false)
    by (rewrite Hr'; apply andb_false_r).
  rewrite Eauto, app_nil_r in D, S.
  assert (Hheap1 : nth_error (heap s1) tref = Some t').
  { rewrite E1, cleanupTasks_heap. exact Et. }
  assert (Hd1 : disk s1 = disk s).
  { rewrite E1. destruct (cleanupTasks_frame
                            (upd_agent aref
                               (fun a => agent_with_currentTaskId None
                                  (if AgentStatus_eqb (a_status a) Working
                                   then agent_with_status Idle a else a)) st))
      as (_ & -> & _). exact D. }
  assert (Hs1 : shell s1 = shell s).
  { rewrite E1. destruct (cleanupTasks_frame
                            (upd_agent aref
                               (fun a => agent_with_currentTaskId None
                                  (if AgentStatus_eqb (a_status a) Working
                                   then agent_with_status Idle a else a)) st))
      as (_ & _ & -> & _). exact S. }
  assert (Hroot : PROJECT_ROOT s1 = PROJECT_ROOT s).
  { rewrite E1. unfold cleanupTasks. destruct (30 <? _);
      cbn [PROJECT_ROOT with_tasks with_archivedTaskCount upd_agent with_agents];
      apply (executeTask_try_root now sh tref aref task agent r s0). }
  assert (Hin1 : In tref (tasks s1)).
  { rewrite E1. apply cleanupTasks_keeps.
    - apply ids_ok_board.
      eapply same_ids_ok; [apply same_ids_frame; reflexivity |].
      apply executeTask_try_ids_ok.
      eapply same_ids_ok; [apply same_ids_frame; reflexivity | exact Hids].
    - cbn [tasks upd_agent with_agents].
      apply executeTask_try_board. exact Hin.
    - unfold is_finished, task_status_at.
      cbn [heap upd_agent with_agents]. rewrite Et. simpl. now rewrite Es. }
  pose proof (find_task_ids_ok s1 tref Hids1 Hin1) as Hfind.
  destruct (approveTask_effects now' sh' (task_name tref) s1 tref t' res _ _
              Hfind Hheap1 Eres Efc Hf Eeb) as (D2 & S2 & T2).
  rewrite Hroot, Hd1 in D2. rewrite Hroot, Hs1 in S2.
  rewrite Hroot, Es in T2. unfold commands_applied in S2.
  split; [unfold task_status_at; rewrite Hheap1; simpl; now rewrite Es |].
  split; [exact Hd1 |]. split; [exact Hs1 |].
  subst s2. cbn [step handleCommand].
  split; [exact D2 |]. split; [exact S2 |].
  split; [rewrite T2; subst root files blocks;
          destruct (apply_error _ _ _ _); reflexivity |].
  intros Hn. subst root files blocks. unfold apply_error in Hn.
  rewrite D2, S2.
  destruct (write_refusal sh' (PROJECT_ROOT s)
              (fst (Parser.parseFiles (m_output r)))) eqn:Ew; [discriminate |].
  rewrite (granted_all _ _ _ Ew), (reached_all _ _ _ Hn). auto.
Qed.

Lemma review_then_approve_witness :
  let s := run_events guarded_events Scenario.start in
  let s1 := step s (ModelSettles 5 Scenario.sh 0 Waiting.answer) in
  let s2 := step s1 (ClientCommand 7 Scenario.sh (CmdApproveTask "TASK-001")) in
  let s3 := step s1 (ClientCommand 7 Refusing.read_only
                                   (CmdApproveTask "TASK-001")) in
  nth_error (inflight s) 0 = Some (0%nat, 0%nat)
  /\ task_status_at s1 0 = Some Review
  /\ disk s1 = [] /\ shell s1 = []
  /\ disk s2 = [("/srv/app/workspace/app.js", "x")]
  /\ shell s2 = [("/srv/app/workspace", "npm install")]
  /\ task_status_at s2 0 = Some Completed
  /\ disk s3 = [] /\ shell s3 = [] /\ task_status_at s3 0 = Some Review.
Proof.
  intros s s1 s2 s3.
  assert (H1 : nth_error (inflight s) 0 = Some (0%nat, 0%nat))
    by (vm_compute; reflexivity).
  assert (H2 : In 0%nat (tasks s)) by (vm_compute; left; reflexivity).
  assert (H3 : risk_at s 0 = Some HighRisk) by (vm_compute; reflexivity).
  assert (H4 : fst (Parser.parseFiles
                      (m_output (mkModelResult Scenario.reviewed_output 100)))
               <> []) by (vm_compute; discriminate).
  split; [exact H1 |].
  destruct (review_then_approve "/srv/app" (fun _ => None) 0
              (map Scenario.config ["a1"; "a2"; "a3"; "a4"; "a5"; "a6"]) [] []
              guarded_events 0 0 0 5 7 Scenario.sh Scenario.sh
              (mkModelResult Scenario.reviewed_output 100) H1 H2 H3 H4)
    as (R1 & D1 & S1 & D2 & S2 & T2 & _).
  destruct (review_then_approve "/srv/app" (fun _ => None) 0
              (map Scenario.config ["a1"; "a2"; "a3"; "a4"; "a5"; "a6"]) [] []
              guarded_events 0 0 0 5 7 Scenario.sh Refusing.read_only
              (mkModelResult Scenario.reviewed_output 100) H1 H2 H3 H4)
    as (_ & _ & _ & D3 & S3 & T3 & _).
  split; [exact R1 |]. split; [exact D1 |]. split; [exact S1 |].
  split; [exact D2 |]. split; [exact S2 |]. split; [exact T2 |].
  split; [exact D3 |]. split; [exact S3 | exact T3].
Defined.

(** ** What the parsers need *)

Lemma begins_Cat (p : string) (b : Regex.regex) :
  begins_with (Regex.Cat (Regex.Lit p) b) p.
Proof.
  intros w M. inversion M as [| | a b' w1 w2 M1 M2 | | | | | |]; subst.
  inversion M1; subst. eauto.
Qed.

Lemma ends_Lit (q : string) : ends_with (Regex.Lit q) q.
Proof. intros w M. inversion M; subst. now exists []. Qed.

Lemma ends_Cat (a b : Regex.regex) (q : string) :
  ends_with b q -> ends_with (Regex.Cat a b) q.
Proof.
  intros H w M. inversion M as [| | a' b' w1 w2 M1 M2 | | | | | |]; subst.
  destruct (H _ M2) as [m ->]. exists (w1 ++ m). now rewrite app_assoc.
Qed.

(** A pattern between two markers finds nothing in a text that lacks one
    of them. *)
Lemma matchAll_needs_markers (r : Regex.regex) (p q : string)
      (s : list ascii) :
  begins_with r p -> ends_with r q ->
  Text.includes_chars s (Text.chars p) = false
  \/ Text.includes_chars s (Text.chars q) = false ->
  Regex.matchAll r s = ([], s).
Proof.
  intros Hb He Hn. unfold Regex.matchAll.
  destruct (Regex.scan (S (List.length s)) r s) as [hs tail] eqn:E.
  apply scan_sound in E. destruct E as [Es F].
  destruct hs as [| h hs].
  - unfold rebuild in Es. simpl in Es. now subst tail.
  - exfalso. inversion F as [| ? ? Mh _]; subst.
    unfold rebuild in Hn. cbn [map List.concat] in Hn.
    destruct Hn as [Hn | Hn].
    + destruct (Hb _ Mh) as [m Em]. rewrite Em in Hn.
      rewrite <- !app_assoc, includes_chars_app in Hn. discriminate.
    + destruct (He _ Mh) as [m Em]. rewrite Em in Hn.
      rewrite <- !app_assoc in Hn. rewrite (app_assoc (Regex.gap h) m) in Hn.
      rewrite includes_chars_app in Hn. discriminate.
Qed.

(** X26. The parsers find nothing without both markers of a block: an
    output that lacks [===FILE===] or [===END_FILE===] yields no file, and
    its explanation is the whole output, trimmed and with blank lines
    collapsed; an output that lacks [===SUBTASK===] or [===END_SUBTASK===]
    yields no subtask; an output that lacks [===EXEC===] or [===END_EXEC===]
    yields no command. *)
Theorem parsers_need_markers (output : string) :
  (Text.includes output "===FILE===" = false
   \/ Text.includes output "===END_FILE===" = false ->
   Parser.parseFiles output = ([], Text.str (tidy (Text.chars output))))
  /\ (Text.includes output "===SUBTASK===" = false
      \/ Text.includes output "===END_SUBTASK===" = false ->
      Parser.parseSubtasks output = [])
  /\ (Text.includes output "===EXEC===" = false
      \/ Text.includes output "===END_EXEC===" = false ->
      Parser.parseExecBlocks output = []).
Proof.
  unfold Text.includes. split; [| split]; intros H.
  - unfold Parser.parseFiles, Parser.explanation_chars, Regex.remove_all, tidy.
    rewrite (matchAll_needs_markers Parser.fileRegex "===FILE==="
               "===END_FILE===" _).
    + reflexivity.
    + apply begins_Cat.
    + unfold Parser.fileRegex. cbn [Parser.cat].
      repeat apply ends_Cat. apply ends_Lit.
    + exact H.
  - unfold Parser.parseSubtasks.
    rewrite (matchAll_needs_markers Parser.subtaskRegex "===SUBTASK==="
               "===END_SUBTASK===" _).
    + reflexivity.
    + apply begins_Cat.
    + unfold Parser.subtaskRegex. cbn [Parser.cat].
      repeat apply ends_Cat. apply ends_Lit.
    + exact H.
  - unfold Parser.parseExecBlocks.
    rewrite (matchAll_needs_markers Parser.execRegex "===EXEC==="
               "===END_EXEC===" _).
    + reflexivity.
    + apply begins_Cat.
    + unfold Parser.execRegex. cbn [Parser.cat].
      repeat apply ends_Cat. apply ends_Lit.
    + exact H.
Qed.

Lemma parsers_need_markers_witness :
  Text.includes Scenario.chatty_output "===FILE===" = false
  /\ fst (Parser.parseFiles Scenario.chatty_output) = [].
Proof.
  assert (H : Text.includes Scenario.chatty_output "===FILE===" = false)
    by (vm_compute; reflexivity).
  split; [exact H |].
  rewrite (proj1 (parsers_need_markers Scenario.chatty_output) (or_introl H)).
  reflexivity.
Defined.

(** *** The bookkeeping of the agents *)

Lemma Forall_update_nth {A : Type} (P : A -> Prop) (i : nat) (f : A -> A)
      (l : list A) :
  Forall P l -> (forall a, P a -> P (f a)) -> Forall P (Js.update_nth i f l).
Proof.
  intros H Hf. revert i. induction H as [| x l Hx Hl IH]; intros [| i]; simpl;
    constructor; auto.
Qed.

Lemma launch_agents_ok (now : Z) (x : nat) (s : State) :
  Forall agent_ok (agents s) -> Forall agent_ok (agents (launch now x s)).
Proof.
  intros H. unfold launch.
  destruct (nth_error (heap s) x) as [task |]; [| exact H].
  pose proof (pickAgent_state (t_preferredAgentId task) (t_title task)
                              (t_description task) s) as St.
  destruct (pickAgent _ _ _ s) as [picked s1]. cbn [snd] in St.
  assert (Ea : agents s1 = agents s) by (destruct St as [-> | [e ->]]; reflexivity).
  destruct picked as [aref |]; [| now rewrite Ea].
  cbn [agents with_inflight addActivity with_activity upd_task with_heap
       upd_agent with_agents].
  rewrite Ea. apply Forall_update_nth; [exact H |].
  intros a (E & M & X & L & _ & _). unfold agent_ok. cbn.
  refine (conj E (conj M (conj X (conj L (conj _ _)))));
    [discriminate | split; [discriminate | reflexivity]].
Qed.

Lemma runDispatch_agents_ok (now : Z) (s : State) :
  Forall agent_ok (agents s) -> Forall agent_ok (agents (runDispatch now s)).
Proof.
  unfold runDispatch. generalize (filter (is_pending s) (tasks s)).
  intros l. revert s. induction l as [| x l IH]; intros s H; cbn [fold_left].
  - exact H.
  - apply IH. now apply launch_agents_ok.
Qed.

Lemma createTask_agents_ok (now : Z) (title description : string)
      (pref : option string) (s : State) :
  Forall agent_ok (agents s) ->
  Forall agent_ok (agents (snd (createTask now title description pref s))).
Proof.
  intros H. unfold createTask. cbn [snd]. apply runDispatch_agents_ok. exact H.
Qed.

Lemma spawn_subtasks_agents_ok (now : Z) (tref : nat) (agent : Agent)
      (subtasks : list Subtask) (s : State) :
  Forall agent_ok (agents s) ->
  Forall agent_ok (agents (spawn_subtasks now tref agent subtasks s)).
Proof.
  unfold spawn_subtasks. destruct (_ && _); [| auto].
  revert s. induction subtasks as [| sub subs IH]; intros s H; cbn [fold_left].
  - exact H.
  - apply IH. unfold spawn.
    pose proof (createTask_agents_ok now (sub_title sub) (sub_description sub)
                  (Some (if String.eqb (sub_agent sub) "auto" then "auto"
                         else sub_agent sub)) s H) as C.
    destruct (createTask _ _ _ _ s) as [child s1]. exact C.
Qed.

Lemma agent_after_call_ok (tokensUsed : Z) (a : Agent) :
  0 <= tokensUsed -> agent_ok a -> agent_ok (agent_after_call tokensUsed a).
Proof.
  intros Ht (E & M & X & L & S & C). unfold agent_ok, agent_after_call.
  cbn [a_energy a_maxEnergy a_xp a_level a_status a_currentTaskId].
  assert (Hc : 0 <= ceil_div tokensUsed 1000).
  { unfold ceil_div.
    assert (- tokensUsed / 1000 <= 0)
      by (apply Z.div_le_upper_bound; lia). lia. }
  assert (Hx : 0 <= tokensUsed / 100) by (apply Z.div_pos; lia).
  repeat split; try lia; try tauto.
Qed.

Lemma released_ok (a : Agent) :
  0 <= a_energy a <= a_maxEnergy a /\ a_maxEnergy a = 100
  /\ 0 <= a_xp a /\ a_level a = a_xp a / 300 + 1 /\ a_status a <> Errored ->
  agent_ok (agent_with_currentTaskId None
              (if AgentStatus_eqb (a_status a) Working
               then agent_with_status Idle a else a)).
Proof.
  intros (E & M & X & L & S). unfold agent_ok.
  destruct (a_status a) eqn:Es; cbn; rewrite ?Es;
    (refine (conj E (conj M (conj X (conj L (conj _ _)))));
     [first [discriminate | exact S]
     | split; [discriminate | intros Hc; exfalso; apply Hc; reflexivity]]).
Qed.

Lemma executeTask_agents_ok (now : Z) (sh : Shell) (tref aref : nat)
      (outcome : ModelOutcome) (s : State) :
  match outcome with Resolved r => 0 <= m_tokensUsed r | Rejected _ => True end ->
  Forall agent_ok (agents s) ->
  Forall agent_ok (agents (executeTask now sh tref aref outcome s)).
Proof.
  intros Hs H. unfold executeTask.
  destruct (nth_error (heap s) tref) as [task |]; [| exact H].
  destruct (nth_error (agents s) aref) as [agent |]; [| exact H].
  unfold executeTask_finally.
  match goal with
  | |- context [cleanupTasks ?s1] =>
      destruct (cleanupTasks_frame s1) as (-> & _)
  end.
  cbn [agents upd_agent with_agents].
  assert (Hc : forall err s1,
             Forall agent_ok (agents s1) ->
             Forall agent_ok
               (update_nth aref
                  (fun a => agent_with_currentTaskId None
                              (if AgentStatus_eqb (a_status a) Working
                               then agent_with_status Idle a else a))
                  (agents (executeTask_catch now tref aref task agent err
                                             s1)))).
  { intros err s1 H1. unfold executeTask_catch. cbv zeta.
    destruct (status_is err 429);
      cbn [agents addActivity with_activity with_performanceLog upd_task
           with_heap upd_agent with_agents];
      rewrite ?update_nth_twice; (apply Forall_update_nth; [exact H1 |]);
      intros a (E & M & X & L & S & _); apply released_ok; cbn;
      repeat (split; [assumption || discriminate |]);
      assumption || discriminate. }
  destruct outcome as [r | err]; [| now apply Hc].
  assert (Ht : Forall agent_ok
                 (agents (snd (executeTask_try now sh tref aref task agent r
                                               s)))).
  { unfold executeTask_try.
    destruct (Parser.parseFiles (m_output r)) as [files explanation].
    cbv zeta.
    match goal with
    | |- context [apply_output now sh tref task agent files ?b ?s1] =>
        destruct (apply_output_frame now sh tref task agent files b s1)
          as (_ & A & _);
        destruct (apply_output now sh tref task agent files b s1)
          as [[message |] s2]
    end; cbn [snd agents upd_task with_heap with_totalGlobalTokens upd_agent
              with_agents] in A |- *.
    - rewrite A. apply Forall_update_nth; [exact H |].
      intros a. now apply agent_after_call_ok.
    - cbn [agents addActivity with_activity].
      apply spawn_subtasks_agents_ok.
      match goal with
      | |- context [score_and_record now tref task agent r files ?b ?s2] =>
          destruct (score_and_record_effects now tref task agent r files b s2)
            as (-> & _)
      end.
      rewrite A. apply Forall_update_nth; [exact H |].
      intros a. now apply agent_after_call_ok. }
  destruct (executeTask_try now sh tref aref task agent r s)
    as [[message |] s1]; cbn [snd] in Ht.
  - now apply Hc.
  - apply Forall_update_nth; [exact Ht |].
    intros a (E & M & X & L & S & _). apply released_ok. auto.
Qed.

Lemma recharge_ok (now : Z) (a : Agent) : agent_ok a -> agent_ok (recharge now a).
Proof.
  intros (E & M & X & L & S & C). unfold agent_ok, recharge.
  destruct (a_status a) eqn:Es; cbn [AgentStatus_eqb];
    repeat (cbn [a_cooldownUntil a_status a_energy a_maxEnergy a_xp a_level
                 a_currentTaskId agent_with_energy agent_with_cooldownUntil
                 agent_with_status AgentStatus_eqb];
            rewrite ?Es);
    destruct (a_cooldownUntil a) as [u |];
    try destruct (negb (u =? 0) && (u <? now));
    repeat (cbn [a_cooldownUntil a_status a_energy a_maxEnergy a_xp a_level
                 a_currentTaskId agent_with_energy agent_with_cooldownUntil
                 agent_with_status AgentStatus_eqb];
            rewrite ?Es);
    (split; [lia |]); (split; [assumption |]); (split; [assumption |]);
    (split; [assumption |]); (split; [first [discriminate | exact S] |]);
    first [exact C
          | split; [intros Hx; discriminate Hx
                   | intros Hc; apply C in Hc; discriminate Hc]].
Qed.

Lemma resolveAgentStatus_cases (env : string -> option string)
      (config : AgentConfig) :
  resolveAgentStatus env config = Idle
  \/ resolveAgentStatus env config = Offline.
Proof.
  unfold resolveAgentStatus. destruct (_ || _); [now left |].
  destruct (c_apiKeyEnvVar config) as [v |]; [| now left].
  destruct (String.eqb v ""); [now left |].
  destruct (env v) as [key |]; [| now right].
  destruct (String.eqb key ""); [now right | now left].
Qed.

Lemma newAgent_ok (now : Z) (config : AgentConfig) (status : AgentStatus) :
  status = Idle \/ status = Offline -> agent_ok (newAgent now config status).
Proof.
  intros [-> | ->]; unfold agent_ok; cbn;
    (refine (conj _ (conj eq_refl (conj _ (conj eq_refl (conj _ _)))));
     [lia | lia | discriminate
     | split; [intros Hx; discriminate Hx
              | intros Hc; exfalso; apply Hc; reflexivity]]).
Qed.

Lemma handleCommand_agents_ok (now : Z) (sh : Shell) (msg : Command)
      (s : State) :
  Forall agent_ok (agents s) ->
  Forall agent_ok (agents (handleCommand now sh msg s)).
Proof.
  intros H. destruct msg as [title description agentId agentIds | config
                            | taskId | taskId |]; cbn [handleCommand].
  - destruct agentIds as [[| aid ids] |];
      try (now apply createTask_agents_ok).
    cbn [agents addActivity with_activity].
    generalize (aid :: ids). intros l. revert s H.
    induction l as [| x l IH]; intros s H; cbn [fold_left]; [exact H |].
    apply IH. now apply createTask_agents_ok.
  - cbn [agents addActivity with_activity with_agents].
    apply Forall_app. split; [exact H |].
    constructor; [apply newAgent_ok; now left | constructor].
  - destruct (approveTask_frame now sh taskId s) as (-> & _). exact H.
  - unfold rejectTask. destruct (find_task taskId s); exact H.
  - exact H.
Qed.

Lemma step_agents_ok (s : State) (e : Event) :
  sane_tokens e ->
  Forall agent_ok (agents s) -> Forall agent_ok (agents (step s e)).
Proof.
  intros Hs H. destruct e as [now sh msg | now title description agentId | now
                             | now | now sh k outcome]; cbn [step].
  - now apply handleCommand_agents_ok.
  - unfold postTask. destruct title as [t |]; [| exact H].
    destruct (String.eqb t ""); [exact H | now apply createTask_agents_ok].
  - now apply runDispatch_agents_ok.
  - unfold rechargeTick. cbn [agents with_agents].
    apply Forall_map. eapply Forall_impl; [| exact H].
    intros a. apply recharge_ok.
  - unfold settle.
    destruct (nth_error (inflight s) k) as [[tref aref] |]; [| exact H].
    apply executeTask_agents_ok; [| exact H].
    destruct outcome; [exact Hs | exact I].
Qed.

(** X27. The bookkeeping of the agents stays sound. As long as the model
    reports no negative number of tokens, every agent of every state the
    server reaches from start-up has an energy between 0 and its maximum of
    100, an xp that is not negative, the level [floor(xp/300) + 1], a status
    other than [error], and a current task exactly when it is working. *)
Theorem agents_stay_sound (dirname : string) (env : string -> option string)
    (now0 : Z) (configs : list AgentConfig) (memo : PerformanceLog)
    (randoms : list Q) (events : list Event) :
  Forall sane_tokens events ->
  Forall agent_ok
         (agents (run_events events
                    (boot dirname env now0 configs memo randoms))).
Proof.
  intros Hs.
  assert (H0 : Forall agent_ok
                 (agents (boot dirname env now0 configs memo randoms))).
  { cbn [agents boot]. apply Forall_map, Forall_forall. intros c _.
    apply newAgent_ok, resolveAgentStatus_cases. }
  revert H0. generalize (boot dirname env now0 configs memo randoms).
  unfold run_events. induction Hs as [| e events He Hes IH]; intros s H.
  - exact H.
  - cbn [fold_left]. apply IH. now apply step_agents_ok.
Qed.

Lemma agents_stay_sound_witness :
  Forall sane_tokens Scenario.chain
  /\ Forall agent_ok (agents (run_events Scenario.chain Scenario.start)).
Proof.
  assert (H : Forall sane_tokens Scenario.chain).
  { repeat constructor; cbn; lia. }
  split; [exact H |].
  exact (agents_stay_sound "/srv/app" (fun _ => None) 0
           (map Scenario.config ["a1"; "a2"; "a3"; "a4"; "a5"; "a6"]) [] []
           Scenario.chain H).
Defined.

(** ** What a task is created as *)

Lemma strip_starts_with (p s : list ascii) :
  match Regex.strip p s with Some _ => true | None => false end
  = Text.starts_with p s.
Proof.
  revert s. induction p as [| a p IH]; intros [| b s]; cbn; try reflexivity.
  destruct (Ascii.eqb a b); [apply IH | reflexivity].
Qed.

Lemma match_here_lits (ws : list string) (s : list ascii) :
  match Regex.match_here (Regex.alts (RL.lits ws)) s with
  | Some _ => true
  | None => false
  end
  = existsb (fun w => Text.starts_with (Text.chars w) s) ws.
Proof.
  unfold Regex.match_here.
  induction ws as [| a ws IH].
  - cbn. destruct s; reflexivity.
  - destruct ws as [| b ws].
    + cbn [RL.lits map Regex.alts Regex.run existsb].
      rewrite <- strip_starts_with, orb_false_r.
      destruct (Regex.strip (Text.chars a) s); reflexivity.
    + change (Regex.alts (RL.lits (a :: b :: ws)))
        with (Regex.Alt (Regex.Lit a) (Regex.alts (RL.lits (b :: ws)))).
      set (f := fun w => Text.starts_with (Text.chars w) s) in *.
      change (existsb f (a :: b :: ws)) with (f a || existsb f (b :: ws)).
      rewrite <- IH. subst f. cbv beta. rewrite <- strip_starts_with.
      cbn [Regex.run].
      destruct (Regex.strip (Text.chars a) s); reflexivity.
Qed.

Lemma existsb_orb {A : Type} (f g : A -> bool) (l : list A) :
  existsb (fun x => f x || g x) l = existsb f l || existsb g l.
Proof.
  induction l as [| x l IH]; [reflexivity |].
  cbn [existsb]. rewrite IH.
  destruct (f x), (g x), (existsb f l), (existsb g l); reflexivity.
Qed.

Lemma existsb_false {A : Type} (l : list A) :
  existsb (fun _ => false) l = false.
Proof. induction l; simpl; auto. Qed.

(** A pattern that is a choice of words is found exactly in the texts
    that include one of the words. *)
Lemma test_lits (ws : list string) (s : list ascii) :
  Regex.test_chars (Regex.alts (RL.lits ws)) s
  = existsb (fun w => Text.includes_chars s (Text.chars w)) ws.
Proof.
  induction s as [| c s IH].
  - change (existsb (fun w => Text.includes_chars [] (Text.chars w)) ws)
      with (existsb (fun w => Text.starts_with (Text.chars w) [] || false) ws).
    rewrite existsb_orb, existsb_false, orb_false_r, <- match_here_lits.
    cbn [Regex.test_chars].
    destruct (Regex.match_here _ []); reflexivity.
  - change (existsb (fun w => Text.includes_chars (c :: s) (Text.chars w)) ws)
      with (existsb (fun w => Text.starts_with (Text.chars w) (c :: s)
                              || Text.includes_chars s (Text.chars w)) ws).
    rewrite existsb_orb, <- IH, <- match_here_lits.
    cbn [Regex.test_chars].
    destruct (Regex.match_here _ (c :: s)); reflexivity.
Qed.

Lemma same_ids_keeps (s s' : State) : same_ids s s' -> keeps_ident s s'.
Proof. intros (_ & _ & _ & _ & H). exact H. Qed.

Lemma keeps_ident_refl (s : State) : keeps_ident s s.
Proof. intros i t H. eauto. Qed.

Lemma keeps_ident_trans (s1 s2 s3 : State) :
  keeps_ident s1 s2 -> keeps_ident s2 s3 -> keeps_ident s1 s3.
Proof.
  intros H1 H2 i t Hi. destruct (H1 _ _ Hi) as (t1 & Ht1 & E1).
  destruct (H2 _ _ Ht1) as (t2 & Ht2 & E2). exists t2. split; congruence.
Qed.

(** The task [createTask] creates, as the store holds it when [createTask]
    returns, whatever the dispatch has done with it. *)
Lemma createTask_new (now : Z) (title description : string)
      (pref : option string) (s : State) :
  keeps_ident s (snd (createTask now title description pref s))
  /\ exists t,
       nth_error (heap (snd (createTask now title description pref s)))
                 (List.length (heap s)) = Some t
       /\ ident t
          = (("TASK-" ++ padStart3 (decimal (taskCounter s + 1)))%string,
             title, description,
             (if autoApproveAll s then LowRisk
              else if Regex.test lowRiskTitle (Text.toLowerCase title)
                   then LowRisk else HighRisk),
             or_else pref "auto", RL.classifyTask title description, now).
Proof.
  unfold createTask. cbn [snd].
  match goal with
  | |- context [runDispatch now ?s1] =>
      pose proof (same_ids_keeps _ _ (runDispatch_same_ids now s1)) as K;
      set (s' := s1) in *
  end.
  split.
  - intros i t Hi. apply K. subst s'.
    cbn [heap addActivity with_activity with_tasks with_heap with_taskCounter].
    now apply nth_error_app_old.
  - destruct (K (List.length (heap s))
                (mkTask ("TASK-" ++ padStart3 (decimal (taskCounter s + 1)))
                        title description Pending
                        (if autoApproveAll s then LowRisk
                         else if Regex.test lowRiskTitle (Text.toLowerCase title)
                              then LowRisk else HighRisk)
                        Medium None "user" None 0 now None None None []
                        (RL.classifyTask title description)
                        (or_else pref "auto")))
      as (t' & Ht' & E').
    + subst s'.
      cbn [heap addActivity with_activity with_tasks with_heap
           with_taskCounter].
      rewrite nth_error_app2, Nat.sub_diag by lia. reflexivity.
    + exists t'. split; [exact Ht' | exact E'].
Qed.

(** X28. The task [createTask] returns is in the store with the next id,
    the given title and description, the preferred agent (or [auto]), the
    categories of [classifyTask] as tags and the time of creation. Its risk
    is high exactly when auto-approve is off and the lower-cased title
    includes none of the words [test], [doc], [readme], [comment], [type],
    [hello], [simple], [example]. *)
Theorem createTask_risk (now : Z) (title description : string)
    (pref : option string) (s : State) :
  exists t,
    nth_error (heap (snd (createTask now title description pref s)))
              (fst (createTask now title description pref s)) = Some t
    /\ t_id t = ("TASK-" ++ padStart3 (decimal (taskCounter s + 1)))%string
    /\ t_title t = title /\ t_description t = description
    /\ t_preferredAgentId t = or_else pref "auto"
    /\ t_tags t = RL.classifyTask title description
    /\ t_created t = now
    /\ (t_risk t = HighRisk <->
        autoApproveAll s = false
        /\ forall w, In w low_risk_words ->
             Text.includes (Text.toLowerCase title) w = false).
Proof.
  destruct (createTask_new now title description pref s) as [_ (t & Ht & E)].
  destruct (createTask_spec now title description pref s) as (-> & _).
  exists t. split; [exact Ht |].
  unfold ident in E.
  assert (E4 : t_risk t
               = if autoApproveAll s then LowRisk
                 else if Regex.test lowRiskTitle (Text.toLowerCase title)
                      then LowRisk else HighRisk) by congruence.
  repeat (split; [congruence |]).
  rewrite E4.
  assert (Hw : Regex.test lowRiskTitle (Text.toLowerCase title)
               = existsb (fun w => Text.includes (Text.toLowerCase title) w)
                         low_risk_words)
    by (unfold Regex.test, lowRiskTitle; apply test_lits).
  rewrite Hw. split.
  - intros Hr. destruct (autoApproveAll s); [discriminate |].
    split; [reflexivity |]. intros w Hin.
    destruct (Text.includes (Text.toLowerCase title) w) eqn:Ei;
      [| reflexivity].
    assert (Hex : existsb (fun w => Text.includes (Text.toLowerCase title) w)
                          low_risk_words = true)
      by (apply existsb_exists; eauto).
    rewrite Hex in Hr. discriminate.
  - intros [-> Hn].
    destruct (existsb _ low_risk_words) eqn:Hex; [| reflexivity].
    apply existsb_exists in Hex. destruct Hex as (w & Hin & Hi).
    rewrite (Hn w Hin) in Hi. discriminate.
Qed.

Lemma spawn_subtasks_keeps (now : Z) (tref : nat) (agent : Agent)
      (subtasks : list Subtask) (s : State) :
  keeps_ident s (spawn_subtasks now tref agent subtasks s).
Proof.
  unfold spawn_subtasks. destruct (_ && _); [| apply keeps_ident_refl].
  revert s. induction subtasks as [| sub subs IH]; intros s; cbn [fold_left].
  - apply keeps_ident_refl.
  - eapply keeps_ident_trans; [| apply IH]. unfold spawn.
    pose proof (createTask_new now (sub_title sub) (sub_description sub)
                  (Some (if String.eqb (sub_agent sub) "auto" then "auto"
                         else sub_agent sub)) s) as [K _].
    destruct (createTask _ _ _ _ s) as [child s1]. cbn [snd] in K.
    eapply keeps_ident_trans; [exact K |].
    apply same_ids_keeps.
    eapply same_ids_trans;
      [apply upd_task_same_ids | apply same_ids_frame; reflexivity].
    intros t. reflexivity.
Qed.

Lemma executeTask_keeps (now : Z) (sh : Shell) (tref aref : nat)
      (outcome : ModelOutcome) (s : State) :
  keeps_ident s (executeTask now sh tref aref outcome s).
Proof.
  unfold executeTask.
  destruct (nth_error (heap s) tref) as [task |]; [| apply keeps_ident_refl].
  destruct (nth_error (agents s) aref) as [agent |]; [| apply keeps_ident_refl].
  unfold executeTask_finally.
  assert (Hc : forall err s1,
             keeps_ident s1 (executeTask_catch now tref aref task agent err
                                               s1)).
  { intros err s1. apply same_ids_keeps. unfold executeTask_catch. cbv zeta.
    destruct (status_is err 429);
      (eapply same_ids_update; [cbn; reflexivity | reflexivity ..]). }
  assert (Ht : forall r,
             keeps_ident s (snd (executeTask_try now sh tref aref task agent r
                                                 s))).
  { intros r. unfold executeTask_try.
    destruct (Parser.parseFiles (m_output r)) as [files explanation].
    cbv zeta.
    match goal with
    | |- context [apply_output now sh tref task agent files ?b ?s1] =>
        assert (A : same_ids s (snd (apply_output now sh tref task agent files
                                                  b s1)));
        [| destruct (apply_output now sh tref task agent files b s1)
             as [[message |] s2]; cbn [snd] in A |- *;
           [apply same_ids_keeps, A |]]
    end.
    { eapply same_ids_trans; [| apply apply_output_same_ids].
      eapply same_ids_update; [cbn; reflexivity | reflexivity ..]. }
    match goal with
    | |- keeps_ident s (addActivity _ _ _ (spawn_subtasks _ _ _ ?subs ?s3)) =>
        apply (keeps_ident_trans s s3);
        [| eapply keeps_ident_trans;
           [apply spawn_subtasks_keeps
           | apply same_ids_keeps, same_ids_frame; reflexivity]]
    end.
    apply same_ids_keeps.
    match goal with
    | |- same_ids s (score_and_record _ _ _ _ _ _ _ ?s2) =>
        apply (same_ids_trans s s2);
        [| unfold score_and_record;
           eapply same_ids_update; [cbn; reflexivity | reflexivity ..]]
    end.
    exact A. }
  intros i t Hi. rewrite cleanupTasks_heap. cbn [heap upd_agent with_agents].
  destruct outcome as [r | err]; [| now apply Hc].
  specialize (Ht r).
  destruct (executeTask_try now sh tref aref task agent r s)
    as [[message |] s1]; cbn [snd] in Ht.
  - apply (keeps_ident_trans s s1 _ Ht (Hc _ _)). exact Hi.
  - now apply Ht.
Qed.

Lemma createTask_keeps (now : Z) (title description : string)
      (pref : option string) (s : State) :
  keeps_ident s (snd (createTask now title description pref s)).
Proof. apply createTask_new. Qed.

Lemma step_keeps (s : State) (e : Event) : keeps_ident s (step s e).
Proof.
  destruct e as [now sh msg | now title description agentId | now
                | now | now sh k outcome]; cbn [step].
  - destruct msg as [title description agentId agentIds | config
                    | taskId | taskId |]; cbn [handleCommand].
    + destruct agentIds as [[| aid ids] |]; try apply createTask_keeps.
      match goal with
      | |- keeps_ident s (addActivity _ _ _ ?s1) =>
          apply (keeps_ident_trans s s1);
          [| apply same_ids_keeps, same_ids_frame; reflexivity]
      end.
      generalize (aid :: ids). intros l. revert s.
      induction l as [| x l IH]; intros s; cbn [fold_left].
      * apply keeps_ident_refl.
      * eapply keeps_ident_trans; [apply createTask_keeps | apply IH].
    + apply same_ids_keeps, same_ids_frame; reflexivity.
    + apply same_ids_keeps, approveTask_same_ids.
    + apply same_ids_keeps. unfold rejectTask.
      destruct (find_task taskId s) as [tref |].
      * eapply same_ids_update; [cbn; reflexivity | reflexivity ..].
      * apply same_ids_frame; reflexivity.
    + apply same_ids_keeps, same_ids_frame; reflexivity.
  - unfold postTask. destruct title as [t |]; [| apply keeps_ident_refl].
    destruct (String.eqb t ""); [apply keeps_ident_refl |].
    apply createTask_keeps.
  - apply same_ids_keeps, runDispatch_same_ids.
  - apply same_ids_keeps, same_ids_frame; reflexivity.
  - unfold settle.
    destruct (nth_error (inflight s) k) as [[tref aref] |];
      [| apply keeps_ident_refl].
    eapply keeps_ident_trans; [| apply executeTask_keeps].
    apply same_ids_keeps, same_ids_frame; reflexivity.
Qed.

(** X29. A task stays what it was created as: whatever happens to the
    server afterwards (commands, dispatches, executions, approvals,
    rejections, a toggle of auto-approve), a task of the store keeps its
    place, its id, title, description, risk, preferred agent, tags and time
    of creation. *)
Theorem task_identity_fixed (events : list Event) (s : State) (i : nat)
    (t : Task) :
  nth_error (heap s) i = Some t ->
  exists t',
    nth_error (heap (run_events events s)) i = Some t'
    /\ t_id t' = t_id t /\ t_title t' = t_title t
    /\ t_description t' = t_description t /\ t_risk t' = t_risk t
    /\ t_preferredAgentId t' = t_preferredAgentId t
    /\ t_tags t' = t_tags t /\ t_created t' = t_created t.
Proof.
  intros H.
  assert (K : keeps_ident s (run_events events s)).
  { unfold run_events. clear H. revert s.
    induction events as [| e events IH]; intros s; cbn [fold_left].
    - apply keeps_ident_refl.
    - eapply keeps_ident_trans; [apply step_keeps | apply IH]. }
  destruct (K _ _ H) as (t' & Ht' & E). exists t'. split; [exact Ht' |].
  unfold ident in E. repeat split; congruence.
Qed.

Lemma task_identity_fixed_witness :
  let s := Waiting.guarded in
  let t := nth 0 (heap s) (Sample.task_in Pending) in
  let s' := run_events [ClientCommand 3 Scenario.sh CmdToggleAutoApprove;
                        ModelSettles 5 Scenario.sh 0 Waiting.answer] s in
  nth_error (heap s) 0 = Some t
  /\ exists t', nth_error (heap s') 0 = Some t' /\ t_risk t' = HighRisk.
Proof.
  intros s t s'.
  assert (H : nth_error (heap s) 0 = Some t) by (vm_compute; reflexivity).
  split; [exact H |].
  destruct (task_identity_fixed
              [ClientCommand 3 Scenario.sh CmdToggleAutoApprove;
               ModelSettles 5 Scenario.sh 0 Waiting.answer] s 0 t H)
    as (t' & Ht' & _ & _ & _ & Er & _).
  exists t'. split; [exact Ht' |]. rewrite Er. vm_compute. reflexivity.
Defined.

(** ** The throttle of the state broadcasts *)

Lemma spaced_snoc (l : list Z) (x : Z) :
  Throttle.spaced l ->
  (forall b, nth_error l (List.length l - 1) = Some b -> b + 300 <= x) ->
  Throttle.spaced (l ++ [x]).
Proof.
  intros Hs Hl i a b Ha Hb.
  destruct (Nat.lt_ge_cases (S i) (List.length l)) as [Hlt | Hge].
  - rewrite nth_error_app1 in Ha, Hb by lia. eapply Hs; eauto.
  - assert (Hi : (S i < List.length (l ++ [x]))%nat)
      by (apply nth_error_Some; congruence).
    rewrite length_app in Hi. cbn [List.length] in Hi.
    assert (S i = List.length l) by lia.
    rewrite nth_error_app1 in Ha by lia.
    rewrite nth_error_app2 in Hb by lia.
    replace (S i - List.length l)%nat with 0%nat in Hb by lia.
    simpl in Hb. inversion Hb; subst b.
    apply Hl. replace (List.length l - 1)%nat with i by lia. exact Ha.
Qed.

Lemma last_snoc (l : list Z) (x : Z) :
  nth_error (l ++ [x]) (List.length (l ++ [x]) - 1) = Some x.
Proof.
  rewrite length_app. cbn [List.length].
  rewrite nth_error_app2 by lia.
  replace (List.length l + 1 - 1 - List.length l)%nat with 0%nat by lia.
  reflexivity.
Qed.

Lemma throttle_step (t : Throttle.state) (e : Throttle.event) :
  Throttle.inv t ->
  match e with
  | Throttle.Request now now' => now <= now'
  | Throttle.Timeout now => exists due, Throttle.timer t = Some due /\ due <= now
  end ->
  Throttle.inv (Throttle.step t e).
Proof.
  intros Hi He. destruct e as [now now' | now]; cbn [Throttle.step].
  - unfold Throttle.scheduleBroadcast.
    destruct (Throttle.broadcastPending t) eqn:Ep; [exact Hi |].
    destruct Hi as (Hs & Hl & Ht).
    cbv zeta. destruct (300 <=? now - Throttle.lastBroadcastTime t) eqn:E.
    + apply Z.leb_le in E. unfold Throttle.inv, Throttle.doBroadcastState.
      cbn [Throttle.sent Throttle.lastBroadcastTime Throttle.timer
           Throttle.broadcastPending].
      split; [| split].
      * apply spaced_snoc; [exact Hs |]. intros b Hb.
        rewrite <- (Hl b Hb). lia.
      * intros b Hb. rewrite last_snoc in Hb. congruence.
      * intros due Hd. destruct (Ht due Hd) as [Hp _]. congruence.
    + unfold Throttle.inv.
      cbn [Throttle.sent Throttle.lastBroadcastTime Throttle.timer
           Throttle.broadcastPending].
      split; [exact Hs |]. split; [exact Hl |].
      intros due Hd.
      assert (due = now + (300 - (now - Throttle.lastBroadcastTime t)))
        by congruence.
      split; [reflexivity | lia].
  - destruct Hi as (Hs & Hl & Ht).
    destruct He as (due & Hd & Hle). unfold Throttle.timeout. rewrite Hd.
    destruct (Ht due Hd) as [_ ->].
    unfold Throttle.inv, Throttle.doBroadcastState.
    cbn [Throttle.sent Throttle.lastBroadcastTime Throttle.timer
         Throttle.broadcastPending].
    split; [| split].
    + apply spaced_snoc; [exact Hs |]. intros b Hb.
      rewrite <- (Hl b Hb). lia.
    + intros b Hb. rewrite last_snoc in Hb. congruence.
    + intros d [=].
Qed.

(** X30. The throttle of [scheduleBroadcast]: as long as no timer fires
    before it is due, any two consecutive broadcasts of the state are at
    least 300 ms apart, however often and whenever a broadcast is
    requested. *)
Theorem broadcasts_spaced (es : list Throttle.event) :
  Throttle.timely Throttle.init es ->
  Throttle.spaced (Throttle.sent (Throttle.run es Throttle.init)).
Proof.
  assert (H0 : Throttle.inv Throttle.init).
  { unfold Throttle.inv, Throttle.spaced. cbn. split; [| split].
    - intros [| i] a b H; discriminate.
    - intros b H. discriminate.
    - intros due H. discriminate. }
  revert H0. generalize Throttle.init. unfold Throttle.run.
  induction es as [| e es IH]; intros t Hi Ht.
  - apply Hi.
  - cbn [fold_left]. destruct Ht as [He Ht].
    apply IH; [| exact Ht]. now apply throttle_step.
Qed.

Lemma broadcasts_spaced_witness :
  let es := [Throttle.Request 1000 1000; Throttle.Request 1100 1101;
             Throttle.Request 1200 1200; Throttle.Timeout 1302;
             Throttle.Request 1400 1400] in
  Throttle.timely Throttle.init es
  /\ Throttle.sent (Throttle.run es Throttle.init) = [1000; 1302]
  /\ Throttle.spaced (Throttle.sent (Throttle.run es Throttle.init)).
Proof.
  intros es.
  assert (H : Throttle.timely Throttle.init es).
  { cbn. repeat split; try lia. exists 1300. split; [reflexivity | lia]. }
  split; [exact H |]. split; [reflexivity |].
  exact (broadcasts_spaced es H).
Defined.
